(* ===== verification/_CoqProject ===== *)
-Q . S2P
Prelude.v
Ids.v
EventLog.v
Ingress.v
Lifecycle.v
Agents.v
Units.v
Message.v
Prompt.v
Card.v
CardIdentity.v
CardIdentityFacts.v
Reducer.v
ReducerFacts.v
ReducerResume.v
ReducerLaws.v
ReducerNames.v
ReducerStatus.v
Fold.v
FoldFacts.v
FoldLanes.v
FoldBackfill.v
FoldLaws.v
FoldReaders.v
Queue.v
QueueFacts.v
QueueDelivery.v
Workflow.v
WorkflowFacts.v
Run.v
Throttling.v
ThrottlingFacts.v
ThrottlingSpec.v
ThrottlingSafety.v
ThrottlingSample.v
Transition.v
Engine.v
TransitionFacts.v
EngineFacts.v
SystemFacts.v
RunSpec.v
RunSample.v
