(* ===== verification/Prelude.v ===== *)
(** * RimZ: verification library

    RimZ runs coding agents in terminal panes and carries messages between
    them.  Its core ([src/crates/rimz/src]) is a set of files under one state
    directory, shared by short-lived processes: hooks that agents run, the
    drainer of those hooks, the command line, and the dispatcher that types
    messages into panes.  Each process takes a lock, reads files, computes new
    contents and writes them back.  This library models the computations of
    that core as pure functions on the contents of the files, and proves what
    the processes rely on.

    ** The parts and how they interact

    - A hook appends a frame to the ingress log ([store/ingress.rs]); the
      drainer reads the frames above its cursor, folds each into the record of
      an agent through the lifecycle machine ([agents/lifecycle.rs],
      [agents/state.rs]), and appends events to the event log
      ([store/event_log.rs]).
    - Readers fold the event log into one row per agent
      ([store/snapshot/project.rs]), naming and numbering the cards as they
      appear ([project/identity.rs]).  A fold persists its rows and its
      identity state with the extent of the log they reflect, and the next
      reader resumes from them ([store/snapshot/fold.rs]); rotation stages the
      rows to keep in the carryover, which lies beneath the rows of the log.
    - A sender queues a message ([store/writer/queue.rs]); the dispatcher
      claims a FIFO batch of them ([store/message.rs]), pastes it into a pane
      ([message/send.rs]), and a prompt hook that reports the pasted text
      acknowledges the batch ([store/message.rs], the header grammar).
    - Every queue operation is a transaction over the live queue, the history,
      the event log and the stamp the dispatcher wakes on.
    - A workflow is a sealed definition of steps, checks and routes
      ([harness/workflow/spec.rs], [graph.rs], [validate.rs]).  A run of it is
      a record and a journal ([store/workflow.rs]); processes that run
      [advance] ([engine.rs], [engine/agent.rs], [engine/until.rs]) and the
      commands that cancel, restart, resume and wake the run change the record
      in sections that hold the workspace lock ([state.rs], [inspect.rs]), and
      do their work between two sections: launching and stopping agent
      sessions, commands and checks.
    - A start that opens agents asks the throttle ([harness/schedule/throttle.rs],
      [throttle/limits.rs]) for the turn of the machine: every asking process
      keeps a ticket in one queue directory, and every decision is a section
      under its lock.

    ** Files of the development

    - [Prelude]: text and bytes, the string and list functions of the Rust
      standard library the sources use, orders, stable sorts, UTF-8, decimal
      and hexadecimal numerals, little-endian words, tactics and hints.
    - [Ids] ([ids.rs]): modules [ShortId] (message and ask tokens, the
      process-wide allocator, [successor]), [Uuid], [Workspace], [Team], [Mux].
    - [EventLog] ([store/event_log.rs] and its modules [frame], [recovery],
      [rotation]): modules [Frame] (magic, length, CRC,
      body), [Log] (append, replacement, scans), [Recovery], [Rotation].
    - [Ingress] ([store/ingress.rs]): the pending log, its repair, the drain
      cursor and the truncation of the drained log.
    - [Lifecycle] ([agents/lifecycle.rs]): the step function from a signal and
      a reduced state to a status and a transition, with the ignored, stale
      and superseded branches, and the remembered turn ids.
    - [Agents] ([agents/state.rs], [agents/context.rs], [agents/petname.rs]
      and neighbours): the record of an agent, its effective status, identity,
      successors and pane ownership; module [Agent].
    - [Message] ([store/message.rs]): the record with its 39 fields, the
      predicates on one record, the queue head, blockers, the batch and the
      wake stamp.
    - [Prompt] ([store/message.rs], [message/send.rs], [address.rs]): headers,
      splitting a paste into sections, aligning sections with records, and
      the paste the alignment inverts.
    - [Card] ([agents/observation.rs], [store/event.rs] and neighbours): the
      events that change rows and the [Row] itself; [CardIdentity]
      ([agents/petname.rs], [store/snapshot/project/identity.rs]): modules
      [PetNames] and [Identity], the generator of names and the allocator;
      [CardIdentityFacts]: the rules of ordinals and names ([ordinals_hold],
      [names_hold]) and that the generator ends.
    - [Reducer] ([store/snapshot/project.rs]): the row an event leaves
      ([assemble_agent_state], [assemble_launch_state]), the events on the
      map ([reduce_event]) and the loop ([reduce]); [ReducerFacts]: the launch
      identity index and what assembly keeps; [ReducerResume]: the relation
      [alike] between a fold and the same fold resumed; [ReducerLaws]: the
      theorems and a sample log.
    - [ReducerNames]: a row with an ordinal has a usable name;
      [ReducerStatus]: the status and the phase of a folded row.
    - [Fold] ([store/snapshot/fold.rs]): the carryover, the rollup, resume
      outcomes, one delta ([fold_delta]), catching up ([catch_up_from],
      [catch_up_rollup_layered]), a reader's cursor ([fold_shared]) and the
      staging of a rotation; [FoldFacts]: the merge of the two layers and
      outcomes folded in parts; [FoldLanes]: the reducer does not read the
      lane stamps; [FoldBackfill]: what is persisted of a backfill;
      [FoldLaws]: a resumed fold is the whole fold; [FoldReaders]: the system
      of readers ([step], [reachable]) and a sample workspace.
    - [Queue] ([store/writer/queue.rs], [store/message/sender_notice.rs], parts
      of [store/event.rs]): the transaction (module [Txn]), the notices, the
      commit, and every operation (module [Store]); [QueueOp] and [run] make
      the operations one step function.
    - [QueueFacts], [QueueDelivery]: the theorems about [Queue].
    - [Workflow] ([harness/workflow/spec.rs], [spec/tolerant/clean.rs],
      [graph.rs], [validate.rs]): the definition, its cleanup (module
      [Clean]), its routes and the walk over them, its validation (module
      [Validate]); [WorkflowFacts]: the theorems about them.
    - [Units] ([utils/time.rs], [utils/size.rs]): compact durations and byte
      sizes, as the configuration writes them.
    - [Run] ([store/workflow.rs]): the record of a run, its attempts, the held
      session, the journal entries, and the JSON values on the routes.
    - [Transition] ([harness/workflow/state.rs], [inspect.rs]): the methods of
      a transition, one definition each, and the bounds in time.
    - [Engine] ([harness/workflow/engine.rs], modules [Agent] and [Until] for
      [engine/agent.rs] and [engine/until.rs]): the sections of [advance] and
      of the commands, the loop of a process, and the system that interleaves
      any number of processes and commands ([system_step], [reachable]).
    - [TransitionFacts], [EngineFacts]: the invariant of the record
      ([WellFormed], [descends]) through every method and section;
      [SystemFacts]: the theorems about all reachable states; [RunSpec]: the
      abstract machine of a run and the refinement; [RunSample]: an executable
      scheduler and sample runs.
    - [Throttling] ([harness/schedule/throttle.rs], module [Limits] for
      [throttle/limits.rs], [config/throttle.rs]): tickets, holds, the sweep,
      one decision ([pass]), the capacity check, the sections of an asking
      process ([stage_step]) and the system that interleaves them;
      [ThrottlingFacts]: how a section changes the directory;
      [ThrottlingSpec]: what a turn requires; [ThrottlingSafety]: the
      invariant of all reachable systems; [ThrottlingSample]: sample starts.

    ** State, effects and errors

    State is passed explicitly.  A log is its bytes, a directory a map from
    names to files, the queue a [MessageStore], and a transaction a
    [QueueTxn] threaded through the operations as the [&mut self] of the code
    is.  Each operation runs under the lock its source takes, so an operation
    is one atomic step and a run of the system is a list of steps
    ([queue_reachable] of [QueueFacts], [reachable] of [FoldReaders], [Engine]
    and [Throttling]).  A [Result] is a [sum] or an [option] with the error of
    the source.  In [Queue], [None] is a panic, which the theorems show is
    not taken on valid stores.  A section of the workflow engine is a
    computation [M] on the [Store] of the run: it may end in an error the code
    returns or in [Panicked], the failure of an [expect] or of an index, and
    what it persisted before stays.  Between two sections of a process any
    other section may run.  Instants and durations are [Z]
    nanoseconds, with the range checks of [jiff] where the source handles their
    failure; the times of the queue are unbounded, so the panics of an
    overflowing sum are absent there.  Machine words are
    [N] or [Z] with their wrap-around or saturation written out, and sorts are
    the stable sorts of the source.

    ** Fuel

    Recursion is structural on data except where a scan walks a byte buffer.
    There the fuel is the length of the buffer, and each step of the scan
    consumes at least one byte, so it is never exhausted: the equations proved
    beside each scan do not mention it.  Chains of molt successors take more
    fuel than the records have identities, and [standing_successor_spec] shows that this
    always reaches the end of a chain or finds a cycle.  The walk over a
    workflow graph and the search for its cycles take more fuel than the graph
    has edges, and [walk_partitions_nodes] and [cycles_to_spec] show that no
    node is missed.  The engine has no fuel: its loop is a step relation.
    The generator of names tries 65 names more than are taken, and
    [assigned_name_is_free] shows that it always finds one; the search for a
    free ordinal tries one more than are held.

    ** What is a parameter

    Code outside the repository is an argument: [serde_json] (class [Json]
    with the laws [JsonLaws]), [crc32fast] ([Crc32], [Crc32Laws]), SHA-256,
    environment variables ([Env]), the rendering of times ([TimeDisplay]).
    So are the table of provider specifications and the reply handles that
    the address book gives to senders, the default context window of a kind, the
    registered kinds and the digest minted names come from.  The fold of the
    log takes the decoding of an envelope into an event, and its staging the
    liveness of an owner.  The workflow definitions take the
    validators of files, profiles and conditions ([Validators]) and the
    reading of instants ([Rfc3339]), the throttle the texts of agent handles
    and of floating point numbers ([Rendering]) and the readings of the
    machine ([Host]); a section takes what it reads from
    outside ([Engine.Env]): clocks, the process table, the host of agent
    sessions, the throttle, and the results of checks and commands.  The witnesses
    instantiate every parameter a theorem constrains.

    ** What the theorems show

    - Queue: on every store the operations reach (a record put in being open)
      the live queue is sorted by distinct ids and open and the history is
      closed; the wake stamp is current unless a write of it failed, and then
      the next change of the queue repairs it.  While the history takes its
      appends, every operation carries each live message over as the same
      message, or closes it in the history with its event, up to the record
      the caller refiles or the boundary asks for, and one loss:
      [tail_overwrites_other_card] proves that a follow-up queued at the tail
      destroys the message of another card whenever the successor id it
      computes is live there ([tail_collision]).  A closed message never comes
      back; a record that carries a claim is returned by no other claim until
      its lifetime ends, and a stale claim changes nothing; a paste that is
      reported back closes exactly its batch; an expired claim is settled by
      reconciliation (wrap-up prompts are canceled, the others queued again or
      abandoned at the cap) and commands are not typed twice; senders are told
      of messages that timed out.
    - Delivery: a batch starts at its target exactly when the target may head
      one ([heads]) and is the FIFO prefix the gates allow; the wake stamp is
      early enough for every record that waits behind no older head of its
      card, and every chain of waiting records ends at such a one; a paste
      splits back into the batch it was made of.
    - Logs: frames round-trip, a torn append leaves the valid prefix readable,
      repair keeps exactly that prefix, incremental reads agree with full
      reads, rotation and pruning lose no young archive, the drain cursor
      survives appends, repair and truncation.
    - Agents: in every row of a fold the turn phase is non-idle exactly while
      the row runs ([folded_status_agrees], state snapshots and cache pings
      included); signals for closed or superseded turns are inert on the bare
      machine of [step]; projections of a record agree with each other; orders
      are total and searches terminate.
    - The fold of the log, for the logs [cold_log] describes (a cold start,
      tidy events, ordinals within [u32]): folding a delta onto the persisted
      prefix is folding the whole log; no two cards of a kind
      share an ordinal and no two root cards a name; the launch index answers
      what a scan of the rows answers; every card gets a valid free name.
      [tidy] excludes a child's event on a row that is no child, which frees
      the name of a root card, and a launch seen again after its placeholder
      was adopted under another name, which the persisted state has forgotten
      ([adopted_launch_returns]).
    - The rollup: catching up from a persisted fold is folding the whole log,
      rebirths, outcomes and errors included, when no rows are carried over
      and the log is orderly ([warm_fold_is_cold_fold]); on a workspace that
      stays so at every append and replacement ([sound]), whatever readers
      published, held or lost before, each answers with the fold of the log it
      finds ([every_reader_sees_the_log]); the rollup lists every agent once, its
      newest row.  With carried rows the two folds may differ, since a fold
      takes a carried row in with the delta that mentions it, so the theorems
      state that none are carried.
    - Workflows: in an admitted definition every route resolves and every
      cycle is bounded or waits, the cycle search is exact, and the walk lists
      every node once, a hung step right below its check and the others in the
      reverse postorder of the search.
      In every state a run reaches, under any interleaving, its record is well
      formed, its visits are within their bounds and its nodes are on its
      routes; no section panics, and a cancel panics in exactly one case
      ([cancel_panics_iff]); a run refines an abstract machine in which an
      attempt is born once, ends at most once and is gone for good, and an
      ended run is final.
    - The throttle: over every interleaving of asking processes, reports,
      crashes and reaps one turn of the machine is held at a time and a live
      process never loses its ticket; one decision lets a start pass exactly
      within the limits and without a fresh hold of the machine, never
      overtaking an earlier one that it competes with, and a start gives up at
      its deadline; every decision that sweeps, and every reap, drops the
      tickets of dead processes, and the sweep those of launches reported long
      ago, so a turn cannot be held for ever.
    - Identifiers: tokens increase and parse back, workspace directory names
      determine their workspace.

    ** What is not modelled

    Process control, terminals, multiplexers, provider formats, rendering and
    configuration are effects or formats of other programs.  File writes are
    atomic replacements or appends that can tear at any byte; locks are taken
    as exclusive; the disk otherwise returns what was written.  Of the
    workflow engine, paths, digests, commit heads, costs, prompt composition,
    the composition of the request to the throttle, the subscriptions of signals and the parsing
    of the journal are left out, and the refusals of commands do not name the
    run.  Of a row,
    the sidecars that later joins fill are left out.  Also outside the
    library: the assembly of the snapshot from rows, panes and processes, the
    schedules and budgets of the harness, resolution of addresses, the
    decisions of dispatch, and the presence policy. *)

From Stdlib Require Import Ascii String.
From Stdlib Require Export ZArith NArith Lia.
From stdpp Require Export strings gmap sorting base numbers option list.

#[export] Set Default Goal Selector "!".

(** ** Characters, text and bytes

    A Rust [String] is modelled by its Unicode scalar values and a byte
    buffer by its octets; both are lists of [N], so an ASCII literal [str s]
    serves for either. *)

Abbreviation char := N (only parsing).
Abbreviation text := (list N).
Abbreviation bytes := (list N).

Fixpoint str (s : string) : text :=
  match s with
  | EmptyString => []
  | String a s' => N_of_ascii a :: str s'
  end.

(** [char::is_ascii_digit], [is_ascii_uppercase], [is_ascii_lowercase]. *)
Definition is_ascii_digit (c : char) : bool := (48 <=? c)%N && (c <=? 57)%N.
Definition is_ascii_uppercase (c : char) : bool := (65 <=? c)%N && (c <=? 90)%N.
Definition is_ascii_lowercase (c : char) : bool := (97 <=? c)%N && (c <=? 122)%N.
Definition is_ascii_alphanumeric (c : char) : bool :=
  is_ascii_digit c || is_ascii_uppercase c || is_ascii_lowercase c.

(** [to_ascii_lowercase], [to_ascii_uppercase]. *)
Definition lower_char (c : char) : char :=
  if is_ascii_uppercase c then (c + 32)%N else c.
Definition upper_char (c : char) : char :=
  if is_ascii_lowercase c then (c - 32)%N else c.
Definition to_ascii_lowercase (t : text) : text := map lower_char t.
Definition to_ascii_uppercase (t : text) : text := map upper_char t.

(** [char::is_whitespace]: the Unicode [White_Space] property. *)
Definition is_whitespace (c : char) : bool :=
  ((9 <=? c)%N && (c <=? 13)%N) || (c =? 32)%N || (c =? 133)%N || (c =? 160)%N
  || (c =? 5760)%N || ((8192 <=? c)%N && (c <=? 8202)%N) || (c =? 8232)%N
  || (c =? 8233)%N || (c =? 8239)%N || (c =? 8287)%N || (c =? 12288)%N.

(** [str::trim_start], [trim_end], [trim]. *)
Fixpoint trim_start (t : text) : text :=
  match t with
  | [] => []
  | c :: t' => if is_whitespace c then trim_start t' else t
  end.
Definition trim_end (t : text) : text := rev (trim_start (rev t)).
Definition trim (t : text) : text := trim_end (trim_start t).

Definition is_empty {A} (l : list A) : bool :=
  match l with [] => true | _ => false end.

(** [str::strip_prefix], [starts_with], [strip_suffix], [ends_with]. *)
Fixpoint strip_prefix (p t : text) : option text :=
  match p, t with
  | [], _ => Some t
  | c :: p', d :: t' => if (c =? d)%N then strip_prefix p' t' else None
  | _ :: _, [] => None
  end.
Definition starts_with (p t : text) : bool := bool_decide (is_Some (strip_prefix p t)).
Definition strip_suffix (p t : text) : option text :=
  option_map (@rev N) (strip_prefix (rev p) (rev t)).
Definition ends_with (p t : text) : bool := bool_decide (is_Some (strip_suffix p t)).

(** [str::split_once]: cut at the first occurrence of the pattern. *)
Fixpoint split_once (p t : text) : option (text * text) :=
  match strip_prefix p t with
  | Some r => Some ([], r)
  | None =>
      match t with
      | [] => None
      | c :: t' =>
          match split_once p t' with
          | Some (a, b) => Some (c :: a, b)
          | None => None
          end
      end
  end.

(** [slice::join]. *)
Fixpoint join (sep : text) (ls : list text) : text :=
  match ls with
  | [] => []
  | [l] => l
  | l :: ls' => l ++ sep ++ join sep ls'
  end.

(** [str::from_utf8]: no overlong form, no surrogate, nothing above U+10FFFF. *)
Definition utf8_cont (c : N) : bool := (128 <=? c)%N && (c <=? 191)%N.
Fixpoint utf8_valid (b : bytes) : bool :=
  match b with
  | [] => true
  | c0 :: r =>
      if (c0 <? 128)%N then utf8_valid r
      else if (194 <=? c0)%N && (c0 <=? 223)%N then
        match r with
        | c1 :: r' => utf8_cont c1 && utf8_valid r'
        | _ => false
        end
      else if (224 <=? c0)%N && (c0 <=? 239)%N then
        match r with
        | c1 :: c2 :: r' =>
            utf8_cont c1 && utf8_cont c2
            && (if (c0 =? 224)%N then (160 <=? c1)%N else true)
            && (if (c0 =? 237)%N then (c1 <=? 159)%N else true)
            && utf8_valid r'
        | _ => false
        end
      else if (240 <=? c0)%N && (c0 <=? 244)%N then
        match r with
        | c1 :: c2 :: c3 :: r' =>
            utf8_cont c1 && utf8_cont c2 && utf8_cont c3
            && (if (c0 =? 240)%N then (144 <=? c1)%N else true)
            && (if (c0 =? 244)%N then (c1 <=? 143)%N else true)
            && utf8_valid r'
        | _ => false
        end
      else false
  end.

(** [BufRead::read_until]: the bytes up to and with the delimiter, the rest. *)
Fixpoint read_until (d : N) (b : bytes) : bytes * bytes :=
  match b with
  | [] => ([], [])
  | c :: r =>
      if (c =? d)%N then ([c], r)
      else let '(l, rest) := read_until d r in (c :: l, rest)
  end.

(** [Read::take] on a buffer; the count may be as large as [u64::MAX]. *)
Definition take_N {A} (n : N) (l : list A) : list A :=
  if (N.of_nat (length l) <=? n)%N then l else take (N.to_nat n) l.

(** [slice::iter().rposition]. *)
Fixpoint rposition {A} (f : A -> bool) (l : list A) : option nat :=
  match l with
  | [] => None
  | x :: l' =>
      match rposition f l' with
      | Some i => Some (S i)
      | None => if f x then Some 0 else None
      end
  end.

(** ** Machine integers *)

Definition U32_MAX : N := 4294967295.
Definition U64_MAX : N := 18446744073709551615.

Definition saturating_add_u32 (a b : N) : N := N.min (a + b) U32_MAX.
Definition saturating_add_u64 (a b : N) : N := N.min (a + b) U64_MAX.
Definition saturating_sub (a b : N) : N := (a - b)%N.
Definition wrapping_add_u32 (a b : N) : N := ((a + b) mod 4294967296)%N.
Definition wrapping_add_u64 (a b : N) : N := ((a + b) mod 18446744073709551616)%N.
Definition checked_mul_u64 (a b : N) : option N :=
  if (a * b <=? U64_MAX)%N then Some (a * b)%N else None.

(** ** Digits: printing and parsing of unsigned integers *)

(** The lower-case digit alphabet of [format!("{:x}")] and of base32hex. *)
Definition DIGITS : text := str "0123456789abcdefghijklmnopqrstuvwxyz".
Definition digit_char (d : N) : char := nth (N.to_nat d) DIGITS 0%N.

(** [char::to_digit(radix)]: both letter cases are digits. *)
Definition to_digit (radix : N) (c : char) : option N :=
  let d :=
    if is_ascii_digit c then Some (c - 48)%N
    else if is_ascii_lowercase c then Some (c - 87)%N
    else if is_ascii_uppercase c then Some (c - 55)%N
    else None in
  match d with
  | Some v => if (v <? radix)%N then Some v else None
  | None => None
  end.

(** Most significant digit first, exactly [k] digits. *)
Fixpoint fixed_digits (radix : N) (k : nat) (v : N) : text :=
  match k with
  | O => []
  | S k' =>
      digit_char ((v / radix ^ N.of_nat k') mod radix) :: fixed_digits radix k' v
  end.

(** The number of decimal digits of [v], found with [fuel] attempts. *)
Fixpoint dec_width (fuel : nat) (v : N) : nat :=
  match fuel with
  | O => 1
  | S f => if (v <? 10)%N then 1 else S (dec_width f (v / 10))
  end.

(** [u64::to_string]; [N.size_nat v] attempts reach the last digit. *)
Definition show_N (v : N) : text := fixed_digits 10 (dec_width (N.size_nat v) v) v.

Fixpoint digits_value (radix : N) (acc : N) (t : text) : option N :=
  match t with
  | [] => Some acc
  | c :: t' =>
      match to_digit radix c with
      | Some d => digits_value radix (acc * radix + d) t'
      | None => None
      end
  end.

(** [<uN as FromStr>::from_str] and [from_str_radix]: one optional leading
    [+], at least one digit, and no value above [max]. *)
Definition parse_radix (radix max : N) (t : text) : option N :=
  let body := match t with
              | 43%N :: (_ :: _) as t' => tail t
              | _ => t
              end in
  match body with
  | [] => None
  | _ =>
      match digits_value radix 0 body with
      | Some v => if (v <=? max)%N then Some v else None
      | None => None
      end
  end.
Definition parse_u64 : text -> option N := parse_radix 10 U64_MAX.
Definition parse_u8 : text -> option N := parse_radix 10 255.

(** ** Lexicographic order of texts ([str::cmp])

    Comparing scalar values orders UTF-8 strings as comparing their bytes
    does. *)

Fixpoint text_cmp (a b : text) : comparison :=
  match a, b with
  | [], [] => Eq
  | [], _ :: _ => Lt
  | _ :: _, [] => Gt
  | x :: a', y :: b' =>
      match (x ?= y)%N with
      | Eq => text_cmp a' b'
      | c => c
      end
  end.
Definition text_ltb (a b : text) : bool :=
  match text_cmp a b with Lt => true | _ => false end.
Definition text_leb (a b : text) : bool :=
  match text_cmp a b with Gt => false | _ => true end.

(** ** Options as Rust orders them: [None] below every [Some] *)

Definition omax (a b : option Z) : option Z :=
  match a, b with
  | None, o | o, None => o
  | Some x, Some y => Some (Z.max x y)
  end.

(** [Iterator::min] over the present values. *)
Definition omin (a b : option Z) : option Z :=
  match a, b with
  | None, o | o, None => o
  | Some x, Some y => Some (Z.min x y)
  end.
Definition min_of (l : list (option Z)) : option Z := foldr omin None l.

Definition is_some {A} (o : option A) : bool :=
  match o with Some _ => true | None => false end.
Definition is_none {A} (o : option A) : bool :=
  match o with Some _ => false | None => true end.

(** [Option::is_some_and], [Option::is_none_or]. *)
Definition is_some_and {A} (o : option A) (f : A -> bool) : bool :=
  match o with Some x => f x | None => false end.
Definition is_none_or {A} (o : option A) (f : A -> bool) : bool :=
  match o with Some x => f x | None => true end.

(** [Option::filter]. *)
Definition ofilter {A} (o : option A) (f : A -> bool) : option A :=
  match o with Some x => if f x then Some x else None | None => None end.

(** [Option::or]. *)
Definition or_else {A} (a b : option A) : option A :=
  match a with Some _ => a | None => b end.

(** [Option::unwrap_or]. *)
Definition unwrap_or {A} (o : option A) (d : A) : A :=
  match o with Some x => x | None => d end.

(** ** Slices and iterators *)

(** [Iterator::position]. *)
Fixpoint position {A} (f : A -> bool) (l : list A) : option nat :=
  match l with
  | [] => None
  | x :: l' => if f x then Some 0 else option_map S (position f l')
  end.

(** [Iterator::min_by] on a key: the first of the least elements. *)
Fixpoint min_by {A K} (key : A -> K) (ltb : K -> K -> bool) (l : list A) : option A :=
  match l with
  | [] => None
  | x :: l' =>
      match min_by key ltb l' with
      | Some y => if ltb (key y) (key x) then Some y else Some x
      | None => Some x
      end
  end.

(** [Iterator::max_by_key]: the last of the greatest elements. *)
Fixpoint max_by {A K} (key : A -> K) (ltb : K -> K -> bool) (l : list A) : option A :=
  match l with
  | [] => None
  | x :: l' =>
      match max_by key ltb l' with
      | Some y => if ltb (key y) (key x) then Some x else Some y
      | None => Some x
      end
  end.

(** [slice::sort_by], a stable sort. *)
Section Sort.
Context {A K : Type} (key : A -> K) (leb : K -> K -> bool).
Fixpoint insert_sorted (x : A) (l : list A) : list A :=
  match l with
  | [] => [x]
  | y :: l' => if leb (key x) (key y) then x :: l else y :: insert_sorted x l'
  end.
Definition sort_by (l : list A) : list A := foldr insert_sorted [] l.
End Sort.

(** ** Fallible code *)

Inductive result (E A : Type) : Type :=
| Ok (a : A)
| Err (e : E).
Arguments Ok {E A} a.
Arguments Err {E A} e.

Declare Scope rimz_scope.
Delimit Scope rimz_scope with rimz.
(** The [?] operator: return the error of [c], else continue with its value. *)
Notation "'let?' x := c 'in' k" :=
  (match c with Ok x => k | Err e => Err e end)
  (at level 10, x pattern, c at level 100, k at level 200) : rimz_scope.
(** [let Some(x) = c else { return d }] *)
Notation "'let!' x := c 'else' d 'in' k" :=
  (match c with Some x => k | None => d end)
  (at level 10, x pattern, c at level 100, d at level 100, k at level 200) : rimz_scope.
Open Scope rimz_scope.

(** A section that holds a lock: a computation on the state the lock guards,
    which may fail; an error keeps what was written before. *)
Definition section (S E A : Type) : Type := S -> S * result E A.
Definition ret {S E A} (a : A) : section S E A := fun st => (st, Ok a).
Definition bind {S E A B} (m : section S E A) (k : A -> section S E B) : section S E B := fun st =>
  match m st with
  | (st', Ok a) => k a st'
  | (st', Err e) => (st', Err e)
  end.
Definition lift {S E A} (f : result E A) : section S E A := fun st => (st, f).
Notation "'let*' x := c 'in' k" := (bind c (fun y => match y with x => k end))
  (at level 10, x pattern, c at level 100, k at level 200) : rimz_scope.

(** ** Record update

    [r <| p := v |>] is the record [r] with field [p] set to [v].  A record
    declares its expansion as an instance of [Eta]; the setter of each field
    is derived from it. *)
Class Eta (R : Type) := eta : R -> R.
Class Setter {R T : Type} (p : R -> T) := set_field : (T -> T) -> R -> R.
Arguments set_field {R T} p {_} f r /.

Ltac derive_setter :=
  match goal with
  | |- @Setter ?R ?T ?p =>
      let f := fresh "f" in
      let r := fresh "r" in
      refine (fun (f : T -> T) (r : R) => _);
      let t := eval hnf in (eta r) in
      match (eval pattern (p r) in t) with
      | ?h _ => let u := eval cbv beta in (h (f (p r))) in exact u
      end
  end.
#[export] Hint Extern 1 (Setter _) => derive_setter : typeclass_instances.

Notation "r <| p := v |>" := (set_field p (fun _ => v) r)
  (at level 12, left associativity, format "r  <| p  :=  v |>") : rimz_scope.

(** * Lemmas *)

(** ** Prefixes and splitting *)

Lemma strip_prefix_Some p t r : strip_prefix p t = Some r <-> t = p ++ r.
Proof.
  revert t. induction p as [|c p IH]; intros t; simpl.
  { naive_solver. }
  destruct t as [|d t]; [naive_solver|].
  destruct (N.eqb_spec c d) as [->|Hne]; [rewrite IH|]; naive_solver.
Qed.

Lemma strip_prefix_app p r : strip_prefix p (p ++ r) = Some r.
Proof. by apply strip_prefix_Some. Qed.

Lemma starts_with_true p t : starts_with p t = true <-> exists r, t = p ++ r.
Proof.
  unfold starts_with. rewrite bool_decide_eq_true.
  split; intros [r Hr]; exists r; by apply strip_prefix_Some.
Qed.

Lemma ends_with_true p t : ends_with p t = true <-> exists r, t = r ++ p.
Proof.
  unfold ends_with, strip_suffix. rewrite bool_decide_eq_true. split.
  - intros [r Hr]. destruct (strip_prefix (rev p) (rev t)) as [q|] eqn:E; [|done].
    apply strip_prefix_Some, (f_equal (@rev N)) in E. rewrite rev_app_distr, !rev_involutive in E.
    by exists (rev q).
  - intros [r ->]. rewrite rev_app_distr, strip_prefix_app. simpl. eauto.
Qed.

Lemma split_once_sound p t a b : split_once p t = Some (a, b) -> t = a ++ p ++ b.
Proof.
  revert a. induction t as [|c t IH]; intros a; simpl.
  - destruct (strip_prefix p []) eqn:E; [|done].
    intros [= <- <-]. by apply strip_prefix_Some in E.
  - destruct (strip_prefix p (c :: t)) eqn:E.
    + intros [= <- <-]. by apply strip_prefix_Some in E.
    + destruct (split_once p t) as [[a' b']|]; [|done].
      intros [= <- <-]. simpl. f_equal. by apply IH.
Qed.

(** The cut is the first occurrence: no earlier suffix starts with the pattern. *)
Lemma split_once_first p t a b a1 a2 :
  split_once p t = Some (a, b) -> a = a1 ++ a2 -> a2 <> [] ->
  starts_with p (a2 ++ p ++ b) = false.
Proof.
  revert a a1. induction t as [|c t IH]; intros a a1; simpl.
  - destruct (strip_prefix p []); [|done].
    intros [= <- <-] Ha. by destruct a1, a2.
  - destruct (strip_prefix p (c :: t)) eqn:E.
    + intros [= <- <-] Ha. by destruct a1, a2.
    + destruct (split_once p t) as [[a' b']|] eqn:E2; [|done].
      intros [= <- <-] Ha Hne. destruct a1 as [|c1 a1].
      * simpl in Ha. subst a2. simpl.
        rewrite (split_once_sound _ _ _ _ E2) in E.
        unfold starts_with. rewrite E. apply bool_decide_eq_false. by intros [??].
      * simplify_eq/=. by apply (IH _ a1 eq_refl eq_refl).
Qed.

Lemma split_once_char c t a b :
  split_once [c] t = Some (a, b) <-> t = a ++ c :: b /\ c ∉ a.
Proof.
  revert a. induction t as [|d t IH]; intros a; simpl.
  { split; [done|]. intros [H _]. by destruct a. }
  destruct (N.eqb_spec c d) as [->|Hne].
  - split.
    + intros [= <- <-]. split; [done|set_solver].
    + intros [H Hni]. destruct a; simplify_eq/=; [done|set_solver].
  - destruct (split_once [c] t) as [[a' b']|] eqn:E.
    + split.
      * intros [= <- <-]. destruct (proj1 (IH _) eq_refl) as [-> ?].
        split; [done|set_solver].
      * intros [H Hni]. destruct a as [|d' a]; simplify_eq/=.
        assert (Some (a', b') = Some (a, b)) as [= -> ->]; [|done].
        apply IH. set_solver.
    + split; [done|]. intros [H Hni]. destruct a as [|d' a]; simplify_eq/=.
      assert (None = Some (a, b)); [|done]. apply IH. set_solver.
Qed.

(** ** Lines *)

Lemma utf8_valid_ascii a b :
  Forall (fun c => (c < 128)%N) a -> utf8_valid (a ++ b) = utf8_valid b.
Proof.
  induction 1 as [|c a Hc _ IH]; [done|]. cbn [app utf8_valid].
  by rewrite (proj2 (N.ltb_lt _ _) Hc).
Qed.

Lemma read_until_app d b : let '(l, r) := read_until d b in b = l ++ r.
Proof.
  induction b as [|c b IH]; simpl; [done|]. destruct (c =? d)%N; [done|].
  destruct (read_until d b). simpl. by f_equal.
Qed.

(** A line ends at its first delimiter. *)
Lemma read_until_found d l r : d ∉ l -> read_until d (l ++ d :: r) = (l ++ [d], r).
Proof.
  induction l as [|c l IH]; simpl; intros Hd; [by rewrite N.eqb_refl|].
  destruct (N.eqb_spec c d) as [->|]; [set_solver|]. rewrite IH; [done|set_solver].
Qed.

Lemma read_until_none d b : d ∉ b -> read_until d b = (b, []).
Proof.
  induction b as [|c b IH]; simpl; intros Hd; [done|].
  destruct (N.eqb_spec c d) as [->|]; [set_solver|]. rewrite IH; [done|set_solver].
Qed.

(** Either the delimiter occurs and the line ends with it, or all is read. *)
Lemma delimiter_cases (d : N) b : (exists l r, d ∉ l /\ b = l ++ d :: r) \/ d ∉ b.
Proof.
  destruct (decide (d ∈ b)) as [H|H]; [left|by right].
  apply list_elem_of_split_l in H as (l & r & -> & Hl). by exists l, r.
Qed.

(** Induction on the lines of a buffer. *)
Lemma line_ind (P : bytes -> Prop) :
  (forall t, 10%N ∉ t -> P t) ->
  (forall l r, 10%N ∉ l -> P r -> P (l ++ 10%N :: r)) ->
  forall b, P b.
Proof.
  intros Ht Hl b. remember (length b) as n eqn:Hn. revert b Hn.
  induction (lt_wf n) as [n _ IH]. intros b ->.
  destruct (delimiter_cases 10 b) as [(l & r & Hni & ->)|Hni]; [|by apply Ht].
  apply Hl; [done|]. eapply IH; [|reflexivity]. rewrite length_app. simpl. lia.
Qed.

Lemma take_N_take {A} n (l : list A) : take_N n l = take (N.to_nat n) l.
Proof.
  unfold take_N. destruct (N.leb_spec (N.of_nat (length l)) n); [|done].
  symmetry. apply take_ge. lia.
Qed.

Lemma take_N_all {A} n (l : list A) : (N.of_nat (length l) <= n)%N -> take_N n l = l.
Proof. intros H. unfold take_N. by rewrite (proj2 (N.leb_le _ _) H). Qed.

Lemma last_snoc {A} (l : list A) x : last (l ++ [x]) = Some x.
Proof. by rewrite last_app. Qed.

(** ** Trimming *)

Definition blank (t : text) : Prop := Forall (fun c => is_whitespace c = true) t.

Lemma trim_start_blank a t : blank a -> trim_start (a ++ t) = trim_start t.
Proof. induction 1 as [|c a Hc _ IH]; simpl; [done|]. by rewrite Hc. Qed.

Lemma trim_start_head c t : is_whitespace c = false -> trim_start (c :: t) = c :: t.
Proof. simpl. by intros ->. Qed.

Lemma blank_rev t : blank t -> blank (rev t).
Proof.
  unfold blank. rewrite !Forall_forall. intros H x.
  rewrite list_elem_of_In, <-in_rev, <-list_elem_of_In. apply H.
Qed.

(** A text that is not blank has a core that starts and ends with no blank. *)
Lemma core_split t :
  trim t <> [] ->
  exists a c t' d b, t = a ++ (c :: t') ++ b /\ blank a /\ blank b
    /\ is_whitespace c = false /\ rev (c :: t') = d :: tail (rev (c :: t')) /\ is_whitespace d = false.
Proof.
  assert (Hs : forall t, exists a, t = a ++ trim_start t /\ blank a
            /\ (trim_start t = [] \/ exists c t', trim_start t = c :: t' /\ is_whitespace c = false)).
  { clear. induction t as [|c t (a & Ht & Ha & Hor)]; simpl; [exists []; split_and!; by (constructor || left)|].
    destruct (is_whitespace c) eqn:E.
    - exists (c :: a). simpl. split_and!; [by f_equal|by constructor|done].
    - exists []. split_and!; [done|constructor|right; eauto]. }
  intros Hne. unfold trim, trim_end in Hne. destruct (Hs t) as (a & Ht & Ha & Hor).
  destruct (Hs (rev (trim_start t))) as (b & Hb & Hbb & Hor2).
  destruct Hor2 as [H0|(d & u & Hd & Hdw)]; [by rewrite H0 in Hne|].
  apply (f_equal (@rev N)) in Hb. rewrite rev_involutive, rev_app_distr in Hb.
  destruct Hor as [H0|(c & t' & Hc & Hcw)]; [by rewrite H0 in Hd|].
  rewrite Hd in Hb. destruct (rev (d :: u)) as [|c' v] eqn:Ev.
  { apply (f_equal length) in Ev. rewrite length_rev in Ev. done. }
  assert (c' = c) as -> by (rewrite Hc in Hb; simpl in Hb; congruence).
  exists a, c, v, d, (rev b). split_and!; [by rewrite Ht at 1; rewrite Hb|done|by apply blank_rev|done| |done].
  by rewrite <-Ev, rev_involutive.
Qed.

Lemma trim_core a c t' d b :
  blank a -> blank b -> is_whitespace c = false -> rev (c :: t') = d :: tail (rev (c :: t')) ->
  is_whitespace d = false ->
  trim_start (a ++ (c :: t') ++ b) = (c :: t') ++ b
  /\ trim_end (a ++ (c :: t') ++ b) = a ++ (c :: t')
  /\ trim (a ++ (c :: t') ++ b) = c :: t'.
Proof.
  intros Ha Hb Hc Hd Hdw.
  assert (Hend : forall x, trim_end (x ++ (c :: t') ++ b) = x ++ (c :: t')).
  { intros x. unfold trim_end. rewrite !rev_app_distr, <-app_assoc, trim_start_blank by by apply blank_rev.
    rewrite Hd. cbn [app]. rewrite trim_start_head by done.
    rewrite app_comm_cons, <-Hd, rev_app_distr, !rev_involutive. done. }
  assert (Hst : trim_start (a ++ (c :: t') ++ b) = (c :: t') ++ b).
  { rewrite trim_start_blank by done. cbn [app]. by apply trim_start_head. }
  split_and!; [done|apply Hend|]. unfold trim. rewrite Hst. apply (Hend []).
Qed.

Section Trim.
Implicit Types (t x y : text).

Lemma trim_start_app t x : trim t <> [] -> trim_start (t ++ x) = trim_start t ++ x.
Proof.
  intros (a & c & t' & d & b & -> & Ha & Hb & Hc & Hd & Hdw)%core_split.
  rewrite <-!app_assoc. rewrite 2!(trim_start_blank a _ Ha). cbn [app].
  rewrite 2!(trim_start_head _ _ Hc). cbn [app]. by rewrite <-app_assoc.
Qed.
Lemma trim_end_app x t : trim t <> [] -> trim_end (x ++ t) = x ++ trim_end t.
Proof.
  intros (a & c & t' & d & b & -> & Ha & Hb & Hc & Hd & Hdw)%core_split.
  destruct (trim_core a c t' d b) as (_ & -> & _); [done..|].
  unfold trim_end. rewrite !rev_app_distr, <-!app_assoc, trim_start_blank by by apply blank_rev.
  rewrite Hd. cbn [app]. rewrite trim_start_head by done.
  rewrite app_comm_cons, <-Hd, !rev_app_distr, !rev_involutive. by rewrite <-app_assoc.
Qed.
Lemma trim_end_then_start t : trim_start (trim_end t) = trim t.
Proof.
  destruct (decide (trim t = [])) as [H0|Hne].
  - rewrite H0. unfold trim in H0.
    assert (Hs : trim_start t = []).
    { destruct (trim_start t) as [|c u] eqn:E; [done|]. exfalso.
      assert (Hc : is_whitespace c = false).
      { clear -E. induction t as [|e t IH]; simpl in E; [done|].
        destruct (is_whitespace e) eqn:Ee; [by apply IH|congruence]. }
      unfold trim_end in H0. apply (f_equal (@rev N)) in H0. rewrite rev_involutive in H0.
      simpl in H0. rewrite <-(app_nil_r (rev u)) in H0 at 1. clear -Hc H0.
      revert H0. generalize (rev u) as v. induction v as [|e v IH]; simpl; [by rewrite Hc|].
      destruct (is_whitespace e); [|done]. rewrite app_nil_r in *. auto. }
    assert (Hbl : blank t).
    { clear -Hs. induction t as [|e t IH]; [constructor|]. simpl in Hs.
      destruct (is_whitespace e) eqn:Ee; [|done]. constructor; [done|by apply IH]. }
    unfold trim_end. rewrite <-(app_nil_r (rev t)), trim_start_blank by by apply blank_rev. done.
  - destruct (core_split t Hne) as (a & c & t' & d & b & -> & Ha & Hb & Hc & Hd & Hdw).
    destruct (trim_core a c t' d b) as (_ & -> & ->); [done..|].
    rewrite trim_start_blank by done. by apply trim_start_head.
Qed.
Lemma trim_nonblank t : trim t <> [] -> trim_start t <> [] /\ trim_end t <> [].
Proof.
  intros Hne. destruct (core_split t Hne) as (a & c & t' & d & b & -> & Ha & Hb & Hc & Hd & Hdw).
  destruct (trim_core a c t' d b) as (-> & -> & _); [done..|]. split; [done|]. by destruct a.
Qed.
Lemma trim_of_trimmed t : trim t <> [] -> trim (trim_end t) = trim t /\ trim (trim_start t) = trim t.
Proof.
  intros Hne. destruct (core_split t Hne) as (a & c & t' & d & b & -> & Ha & Hb & Hc & Hd & Hdw).
  destruct (trim_core a c t' d b) as (-> & -> & ->); [done..|].
  pose proof (trim_core a c t' d []) as H1. pose proof (trim_core [] c t' d b) as H2.
  rewrite app_nil_r in H1. split; [apply H1|apply H2]; done || constructor.
Qed.
Lemma trim_idem_start t : trim t <> [] -> trim_start (trim_start t) = trim_start t.
Proof.
  intros Hne. destruct (core_split t Hne) as (a & c & t' & d & b & -> & Ha & Hb & Hc & Hd & Hdw).
  destruct (trim_core a c t' d b) as (-> & _); [done..|]. cbn [app]. by apply trim_start_head.
Qed.
Lemma trim_app_nonblank x t y : trim t <> [] -> trim (x ++ t ++ y) <> [].
Proof.
  intros (a & c & t' & d & b & -> & Ha & Hb & Hc & Hd & Hdw)%core_split.
  unfold trim, trim_end. intros H. apply (f_equal (@rev N)) in H. rewrite rev_involutive in H.
  assert (Hin : forall l, c ∈ l -> c ∈ trim_start l).
  { clear -Hc. induction l as [|e l IH]; [done|]. simpl. destruct (is_whitespace e) eqn:Ee; [|done].
    rewrite elem_of_cons. intros [->|?]; [congruence|auto]. }
  assert (Hc2 : c ∈ trim_start (rev (trim_start (x ++ (a ++ (c :: t') ++ b) ++ y)))).
  { apply Hin. rewrite list_elem_of_In, <-in_rev, <-list_elem_of_In. apply Hin. set_solver. }
  rewrite H in Hc2. by apply elem_of_nil in Hc2.
Qed.
End Trim.

(** ** Digits *)

Lemma to_digit_digit_char radix d :
  (d < radix)%N -> (radix <= 36)%N -> to_digit radix (digit_char d) = Some d.
Proof.
  intros Hd Hr. assert (Hd' : N.to_nat d < 36) by lia.
  assert (Hf : forallb (fun k => bool_decide (to_digit 36 (digit_char (N.of_nat k)) = Some (N.of_nat k)))
                 (seq 0 36) = true) by by vm_compute.
  rewrite forallb_forall in Hf.
  specialize (Hf (N.to_nat d) (proj2 (in_seq _ _ _) (conj (Nat.le_0_l _) Hd'))).
  rewrite N2Nat.id, bool_decide_eq_true in Hf. unfold to_digit in *.
  repeat case_match; simplify_eq; try done.
  all: rewrite ?N.ltb_ge, ?N.ltb_lt in *; lia.
Qed.

Lemma digit_char_lt d e : (d < 36)%N -> (e < 36)%N -> (d < e)%N -> (digit_char d < digit_char e)%N.
Proof.
  intros Hd He Hlt. assert (Hd' : N.to_nat d < 36) by lia. assert (He' : N.to_nat e < 36) by lia.
  assert (Hf : forallb (fun k => forallb (fun j => implb (Nat.ltb k j)
      (N.ltb (digit_char (N.of_nat k)) (digit_char (N.of_nat j)))) (seq 0 36)) (seq 0 36) = true)
    by by vm_compute.
  rewrite forallb_forall in Hf. specialize (Hf (N.to_nat d) (proj2 (in_seq _ _ _) (conj (Nat.le_0_l _) Hd'))).
  rewrite forallb_forall in Hf. specialize (Hf (N.to_nat e) (proj2 (in_seq _ _ _) (conj (Nat.le_0_l _) He'))).
  rewrite !N2Nat.id in Hf.
  destruct (Nat.ltb_spec (N.to_nat d) (N.to_nat e)); [|lia].
  simpl in Hf. by apply N.ltb_lt.
Qed.

Lemma length_fixed_digits radix k v : length (fixed_digits radix k v) = k.
Proof. induction k; simpl; congruence. Qed.

Lemma digits_value_fixed radix k v acc :
  (2 <= radix)%N -> (radix <= 36)%N ->
  digits_value radix acc (fixed_digits radix k v)
  = Some (acc * radix ^ N.of_nat k + v mod radix ^ N.of_nat k)%N.
Proof.
  intros Hr1 Hr2. revert acc. induction k as [|k IH]; intros acc.
  { simpl. f_equal. rewrite N.mod_1_r. lia. }
  cbn [fixed_digits digits_value].
  rewrite to_digit_digit_char; [|apply N.mod_lt; lia|done].
  rewrite IH. f_equal.
  rewrite Nat2N.inj_succ, N.pow_succ_r'.
  set (p := (radix ^ N.of_nat k)%N).
  assert (Hp : p <> 0%N) by (apply N.pow_nonzero; lia).
  rewrite (N.mul_comm radix p), N.Div0.mod_mul_r. nia.
Qed.

Lemma dec_width_bound fuel v :
  (v < 2 ^ N.of_nat fuel)%N -> (v < 10 ^ N.of_nat (dec_width fuel v))%N.
Proof.
  revert v. induction fuel as [|f IH]; intros v Hv.
  { simpl in *. lia. }
  cbn [dec_width]. destruct (N.ltb_spec v 10) as [H|H]; [simpl; lia|].
  rewrite Nat2N.inj_succ, N.pow_succ_r' in Hv |- *.
  assert (Hd : (v / 10 < 2 ^ N.of_nat f)%N).
  { apply N.Div0.div_lt_upper_bound. lia. }
  apply IH in Hd. pose proof (N.div_mod v 10 ltac:(lia)).
  pose proof (N.mod_lt v 10 ltac:(lia)). nia.
Qed.

Lemma size_nat_bound v : (v < 2 ^ N.of_nat (N.size_nat v))%N.
Proof.
  destruct v as [|p]; [simpl; lia|].
  change (N.size_nat (N.pos p)) with (Pos.size_nat p).
  pose proof (N.size_gt (N.pos p)) as H.
  replace (N.of_nat (Pos.size_nat p)) with (N.size (N.pos p)); [done|].
  simpl. clear H. induction p; simpl; lia.
Qed.

Lemma dec_width_pos fuel v : exists k, dec_width fuel v = S k.
Proof. destruct fuel; simpl; [eauto|]. destruct (v <? 10)%N; eauto. Qed.

Lemma digit_char_range d : (d < 36)%N -> (48 <= digit_char d /\ digit_char d <= 122)%N.
Proof.
  intros Hd. destruct (decide (d = 0)%N) as [->|H0]; [by vm_compute|].
  pose proof (digit_char_lt 0 d ltac:(lia) Hd ltac:(lia)) as H1.
  change (digit_char 0) with 48%N in H1.
  destruct (decide (d = 35)%N) as [->|H2]; [by vm_compute|].
  pose proof (digit_char_lt d 35 Hd ltac:(lia) ltac:(lia)) as H3.
  change (digit_char 35) with 122%N in H3. lia.
Qed.

Lemma fixed_digits_range radix k v c :
  (2 <= radix)%N -> (radix <= 36)%N -> c ∈ fixed_digits radix k v -> (48 <= c <= 122)%N.
Proof.
  intros Hr1 Hr2. induction k as [|k IH]; cbn [fixed_digits]; [by intros ?%elem_of_nil|].
  rewrite elem_of_cons. intros [->|H]; [|by apply IH].
  apply digit_char_range.
  pose proof (N.mod_lt (v / radix ^ N.of_nat k) radix ltac:(lia)). lia.
Qed.

(** A decimal numeral contains neither a blank nor a sign. *)
Lemma show_N_range v c : c ∈ show_N v -> (48 <= c <= 122)%N.
Proof. by apply fixed_digits_range. Qed.

Lemma parse_radix_fixed radix max k v :
  (2 <= radix)%N -> (radix <= 36)%N -> (v < radix ^ N.of_nat (S k))%N -> (v <= max)%N ->
  parse_radix radix max (fixed_digits radix (S k) v) = Some v.
Proof.
  intros Hr1 Hr2 Hv Hm. unfold parse_radix.
  pose proof (digits_value_fixed radix (S k) v 0 Hr1 Hr2) as Hd.
  rewrite N.mul_0_l, N.add_0_l, N.mod_small in Hd by done.
  assert (Hh : forall c, c ∈ fixed_digits radix (S k) v -> (48 <= c <= 122)%N)
    by (intros c; by apply fixed_digits_range).
  destruct (fixed_digits radix (S k) v) as [|c t] eqn:E; [by destruct k|].
  pose proof (Hh c ltac:(set_solver)) as Hc.
  repeat case_match; simplify_eq; try lia; rewrite ?N.leb_gt in *; congruence || lia.
Qed.

(** Printing then parsing an unsigned integer of 64 bits gives it back. *)
Lemma parse_show_u64 v : (v <= U64_MAX)%N -> parse_u64 (show_N v) = Some v.
Proof.
  intros Hv. unfold parse_u64, show_N.
  pose proof (dec_width_bound _ _ (size_nat_bound v)) as Hb.
  destruct (dec_width_pos (N.size_nat v) v) as [k Hk]. rewrite Hk in *.
  by apply parse_radix_fixed.
Qed.

(** ** Text order *)

Lemma text_cmp_refl a : text_cmp a a = Eq.
Proof. induction a; simpl; [done|]. by rewrite N.compare_refl. Qed.

Lemma text_cmp_eq a b : text_cmp a b = Eq <-> a = b.
Proof.
  split; [|intros ->; apply text_cmp_refl].
  revert b. induction a as [|x a IH]; intros [|y b]; simpl; try done.
  destruct (N.compare_spec x y); try done. intros; f_equal; auto.
Qed.

Lemma text_cmp_antisym a b : text_cmp b a = CompOpp (text_cmp a b).
Proof.
  revert b. induction a as [|x a IH]; intros [|y b]; simpl; try done.
  rewrite (N.compare_antisym x y). destruct (x ?= y)%N; simpl; auto.
Qed.

Lemma text_cmp_lt_trans a b c : text_cmp a b = Lt -> text_cmp b c = Lt -> text_cmp a c = Lt.
Proof.
  revert b c. induction a as [|x a IH]; intros [|y b] [|z c]; simpl; try done.
  destruct (N.compare_spec x y), (N.compare_spec y z); try done; intros H1 H2; subst.
  - rewrite N.compare_refl. eauto.
  - by rewrite (proj2 (N.compare_lt_iff _ _)).
  - by rewrite (proj2 (N.compare_lt_iff _ _)).
  - rewrite (proj2 (N.compare_lt_iff x z)); [done|lia].
Qed.

Lemma text_ltb_cmp a b : text_ltb a b = true <-> text_cmp a b = Lt.
Proof. unfold text_ltb. destruct (text_cmp a b); naive_solver. Qed.

Lemma text_ltb_irrefl a : text_ltb a a = false.
Proof. unfold text_ltb. by rewrite text_cmp_refl. Qed.

Lemma text_ltb_trans a b c : text_ltb a b = true -> text_ltb b c = true -> text_ltb a c = true.
Proof. rewrite !text_ltb_cmp. apply text_cmp_lt_trans. Qed.

Lemma text_leb_ltb a b : text_leb a b = negb (text_ltb b a).
Proof.
  unfold text_leb, text_ltb. rewrite (text_cmp_antisym a b).
  by destruct (text_cmp a b).
Qed.

Lemma text_ltb_total a b : a <> b -> text_ltb a b = true \/ text_ltb b a = true.
Proof.
  rewrite !text_ltb_cmp, (text_cmp_antisym a b). intros Hne.
  destruct (text_cmp a b) eqn:E; simpl; auto. by apply text_cmp_eq in E.
Qed.

#[export] Instance text_leb_trans : Transitive (fun a b => text_leb a b = true).
Proof.
  intros a b c. rewrite !text_leb_ltb, !negb_true_iff. intros H1 H2.
  destruct (text_ltb c a) eqn:E; [|done].
  destruct (decide (a = b)) as [->|Hab]; [congruence|].
  destruct (text_ltb_total _ _ Hab) as [H|H]; [|congruence].
  by rewrite (text_ltb_trans _ _ _ E H) in H2.
Qed.

#[export] Instance text_leb_total : Total (fun a b => text_leb a b = true).
Proof.
  intros a b. rewrite !text_leb_ltb, !negb_true_iff.
  destruct (text_ltb b a) eqn:E1; [|auto]. right.
  destruct (text_ltb a b) eqn:E2; [|done].
  pose proof (text_ltb_trans _ _ _ E1 E2) as H. by rewrite text_ltb_irrefl in H.
Qed.

Lemma text_leb_antisym a b : text_leb a b = true -> text_leb b a = true -> a = b.
Proof.
  rewrite !text_leb_ltb, !negb_true_iff. intros H1 H2.
  destruct (decide (a = b)) as [|Hne]; [done|].
  destruct (text_ltb_total _ _ Hne); congruence.
Qed.

Lemma text_cmp_app p a b : text_cmp (p ++ a) (p ++ b) = text_cmp a b.
Proof. induction p; simpl; [done|]. by rewrite N.compare_refl. Qed.

(** Fixed-width numerals compare as the numbers they print. *)
Lemma fixed_digits_cmp radix k u v :
  (2 <= radix)%N -> (radix <= 36)%N ->
  (u < radix ^ N.of_nat k)%N -> (v < radix ^ N.of_nat k)%N ->
  text_cmp (fixed_digits radix k u) (fixed_digits radix k v) = (u ?= v)%N.
Proof.
  intros Hr1 Hr2.
  assert (Hmod : forall k w, fixed_digits radix k (w mod radix ^ N.of_nat k) = fixed_digits radix k w).
  { clear k u v. intros k w.
    assert (Hgen : forall j, j <= k -> fixed_digits radix j (w mod radix ^ N.of_nat k) = fixed_digits radix j w).
    { induction j as [|j IH]; intros Hj; [done|]. cbn [fixed_digits]. f_equal; [|apply IH; lia]. f_equal.
      replace (N.of_nat k) with (N.of_nat j + N.of_nat (k - j))%N by lia.
      rewrite N.pow_add_r.
      set (p := (radix ^ N.of_nat j)%N). set (q := (radix ^ N.of_nat (k - j))%N).
      assert (Hp : p <> 0%N) by (apply N.pow_nonzero; lia).
      rewrite N.Div0.mod_mul_r, N.mul_comm, N.div_add by done.
      rewrite (N.div_small (w mod p)) by (by apply N.mod_lt). rewrite N.add_0_l.
      unfold q. replace (N.of_nat (k - j)) with (N.succ (N.of_nat (k - j - 1))) by lia.
      rewrite N.pow_succ_r', N.Div0.mod_mul_r.
      rewrite (N.mul_comm radix), N.Div0.mod_add. by rewrite N.Div0.mod_mod. }
    by apply Hgen. }
  revert u v. induction k as [|k IH]; intros u v Hu Hv.
  { change (N.of_nat 0) with 0%N in *. rewrite N.pow_0_r in *.
    replace u with v by (clear Hmod; lia). by rewrite N.compare_refl. }
  cbn [fixed_digits text_cmp].
  rewrite Nat2N.inj_succ, N.pow_succ_r' in Hu, Hv.
  set (p := (radix ^ N.of_nat k)%N) in *.
  assert (Hp : p <> 0%N) by (apply N.pow_nonzero; lia).
  assert (Hdu : (u / p < radix)%N) by (apply N.Div0.div_lt_upper_bound; lia).
  assert (Hdv : (v / p < radix)%N) by (apply N.Div0.div_lt_upper_bound; lia).
  rewrite !N.mod_small by done.
  rewrite <-(Hmod k u), <-(Hmod k v), IH by (apply N.mod_lt; done). fold p.
  pose proof (N.div_mod u p Hp). pose proof (N.div_mod v p Hp).
  pose proof (N.mod_lt u p Hp). pose proof (N.mod_lt v p Hp).
  destruct (N.compare_spec (u / p) (v / p)) as [E|E|E].
  - rewrite E, N.compare_refl.
    destruct (N.compare_spec (u mod p) (v mod p)); symmetry;
      [apply N.compare_eq_iff|apply N.compare_lt_iff|apply N.compare_gt_iff]; nia.
  - rewrite (proj2 (N.compare_lt_iff _ _)) by (apply digit_char_lt; lia).
    symmetry. apply N.compare_lt_iff, N.lt_nge. intros Hle.
    pose proof (N.Div0.div_le_mono _ _ p Hle). lia.
  - rewrite (proj2 (N.compare_gt_iff _ _)) by (apply digit_char_lt; lia).
    symmetry. apply N.compare_gt_iff, N.lt_nge. intros Hle.
    pose proof (N.Div0.div_le_mono _ _ p Hle). lia.
Qed.

(** ** Sorting *)

Section SortLemmas.
Context {A K : Type} (key : A -> K) (leb : K -> K -> bool).
Context {Htr : Transitive (fun a b => leb a b = true)}.
Context {Htot : Total (fun a b => leb a b = true)}.

Let le (x y : A) : Prop := leb (key x) (key y) = true.

Lemma insert_sorted_Permutation x l : insert_sorted key leb x l ≡ₚ x :: l.
Proof.
  induction l as [|y l IH]; simpl; [done|].
  destruct (leb (key x) (key y)); [done|].
  rewrite IH. apply Permutation_swap.
Qed.

Lemma sort_by_Permutation l : sort_by key leb l ≡ₚ l.
Proof.
  induction l as [|x l IH]; simpl; [done|].
  by rewrite insert_sorted_Permutation, IH.
Qed.

Lemma insert_sorted_StronglySorted x l :
  StronglySorted le l -> StronglySorted le (insert_sorted key leb x l).
Proof using Htr Htot.
  induction 1 as [|y l Hs IH Hf]; simpl; [by repeat constructor|].
  destruct (leb (key x) (key y)) eqn:E.
  - constructor; [by constructor|]. constructor; [done|].
    eapply Forall_impl; [exact Hf|]. intros z Hz. unfold le in *. by eapply Htr.
  - constructor; [done|].
    assert (Hyx : le y x).
    { unfold le. destruct (Htot (key x) (key y)) as [H|H]; [congruence|done]. }
    apply Forall_forall. intros z Hz.
    rewrite insert_sorted_Permutation, elem_of_cons in Hz.
    destruct Hz as [->|Hz]; [done|]. by eapply Forall_forall in Hf.
Qed.

Lemma sort_by_StronglySorted l : StronglySorted le (sort_by key leb l).
Proof using Htr Htot.
  induction l; simpl; [constructor|]. by apply insert_sorted_StronglySorted.
Qed.

(** Sorting a sorted list changes nothing. *)
Lemma sort_by_sorted l : StronglySorted le l -> sort_by key leb l = l.
Proof.
  induction 1 as [|x l Hs IH Hf]; simpl; [done|].
  rewrite IH. destruct l as [|y l]; simpl; [done|].
  apply Forall_cons in Hf as [Hxy _]. unfold le in Hxy. by rewrite Hxy.
Qed.
End SortLemmas.

(** ** Selection *)

Lemma position_Some {A} (f : A -> bool) l i :
  position f l = Some i <->
  exists x, l !! i = Some x /\ f x = true /\
            forall j y, j < i -> l !! j = Some y -> f y = false.
Proof.
  revert i. induction l as [|x l IH]; intros i; simpl.
  { split; [done|]. by intros (x & H & _). }
  destruct (f x) eqn:E.
  - split.
    + intros [= <-]. exists x. repeat split; auto. lia.
    + intros (y & Hy & Hf & Hall). destruct i as [|i]; [done|].
      specialize (Hall 0 x ltac:(lia) eq_refl). congruence.
  - destruct (position f l) as [k|] eqn:Ep; simpl.
    + split.
      * intros [= <-]. destruct (proj1 (IH k) eq_refl) as (y & Hy & Hf & Hall).
        exists y. repeat split; auto. intros [|j] z Hj Hz; simplify_eq/=; [done|].
        apply (Hall j); [lia|done].
      * intros (y & Hy & Hf & Hall). destruct i as [|i]; simplify_eq/=; [congruence|].
        f_equal. assert (Some k = Some i) as [= ->]; [|done].
        apply IH. exists y. repeat split; auto.
        intros j z Hj. apply (Hall (S j)). lia.
    + split; [done|]. intros (y & Hy & Hf & Hall). destruct i as [|i]; simplify_eq/=; [congruence|].
      assert (None = Some i); [|done]. apply IH. exists y. repeat split; auto.
      intros j z Hj. apply (Hall (S j)). lia.
Qed.

Lemma position_None {A} (f : A -> bool) l :
  position f l = None <-> forall x, x ∈ l -> f x = false.
Proof.
  induction l as [|x l IH]; simpl.
  { split; [|done]. intros _ x Hx. by apply elem_of_nil in Hx. }
  destruct (f x) eqn:E.
  - split; [done|]. intros H. specialize (H x ltac:(set_solver)). congruence.
  - destruct (position f l); simpl; split; try done.
    + intros H. assert (Some n = None); [|done]. apply IH. set_solver.
    + intros _ y. rewrite elem_of_cons. intros [->|Hy]; [done|]. by apply IH.
Qed.

Lemma rposition_Some {A} (f : A -> bool) l i :
  rposition f l = Some i ->
  exists x, l !! i = Some x /\ f x = true /\ forall y, y ∈ drop (S i) l -> f y = false.
Proof.
  revert i. induction l as [|x l IH]; intros i; simpl; [done|].
  destruct (rposition f l) as [k|] eqn:E.
  - intros [= <-]. destruct (IH k eq_refl) as (y & Hy & Hf & Hall). by exists y.
  - destruct (f x) eqn:Ef; [|done]. intros [= <-]. exists x. split_and!; [done|done|].
    clear IH. simpl. rewrite drop_0. induction l as [|z l IHl]; intros y; [by intros ?%elem_of_nil|].
    simpl in E. destruct (rposition f l); [done|]. destruct (f z) eqn:Ez; [done|].
    rewrite elem_of_cons. intros [->|?]; [done|]. by apply IHl.
Qed.

Lemma rposition_None {A} (f : A -> bool) l :
  rposition f l = None -> forall x, x ∈ l -> f x = false.
Proof.
  induction l as [|x l IH]; simpl; [by intros _ x ?%elem_of_nil|].
  destruct (rposition f l); [done|]. destruct (f x) eqn:E; [done|].
  intros _ y. rewrite elem_of_cons. intros [->|?]; [done|]. by apply IH.
Qed.

Section MinLemmas.
Context {A : Type} (key : A -> text).

Lemma min_by_None l : min_by key text_ltb l = None <-> l = [].
Proof.
  destruct l as [|x l]; simpl; [done|].
  destruct (min_by key text_ltb l); [|done].
  by destruct (text_ltb (key a) (key x)).
Qed.

(** The minimum is an element and no element is below it. *)
Lemma min_by_spec l x :
  min_by key text_ltb l = Some x ->
  x ∈ l /\ forall y, y ∈ l -> text_ltb (key y) (key x) = false.
Proof.
  revert x. induction l as [|a l IH]; intros x; simpl; [done|].
  destruct (min_by key text_ltb l) as [b|] eqn:E.
  - destruct (IH b eq_refl) as [Hb Hmin].
    destruct (text_ltb (key b) (key a)) eqn:Eba; intros [= <-].
    + split; [set_solver|]. intros y. rewrite elem_of_cons. intros [->|Hy]; [|auto].
      destruct (text_ltb (key a) (key b)) eqn:E2; [|done].
      pose proof (text_ltb_trans _ _ _ Eba E2) as H. by rewrite text_ltb_irrefl in H.
    + split; [set_solver|]. intros y. rewrite elem_of_cons.
      intros [->|Hy]; [apply text_ltb_irrefl|].
      destruct (text_ltb (key y) (key a)) eqn:E2; [|done].
      specialize (Hmin y Hy). rewrite <-Hmin. symmetry.
      destruct (decide (key a = key b)) as [<-|Hne]; [done|].
      destruct (text_ltb_total _ _ Hne) as [H|H]; [|congruence].
      by rewrite (text_ltb_trans _ _ _ E2 H).
  - apply min_by_None in E as ->. intros [= <-]. split; [set_solver|].
    intros y ->%list_elem_of_singleton. apply text_ltb_irrefl.
Qed.
End MinLemmas.

Lemma omin_Some a b m : omin a b = Some m <->
  (a = Some m /\ (forall y, b = Some y -> m <= y)%Z) \/
  (b = Some m /\ (forall x, a = Some x -> m <= x)%Z).
Proof.
  destruct a as [x|], b as [y|]; simpl; split; intros H; simplify_eq.
  - destruct (Z.min_spec x y) as [[? ->]|[? ->]];
      [left|right]; (split; [done|]); intros ? [= <-]; lia.
  - f_equal. destruct H as [[[= ->] H]|[[= ->] H]]; specialize (H _ eq_refl); lia.
  - left. by split.
  - by destruct H as [[? _]|[? _]].
  - right. by split.
  - by destruct H as [[? _]|[? _]].
  - by destruct H as [[? _]|[? _]].
Qed.

Lemma omin_None a b : omin a b = None <-> a = None /\ b = None.
Proof. destruct a, b; simpl; naive_solver. Qed.

(** [min_of] is the least present value. *)
Lemma min_of_Some l m :
  min_of l = Some m -> Some m ∈ l /\ forall x, Some x ∈ l -> (m <= x)%Z.
Proof.
  revert m. induction l as [|a l IH]; intros m; [done|].
  change (min_of (a :: l)) with (omin a (min_of l)). rewrite omin_Some.
  intros [[-> H]|[H1 H2]].
  - split; [set_solver|]. intros x. rewrite elem_of_cons. intros [[= ->]|Hx]; [lia|].
    destruct (min_of l) as [y|] eqn:E.
    + destruct (IH y eq_refl) as [_ Hy]. specialize (Hy x Hx). specialize (H y eq_refl). lia.
    + exfalso. clear IH H. induction l as [|c l IHl]; [by apply elem_of_nil in Hx|].
      change (min_of (c :: l)) with (omin c (min_of l)) in E.
      apply omin_None in E as [-> E].
      apply elem_of_cons in Hx as [[=]|Hx]. by apply IHl.
  - destruct (IH m H1) as [Hin Hle]. split; [set_solver|].
    intros x. rewrite elem_of_cons. intros [<-|Hx]; auto.
Qed.

Lemma min_of_None l : min_of l = None <-> forall o, o ∈ l -> o = None.
Proof.
  induction l as [|a l IH].
  { split; [|done]. intros _ o Ho. by apply elem_of_nil in Ho. }
  change (min_of (a :: l)) with (omin a (min_of l)). split.
  - intros H o. rewrite elem_of_cons. intros [->|Ho].
    + by apply omin_None in H as [-> _].
    + apply omin_None in H as [_ H]. by apply IH.
  - intros H. rewrite (H a) by set_solver. simpl. apply IH. set_solver.
Qed.

Lemma min_by_elem {A K} (key : A -> K) ltb (l : list A) x : min_by key ltb l = Some x -> x ∈ l.
Proof.
  revert x. induction l as [|y l IH]; simpl; intros x; [done|].
  destruct (min_by key ltb l) as [z|]; [|intros [= <-]; constructor].
  destruct (ltb (key z) (key y)); intros [= <-]; [right; by apply IH|constructor].
Qed.

Lemma max_by_elem {A K} (key : A -> K) ltb (l : list A) x : max_by key ltb l = Some x -> x ∈ l.
Proof.
  revert x. induction l as [|y l IH]; intros x; simpl; [done|]. rewrite elem_of_cons.
  destruct (max_by key ltb l) as [z|]; [|intros [= ->]; by left].
  destruct (ltb (key z) (key y)); intros [= <-]; [by left|right; by apply IH].
Qed.

Lemma max_by_text {A} (key : A -> text) (l : list A) x :
  max_by key text_ltb l = Some x -> forall y, y ∈ l -> text_ltb (key x) (key y) = false.
Proof.
  revert x. induction l as [|a l IH]; intros x; simpl; [done|].
  destruct (max_by key text_ltb l) as [z|] eqn:Ez.
  - destruct (text_ltb (key z) (key a)) eqn:E; intros [= <-] y; rewrite elem_of_cons.
    + intros [->|Hy]; [apply text_ltb_irrefl|]. destruct (text_ltb (key a) (key y)) eqn:E2; [|done].
      pose proof (text_ltb_trans _ _ _ E E2) as H. by rewrite (IH z eq_refl y Hy) in H.
    + intros [->|Hy]; [done|]. by apply IH.
  - intros [= <-] y. rewrite elem_of_cons. intros [->|Hy]; [apply text_ltb_irrefl|].
    destruct l as [|b l]; [by apply elem_of_nil in Hy|]. simpl in Ez.
    by destruct (max_by key text_ltb l) as [q|]; [destruct (text_ltb (key q) (key b))|].
Qed.

Lemma elem_of_filter_bool {A} (f : A -> bool) (l : list A) x :
  x ∈ List.filter f l <-> f x = true /\ x ∈ l.
Proof. rewrite !list_elem_of_In, filter_In. tauto. Qed.

Lemma ofilter_Some {A} (o : option A) f x : ofilter o f = Some x <-> o = Some x /\ f x = true.
Proof.
  destruct o as [y|]; cbn; [|by split; [|intros [??]]]. destruct (f y) eqn:E; split.
  - by intros [= <-].
  - by intros [? _].
  - done.
  - intros [[= ->] ?]. congruence.
Qed.

(** The outermost condition of the goal. *)
Ltac case_if :=
  match goal with |- context [if ?b then _ else _] => destruct b eqn:? end.

