(* ===== verification/Ids.v ===== *)
(** * Identifiers ([crates/rimz/src/ids.rs])

    Module [ShortId] models the time-sortable [msg_]/[ask_] tokens and the
    process-wide allocator behind them; [Uuid] the 32-hex-digit tokens;
    [Workspace] the workspace id and the directory names minted from it;
    [Team] the [team#channel] instance ids; [Mux] the backend selector. *)

From S2P Require Import Prelude.

Module ShortId.

Definition MESSAGE_ID_PREFIX : text := str "msg_".
Definition ASK_ID_PREFIX : text := str "ask_".
Definition MESSAGE_ID_LEN : nat := 16.
Definition BASE32HEX : text := str "0123456789abcdefghijklmnopqrstuv".

(** The [LAST_SHORT_ID] mutex: last allocated (milliseconds, suffix). *)
Abbreviation last_short_id := (N * N)%type.

(** The shifts 75, 70, ..., 5, 0 of [(0..80).step_by(5).rev()]. *)
Definition shifts : list N := map (fun k => 5 * N.of_nat k)%N (rev (seq 0 16)).

Definition encode_short_id (prefix : text) (sortable : N) : text :=
  prefix ++ map (fun shift =>
    nth (N.to_nat (N.land (N.shiftr sortable shift) 31)) BASE32HEX 0%N) shifts.

(** Returns the allocated parts and the new content of the mutex. *)
Definition next_short_id_parts (last : last_short_id) (timestamp_ms random_suffix : N)
  : (N * N) * last_short_id :=
  let '(next_ms, next_suffix) :=
    if (timestamp_ms <? last.1)%N || ((timestamp_ms =? last.1)%N && (random_suffix <=? last.2)%N)
    then
      let next_suffix := wrapping_add_u32 last.2 1 in
      (if (next_suffix =? 0)%N then saturating_add_u64 last.1 1 else last.1, next_suffix)
    else (timestamp_ms, random_suffix) in
  ((next_ms, next_suffix), (next_ms, next_suffix)).

(** [uuid] is [Uuid::now_v7().as_u128()]: 48 bits of milliseconds on top. *)
Definition new_short_id (last : last_short_id) (prefix : text) (uuid : N)
  : text * last_short_id :=
  let timestamp_ms := (N.shiftr uuid 80 mod 18446744073709551616)%N in
  let random_suffix := (uuid mod 4294967296)%N in
  let '((timestamp_ms, suffix), last') :=
    next_short_id_parts last timestamp_ms random_suffix in
  let sortable := N.lor (N.shiftl timestamp_ms 32) suffix in
  (encode_short_id prefix sortable, last').

Definition short_token_ok (token : text) : bool :=
  (length token =? MESSAGE_ID_LEN)%nat
  && forallb (fun b => is_ascii_digit b || ((97 <=? b)%N && (b <=? 118)%N)) token.

(** [MessageId::parse] and [AskId::parse]; the error carries the input. *)
Definition message_id_parse (value : text) : result text text :=
  let! token := strip_prefix MESSAGE_ID_PREFIX value else Err value in
  if short_token_ok token then Ok value else Err value.
Definition ask_id_parse (value : text) : result text text :=
  let! token := strip_prefix ASK_ID_PREFIX value else Err value in
  if short_token_ok token then Ok value else Err value.

(** [MessageId::successor]: [None] is the panic of the two [expect]s. *)
Definition successor (id : text) : option text :=
  match parse_radix 32 (2 ^ 128 - 1) (drop (length MESSAGE_ID_PREFIX) id) with
  | Some value => Some (encode_short_id MESSAGE_ID_PREFIX (value + 1))
  | None => None
  end.

End ShortId.

Module Uuid.

(** [validate_uuid_id], the check of every [uuid_v7_id!] type's [parse]. *)
Definition validate_uuid_id (prefix value : text) : result text unit :=
  let! rest := match strip_prefix prefix value with
               | Some r => strip_prefix (str "_") r
               | None => None
               end else Err value in
  if negb (length rest =? 32)%nat
     || negb (forallb (fun c => is_ascii_digit c || ((97 <=? c)%N && (c <=? 102)%N)) rest)
  then Err value
  else Ok tt.

Definition uuid_id_parse (prefix value : text) : result text text :=
  let? _ := validate_uuid_id prefix value in Ok value.

(** [short]: the last 12 characters. *)
Definition uuid_id_short (id : text) : text := drop (length id - 12) id.

End Uuid.

Module Workspace.

Definition is_ascii_hexdigit (c : char) : bool :=
  is_ascii_digit c || ((97 <=? c)%N && (c <=? 102)%N) || ((65 <=? c)%N && (c <=? 70)%N).

Definition WORKSPACE_DIR_HEX_MIN : nat := 4.
Definition WORKSPACE_ID_HEX_LEN : nat := 24.

Section Hash.
(** [hex::encode(Sha256::digest(_))] of the root path's UTF-8 text. *)
Variable sha256_hex : text -> text.
Definition from_project_root (project_root : text) : text :=
  str "ws_" ++ take 24 (sha256_hex project_root).
End Hash.

Definition workspace_id_parse (value : text) : result text text :=
  let! hex := strip_prefix (str "ws_") value else Err value in
  if negb (length hex =? 24)%nat || negb (forallb is_ascii_hexdigit hex)
  then Err value else Ok value.

Definition workspace_id_hex (id : text) : text := drop 3 id.

(** [WorkspaceDirName]. *)
Record dir_name := { name : text; hex_start : nat }.
#[export] Instance dir_name_eq_dec : EqDecision dir_name.
Proof. solve_decision. Defined.

(** [str::rsplit_once] on one character: cut at its last occurrence. *)
Definition rsplit_once (c : char) (t : text) : option (text * text) :=
  match split_once [c] (rev t) with
  | Some (a, b) => Some (rev b, rev a)
  | None => None
  end.

Definition dir_parse (value : text) : option dir_name :=
  let! (slug, hex) := rsplit_once 45%N value else None in
  let hex_ok := (WORKSPACE_DIR_HEX_MIN <=? length hex)%nat
    && (length hex <=? WORKSPACE_ID_HEX_LEN)%nat
    && Nat.even (length hex) && forallb is_ascii_hexdigit hex in
  let slug_ok := negb (is_empty slug) && negb (starts_with (str "-") slug)
    && forallb (fun c => is_ascii_alphanumeric c || (c =? 95)%N || (c =? 45)%N) slug in
  if hex_ok && slug_ok
  then Some {| name := value; hex_start := S (length slug) |} else None.

(** [hex_len.clamp(MIN, LEN) & !1]. *)
Definition mint_hex_len (hex_len : nat) : nat :=
  let n := Nat.min (Nat.max hex_len WORKSPACE_DIR_HEX_MIN) WORKSPACE_ID_HEX_LEN in
  2 * (n / 2).

Definition dir_mint (slug workspace_id : text) (hex_len : nat) : dir_name :=
  let hex_len := mint_hex_len hex_len in
  let slug := if is_empty slug then str "root" else slug in
  {| name := slug ++ str "-" ++ take hex_len (workspace_id_hex workspace_id);
     hex_start := S (length slug) |}.

Definition dir_fallback (workspace_id : text) : dir_name :=
  dir_mint (str "ws") workspace_id WORKSPACE_ID_HEX_LEN.

Definition dir_hex (d : dir_name) : text := drop (hex_start d) (name d).

Definition dir_may_name (d : dir_name) (workspace_id : text) : bool :=
  starts_with (dir_hex d) (workspace_id_hex workspace_id).

(** [str::trim_matches('-')]. *)
Fixpoint trim_start_dashes (t : text) : text :=
  match t with
  | c :: t' => if (c =? 45)%N then trim_start_dashes t' else t
  | [] => []
  end.
Definition trim_dashes (t : text) : text :=
  rev (trim_start_dashes (rev (trim_start_dashes t))).

(** The collapsing loop; [slug] is the accumulated text. *)
Fixpoint slug_loop (slug basename : text) : text :=
  match basename with
  | [] => slug
  | c :: rest =>
      let c := if is_ascii_alphanumeric c || (c =? 95)%N then c else 45%N in
      if negb ((c =? 45)%N && ends_with (str "-") slug)
      then slug_loop (slug ++ [c]) rest
      else slug_loop slug rest
  end.

(** [basename] is the lossy [Path::file_name] of the root, or empty. *)
Definition basename_slug (basename : text) (max : nat) : text :=
  let slug := take max (trim_dashes (slug_loop [] basename)) in
  let slug := trim_dashes slug in
  if is_empty slug then str "root" else slug.

End Workspace.

Module Team.

(** [TeamInstanceId::from_str]. *)
Definition team_instance_parse (value : text) : result text text :=
  let valid :=
    is_some_and (split_once (str "#") value) (fun '(team, channel) =>
      negb (is_empty team) && negb (is_empty channel)
      && negb (existsb (N.eqb 35) channel)
      && negb (existsb is_whitespace value)) in
  if valid then Ok value else Err value.

End Team.

Module Mux.

Inductive MuxName := Zellij | Tmux.
#[export] Instance MuxName_eq_dec : EqDecision MuxName.
Proof. solve_decision. Defined.

Definition as_str (m : MuxName) : text :=
  match m with Zellij => str "zellij" | Tmux => str "tmux" end.
Definition other (m : MuxName) : MuxName :=
  match m with Zellij => Tmux | Tmux => Zellij end.
Definition from_str (s : text) : result text MuxName :=
  if decide (s = str "zellij") then Ok Zellij
  else if decide (s = str "tmux") then Ok Tmux
  else Err s.

(** [HoldKind], why the throttle holds an automated start. *)
Inductive HoldKind :=
| Capacity | CheckFailed | Queue | MachineCap | AutomationCap | Stagger
| WorkflowLimit | StepLimit | Pressure | Memory | Disk | Store.
Definition needs_fix (k : HoldKind) : bool :=
  match k with CheckFailed | Disk | Store => true | _ => false end.

End Mux.

(** * Properties *)

Module ShortIdFacts.
Import ShortId.

Lemma BASE32HEX_digit d : (d < 32)%N -> nth (N.to_nat d) BASE32HEX 0%N = digit_char d.
Proof.
  intros Hd. assert (Hd' : N.to_nat d < 32) by lia. unfold digit_char.
  change BASE32HEX with (take 32 DIGITS). generalize (N.to_nat d), Hd'. clear.
  intros n Hn. do 32 (destruct n as [|n]; [by vm_compute|]). lia.
Qed.

(** The shift-and-mask encoder prints 16 base-32 digits. *)
Lemma encode_short_id_fixed prefix v :
  encode_short_id prefix v = prefix ++ fixed_digits 32 16 v.
Proof.
  unfold encode_short_id. f_equal.
  assert (Hstep : forall k,
    nth (N.to_nat (N.land (N.shiftr v (5 * N.of_nat k)) 31)) BASE32HEX 0%N
    = digit_char ((v / 32 ^ N.of_nat k) mod 32)).
  { intros k. change 31%N with (N.ones 5). rewrite N.land_ones, N.shiftr_div_pow2.
    rewrite N.pow_mul_r. change (2 ^ 5)%N with 32%N.
    apply BASE32HEX_digit. by apply N.mod_lt. }
  unfold shifts. change (rev (seq 0 16)) with [15;14;13;12;11;10;9;8;7;6;5;4;3;2;1;0].
  cbn [map fixed_digits]. by rewrite !Hstep.
Qed.

Lemma short_token_ok_fixed v : short_token_ok (fixed_digits 32 16 v) = true.
Proof.
  unfold short_token_ok. rewrite length_fixed_digits. apply andb_true_intro.
  split; [done|]. apply forallb_forall. intros c Hc.
  assert (Hex : exists d, (d < 32)%N /\ c = digit_char d).
  { revert Hc. generalize 16 as k. induction k as [|k IH]; [done|]. intros [<-|Hc]; [|auto].
    eexists. split; [|reflexivity]. by apply N.mod_lt. }
  destruct Hex as (d & Hd & ->).
  assert (Hf : forallb (fun k => let b := digit_char (N.of_nat k) in
     is_ascii_digit b || ((97 <=? b)%N && (b <=? 118)%N)) (seq 0 32) = true) by by vm_compute.
  rewrite forallb_forall in Hf. assert (Hd' : N.to_nat d < 32) by (clear Hf; lia).
  specialize (Hf (N.to_nat d) (proj2 (in_seq _ _ _) (conj (Nat.le_0_l _) Hd'))).
  by rewrite N2Nat.id in Hf.
Qed.

Lemma message_id_parse_encode v :
  message_id_parse (encode_short_id MESSAGE_ID_PREFIX v)
  = Ok (encode_short_id MESSAGE_ID_PREFIX v).
Proof.
  unfold message_id_parse. rewrite encode_short_id_fixed, strip_prefix_app.
  by rewrite short_token_ok_fixed.
Qed.

(** Tokens order as the 80-bit numbers they encode. *)
Lemma encode_short_id_cmp prefix u v :
  (u < 2 ^ 80)%N -> (v < 2 ^ 80)%N ->
  text_cmp (encode_short_id prefix u) (encode_short_id prefix v) = (u ?= v)%N.
Proof.
  intros Hu Hv. rewrite !encode_short_id_fixed, text_cmp_app.
  by apply fixed_digits_cmp.
Qed.

(** Every accepted token is the numeral of some 80-bit number. *)
Lemma short_token_ok_inv token :
  short_token_ok token = true ->
  exists v, (v < 2 ^ 80)%N /\ token = fixed_digits 32 16 v.
Proof.
  unfold short_token_ok, MESSAGE_ID_LEN. intros [Hlen Hall]%andb_prop.
  apply Nat.eqb_eq in Hlen. rewrite forallb_forall in Hall.
  change (2 ^ 80)%N with (32 ^ N.of_nat 16)%N. rewrite <-Hlen. clear Hlen.
  induction token as [|c t IH] using rev_ind.
  { exists 0%N. done. }
  destruct IH as (v & Hv & Ht). { intros x Hx. apply Hall, in_app_iff. auto. }
  assert (Hd : exists d, (d < 32)%N /\ c = digit_char d).
  { assert (Hc : is_ascii_digit c || ((97 <=? c)%N && (c <=? 118)%N) = true)
      by (apply Hall, in_app_iff; simpl; auto).
    clear -Hc. unfold is_ascii_digit in Hc.
    apply orb_prop in Hc as [[H1 H2]%andb_prop|[H1 H2]%andb_prop];
      apply N.leb_le in H1, H2.
    - exists (c - 48)%N. split; [lia|]. rewrite <-BASE32HEX_digit by lia.
      assert (Hk : exists k, k < 10 /\ c = (48 + N.of_nat k)%N) by (exists (N.to_nat (c - 48)); lia).
      destruct Hk as (k & Hk & ->). do 10 (destruct k as [|k]; [done|]). lia.
    - exists (c - 87)%N. split; [lia|]. rewrite <-BASE32HEX_digit by lia.
      assert (Hk : exists k, k < 22 /\ c = (97 + N.of_nat k)%N) by (exists (N.to_nat (c - 97)); lia).
      destruct Hk as (k & Hk & ->). do 22 (destruct k as [|k]; [done|]). lia. }
  destruct Hd as (d & Hd & ->). exists (v * 32 + d)%N.
  rewrite length_app, Nat.add_1_r, Nat2N.inj_succ, N.pow_succ_r'. split; [nia|].
  rewrite Ht at 1. clear -Hd.
  generalize (length t). intros k. induction k as [|k IH].
  { cbn [fixed_digits app]. change (32 ^ N.of_nat 0)%N with 1%N.
    rewrite N.div_1_r, N.add_comm, N.Div0.mod_add, N.mod_small by done. done. }
  cbn [fixed_digits app] in IH |- *. rewrite IH. f_equal. f_equal.
  rewrite (Nat2N.inj_succ k), N.pow_succ_r', <-N.Div0.div_div.
  by rewrite N.div_add_l, (N.div_small d), N.add_0_r by done.
Qed.

Lemma successor_encode v :
  (v < 2 ^ 80)%N ->
  successor (encode_short_id MESSAGE_ID_PREFIX v)
  = Some (encode_short_id MESSAGE_ID_PREFIX (v + 1)).
Proof.
  intros Hv. unfold successor. rewrite encode_short_id_fixed at 1.
  rewrite drop_app_length. rewrite parse_radix_fixed; try done.
  eapply N.le_trans; [apply N.lt_le_incl; exact Hv|]. by vm_compute.
Qed.

Lemma MESSAGE_ID_last : encode_short_id MESSAGE_ID_PREFIX (2 ^ 80 - 1) = str "msg_vvvvvvvvvvvvvvvv".
Proof. by vm_compute. Qed.

Lemma message_id_parse_inv id :
  message_id_parse id = Ok id ->
  exists v, (v < 2 ^ 80)%N /\ id = encode_short_id MESSAGE_ID_PREFIX v.
Proof.
  unfold message_id_parse. destruct (strip_prefix _ id) as [token|] eqn:E; [|done].
  apply strip_prefix_Some in E as ->. destruct (short_token_ok token) eqn:Ht; [|done].
  intros _. apply short_token_ok_inv in Ht as (v & Hv & ->).
  exists v. by rewrite encode_short_id_fixed.
Qed.

Lemma successor_above id id' :
  message_id_parse id = Ok id -> id <> str "msg_vvvvvvvvvvvvvvvv" -> successor id = Some id' ->
  text_ltb id id' = true.
Proof.
  intros (v & Hv & ->)%message_id_parse_inv Hlast.
  assert (Hv' : (v + 1 < 2 ^ 80)%N).
  { destruct (decide (v = 2 ^ 80 - 1)%N) as [->|]; [by rewrite MESSAGE_ID_last in Hlast|lia]. }
  rewrite successor_encode by done. intros [= <-].
  apply text_ltb_cmp. rewrite encode_short_id_cmp by done. apply N.compare_lt_iff. lia.
Qed.

(** A valid message id other than the last token has a valid successor
    strictly above it, with no id in between. *)
Theorem successor_next id :
  message_id_parse id = Ok id -> id <> str "msg_vvvvvvvvvvvvvvvv" ->
  exists id', successor id = Some id' /\ message_id_parse id' = Ok id'
    /\ text_ltb id id' = true
    /\ forall m, message_id_parse m = Ok m -> text_ltb id m = true -> text_leb id' m = true.
Proof.
  intros (v & Hv & ->)%message_id_parse_inv Hlast.
  assert (Hv' : (v + 1 < 2 ^ 80)%N).
  { destruct (decide (v = 2 ^ 80 - 1)%N) as [->|]; [by rewrite MESSAGE_ID_last in Hlast|lia]. }
  eexists. split; [by apply successor_encode|]. split; [apply message_id_parse_encode|].
  split. { apply text_ltb_cmp. rewrite encode_short_id_cmp by done. apply N.compare_lt_iff. lia. }
  intros m (w & Hw & ->)%message_id_parse_inv.
  rewrite text_ltb_cmp, encode_short_id_cmp, N.compare_lt_iff by done. intros Hlt.
  unfold text_leb. rewrite encode_short_id_cmp by done.
  destruct (N.compare_spec (v + 1) w); try done. lia.
Qed.

Lemma successor_next_witness :
  successor (str "msg_0000000007vvvvvv") = Some (str "msg_0000000008000000")
  /\ exists id', successor (str "msg_0000000007vvvvvv") = Some id'
     /\ text_ltb (str "msg_0000000007vvvvvv") id' = true.
Proof.
  split; [by vm_compute|].
  destruct (successor_next (str "msg_0000000007vvvvvv")) as (id' & H1 & _ & H2 & _);
    [by vm_compute|by vm_compute|]. by exists id'.
Defined.

(** ** The allocator *)

(** Successive draws of one process from a list of UUIDs. *)
Fixpoint draw (last : last_short_id) (prefix : text) (uuids : list N) : list text :=
  match uuids with
  | [] => []
  | uuid :: rest =>
      let '(id, last') := new_short_id last prefix uuid in id :: draw last' prefix rest
  end.

Definition sortable (p : N * N) : N := (p.1 * 4294967296 + p.2)%N.

Lemma sortable_lor ms suffix :
  (suffix < 4294967296)%N -> N.lor (N.shiftl ms 32) suffix = sortable (ms, suffix).
Proof.
  intros H. unfold sortable; simpl. rewrite N.shiftl_mul_pow2.
  change (2 ^ 32)%N with 4294967296%N.
  rewrite <-N.lxor_lor, <-N.add_nocarry_lxor; [done| |].
  all: change 4294967296%N with (2 ^ 32)%N in *; apply N.bits_inj_0; intros n;
    rewrite N.land_spec; destruct (N.lt_ge_cases n 32) as [Hn|Hn];
    [by rewrite N.mul_pow2_bits_low by done|];
    rewrite andb_comm;
    (destruct (decide (suffix = 0)%N) as [->|Hne]; [by rewrite N.bits_0|]);
    rewrite (N.bits_above_log2 suffix n); [done|];
    eapply N.lt_le_trans; [|exact Hn]; apply N.log2_lt_pow2; lia.
Qed.

(** One draw advances the mutex strictly and by at most one millisecond
    beyond the later of the clock and the mutex. *)
Lemma next_short_id_parts_spec last ms suffix :
  (last.2 < 4294967296)%N -> (suffix < 4294967296)%N -> (last.1 < U64_MAX)%N ->
  let '(p, last') := next_short_id_parts last ms suffix in
  p = last' /\ (sortable last < sortable p)%N /\ (p.2 < 4294967296)%N
  /\ (p.1 <= N.max ms (last.1 + 1))%N.
Proof.
  destruct last as [lm ls]. unfold next_short_id_parts, sortable; simpl. intros Hls Hs Hm.
  assert (Hw : wrapping_add_u32 ls 1 = if decide (ls = 4294967295)%N then 0%N else (ls + 1)%N).
  { unfold wrapping_add_u32. case_decide; [by subst|]. apply N.mod_small. lia. }
  assert (Hsat : saturating_add_u64 lm 1 = (lm + 1)%N).
  { unfold saturating_add_u64. apply N.min_l. lia. }
  rewrite Hw, Hsat. clear Hw Hsat Hm.
  destruct ((ms <? lm)%N || ((ms =? lm)%N && (suffix <=? ls)%N)) eqn:E.
  - rewrite orb_true_iff, andb_true_iff, N.ltb_lt, N.eqb_eq, N.leb_le in E.
    case_decide as Hd; simpl; [split_and!; [done|lia..]|].
    destruct (N.eqb_spec (ls + 1) 0); simpl; split_and!; try done; lia.
  - rewrite orb_false_iff, andb_false_iff, N.ltb_ge, N.eqb_neq, N.leb_gt in E.
    simpl. split_and!; try done; lia.
Qed.

(** The allocator's state never runs ahead of the clock by more than the
    number of draws, so 80 bits hold every allocated number. *)
Lemma new_short_id_spec last prefix uuid B :
  (last.2 < 4294967296)%N -> (last.1 <= B)%N -> (N.shiftr uuid 80 <= B)%N -> (B + 1 < 2 ^ 48)%N ->
  let '(id, last') := new_short_id last prefix uuid in
  id = encode_short_id prefix (sortable last')
  /\ (sortable last < sortable last')%N /\ (last'.2 < 4294967296)%N /\ (last'.1 <= B + 1)%N.
Proof.
  intros Hl2 Hl1 Hu HB. unfold new_short_id.
  change (2 ^ 48)%N with 281474976710656%N in HB.
  rewrite (N.mod_small (N.shiftr uuid 80)) by lia.
  pose proof (next_short_id_parts_spec last (N.shiftr uuid 80) (uuid mod 4294967296) Hl2
    (N.mod_lt uuid 4294967296 ltac:(done)) ltac:(unfold U64_MAX; lia)) as H.
  destruct (next_short_id_parts _ _ _) as [[ms sfx] last']. destruct H as (<- & H1 & H2 & H3).
  simpl in H2. rewrite sortable_lor by done. split; [done|]. split_and!; try done. simpl in *. lia.
Qed.

Lemma sortable_bound p : (p.2 < 4294967296)%N -> (p.1 < 2 ^ 48)%N -> (sortable p < 2 ^ 80)%N.
Proof.
  unfold sortable. change (2 ^ 80)%N with (2 ^ 48 * 4294967296)%N.
  change (2 ^ 48)%N with 281474976710656%N. lia.
Qed.

Lemma draw_above last uuids B :
  (last.2 < 4294967296)%N -> (last.1 <= B)%N -> Forall (fun u => N.shiftr u 80 <= B)%N uuids ->
  (B + N.of_nat (length uuids) < 2 ^ 48)%N ->
  Forall (fun id => exists v, (sortable last < v < 2 ^ 80)%N /\ id = encode_short_id MESSAGE_ID_PREFIX v)
    (draw last MESSAGE_ID_PREFIX uuids)
  /\ StronglySorted (fun a b => text_ltb a b = true) (draw last MESSAGE_ID_PREFIX uuids).
Proof.
  intros Hl2 Hl1 Hu. revert last B Hl2 Hl1 Hu.
  induction uuids as [|u us IH]; intros last B Hl2 Hl1 Hu HB; [by repeat constructor|].
  apply Forall_cons in Hu as [Hu Hus]. cbn [length draw] in *.
  pose proof (new_short_id_spec last MESSAGE_ID_PREFIX u B Hl2 Hl1 Hu ltac:(lia)) as H.
  destruct (new_short_id last MESSAGE_ID_PREFIX u) as [id last'].
  destruct H as (-> & H1 & H2 & H3).
  assert (Hlt : (sortable last' < 2 ^ 80)%N) by (apply sortable_bound; [done|lia]).
  destruct (IH last' (B + 1)%N H2 H3) as [IHf IHs].
  { eapply Forall_impl; [exact Hus|]. simpl. lia. }
  { lia. }
  split.
  - constructor; [eauto|]. eapply Forall_impl; [exact IHf|].
    intros x (v & Hv & ->). exists v. split; [lia|done].
  - constructor; [done|]. eapply Forall_impl; [exact IHf|]. intros x (v & Hv & ->).
    apply text_ltb_cmp. rewrite encode_short_id_cmp by lia. apply N.compare_lt_iff. lia.
Qed.

(** However the clock moves, the message ids one process allocates are all
    valid and strictly increasing, hence distinct, as long as the clock leaves
    room for the draws in 48 bits of milliseconds. *)
Theorem allocated_ids_increase last uuids B :
  (last.2 < 4294967296)%N -> (last.1 <= B)%N -> Forall (fun u => N.shiftr u 80 <= B)%N uuids ->
  (B + N.of_nat (length uuids) < 2 ^ 48)%N ->
  let ids := draw last MESSAGE_ID_PREFIX uuids in
  length ids = length uuids
  /\ Forall (fun id => message_id_parse id = Ok id) ids
  /\ StronglySorted (fun a b => text_ltb a b = true) ids.
Proof.
  intros Hl2 Hl1 Hu HB ids. destruct (draw_above last uuids B Hl2 Hl1 Hu HB) as [Hf Hs].
  split_and!; [|eapply Forall_impl; [exact Hf|]; intros ? (v & _ & ->); apply message_id_parse_encode|done].
  clear. unfold ids. generalize last. clear. induction uuids as [|u us IH]; intros last; [done|].
  cbn [draw]. destruct (new_short_id last MESSAGE_ID_PREFIX u) as [id l]. cbn [length]. by rewrite IH.
Qed.

(** A clock that steps back, then a repeated millisecond at the suffix limit. *)
Lemma allocated_ids_increase_witness :
  let us := [N.lor (N.shiftl 1700000000001 80) 4294967295; N.lor (N.shiftl 1700000000000 80) 7;
             N.lor (N.shiftl 1700000000001 80) 9] in
  draw (0, 0)%N MESSAGE_ID_PREFIX us
  = [str "msg_065svpb807vvvvvv"; str "msg_065svpb808000000"; str "msg_065svpb808000001"]
  /\ StronglySorted (fun a b => text_ltb a b = true) (draw (0, 0)%N MESSAGE_ID_PREFIX us).
Proof.
  intros us. split; [by vm_compute|].
  apply (allocated_ids_increase (0, 0)%N us 1700000000001); try done.
  repeat constructor; by vm_compute.
Defined.

End ShortIdFacts.

Module WorkspaceFacts.
Import Workspace.

Definition slug_char (c : char) : Prop := is_ascii_alphanumeric c || (c =? 95)%N || (c =? 45)%N = true.
Definition no_dash_head (t : text) : Prop := head t <> Some 45%N.

Lemma rsplit_once_last c a b : c ∉ b -> rsplit_once c (a ++ c :: b) = Some (a, b).
Proof.
  intros Hb. unfold rsplit_once.
  assert (H : split_once [c] (rev (a ++ c :: b)) = Some (rev b, rev a)).
  { apply split_once_char. split; [|by rewrite list_elem_of_In, <-in_rev, <-list_elem_of_In].
    rewrite rev_app_distr. simpl. by rewrite <-app_assoc. }
  rewrite H. by rewrite !rev_involutive.
Qed.

Lemma slug_loop_chars slug basename : Forall slug_char slug -> Forall slug_char (slug_loop slug basename).
Proof.
  revert slug. induction basename as [|c rest IH]; intros slug Hs; cbn [slug_loop]; [done|].
  destruct (negb _); [|by apply IH]. apply IH, Forall_app. split; [done|].
  constructor; [|done]. unfold slug_char.
  destruct (is_ascii_alphanumeric c || (c =? 95)%N) eqn:E; [by rewrite E|done].
Qed.

Lemma trim_start_dashes_suffix t : exists d, t = d ++ trim_start_dashes t.
Proof.
  induction t as [|c t [d IH]]; cbn [trim_start_dashes]; [by exists []|].
  destruct (c =? 45)%N; [|by exists []]. exists (c :: d). simpl. by f_equal.
Qed.

Lemma trim_start_dashes_head t : no_dash_head (trim_start_dashes t).
Proof.
  induction t as [|c t IH]; cbn [trim_start_dashes]; [done|].
  destruct (N.eqb_spec c 45); [done|]. unfold no_dash_head. simpl. congruence.
Qed.

Lemma trim_dashes_spec t :
  no_dash_head (trim_dashes t) /\ (Forall slug_char t -> Forall slug_char (trim_dashes t)).
Proof.
  unfold trim_dashes. destruct (trim_start_dashes_suffix t) as [d Hd].
  pose proof (trim_start_dashes_head t) as Hh.
  set (u := trim_start_dashes t) in *. clearbody u. subst t.
  destruct (trim_start_dashes_suffix (rev u)) as [e He].
  set (w := trim_start_dashes (rev u)) in *. clearbody w.
  apply (f_equal (@rev N)) in He. rewrite rev_involutive, rev_app_distr in He. subst u.
  split.
  - destruct (rev w); [done|]. exact Hh.
  - by intros [_ [H _]%Forall_app]%Forall_app.
Qed.

Lemma basename_slug_spec basename max :
  let slug := basename_slug basename max in
  slug <> [] /\ no_dash_head slug /\ Forall slug_char slug.
Proof.
  unfold basename_slug. set (s := trim_dashes (slug_loop [] basename)).
  destruct (trim_dashes_spec (take max s)) as [Hh Hf].
  destruct (trim_dashes (take max s)) as [|c t]; simpl.
  - split_and!; [done..|]. by repeat constructor.
  - split_and!; [done|done|]. apply Hf, Forall_take, trim_dashes_spec, slug_loop_chars. constructor.
Qed.

Lemma mint_hex_len_spec n :
  let k := mint_hex_len n in 4 <= k /\ k <= 24 /\ Nat.even k = true.
Proof.
  unfold mint_hex_len, WORKSPACE_DIR_HEX_MIN, WORKSPACE_ID_HEX_LEN. cbv zeta.
  set (m := Nat.min _ _). assert (4 <= m <= 24) by (unfold m; lia).
  clearbody m. rewrite Nat.even_mul. split_and!; [|pose proof (Nat.Div0.mul_div_le m 2); lia|done].
  pose proof (Nat.Div0.div_le_mono 4 m 2 ltac:(lia)) as Hd.
  change (4 / 2) with 2 in Hd. lia.
Qed.

(** The directory name minted for a valid workspace id, whatever the
    basename of its root, parses back to itself and may name that workspace. *)
Theorem workspace_dir_roundtrip basename max ws n :
  workspace_id_parse ws = Ok ws ->
  let d := dir_mint (basename_slug basename max) ws n in
  dir_parse (name d) = Some d /\ dir_may_name d ws = true.
Proof.
  intros H d. unfold workspace_id_parse in H.
  destruct (strip_prefix (str "ws_") ws) as [hex|] eqn:E; [|done]. apply strip_prefix_Some in E as ->.
  destruct (negb _ || negb _) eqn:Eh in H; [done|]. clear H.
  rewrite orb_false_iff, !negb_false_iff, Nat.eqb_eq, forallb_forall in Eh.
  destruct Eh as [Hlen Hhex]. destruct (basename_slug_spec basename max) as (Hne & Hh & Hs).
  destruct (mint_hex_len_spec n) as (Hk1 & Hk2 & Hke).
  unfold d, dir_mint. set (k := mint_hex_len n) in *. clearbody k.
  destruct (basename_slug basename max) as [|c t] eqn:Eb; [done|]. cbn [is_empty].
  change (workspace_id_hex (str "ws_" ++ hex)) with hex.
  set (h := take k hex).
  assert (Hh' : forall x, In x h -> is_ascii_hexdigit x = true).
  { intros x Hx. apply Hhex. rewrite <-(take_drop k hex). apply in_app_iff. by left. }
  assert (Hlh : length h = k) by (unfold h; rewrite length_take; lia).
  unfold dir_parse. cbn [name]. change (str "-" ++ h) with (45%N :: h).
  rewrite rsplit_once_last.
  2: { intros Hin%list_elem_of_In. by apply Hh' in Hin. }
  split.
  - rewrite Hlh, Hke. unfold WORKSPACE_DIR_HEX_MIN, WORKSPACE_ID_HEX_LEN.
    rewrite (proj2 (Nat.leb_le _ _) Hk1), (proj2 (Nat.leb_le _ _) Hk2).
    rewrite (proj2 (forallb_forall _ _) Hh').
    assert (Hsw : starts_with (str "-") (c :: t) = false).
    { apply not_true_iff_false. rewrite starts_with_true. intros [r Hr].
      apply Hh. by rewrite Hr. }
    rewrite Hsw. replace (forallb _ (c :: t)) with true; [done|].
    symmetry. apply forallb_forall. intros x Hx.
    by apply (proj1 (Forall_forall _ _) Hs), list_elem_of_In.
  - unfold dir_may_name, dir_hex. cbn [name hex_start].
    change (workspace_id_hex _) with hex.
    replace (drop (S (length (c :: t))) ((c :: t) ++ 45%N :: h)) with h.
    + apply starts_with_true. exists (drop k hex). symmetry. apply take_drop.
    + change (S (length (c :: t))) with (1 + length (c :: t)). rewrite Nat.add_comm, <-drop_drop.
      by rewrite drop_app_length.
Qed.

Lemma workspace_dir_roundtrip_witness :
  let ws := str "ws_0123456789abcdef01234567" in
  name (dir_mint (basename_slug (str "my  project!") 24) ws 7) = str "my-project-012345"
  /\ dir_parse (str "my-project-012345") = Some (dir_mint (basename_slug (str "my  project!") 24) ws 7).
Proof.
  intros ws. split; [by vm_compute|].
  apply (workspace_dir_roundtrip (str "my  project!") 24 ws 7). by vm_compute.
Defined.

End WorkspaceFacts.
