(* ===== verification/EventLog.v ===== *)
(** * The event log ([crates/rimz/src/store/event_log.rs] and its modules)

    Module [Frame] models the frame codec, [Log] the append and scan
    operations over a log file, [Recovery] the repair, [Rotation] the archive
    directory.  A file is its bytes, [None] when it does not exist; an I/O
    error other than a missing file ends an operation before any effect and is
    not modelled.  [serde_json] and [crc32fast] are parameters with the laws
    their documentation gives. *)

From S2P Require Import Prelude.

(** [serde_json::to_vec] (fallible) and [serde_json::from_str]. *)
Class Json (A : Type) := {
  to_vec : A -> option bytes;
  from_json : bytes -> option A
}.

(** What the log relies on: a value reads back, and its compact JSON is one
    UTF-8 line that opens with a brace. *)
Class JsonLaws (A : Type) `{Json A} := {
  json_roundtrip : forall a b, to_vec a = Some b -> from_json b = Some a;
  json_line : forall a b, to_vec a = Some b -> 10%N ∉ b;
  json_utf8 : forall a b, to_vec a = Some b -> utf8_valid b = true;
  json_object : forall a b, to_vec a = Some b -> head b = Some 123%N
}.

(** [crc32fast::hash], a [u32]. *)
Class Crc32 := crc32 : bytes -> N.
Class Crc32Laws `{Crc32} := crc32_bound : forall b, (crc32 b < 4294967296)%N.

Definition u64_of_len {A} (l : list A) : N := N.of_nat (length l).

Inductive TornReason :=
| Unterminated | Utf8 | NoLengthPrefix | BadLength (len : bytes) | BadJson.

Inductive EventLogErr :=
| Torn (offset : N) (reason : TornReason)
| FrameLength (offset claimed available : N)
| CrcMismatch (offset claimed computed : N)
| Atomic
| Io.
#[export] Instance EventLogErr_eq_dec : EqDecision EventLogErr.
Proof. assert (EqDecision TornReason) by solve_decision. solve_decision. Defined.

Definition is_corruption (e : EventLogErr) : bool :=
  match e with
  | Torn _ _ | FrameLength _ _ _ | CrcMismatch _ _ _ => true
  | Atomic | Io => false
  end.

(** [LogExtent]: the snapshot freshness stamp. *)
Record LogExtent := { generation : N; offset : N }.
#[export] Instance LogExtent_eq_dec : EqDecision LogExtent.
Proof. solve_decision. Defined.

Abbreviation file := (option bytes).
Definition contents (f : file) : bytes := match f with Some b => b | None => [] end.

Module Frame.
Section Frame.
Context `{Crc32}.

Definition encode_frame (payload : bytes) : bytes :=
  show_N (u64_of_len payload) ++ [32%N]
  ++ fixed_digits 16 8 (crc32 payload) ++ [32%N] ++ payload ++ [10%N].

Section Decode.
Context {A : Type} `{Json A}.

Definition crc_token (token : bytes) : bool :=
  (length token =? 8)%nat
  && forallb (fun b => is_ascii_digit b || ((97 <=? b)%N && (b <=? 102)%N)) token.

Definition decode_line (line : bytes) (at_ : N) : result EventLogErr A :=
  let! (len, rest) := split_once [32%N] line else Err (Torn at_ NoLengthPrefix) in
  let! claimed := parse_u64 len else Err (Torn at_ (BadLength len)) in
  let '(crc, payload) :=
    match split_once [32%N] rest with
    | Some (token, payload) =>
        if crc_token token
        then (parse_radix 16 U32_MAX token, payload)
        else (None, rest)
    | None => (None, rest)
    end in
  let available := u64_of_len payload in
  if negb (claimed =? available)%N then Err (FrameLength at_ claimed available)
  else
    let bad_crc := ofilter crc (fun c => negb (c =? crc32 payload)%N) in
    match bad_crc with
    | Some claimed_crc => Err (CrcMismatch at_ claimed_crc (crc32 payload))
    | None =>
        match from_json payload with
        | Some a => Ok a
        | None => Err (Torn at_ BadJson)
        end
    end.

(** Also [decode_row], its instance at [EventEnvelope]. *)
Definition decode_record (at_ : N) (terminated : bool) (b : bytes) : result EventLogErr A :=
  if negb terminated then Err (Torn at_ Unterminated)
  else if utf8_valid b then decode_line b at_
  else Err (Torn at_ Utf8).
End Decode.

(** [read_rows]: raw (offset, terminated, line) rows; every read consumes a
    byte, so the length of the input is fuel enough. *)
Fixpoint rows_loop (fuel : nat) (at_ : N) (b : bytes) : list (N * bool * bytes) :=
  match fuel with
  | O => []
  | S fuel' =>
      let '(buf, rest) := read_until 10 b in
      if is_empty buf then []
      else
        let terminated := bool_decide (last buf = Some 10%N) in
        let row := if terminated then removelast buf else buf in
        (at_, terminated, row) :: rows_loop fuel' (at_ + u64_of_len buf) rest
  end.
Definition read_rows (f : file) (start : N) : list (N * bool * bytes) :=
  let b := drop (N.to_nat start) (contents f) in rows_loop (length b) start b.

(** The backward search of [read_row_ending_at] in blocks of 256 bytes;
    [row] is collected in reverse. *)
Fixpoint back_loop (fuel : nat) (b : bytes) (at_ : nat) (row : bytes) : nat * bytes :=
  match fuel with
  | O => (at_, row)
  | S fuel' =>
      if (at_ =? 0)%nat then (at_, row)
      else
        let count := Nat.min at_ 256 in
        let at_ := at_ - count in
        let block := take count (drop at_ b) in
        match rposition (N.eqb 10) block with
        | Some previous =>
            (at_ + previous + 1, row ++ rev (drop (previous + 1) block))
        | None => back_loop fuel' b at_ (row ++ rev block)
        end
  end.
Definition read_row_ending_at (f : file) (end_ : N) : option (N * bytes) :=
  let b := contents f in
  if (end_ =? 0)%N then None
  else
    match b !! N.to_nat (end_ - 1) with
    | Some 10%N =>
        let at_ := N.to_nat (end_ - 1) in
        let '(at_, row) := back_loop at_ b at_ [] in
        Some (N.of_nat at_, rev row)
    | _ => None
    end.
End Frame.
End Frame.

Module Log.
Import Frame.
Section Log.
Context `{Crc32} {A : Type} `{Json A}.

Fixpoint encode_batch (events : list A) : result EventLogErr bytes :=
  match events with
  | [] => Ok []
  | event :: events' =>
      let! payload := to_vec event else Err Atomic in
      let? rest := encode_batch events' in
      Ok (encode_frame payload ++ rest)
  end.

(** Each returns the file after the write. *)
Definition append (f : file) (value : A) : result EventLogErr file :=
  let! payload := to_vec value else Err Atomic in
  Ok (Some (contents f ++ encode_frame payload)).

Definition append_batch (f : file) (events : list A) : result EventLogErr file :=
  if is_empty events then Ok f
  else
    let? b := encode_batch events in
    Ok (Some (contents f ++ b)).

Definition replace_all (f : file) (events : list A) : result EventLogErr file :=
  let? b := encode_batch events in Ok (Some b).

(** [scan_records]: the records visited, each with its end offset, and the
    outcome of the scan; a scan that fails has visited the records before. *)
Fixpoint scan_loop (fuel : nat) (end_ : N) (b : bytes)
  : list (A * N) * result EventLogErr N :=
  match fuel with
  | O => ([], Ok end_)
  | S fuel' =>
      let '(buf, rest) := read_until 10 b in
      if is_empty buf then ([], Ok end_)
      else if negb (bool_decide (last buf = Some 10%N)) then ([], Ok end_)
      else
        match decode_record end_ true (removelast buf) with
        | Ok event =>
            let end_ := (end_ + u64_of_len buf)%N in
            let '(visited, outcome) := scan_loop fuel' end_ rest in
            ((event, end_) :: visited, outcome)
        | Err err =>
            if is_corruption err && is_empty rest then ([], Ok end_)
            else ([], Err err)
        end
  end.
Definition scan_records (start : N) (b : bytes) : list (A * N) * result EventLogErr N :=
  scan_loop (length b) start b.

Definition visit_records_through_offset (f : file) (start through : N)
  : list (A * N) * result EventLogErr N :=
  match f with
  | None => ([], Ok start)
  | Some b =>
      scan_records start (take_N (saturating_sub through start) (drop (N.to_nat start) b))
  end.
Definition visit_records_from_offset (f : file) (start : N) :=
  visit_records_through_offset f start U64_MAX.

Definition read_from_offset (f : file) (start : N) : result EventLogErr (list A * N) :=
  let '(visited, outcome) := visit_records_from_offset f start in
  let? end_ := outcome in Ok (map fst visited, end_).
Definition read_all (f : file) : result EventLogErr (list A) :=
  let? (events, _) := read_from_offset f 0 in Ok events.
End Log.
End Log.

Module Recovery.
Import Frame Log.

Record RepairOutcome := { frames_kept : nat; bytes_truncated : N }.
Definition truncated (r : RepairOutcome) : bool := (0 <? bytes_truncated r)%N.

Section Recovery.
Context `{Crc32} {A : Type} `{Json A}.

(** The validation loop: frames kept, end of the valid prefix, first
    invalid offset. *)
Fixpoint repair_loop (rows : list (N * bool * bytes)) (kept : nat) (valid_end : N)
  : result EventLogErr (nat * N * option N) :=
  match rows with
  | [] => Ok (kept, valid_end, None)
  | (at_, terminated, b) :: rows' =>
      match decode_record (A:=A) at_ terminated b with
      | Ok _ =>
          repair_loop rows' (S kept) (at_ + u64_of_len b + (if terminated then 1 else 0))
      | Err err =>
          if is_corruption err then Ok (kept, valid_end, Some at_) else Err err
      end
  end.

(** Returns the file after the repair. *)
Definition repair (f : file) : result EventLogErr (RepairOutcome * file) :=
  let? (frames_kept, _, invalid_at) := repair_loop (read_rows f 0) 0 0 in
  match invalid_at with
  | None => Ok ({| frames_kept := frames_kept; bytes_truncated := 0 |}, f)
  | Some at_ =>
      let total := u64_of_len (contents f) in
      Ok ({| frames_kept := frames_kept; bytes_truncated := saturating_sub total at_ |},
          Some (take (N.to_nat at_) (contents f)))
  end.
End Recovery.
End Recovery.

Module Rotation.

(** An archive entry: contents and modification time. *)
Abbreviation dir := (list (text * (bytes * Z))).

Inductive RotationOutcome :=
| Skipped (current_bytes : N)
| Rotated (archive_name : text) (bytes_rotated : N).
Record PruneOutcome := { files_removed : nat; bytes_removed : N }.

Definition current_bytes (o : RotationOutcome) : N :=
  match o with Skipped n => n | Rotated _ n => n end.

(** [uuid] is [Uuid::now_v7().simple()], [mtime] the log's modification time.
    Returns the log and the archive after the rename, which replaces a file of
    that name. *)
Definition rotate (log : file) (archive : dir) (min_bytes : N) (uuid : text) (mtime : Z)
  : RotationOutcome * file * dir :=
  let current_bytes := u64_of_len (contents log) in
  if (current_bytes =? 0)%N || (current_bytes <? min_bytes)%N
  then (Skipped current_bytes, log, archive)
  else
    let name := str "events." ++ uuid ++ str ".jsonl" in
    (Rotated name current_bytes, None,
     filter (fun entry => entry.1 <> name) archive ++ [(name, (contents log, mtime))]).

Definition is_archive_name (name : text) : bool :=
  starts_with (str "events.") name && ends_with (str ".jsonl") name.

(** One directory entry of [prune_archive]: whether the file is removed. *)
Definition prunable (now older_than : Z) (entry : text * (bytes * Z)) : bool :=
  is_archive_name entry.1
  && (entry.2.2 <=? now)%Z && negb (now - entry.2.2 <? older_than)%Z.

Fixpoint prune_loop (now older_than : Z) (entries : dir) (report : PruneOutcome)
  : PruneOutcome * dir :=
  match entries with
  | [] => (report, [])
  | entry :: entries' =>
      if prunable now older_than entry
      then prune_loop now older_than entries'
             {| files_removed := S (files_removed report);
                bytes_removed := saturating_add_u64 (bytes_removed report)
                                   (u64_of_len entry.2.1) |}
      else
        let '(report, kept) := prune_loop now older_than entries' report in
        (report, entry :: kept)
  end.
Definition prune_archive (now older_than : Z) (archive : dir) : PruneOutcome * dir :=
  prune_loop now older_than archive {| files_removed := 0; bytes_removed := 0 |}.

Definition newest_archives (archive : dir) (limit : nat) : list text :=
  let paths := filter (fun n => is_archive_name n = true) (map fst archive) in
  let paths := sort_by id text_leb paths in
  if (limit <? length paths)%nat then drop (length paths - limit) paths else paths.

End Rotation.

(** * Properties *)

Lemma to_nat_u64_of_len {A} (l : list A) : N.to_nat (u64_of_len l) = length l.
Proof. apply Nat2N.id. Qed.

Module FrameFacts.
Import Frame.
Section FrameFacts.
Context `{Crc32Laws} {A : Type} `{JsonLaws A}.

Lemma show_N_ascii v : Forall (fun c => (c < 128)%N) (show_N v).
Proof. apply Forall_forall. intros c Hc%show_N_range. lia. Qed.

Lemma fixed_digits_ascii k v : Forall (fun c => (c < 128)%N) (fixed_digits 16 k v).
Proof. apply Forall_forall. intros c Hc%fixed_digits_range; [lia|done|done]. Qed.

Lemma show_N_notin v c : (c < 48)%N -> c ∉ show_N v.
Proof. intros Hc Hin%show_N_range. lia. Qed.

Lemma fixed_digits_notin k v c : (c < 48)%N -> c ∉ fixed_digits 16 k v.
Proof. intros Hc Hin%fixed_digits_range; [lia|done|done]. Qed.

Lemma split_blank l r : 32%N ∉ l -> split_once [32%N] (l ++ 32%N :: r) = Some (l, r).
Proof. intros Hl. by apply split_once_char. Qed.

Lemma crc_token_digits v : crc_token (fixed_digits 16 8 v) = true.
Proof.
  unfold crc_token. rewrite length_fixed_digits. apply andb_true_intro. split; [done|].
  apply forallb_forall. intros c Hc.
  assert (Hex : exists d, (d < 16)%N /\ c = digit_char d).
  { revert Hc. generalize 8 as k. induction k as [|k IH]; [done|]. intros [<-|Hc]; [|auto].
    eexists. split; [|reflexivity]. by apply N.mod_lt. }
  destruct Hex as (d & Hd & ->).
  assert (Hf : forallb (fun k => let b := digit_char (N.of_nat k) in
     is_ascii_digit b || ((97 <=? b)%N && (b <=? 102)%N)) (seq 0 16) = true) by by vm_compute.
  rewrite forallb_forall in Hf. assert (Hd' : N.to_nat d < 16) by (clear Hf; lia).
  specialize (Hf (N.to_nat d) (proj2 (in_seq _ _ _) (conj (Nat.le_0_l _) Hd'))).
  by rewrite N2Nat.id in Hf.
Qed.

(** The row of a frame: everything before the newline. *)
Definition frame_row (payload : bytes) : bytes :=
  show_N (u64_of_len payload) ++ 32%N :: fixed_digits 16 8 (crc32 payload) ++ 32%N :: payload.

Lemma encode_frame_row payload : encode_frame payload = frame_row payload ++ [10%N].
Proof. unfold encode_frame, frame_row. by do 2 (rewrite <-app_assoc; cbn [app]). Qed.

Lemma frame_row_line payload : 10%N ∉ payload -> 10%N ∉ frame_row payload.
Proof.
  intros Hp. unfold frame_row. rewrite !elem_of_app, !elem_of_cons, elem_of_app, elem_of_cons.
  intros [Hin|[?|[Hin|[?|?]]]]; try done; revert Hin.
  - by apply show_N_notin.
  - by apply fixed_digits_notin.
Qed.

Lemma decode_frame_row (a : A) payload at_ :
  to_vec a = Some payload -> (u64_of_len payload <= U64_MAX)%N ->
  decode_record at_ true (frame_row payload) = Ok a.
Proof.
  intros Ha Hlen. unfold decode_record, frame_row. cbn [negb].
  rewrite utf8_valid_ascii by apply show_N_ascii. cbn [utf8_valid N.ltb N.compare Pos.compare Pos.compare_cont].
  rewrite utf8_valid_ascii by apply fixed_digits_ascii. cbn [utf8_valid N.ltb N.compare Pos.compare Pos.compare_cont].
  rewrite (json_utf8 _ _ Ha). unfold decode_line.
  rewrite split_blank by by apply show_N_notin.
  rewrite parse_show_u64, split_blank, crc_token_digits by (done || by apply fixed_digits_notin).
  rewrite N.eqb_refl. cbn [negb].
  rewrite parse_radix_fixed; try done.
  - cbn [ofilter]. rewrite N.eqb_refl. cbn [negb]. by rewrite (json_roundtrip _ _ Ha).
  - pose proof (crc32_bound payload). unfold U32_MAX. lia.
Qed.

(** The second token of a row without a checksum is never taken for one. *)
Lemma object_no_crc (a : A) payload token rest :
  to_vec a = Some payload -> split_once [32%N] payload = Some (token, rest) ->
  crc_token token = false.
Proof.
  intros Ha [Hp _]%split_once_char. pose proof (json_object _ _ Ha) as Hh.
  unfold crc_token. destruct token as [|c t]; [done|].
  rewrite Hp in Hh. injection Hh as ->. by rewrite andb_false_r.
Qed.

(** Every failure to decode a row is one a repair can heal. *)
Lemma decode_record_corruption at_ terminated b e :
  decode_record (A:=A) at_ terminated b = Err e -> is_corruption e = true.
Proof.
  unfold decode_record, decode_line. intros Hd.
  repeat (case_match; simplify_eq/=; try done).
Qed.

(** A record written with its checksum, or by a version that wrote none,
    decodes to the value that was encoded, at any offset. *)
Theorem decode_encode_frame (a : A) payload at_ :
  to_vec a = Some payload -> (u64_of_len payload <= U64_MAX)%N ->
  (exists row, encode_frame payload = row ++ [10%N] /\ 10%N ∉ row
     /\ decode_record at_ true row = Ok a)
  /\ decode_record at_ true (show_N (u64_of_len payload) ++ [32%N] ++ payload) = Ok a.
Proof.
  intros Ha Hlen. split.
  { exists (frame_row payload). split_and!; [apply encode_frame_row| |by apply decode_frame_row].
    by eapply frame_row_line, json_line. }
  unfold decode_record. cbn [negb app]. rewrite utf8_valid_ascii by apply show_N_ascii.
  cbn [utf8_valid N.ltb N.compare Pos.compare Pos.compare_cont].
  rewrite (json_utf8 _ _ Ha). unfold decode_line.
  rewrite split_blank, parse_show_u64 by (done || by apply show_N_notin).
  assert (Hs : match split_once [32%N] payload with
               | Some (token, rest) => if crc_token token
                   then (parse_radix 16 U32_MAX token, rest) else (None, payload)
               | None => (None, payload)
               end = (None, payload)).
  { destruct (split_once _ payload) as [[token rest]|] eqn:E; [|done].
    by rewrite (object_no_crc _ _ _ _ Ha E). }
  rewrite Hs, N.eqb_refl. cbn [negb ofilter]. by rewrite (json_roundtrip _ _ Ha).
Qed.
End FrameFacts.

(** A concrete codec for the witnesses: objects of one decimal number. *)
Module Toy.
Definition toy_vec (n : N) : option bytes := Some (str "{" ++ show_N n ++ str "}").
Definition toy_json (b : bytes) : option N :=
  match strip_prefix (str "{") b with
  | Some b' => match strip_suffix (str "}") b' with
               | Some d => digits_value 10 0 d
               | None => None
               end
  | None => None
  end.
#[export] Instance toy_Json : Json N := { to_vec := toy_vec; from_json := toy_json }.
#[export] Instance toy_Crc32 : Crc32 := fun b => (foldl N.add 0 b mod 4294967296)%N.
#[export] Instance toy_Crc32Laws : Crc32Laws.
Proof. intros b. by apply N.mod_lt. Qed.

#[export] Instance toy_JsonLaws : JsonLaws N.
Proof.
  split.
  - intros a b [= <-]. unfold from_json, toy_Json, toy_json.
    change (strip_prefix (str "{") _) with (Some (show_N a ++ str "}")). cbn match.
    unfold strip_suffix. rewrite rev_app_distr.
    change (rev (str "}")) with (str "}"). rewrite strip_prefix_app. cbn [option_map].
    rewrite rev_involutive. unfold show_N.
    rewrite digits_value_fixed by done. f_equal.
    rewrite N.mul_0_l, N.add_0_l. apply N.mod_small, dec_width_bound, size_nat_bound.
  - intros a b [= <-]. cbn [str app]. rewrite elem_of_cons, elem_of_app.
    intros [?|[Hin%show_N_range|?%list_elem_of_singleton]]; [done|lia|done].
  - intros a b [= <-]. change (utf8_valid (show_N a ++ str "}") = true).
    by rewrite utf8_valid_ascii by apply show_N_ascii.
  - by intros a b [= <-].
Qed.
End Toy.

(** A codec given by a finite table, for records. *)
Section Table.
Context {A : Type} `{EqDecision A} (table : list (A * bytes)).

Definition table_Json : Json A := {|
  to_vec a := option_map snd (List.find (fun e => bool_decide (e.1 = a)) table);
  from_json b := option_map fst (List.find (fun e => bool_decide (e.2 = b)) table)
|}.
Definition table_ok : bool :=
  forallb (fun e => bool_decide (@from_json _ table_Json e.2 = Some e.1) && utf8_valid e.2
    && bool_decide (10%N ∉ e.2) && bool_decide (head e.2 = Some 123%N)) table.

Lemma table_JsonLaws : table_ok = true -> @JsonLaws A table_Json.
Proof.
  unfold table_ok. rewrite forallb_forall. intros Hok.
  assert (Hall : forall a b, @to_vec _ table_Json a = Some b ->
    @from_json _ table_Json b = Some a /\ utf8_valid b = true /\ 10%N ∉ b /\ head b = Some 123%N).
  { intros a b. cbn [to_vec table_Json]. destruct (List.find _ table) as [[a' b']|] eqn:E; [|done].
    intros [= ->]. apply List.find_some in E as [Hin Ha].
    apply bool_decide_eq_true in Ha as Ha'. simpl in Ha'. subst a'.
    specialize (Hok _ Hin). rewrite !andb_true_iff, !bool_decide_eq_true in Hok. naive_solver. }
  split; naive_solver.
Qed.
End Table.

Import Toy.
Lemma decode_encode_frame_witness :
  encode_frame (str "{42}") = str "4 0000015e {42}" ++ [10%N]
  /\ decode_record 7 true (str "4 {42}") = Ok 42%N.
Proof.
  split; [by vm_compute|].
  apply (decode_encode_frame 42%N (str "{42}") 7); by vm_compute.
Defined.
End FrameFacts.

Module LogFacts.
Import Frame Log FrameFacts.
Section LogFacts.
Context `{Crc32Laws} {A : Type} `{JsonLaws A}.
Implicit Types (b l r t : bytes).

Lemma scan_loop_fuel f g end_ b :
  length b <= f -> length b <= g ->
  scan_loop (A:=A) f end_ b = scan_loop g end_ b.
Proof.
  revert g end_ b. induction f as [|f IH]; intros [|g] end_ b Hf Hg;
    try (destruct b; simpl in *; [done|lia]); [].
  cbn [scan_loop]. pose proof (read_until_app 10 b) as Hb.
  destruct (read_until 10 b) as [buf rest]. subst b. rewrite length_app in *.
  destruct (is_empty buf) eqn:E; [done|]. destruct buf as [|c buf]; [done|]. simpl in Hf, Hg.
  destruct (negb _); [done|].
  destruct (decode_record _ _ _); [|done]. by rewrite (IH g) by lia.
Qed.

Lemma scan_line end_ l r :
  10%N ∉ l ->
  scan_records (A:=A) end_ (l ++ 10%N :: r) =
  match decode_record end_ true l with
  | Ok event =>
      let '(visited, outcome) := scan_records (end_ + u64_of_len (l ++ [10%N])) r in
      ((event, (end_ + u64_of_len (l ++ [10%N]))%N) :: visited, outcome)
  | Err err => if is_empty r then ([], Ok end_) else ([], Err err)
  end.
Proof.
  intros Hl. unfold scan_records at 1. rewrite length_app. cbn [length].
  rewrite <-plus_n_Sm. cbn [scan_loop]. rewrite read_until_found by done.
  rewrite last_snoc, removelast_last.
  replace (is_empty (l ++ [10%N])) with false by by destruct l.
  rewrite bool_decide_eq_true_2 by done. cbn [negb].
  destruct (decode_record end_ true l) as [a|e] eqn:E.
  - unfold scan_records. by rewrite (scan_loop_fuel _ (length r)) by lia.
  - by rewrite (decode_record_corruption _ _ _ _ E).
Qed.

Lemma scan_tail end_ t : 10%N ∉ t -> scan_records (A:=A) end_ t = ([], Ok end_).
Proof.
  intros Ht. unfold scan_records. destruct t as [|c t]; [done|].
  cbn [length scan_loop]. rewrite read_until_none by done. cbn [is_empty].
  rewrite bool_decide_eq_false_2; [done|].
  intros Hlast%last_Some_elem_of. done.
Qed.

Lemma encode_batch_app (es1 es2 : list A) b1 b2 :
  encode_batch es1 = Ok b1 -> encode_batch es2 = Ok b2 -> encode_batch (es1 ++ es2) = Ok (b1 ++ b2).
Proof.
  revert b1. induction es1 as [|e es IH]; simpl; intros b1 H1' H2'; [by simplify_eq|].
  destruct (to_vec e); [|done]. destruct (encode_batch es); [|done]. simplify_eq.
  by rewrite (IH _ eq_refl H2'), <-app_assoc.
Qed.

(** A written batch followed by a torn tail scans to exactly the batch. *)
Lemma scan_batch (es : list A) b t end_ :
  encode_batch es = Ok b -> (u64_of_len b <= U64_MAX)%N -> 10%N ∉ t ->
  exists visited, scan_records end_ (b ++ t) = (visited, Ok (end_ + u64_of_len b)%N)
    /\ map fst visited = es.
Proof.
  revert b end_. induction es as [|e es IH]; simpl; intros b end_ Hb Hlen Ht.
  - injection Hb as <-. exists []. change (u64_of_len []) with 0%N. rewrite N.add_0_r.
    split; [by apply scan_tail|done].
  - destruct (to_vec e) as [payload|] eqn:E; [|done].
    destruct (encode_batch es) as [b'|] eqn:Eb; [|done]. injection Hb as <-.
    rewrite encode_frame_row in *. rewrite <-!app_assoc. cbn [app].
    unfold u64_of_len in *. rewrite !length_app in Hlen. cbn [length] in Hlen.
    assert (Hp : length payload <= length (frame_row payload)).
    { unfold frame_row. rewrite length_app. cbn [length]. rewrite length_app. cbn [length]. lia. }
    rewrite scan_line by (by eapply frame_row_line, json_line).
    rewrite (decode_frame_row e) by (done || unfold u64_of_len; lia).
    destruct (IH b' (end_ + u64_of_len (frame_row payload ++ [10%N]))%N eq_refl) as (v & Hv & Hm);
      [lia|done|].
    rewrite Hv. eexists ((e, _) :: v). split; [|simpl; by rewrite Hm].
    f_equal. f_equal. unfold u64_of_len. rewrite !length_app. cbn [length]. lia.
Qed.

Lemma read_from_scan (f : file) start :
  (u64_of_len (contents f) <= U64_MAX)%N -> (start <= u64_of_len (contents f))%N ->
  read_from_offset (A:=A) f start =
  let '(visited, outcome) := scan_records start (drop (N.to_nat start) (contents f)) in
  let? end_ := outcome in Ok (map fst visited, end_).
Proof.
  intros Hlen Hs. unfold read_from_offset, visit_records_from_offset, visit_records_through_offset.
  destruct f as [b|]; simpl in *.
  - rewrite take_N_all; [done|]. rewrite length_drop. unfold saturating_sub, u64_of_len in *. lia.
  - unfold u64_of_len in Hs. simpl in Hs. by replace start with 0%N by lia.
Qed.

Lemma encode_batch_length (es : list A) b :
  encode_batch es = Ok b -> es <> [] -> 0 < length b.
Proof.
  destruct es as [|e es]; [done|]. simpl. destruct (to_vec e); [|done].
  destruct (encode_batch es); [|done]. intros [= <-] _.
  rewrite encode_frame_row, !length_app. simpl. lia.
Qed.

(** Cutting a batch anywhere leaves whole frames and a line without its end. *)
Lemma batch_prefix (es : list A) b n :
  encode_batch es = Ok b ->
  exists k bk t, encode_batch (take k es) = Ok bk /\ take n b = bk ++ t /\ 10%N ∉ t
    /\ (length b <= n -> k = length es).
Proof.
  revert b n. induction es as [|e es IH]; simpl; intros b n Hb.
  { injection Hb as <-. exists 0, [], []. split_and!; [done|by rewrite take_nil|set_solver|done]. }
  destruct (to_vec e) as [payload|] eqn:E; [|done].
  destruct (encode_batch es) as [b'|] eqn:Eb; [|done]. injection Hb as <-.
  rewrite encode_frame_row, <-app_assoc. cbn [app].
  destruct (decide (n <= length (frame_row payload))) as [Hn|Hn].
  - exists 0, [], (take n (frame_row payload)). cbn [take encode_batch app].
    rewrite take_app_le by done. split_and!; [done|done| |].
    + intros Hin%elem_of_take. destruct Hin as (i & Hi & _).
      apply list_elem_of_lookup_2 in Hi. revert Hi. by eapply frame_row_line, json_line.
    + rewrite length_app. simpl. lia.
  - destruct (IH b' (n - length (frame_row payload) - 1) eq_refl) as (k & bk & t & Hk & Ht & Hni & Hall).
    exists (S k), (encode_frame payload ++ bk), t. cbn [take encode_batch]. rewrite E, Hk.
    split_and!; [done| |done|].
    + rewrite encode_frame_row, take_app_ge, <-!app_assoc by lia. cbn [app]. f_equal.
      replace (n - length (frame_row payload)) with (S (n - length (frame_row payload) - 1)) by lia.
      cbn [take]. by rewrite Ht.
    + rewrite length_app. cbn [length]. intros Hl. rewrite Hall; [done|lia].
Qed.

(** C22: a crash in the middle of writing an ordered group loses only a suffix
    of the group: whatever number of bytes reached the file, reading from the
    old end gives the first records of the group, all of them when all bytes
    did, and the end offset stops right after the last of them. *)
Theorem torn_append_reads_prefix (es : list A) b pre n :
  encode_batch es = Ok b -> (u64_of_len (pre ++ b) <= U64_MAX)%N ->
  exists k bk, encode_batch (take k es) = Ok bk
    /\ read_from_offset (Some (pre ++ take n b)) (u64_of_len pre)
       = Ok (take k es, (u64_of_len pre + u64_of_len bk)%N)
    /\ length bk <= n /\ (length b <= n -> take k es = es).
Proof.
  intros Hb Hlen. unfold u64_of_len in Hlen. rewrite length_app in Hlen.
  destruct (batch_prefix es b n Hb) as (k & bk & t & Hk & Ht & Hni & Hall).
  pose proof (f_equal length Ht) as Hl. rewrite length_take, length_app in Hl.
  exists k, bk. split_and!; [done| |lia|intros Hn; by rewrite (Hall Hn), firstn_all].
  rewrite read_from_scan.
  2,3: unfold u64_of_len; cbn [contents]; rewrite ?length_app, ?length_take; lia.
  cbn [contents]. rewrite to_nat_u64_of_len, drop_app_length, Ht.
  destruct (scan_batch (take k es) bk t (u64_of_len pre) Hk) as (v & -> & Hm);
    [unfold u64_of_len; lia|done|]. by rewrite Hm.
Qed.

Lemma scan_end_app b c end_ v e :
  scan_records (A:=A) end_ b = (v, Ok e) ->
  exists p, (e = end_ + N.of_nat p)%N /\ p <= length b
    /\ scan_records end_ (b ++ c) =
       let '(v', outcome) := scan_records e (drop p b ++ c) in (v ++ v', outcome).
Proof.
  revert end_ v e. induction b as [t Ht|l r Hl IH] using line_ind; intros end_ v e.
  - rewrite scan_tail by done. intros [= <- <-]. exists 0. rewrite drop_0, N.add_0_r.
    split_and!; [done|lia|]. by destruct (scan_records end_ (t ++ c)).
  - rewrite <-app_assoc. cbn [app]. rewrite !scan_line by done.
    destruct (decode_record end_ true l) as [a|er] eqn:E.
    + destruct (scan_records _ r) as [v1 o1] eqn:Er. intros [= <- ->].
      destruct (IH _ _ _ Er) as (p & -> & Hp & ->).
      exists (length (l ++ [10%N]) + p). split_and!.
      * unfold u64_of_len. lia.
      * rewrite !length_app. simpl. lia.
      * replace (drop (length (l ++ [10%N]) + p) (l ++ 10%N :: r)) with (drop p r).
        { by destruct (scan_records _ (drop p r ++ c)). }
        rewrite <-drop_drop, (cons_middle 10%N l r), app_assoc. by rewrite drop_app_length.
    + destruct (is_empty r) eqn:Er; intros [= <- <-].
      exists 0. rewrite drop_0, N.add_0_r. split_and!; [done|lia|].
      rewrite <-app_assoc. cbn [app]. rewrite scan_line, E by done.
      by destruct (is_empty (r ++ c)).
Qed.

(** Reading incrementally agrees with reading at once: after a successful
    read to its end offset, whatever is appended, reading everything from the
    old start gives the old records followed by a read from that offset, and
    fails exactly when that read fails. *)
Theorem incremental_read b c start events e :
  (u64_of_len (b ++ c) <= U64_MAX)%N -> (start <= u64_of_len b)%N ->
  read_from_offset (A:=A) (Some b) start = Ok (events, e) ->
  (start <= e <= u64_of_len b)%N
  /\ read_from_offset (A:=A) (Some (b ++ c)) start =
     let? (events', e') := read_from_offset (Some (b ++ c)) e in Ok (events ++ events', e').
Proof.
  intros Hlen Hs. unfold u64_of_len in *. rewrite length_app in Hlen.
  rewrite read_from_scan by (cbn [contents]; unfold u64_of_len; lia). cbn [contents].
  destruct (scan_records start _) as [v o] eqn:Esc. destruct o as [e'|]; [|done].
  intros [= <- <-].
  destruct (scan_end_app _ c _ _ _ Esc) as (p & -> & Hp & Hsc).
  rewrite length_drop in Hp. split; [lia|].
  rewrite !read_from_scan by (cbn [contents]; unfold u64_of_len; rewrite ?length_app; lia).
  cbn [contents]. rewrite !drop_app_le by lia. rewrite Hsc.
  rewrite N2Nat.inj_add, Nat2N.id, <-drop_drop.
  destruct (scan_records _ (drop p _ ++ c)) as [v' [e''|]]; [|done].
  by rewrite map_app.
Qed.
End LogFacts.

Import Toy.
Lemma torn_append_reads_prefix_witness :
  exists k bk, encode_batch (take k [7%N; 8%N]) = Ok bk
    /\ read_from_offset (Some (str "" ++ take 20 (str "3 0000012f {7}" ++ 10%N :: str "3 00000130 {8}" ++ [10%N]))) 0
       = Ok (take k [7%N; 8%N], (0 + u64_of_len bk)%N).
Proof.
  destruct (torn_append_reads_prefix [7%N; 8%N]
    (str "3 0000012f {7}" ++ 10%N :: str "3 00000130 {8}" ++ [10%N]) [] 20) as (k & bk & H1 & H2 & _);
    [by vm_compute|by vm_compute|]. by exists k, bk.
Defined.

Lemma incremental_read_witness :
  let b := str "3 0000012f {7}" ++ [10%N] in
  let c := str "3 00000130 {8}" ++ [10%N] in
  read_from_offset (Some b) 0 = Ok ([7%N], 15%N)
  /\ read_from_offset (Some (b ++ c)) 0 = Ok ([7%N; 8%N], 30%N).
Proof.
  intros b c. split; [by vm_compute|].
  destruct (incremental_read b c 0 [7%N] 15) as [_ ->]; by vm_compute.
Defined.
End LogFacts.

Module RecoveryFacts.
Import Frame Log Recovery FrameFacts LogFacts.

Lemma rows_loop_fuel f g at_ b :
  length b <= f -> length b <= g -> rows_loop f at_ b = rows_loop g at_ b.
Proof.
  revert g at_ b. induction f as [|f IH]; intros [|g] at_ b Hf Hg;
    try (destruct b; simpl in *; [done|lia]); [].
  cbn [rows_loop]. pose proof (read_until_app 10 b) as Hb.
  destruct (read_until 10 b) as [buf rest]. subst b. rewrite length_app in *.
  destruct buf as [|c buf]; [done|]. simpl in Hf, Hg. cbn [is_empty]. f_equal. apply IH; lia.
Qed.

Definition rows (at_ : N) (b : bytes) : list (N * bool * bytes) := rows_loop (length b) at_ b.

Lemma rows_line at_ l r :
  10%N ∉ l -> rows at_ (l ++ 10%N :: r) = (at_, true, l) :: rows (at_ + u64_of_len l + 1) r.
Proof.
  intros Hl. unfold rows at 1. rewrite length_app. cbn [length]. rewrite <-plus_n_Sm.
  cbn [rows_loop]. rewrite read_until_found by done.
  replace (is_empty (l ++ [10%N])) with false by by destruct l.
  rewrite last_snoc, bool_decide_eq_true_2, removelast_last by done. f_equal.
  unfold rows, u64_of_len. rewrite length_app, <-N.add_assoc. cbn [length].
  rewrite Nat2N.inj_add. apply rows_loop_fuel; lia.
Qed.

Lemma rows_tail at_ t : 10%N ∉ t -> t <> [] -> rows at_ t = [(at_, false, t)].
Proof.
  intros Ht Hne. destruct t as [|c t]; [done|]. unfold rows. cbn [length rows_loop].
  rewrite read_until_none by done. cbn [is_empty]. rewrite bool_decide_eq_false_2.
  - f_equal. by destruct (length t).
  - by intros ?%last_Some_elem_of.
Qed.

Section RecoveryFacts.
Context `{Crc32Laws} {A : Type} `{JsonLaws A}.

(** What the validation loop finds in the bytes [b] read at [at_]: the scan
    visits the records of the valid prefix of [p] bytes and nothing else. *)
Lemma repair_loop_spec b at_ kept :
  exists p v invalid,
    repair_loop (A:=A) (rows at_ b) kept at_ = Ok (kept + length v, (at_ + N.of_nat p)%N, invalid)
    /\ p <= length b
    /\ scan_records at_ (take p b) = (v, Ok (at_ + N.of_nat p)%N)
    /\ (scan_records at_ b).1 = v
    /\ (forall e, (scan_records (A:=A) at_ b).2 = Ok e -> e = (at_ + N.of_nat p)%N)
    /\ match invalid with
       | None => p = length b
       | Some a => a = (at_ + N.of_nat p)%N /\ p < length b
       end.
Proof.
  revert at_ kept. induction b as [t Ht|l r Hl IH] using line_ind; intros at_ kept.
  - destruct (decide (t = [])) as [->|Hne].
    + exists 0, [], None. rewrite N.add_0_r, Nat.add_0_r. split_and!; try done.
      simpl. by intros e [= <-].
    + rewrite rows_tail, scan_tail by done.
      exists 0, [], (Some at_). rewrite N.add_0_r, Nat.add_0_r.
      destruct t; [done|]. split_and!; try done; [simpl; lia|by intros e [= <-]|simpl; lia].
  - rewrite rows_line by done. cbn [repair_loop].
    destruct (decode_record at_ true l) as [a|er] eqn:E.
    + destruct (IH (at_ + u64_of_len l + 1)%N (S kept))
        as (p & v & inv & Hloop & Hp & Hs & Hv & He & Hinv).
      rewrite Hloop. set (q := length (l ++ [10%N])).
      assert (Hq : forall n, (at_ + u64_of_len (l ++ [10%N]) + n = at_ + N.of_nat q + n)%N) by done.
      assert (Hat : (at_ + u64_of_len l + 1 = at_ + u64_of_len (l ++ [10%N]))%N).
      { unfold u64_of_len. rewrite length_app. simpl. lia. }
      rewrite Hat in *.
      exists (q + p), ((a, (at_ + u64_of_len (l ++ [10%N]))%N) :: v), inv.
      assert (Hend : (at_ + N.of_nat (q + p) = at_ + u64_of_len (l ++ [10%N]) + N.of_nat p)%N)
        by (unfold u64_of_len; fold q; lia).
      rewrite Hend. rewrite scan_line, E by done. split_and!.
      * f_equal. f_equal. f_equal. simpl. lia.
      * unfold q. rewrite !length_app. simpl. lia.
      * replace (take (q + p) (l ++ 10%N :: r)) with (l ++ 10%N :: take p r).
        2: { unfold q. rewrite length_app, take_app_ge by lia. f_equal. simpl.
             by replace (length l + 1 + p - length l) with (S p) by lia. }
        by rewrite scan_line, E, Hs by done.
      * destruct (scan_records _ r). simpl in *. by subst.
      * destruct (scan_records _ r). simpl in *. done.
      * destruct inv as [x|]; unfold q; rewrite !length_app; simpl; [|lia].
        destruct Hinv as [-> ?]. split; [done|lia].
    + rewrite (decode_record_corruption _ _ _ _ E). exists 0, [], (Some at_).
      rewrite N.add_0_r, Nat.add_0_r, scan_line, E by done. cbn [take]. split_and!; try done.
      * lia.
      * by destruct (is_empty r).
      * destruct (is_empty r); [by intros e [= <-]|done].
      * rewrite length_app. simpl. lia.
Qed.

Lemma repair_unfold (f : file) :
  exists p v (invalid : option N),
    repair (A:=A) f
    = match invalid with
      | None => Ok ({| frames_kept := length v; bytes_truncated := 0 |}, f)
      | Some _ => Ok ({| frames_kept := length v;
                         bytes_truncated := u64_of_len (contents f) - N.of_nat p |},
                      Some (take p (contents f)))
      end
    /\ p <= length (contents f)
    /\ scan_records 0 (take p (contents f)) = (v, Ok (N.of_nat p))
    /\ (scan_records 0 (contents f)).1 = v
    /\ (forall e, (scan_records (A:=A) 0 (contents f)).2 = Ok e -> e = N.of_nat p)
    /\ match invalid with
       | None => p = length (contents f) | Some a => p < length (contents f) end.
Proof.
  destruct (repair_loop_spec (contents f) 0 0) as (p & v & inv & Hloop & Hp & Hs & Hv & He & Hinv).
  exists p, v, inv. rewrite N.add_0_l in *. unfold repair, read_rows. cbn [N.to_nat drop].
  change (drop (N.to_nat 0) (contents f)) with (contents f). cbv zeta.
  fold (rows 0 (contents f)). rewrite Hloop. cbn [plus]. split_and!; try done.
  - destruct inv as [a|]; [|done]. destruct Hinv as [-> _].
    unfold saturating_sub. by rewrite Nat2N.id.
  - destruct inv; [|done]. by destruct Hinv.
Qed.

(** C21: repairing a damaged log never fails; it keeps the longest prefix of
    valid records, every record a scan of the damaged log delivers and no
    other, reports exactly what it cut, and a second repair changes nothing. *)
Theorem repair_keeps_valid_prefix (f : file) :
  (u64_of_len (contents f) <= U64_MAX)%N ->
  exists out f' events,
    repair (A:=A) f = Ok (out, f')
    /\ contents f' `prefix_of` contents f
    /\ bytes_truncated out = (u64_of_len (contents f) - u64_of_len (contents f'))%N
    /\ (truncated out = false -> f' = f)
    /\ read_all f' = Ok events /\ length events = frames_kept out
    /\ events = map fst (visit_records_from_offset f 0).1
    /\ repair (A:=A) f' = Ok ({| frames_kept := frames_kept out; bytes_truncated := 0 |}, f').
Proof.
  intros Hlen. destruct (repair_unfold f) as (p & v & inv & Hr & Hp & Hs & Hv & _ & Hinv).
  assert (Hvis : (visit_records_from_offset f 0).1 = v).
  { rewrite <-Hv. unfold visit_records_from_offset, visit_records_through_offset.
    destruct f as [b|]; [|done]. cbn [contents] in *.
    change (drop (N.to_nat 0) b) with b.
    rewrite take_N_all; [done|]. unfold saturating_sub, u64_of_len in *. lia. }
  set (f' := match inv with None => f | Some _ => Some (take p (contents f)) end).
  assert (Hf' : contents f' = take p (contents f)).
  { unfold f'. destruct inv; [done|]. subst p. by rewrite firstn_all. }
  exists {| frames_kept := length v;
            bytes_truncated := u64_of_len (contents f) - N.of_nat p |}, f', (map fst v).
  rewrite Hf'. cbn [frames_kept bytes_truncated].
  assert (Hl' : u64_of_len (take p (contents f)) = N.of_nat p)
    by (unfold u64_of_len; rewrite length_take; lia).
  split_and!.
  - rewrite Hr. unfold f', u64_of_len. destruct inv; [done|]. subst p. by rewrite N.sub_diag.
  - exists (drop p (contents f)). by rewrite take_drop.
  - by rewrite Hl'.
  - unfold truncated, f'. cbn [bytes_truncated]. rewrite N.ltb_ge. unfold u64_of_len.
    destruct inv; [lia|done].
  - unfold read_all. rewrite read_from_scan by (rewrite Hf', ?Hl'; unfold u64_of_len in *; lia).
    by rewrite Hf', drop_0, Hs.
  - by rewrite length_map.
  - by rewrite Hvis.
  - destruct (repair_unfold f') as (p' & v' & inv' & Hr' & Hp' & Hs' & Hv' & He' & Hinv').
    rewrite Hf', Hs in *. simpl in Hv', He'. specialize (He' _ eq_refl).
    rewrite Hr', <-Hv'. destruct inv'; [|done]. rewrite length_take in *. lia.
Qed.

End RecoveryFacts.

Import Toy.
Lemma repair_keeps_valid_prefix_witness :
  let log := Some (str "3 0000012f {7}" ++ 10%N :: str "3 00000131 {8}" ++ 10%N :: str "torn") in
  repair (A:=N) log = Ok ({| frames_kept := 1; bytes_truncated := 19 |}, Some (str "3 0000012f {7}" ++ [10%N]))
  /\ exists out f' events, repair (A:=N) log = Ok (out, f') /\ read_all f' = Ok events
     /\ length events = frames_kept out.
Proof.
  intros log. split; [by vm_compute|].
  destruct (repair_keeps_valid_prefix (A:=N) log) as (out & f' & es & H1 & _ & _ & _ & H2 & H3 & _);
    [by vm_compute|]. by exists out, f', es.
Defined.
End RecoveryFacts.

Module RowFacts.
Import Frame.

Lemma back_loop_spec fuel b at_ row :
  at_ <= length b -> at_ <= fuel ->
  exists a, back_loop fuel b at_ row = (a, row ++ rev (drop a (take at_ b)))
    /\ a <= at_ /\ 10%N ∉ drop a (take at_ b) /\ (a = 0 \/ b !! (a - 1) = Some 10%N).
Proof.
  revert at_ row. induction fuel as [|fuel IH]; intros at_ row Hb Hf.
  { replace at_ with 0 by lia. exists 0. simpl. rewrite app_nil_r. split_and!; [done|done|set_solver|auto]. }
  cbn [back_loop]. destruct (Nat.eqb_spec at_ 0) as [->|Hne].
  { exists 0. simpl. rewrite app_nil_r. split_and!; [done|done|set_solver|auto]. }
  set (count := Nat.min at_ 256). set (a1 := at_ - count).
  assert (Hblock : take count (drop a1 b) = drop a1 (take at_ b)).
  { rewrite firstn_skipn_comm. f_equal. f_equal. unfold a1. lia. }
  rewrite Hblock. set (block := drop a1 (take at_ b)).
  destruct (rposition _ block) as [k|] eqn:Er.
  - apply rposition_Some in Er as (x & Hx & ->%N.eqb_eq & Hall).
    assert (Hk : k < length block) by by eapply lookup_lt_Some.
    unfold block in Hk. rewrite length_drop, length_take in Hk.
    exists (a1 + k + 1). unfold block in *. rewrite drop_drop in *.
    replace (a1 + (k + 1)) with (a1 + k + 1) by lia.
    replace (a1 + S k) with (a1 + k + 1) in Hall by lia.
    split_and!; [done|lia| |].
    + intros Hin. specialize (Hall _ Hin). by rewrite N.eqb_refl in Hall.
    + right. replace (a1 + k + 1 - 1) with (a1 + k) by lia.
      rewrite lookup_drop in Hx. by rewrite lookup_take_lt in Hx by lia.
  - destruct (IH a1 (row ++ rev block)) as (a & -> & Ha & Hni & Hor); [lia|lia|].
    assert (Hsplit : drop a (take at_ b) = drop a (take a1 b) ++ block).
    { unfold block. rewrite <-(take_drop a1 (take at_ b)) at 1.
      rewrite take_take, Nat.min_l by lia. rewrite drop_app_le; [done|].
      rewrite length_take. lia. }
    exists a. rewrite Hsplit, rev_app_distr, app_assoc.
    split_and!; [done|lia| |done]. rewrite elem_of_app. intros [?|Hin]; [done|].
    by specialize (rposition_None _ _ Er _ Hin).
Qed.

Lemma last_take (l : bytes) a :
  a <= length l -> l !! (a - 1) = Some 10%N -> a <> 0 -> last (take a l) = Some 10%N.
Proof.
  intros Hl Ha Ha0. rewrite last_lookup, length_take. rewrite Nat.min_l by lia.
  replace (pred a) with (a - 1) by lia. rewrite lookup_take_lt by lia. done.
Qed.

(** The bytes of a file cut around the row that ends at [end_]. *)
Definition row_at (f : file) (end_ at_ : N) (row : bytes) : Prop :=
  exists before after, contents f = before ++ row ++ [10%N] ++ after
    /\ at_ = u64_of_len before /\ end_ = u64_of_len (before ++ row ++ [10%N])
    /\ 10%N ∉ row /\ (before = [] \/ last before = Some 10%N).

Lemma row_ending_at_sound (f : file) end_ at_ row :
  read_row_ending_at f end_ = Some (at_, row) -> row_at f end_ at_ row.
Proof.
  unfold read_row_ending_at, row_at. set (b := contents f).
  destruct (N.eqb_spec end_ 0) as [|He]; [done|].
  destruct (b !! N.to_nat (end_ - 1)) as [c|] eqn:Ec; [|done].
  assert (Hlt : N.to_nat (end_ - 1) < length b) by by eapply lookup_lt_Some.
  set (e := N.to_nat (end_ - 1)) in *.
  destruct (decide (c = 10%N)) as [->|Hc]; [|by repeat case_match].
  destruct (back_loop_spec e b e [] ltac:(lia) ltac:(lia)) as (a & -> & Ha & Hni & Hor).
  rewrite app_nil_l, rev_involutive. intros [= <- <-].
  exists (take a b), (drop (S e) b).
  assert (Hb : b = take a b ++ drop a (take e b) ++ [10%N] ++ drop (S e) b).
  { rewrite <-(take_drop e b) at 1. rewrite (drop_S _ _ _ Ec). cbn [app].
    rewrite <-(take_drop a (take e b)) at 1. rewrite take_take, Nat.min_l by lia.
    by rewrite <-app_assoc. }
  split_and!; [done| | |done|].
  + unfold u64_of_len. rewrite length_take. lia.
  + unfold u64_of_len. rewrite !length_app, length_take, length_drop, length_take. simpl. lia.
  + destruct (decide (a = 0)) as [->|Ha0]; [by left|right]. apply last_take; [lia| |done].
    by destruct Hor.
Qed.

Lemma row_ending_at_complete (f : file) end_ at_ row :
  row_at f end_ at_ row -> read_row_ending_at f end_ = Some (at_, row).
Proof.
  unfold read_row_ending_at, row_at. set (b := contents f).
  intros (before & after & Hb & -> & -> & Hni & Hor). rewrite Hb.
  assert (He : N.to_nat (u64_of_len (before ++ row ++ [10%N]) - 1) = length (before ++ row)).
  { unfold u64_of_len. rewrite !length_app. simpl. lia. }
  rewrite He.
  destruct (N.eqb_spec (u64_of_len (before ++ row ++ [10%N])) 0) as [H0|_].
  { unfold u64_of_len in H0. rewrite !length_app in H0. simpl in H0. lia. }
  cbn [app]. rewrite (app_assoc before row), list_lookup_middle by done.
  set (bb := (before ++ row) ++ 10%N :: after).
  destruct (back_loop_spec (length (before ++ row)) bb (length (before ++ row)) [])
    as (a & -> & Ha & Hni2 & Hor2); [unfold bb; rewrite !length_app; lia|done|].
  rewrite app_nil_l, rev_involutive. unfold bb in *. rewrite take_app_length in *.
  rewrite length_app in Ha.
  assert (a = length before) as ->.
  { destruct (lt_eq_lt_dec a (length before)) as [[Hlt|]|Hgt]; [exfalso|done|exfalso].
    - destruct Hor as [->|Hl]; [simpl in Hlt; lia|]. apply Hni2.
      rewrite drop_app_le by lia. apply elem_of_app. left.
      rewrite last_lookup in Hl. eapply (list_elem_of_lookup_2 _ (pred (length before) - a)).
      rewrite lookup_drop. replace (a + (pred (length before) - a)) with (pred (length before)) by lia.
      done.
    - destruct Hor2 as [->|Hl]; [lia|]. apply Hni.
      rewrite <-app_assoc, lookup_app_r in Hl by lia. rewrite lookup_app_l in Hl by lia.
      by eapply list_elem_of_lookup_2. }
  by rewrite drop_app_length.
Qed.

(** The backward block search finds exactly the terminated row that ends at
    an offset: its start, its bytes, and nothing when no row ends there. *)
Theorem row_ending_at_spec (f : file) end_ at_ row :
  read_row_ending_at f end_ = Some (at_, row) <->
  exists before after, contents f = before ++ row ++ [10%N] ++ after
    /\ at_ = u64_of_len before /\ end_ = u64_of_len (before ++ row ++ [10%N])
    /\ 10%N ∉ row /\ (before = [] \/ last before = Some 10%N).
Proof. split; [apply row_ending_at_sound|apply row_ending_at_complete]. Qed.
End RowFacts.

Module RotationFacts.
Import Rotation.

Lemma newest_archives_drop archive limit :
  exists front, sort_by id text_leb (filter (fun n => is_archive_name n = true) (map fst archive))
                = front ++ newest_archives archive limit
    /\ length (newest_archives archive limit)
       = Nat.min limit (length (filter (fun n => is_archive_name n = true) (map fst archive))).
Proof.
  unfold newest_archives. set (l := filter _ _).
  assert (Hl : length (sort_by id text_leb l) = length l) by (by rewrite sort_by_Permutation).
  destruct (Nat.ltb_spec limit (length (sort_by id text_leb l))).
  - eexists. split; [symmetry; apply take_drop|]. rewrite length_drop. lia.
  - exists []. split; [done|]. lia.
Qed.

(** The newest archives are in order, as many as asked for, and none left out
    is newer. *)
Lemma newest_archives_spec archive limit :
  let newest := newest_archives archive limit in
  StronglySorted (fun a b => text_leb a b = true) newest
  /\ length newest = Nat.min limit (length (filter (fun n => is_archive_name n = true) (map fst archive)))
  /\ (forall n, n ∈ newest -> is_archive_name n = true /\ n ∈ map fst archive)
  /\ (forall n, n ∈ map fst archive -> is_archive_name n = true -> n ∉ newest ->
        forall m, m ∈ newest -> text_leb n m = true).
Proof.
  intros newest. destruct (newest_archives_drop archive limit) as (front & Hs & Hlen).
  fold newest in Hs, Hlen. set (l := filter _ _) in *.
  pose proof (sort_by_StronglySorted id text_leb l) as Hsort.
  pose proof (sort_by_Permutation id text_leb l) as Hperm. rewrite Hs in Hsort, Hperm.
  apply StronglySorted_app in Hsort as (Hfn & _ & Hn).
  split_and!; [done|done| |].
  - intros n Hin. assert (H : n ∈ front ++ newest) by (apply elem_of_app; by right).
    rewrite Hperm in H. unfold l in H. by apply list_elem_of_filter in H.
  - intros n Hin Ha Hni m Hm. apply Hfn; [|done].
    assert (H : n ∈ l) by by apply list_elem_of_filter.
    rewrite <-Hperm in H. by apply elem_of_app in H as [?|?].
Qed.

Lemma newest_archives_last archive limit name :
  0 < limit -> is_archive_name name = true -> name ∈ map fst archive ->
  (forall n, n ∈ map fst archive -> n = name \/ text_ltb n name = true) ->
  last (newest_archives archive limit) = Some name.
Proof.
  intros Hlim Ha Hin Hmax. destruct (newest_archives_spec archive limit) as (Hs & Hlen & Hsub & Hout).
  set (newest := newest_archives archive limit) in *.
  set (l := filter _ _) in *.
  assert (Hl : name ∈ l) by by apply list_elem_of_filter.
  destruct newest as [|x xs] using rev_ind; [destruct l; [set_solver|simpl in Hlen; lia]|].
  clear IHxs. rewrite last_snoc. f_equal.
  destruct (Hsub x ltac:(set_solver)) as [_ Hx].
  destruct (Hmax x Hx) as [|Hlt]; [done|exfalso].
  assert (Hle : text_leb name x = true).
  { destruct (decide (name ∈ xs ++ [x])) as [H|H]; [|by apply Hout; set_solver].
    apply elem_of_app in H as [H| ->%list_elem_of_singleton]; [|by rewrite text_ltb_irrefl in Hlt].
    apply StronglySorted_app in Hs as (Hs & _ & _). apply Hs; set_solver. }
  by rewrite text_leb_ltb, Hlt in Hle.
Qed.

(** Rotation moves the whole log under a fresh archive name that the newest
    archives then end with, or leaves log and archive alone below the
    threshold. *)
Theorem rotate_moves_log log archive min_bytes uuid mtime :
  let '(outcome, log', archive') := rotate log archive min_bytes uuid mtime in
  current_bytes outcome = u64_of_len (contents log) /\
  match outcome with
  | Skipped n => log' = log /\ archive' = archive /\ (n = 0 \/ n < min_bytes)%N
  | Rotated name n =>
      log' = None /\ (min_bytes <= n)%N /\ is_archive_name name = true
      /\ (name, (contents log, mtime)) ∈ archive'
      /\ (forall entry, entry.1 <> name -> (entry ∈ archive' <-> entry ∈ archive))
      /\ ((forall entry, entry ∈ archive -> text_ltb entry.1 name = true) ->
          forall limit, 0 < limit -> last (newest_archives archive' limit) = Some name)
  end.
Proof.
  unfold rotate. set (n := u64_of_len (contents log)).
  destruct ((n =? 0)%N || (n <? min_bytes)%N) eqn:E.
  - rewrite orb_true_iff, N.eqb_eq, N.ltb_lt in E. done.
  - rewrite orb_false_iff, N.eqb_neq, N.ltb_ge in E. cbn [current_bytes].
    set (name := str "events." ++ uuid ++ str ".jsonl").
    set (archive' := filter _ archive ++ [(name, (contents log, mtime))]).
    assert (Hname : is_archive_name name = true).
    { unfold is_archive_name. apply andb_true_intro. split.
      - apply starts_with_true. by eexists.
      - apply ends_with_true. exists (str "events." ++ uuid). unfold name. by rewrite app_assoc. }
    assert (Hin : (name, (contents log, mtime)) ∈ archive') by (unfold archive'; set_solver).
    split_and!; [done|done|tauto|done|done| |].
    + intros entry Hne. unfold archive'. rewrite elem_of_app, list_elem_of_filter, list_elem_of_singleton.
      split; [|tauto]. intros [?| ->]; [tauto|done].
    + intros Hall limit Hlim. apply newest_archives_last; [done|done|apply list_elem_of_fmap; by eexists (name, _)|].
      intros n0 ([n1 x] & -> & Hn)%list_elem_of_fmap. unfold archive' in Hn.
      rewrite elem_of_app, list_elem_of_filter, list_elem_of_singleton in Hn.
      destruct Hn as [[_ Hn]|[= -> ->]]; [|by left]. right. by apply (Hall _ Hn).
Qed.

(** Pruning removes exactly the archive-named files at least [older_than]
    old, never a foreign file or one dated in the future, keeps the others in
    order, and reports what it removed. *)
Theorem prune_archive_spec now older_than archive :
  (0 <= older_than)%Z ->
  let '(report, kept) := prune_archive now older_than archive in
  kept = filter (fun e => prunable now older_than e = false) archive
  /\ (forall e, e ∈ archive -> e ∉ kept ->
        is_archive_name e.1 = true /\ (e.2.2 + older_than <= now)%Z)
  /\ (forall e, e ∈ kept -> is_archive_name e.1 = false \/ (now < e.2.2 + older_than)%Z)
  /\ files_removed report = length archive - length kept
  /\ bytes_removed report
     = N.min (foldr (fun e n => u64_of_len e.2.1 + n) 0
               (filter (fun e => prunable now older_than e = true) archive))%N U64_MAX.
Proof.
  intros Ho. unfold prune_archive.
  assert (Hgen : forall entries report, (bytes_removed report <= U64_MAX)%N ->
    let '(report', kept) := prune_loop now older_than entries report in
    kept = filter (fun e => prunable now older_than e = false) entries
    /\ length entries = length kept + (files_removed report' - files_removed report)
    /\ files_removed report <= files_removed report'
    /\ bytes_removed report' = N.min (bytes_removed report +
         foldr (fun e n => u64_of_len e.2.1 + n) 0
               (filter (fun e => prunable now older_than e = true) entries))%N U64_MAX).
  { induction entries as [|e entries IH]; intros report Hr; cbn [prune_loop].
    - rewrite !filter_nil. simpl. split_and!; [done|lia|done|rewrite N.add_0_r; lia].
    - rewrite !filter_cons. destruct (prunable now older_than e) eqn:E.
      + rewrite decide_False, decide_True by done.
        specialize (IH {| files_removed := S (files_removed report);
          bytes_removed := saturating_add_u64 (bytes_removed report) (u64_of_len e.2.1) |}
          (N.le_min_r _ _)).
        destruct (prune_loop _ _ _ _) as [report' kept]. cbn [files_removed bytes_removed] in IH.
        destruct IH as (-> & Hl & Hle & ->). cbn [foldr length]. unfold saturating_add_u64.
        split_and!; [done|lia..].
      + rewrite decide_True, decide_False by done.
        specialize (IH report Hr). destruct (prune_loop _ _ _ _) as [report' kept].
        destruct IH as (-> & Hl & Hle & ->). cbn [length]. split_and!; [done|lia..]. }
  specialize (Hgen archive {| files_removed := 0; bytes_removed := 0 |} ltac:(done)).
  destruct (prune_loop _ _ _ _) as [report kept]. cbn [files_removed bytes_removed] in Hgen.
  destruct Hgen as (-> & Hl & _ & Hb).
  assert (Hprun : forall e, prunable now older_than e = true <->
            is_archive_name e.1 = true /\ (e.2.2 + older_than <= now)%Z).
  { intros e. unfold prunable. rewrite !andb_true_iff, negb_true_iff, Z.leb_le, Z.ltb_ge.
    split; [intros [[? ?] ?]|intros [? ?]]; (split; [tauto || done|lia]) || (split_and!; [done|lia|lia]). }
  split_and!; [done| | |lia|by rewrite N.add_0_l in Hb].
  - intros e He Hni. apply Hprun. destruct (prunable now older_than e) eqn:E; [done|].
    destruct Hni. by apply list_elem_of_filter.
  - intros e [He _]%list_elem_of_filter. destruct (is_archive_name e.1) eqn:Ea; [right|by left].
    apply Z.nle_gt. intros Hle. assert (H : prunable now older_than e = true) by by apply Hprun.
    congruence.
Qed.

Lemma prune_archive_spec_witness :
  let archive := [(str "events.1.jsonl", (str "x", 10%Z)); (str "notes.txt", (str "y", 0%Z));
                  (str "events.2.jsonl", (str "zz", 95%Z))] in
  prune_archive 100 50 archive
  = ({| files_removed := 1; bytes_removed := 1 |}, drop 1 archive)
  /\ (prune_archive 100 50 archive).2
     = filter (fun e => prunable 100 50 e = false) archive.
Proof.
  intros archive. split; [by vm_compute|].
  pose proof (prune_archive_spec 100 50 archive ltac:(done)) as H.
  destruct (prune_archive 100 50 archive). by destruct H.
Defined.
End RotationFacts.
