(* ===== verification/Ingress.v ===== *)
(** * Hook ingress ([crates/rimz/src/store/ingress.rs])

    The frames hooks append and the drainer's byte cursor over them.  The
    state is the ingress log and the cursor file; every function runs under
    the lock its documentation names, so each is one atomic step here. *)

From S2P Require Import Prelude EventLog.
Import Frame Log.

Definition CURSOR_VERSION : N := 1.

Record HookIngress := {
  boot_id : option text;
  schema_version : text;
  event_id : text;
  ts : Z;
  source : text;
  event : option text;
  payload : text;
  cwd : text;
  hook_pid : N;
  env : gmap text text
}.

Record HookDrainCursor := {
  version : N;
  applied : N;
  claimed : N;
  applied_event_id : option text;
  claimed_event_id : option text;
  log_extent_at_claim : LogExtent
}.
#[export] Instance HookDrainCursor_eq_dec : EqDecision HookDrainCursor.
Proof. solve_decision. Defined.

Definition default_cursor : HookDrainCursor :=
  {| version := CURSOR_VERSION; applied := 0; claimed := 0;
     applied_event_id := None; claimed_event_id := None;
     log_extent_at_claim := {| generation := 0; offset := 0 |} |}.

#[export] Instance HookIngress_eq_dec : EqDecision HookIngress.
Proof. solve_decision. Defined.

(** The two files of [StatePaths] this module owns. *)
Record ingress_state := { hook_ingress_log : file; hook_drain_cursor : file }.
#[export] Instance ingress_state_eta : Eta ingress_state :=
  fun s => {| hook_ingress_log := hook_ingress_log s; hook_drain_cursor := hook_drain_cursor s |}.

Inductive DiagEvent :=
| HookIngressTruncated (start end_ : N)
| HookIngressSkipped (start end_ : N) (error : EventLogErr).

Definition log_len (s : ingress_state) : N := u64_of_len (contents (hook_ingress_log s)).

Section Ingress.
Context `{Crc32} `{Json HookIngress} `{Json HookDrainCursor}.

Definition append (s : ingress_state) (frame : HookIngress)
  : result EventLogErr (N * ingress_state) :=
  let? log := Log.append (hook_ingress_log s) frame in
  let s := s <| hook_ingress_log := log |> in
  Ok (log_len s, s).

Definition read_from_offset (s : ingress_state) (start : N)
  : result EventLogErr (list (HookIngress * N) * N) :=
  let through := log_len s in
  let '(frames, outcome) :=
    visit_records_through_offset (hook_ingress_log s) start through in
  let? end_ := outcome in Ok (frames, end_).

(** The candidates of [fused_frame] are the positions [1..row.len()]; [row]
    here is the suffix that starts at the next one, [at_] its offset. *)
Fixpoint fused_loop (at_ : N) (row : bytes) : option (N * HookIngress) :=
  match row with
  | [] => None
  | c :: row' =>
      if is_ascii_digit c then
        match decode_record at_ true row with
        | Ok frame => Some (at_, frame)
        | Err _ => fused_loop (at_ + 1) row'
        end
      else fused_loop (at_ + 1) row'
  end.
Definition fused_frame (at_ : N) (row : bytes) : option (N * HookIngress) :=
  match row with
  | [] => None
  | _ :: row' => fused_loop (at_ + 1) row'
  end.

Fixpoint repair_loop (rows : list (N * bool * bytes)) (log : file)
  : result EventLogErr (list (option HookIngress * N) * list DiagEvent * file) :=
  match rows with
  | [] => Ok ([], [], log)
  | (at_, terminated, b) :: rows' =>
      let end_ := (at_ + u64_of_len b + (if terminated then 1 else 0))%N in
      if negb terminated
      then Ok ([], [HookIngressTruncated at_ end_],
               Some (take (N.to_nat at_) (contents log)))
      else
        match decode_record at_ terminated b with
        | Ok frame =>
            let? (records, diag, log) := repair_loop rows' log in
            Ok ((Some frame, end_) :: records, diag, log)
        | Err error =>
            if is_corruption error then
              let fused := fused_frame at_ b in
              let diag0 := HookIngressSkipped at_
                (match fused with Some (start, _) => start | None => end_ end) error in
              let? (records, diag, log) := repair_loop rows' log in
              Ok ((option_map snd fused, end_) :: records, diag0 :: diag, log)
            else Err error
        end
  end.
Definition repair_and_read (s : ingress_state) (start : N)
  : result EventLogErr (list (option HookIngress * N) * list DiagEvent * ingress_state) :=
  let? (records, diag, log) :=
    repair_loop (read_rows (hook_ingress_log s) start) (hook_ingress_log s) in
  Ok (records, diag, s <| hook_ingress_log := log |>).

(** One turn of the loop of [read_cursor]: [Ok true] continues. *)
Definition cursor_end_ok (s : ingress_state) (end_ : N) (expected_id : option text)
  : result EventLogErr bool :=
  if (end_ =? 0)%N then Ok (is_none expected_id)
  else
    let! (at_, b) := read_row_ending_at (hook_ingress_log s) end_ else Ok false in
    let? id :=
      match decode_record at_ true b with
      | Ok frame => Ok (Some (event_id frame))
      | Err error =>
          if is_corruption error
          then Ok (option_map (fun f => event_id f.2) (fused_frame at_ b))
          else Err error
      end in
    Ok (bool_decide (expected_id = id)).

Definition read_cursor (s : ingress_state) : result EventLogErr HookDrainCursor :=
  let! b := hook_drain_cursor s else Ok default_cursor in
  let! cursor := from_json b else Err Atomic in
  if negb (version cursor =? CURSOR_VERSION)%N then Err Io
  else
    let len := log_len s in
    if (len <? applied cursor)%N || (len <? claimed cursor)%N then Ok default_cursor
    else
      let? applied_ok := cursor_end_ok s (applied cursor) (applied_event_id cursor) in
      if negb applied_ok then Ok default_cursor
      else
        let? claimed_ok := cursor_end_ok s (claimed cursor) (claimed_event_id cursor) in
        if negb claimed_ok then Ok default_cursor
        else Ok cursor.

(** Also [write_cursor_cache], which only skips the fsync. *)
Definition write_cursor (s : ingress_state) (cursor : HookDrainCursor)
  : result EventLogErr ingress_state :=
  let! b := to_vec cursor else Err Atomic in
  Ok (s <| hook_drain_cursor := Some b |>).

(** The truncation is done before the cursor is reset, so it stays when the
    reset fails: the state is returned with either outcome. *)
Definition truncate_drained (s : ingress_state) : result EventLogErr bool * ingress_state :=
  let len := log_len s in
  if (len =? 0)%N then (Ok false, s)
  else
    match read_cursor s with
    | Err e => (Err e, s)
    | Ok cursor =>
        if negb (applied cursor =? len)%N || negb (claimed cursor =? len)%N then (Ok false, s)
        else
          let s := s <| hook_ingress_log := Some [] |> in
          match write_cursor s default_cursor with
          | Err e => (Err e, s)
          | Ok s => (Ok true, s)
          end
    end.
End Ingress.

(** * Properties *)

Import FrameFacts LogFacts RecoveryFacts RowFacts.

Section IngressFacts.
Context `{Crc32Laws} `{JsonLaws HookIngress} `{JsonLaws HookDrainCursor}.

(** What the drainer makes of a terminated row: its frame, else the frame
    fused into it, else nothing. *)
Definition row_record (at_ : N) (row : bytes) : option HookIngress :=
  match decode_record at_ true row with
  | Ok frame => Some frame
  | Err _ => option_map snd (fused_frame at_ row)
  end.

Definition at_boundary (b : bytes) : Prop := b = [] \/ last b = Some 10%N.

Lemma at_boundary_row pre l : at_boundary (pre ++ l ++ [10%N]).
Proof. right. rewrite app_assoc. apply last_snoc. Qed.

Lemma row_at_head pre l r :
  10%N ∉ l -> at_boundary pre ->
  row_at (Some (pre ++ l ++ 10%N :: r)) (u64_of_len (pre ++ l ++ [10%N])) (u64_of_len pre) l.
Proof. intros Hl Hp. by exists pre, r. Qed.

Lemma repair_loop_row at_ l rest log records diag log' :
  repair_loop rest log = Ok (records, diag, log') ->
  exists diag', repair_loop ((at_, true, l) :: rest) log
    = Ok ((row_record at_ l, (at_ + u64_of_len l + 1)%N) :: records, diag', log').
Proof.
  intros Hloop. cbn [repair_loop negb]. unfold row_record.
  destruct (decode_record at_ true l) eqn:E; [rewrite Hloop; by eexists|].
  rewrite (decode_record_corruption _ _ _ _ E), Hloop. by eexists.
Qed.

(** The repair pass over the pending bytes [b] behind [pre]. *)
Lemma ingress_repair_loop_spec b pre log :
  contents log = pre ++ b -> at_boundary pre ->
  exists records diag log' kept tail,
    repair_loop (rows (u64_of_len pre) b) log = Ok (records, diag, log')
    /\ b = kept ++ tail /\ 10%N ∉ tail /\ contents log' = pre ++ kept /\ at_boundary kept
    /\ Forall (fun '(r, end_) => exists at_ row,
         row_at (Some (pre ++ kept)) end_ at_ row /\ r = row_record at_ row
         /\ (u64_of_len pre <= at_)%N) records
    /\ length records = length (filter (fun c => c = 10%N) kept)
    /\ last (map snd records) = (if is_empty kept then None else Some (u64_of_len (pre ++ kept))).
Proof.
  revert pre. induction b as [t Ht|l r Hl IH] using line_ind; intros pre Hlog Hpre.
  - destruct (decide (t = [])) as [->|Hne].
    + exists [], [], log, [], []. split_and!; try done; try set_solver; by left.
    + rewrite rows_tail by done. cbn [repair_loop negb].
      eexists [], [_], _, [], t. split_and!; try done; [|by left].
      cbn [contents]. by rewrite Hlog, to_nat_u64_of_len, take_app_length, app_nil_r.
  - assert (Hnext : (u64_of_len pre + u64_of_len l + 1 = u64_of_len (pre ++ l ++ [10%N]))%N).
    { unfold u64_of_len. rewrite !length_app. simpl. lia. }
    destruct (IH (pre ++ l ++ [10%N])) as
      (records & diag & log' & kept & tail & Hloop & -> & Htail & Hlog' & Hb & Hall & Hcount & Hlast).
    { rewrite Hlog, <-!app_assoc. done. }
    { apply at_boundary_row. }
    assert (Hk : pre ++ l ++ 10%N :: kept = (pre ++ l ++ [10%N]) ++ kept) by (by rewrite <-!app_assoc).
    rewrite <-Hk in *.
    destruct (repair_loop_row (u64_of_len pre) l (rows (u64_of_len (pre ++ l ++ [10%N])) (kept ++ tail))
      log records diag log' Hloop) as [diag' Hrow]. rewrite Hnext in Hrow.
    exists ((row_record (u64_of_len pre) l, u64_of_len (pre ++ l ++ [10%N])) :: records), diag', log',
      (l ++ 10%N :: kept), tail.
    split_and!; [|by rewrite <-app_assoc|done|done| | | |].
    + by rewrite rows_line, Hnext by done.
    + right. destruct Hb as [-> |Hb]; [apply last_snoc|].
      rewrite cons_middle, app_assoc, last_app, Hb. done.
    + constructor.
      * eexists _, _. split_and!; [by apply row_at_head|done|done].
      * eapply Forall_impl; [exact Hall|]. intros [r end_] (at_ & row & Hat & Hr & Hle).
        exists at_, row. split_and!; [done|done|lia].
    + rewrite filter_app, length_app, filter_cons, decide_True by done. cbn [length].
      rewrite Hcount. replace (filter _ l) with (@nil N); [done|].
      clear -Hl. symmetry. induction l as [|c l IHl]; [done|].
      rewrite filter_cons, decide_False by set_solver. apply IHl. set_solver.
    + cbn [map]. rewrite last_cons, Hlast. replace (is_empty (l ++ 10%N :: kept)) with false by by destruct l.
      destruct kept; done.
Qed.

(** Repairing and reading the pending ingress from a frame boundary never
    fails: it cuts at most a line without its end, and every other line
    yields exactly one record, at the offset where that line ends in the
    repaired log, holding its frame or the frame fused into it. *)
Theorem repair_and_read_spec s start :
  (start <= log_len s)%N ->
  at_boundary (take (N.to_nat start) (contents (hook_ingress_log s))) ->
  exists records diag s' kept tail,
    repair_and_read s start = Ok (records, diag, s')
    /\ hook_drain_cursor s' = hook_drain_cursor s
    /\ drop (N.to_nat start) (contents (hook_ingress_log s)) = kept ++ tail /\ 10%N ∉ tail
    /\ contents (hook_ingress_log s') = take (N.to_nat start) (contents (hook_ingress_log s)) ++ kept
    /\ at_boundary kept
    /\ length records = length (filter (fun c => c = 10%N) kept)
    /\ Forall (fun '(r, end_) => exists at_ row,
         read_row_ending_at (hook_ingress_log s') end_ = Some (at_, row)
         /\ r = row_record at_ row /\ (start <= at_)%N) records
    /\ (records <> [] -> last (map snd records) = Some (log_len s')).
Proof.
  intros Hle Hb. set (log := hook_ingress_log s) in *.
  set (pre := take (N.to_nat start) (contents log)).
  set (b := drop (N.to_nat start) (contents log)).
  assert (Hlog : contents log = pre ++ b) by (unfold pre, b; by rewrite take_drop).
  assert (Hstart : u64_of_len pre = start).
  { unfold u64_of_len, pre. rewrite length_take. unfold log_len, u64_of_len in Hle. fold log in Hle. lia. }
  destruct (ingress_repair_loop_spec b pre log Hlog Hb) as
    (records & diag & log' & kept & tail & Hloop & Hkt & Htail & Hlog' & Hbk & Hall & Hcount & Hlast).
  rewrite Hstart in Hloop, Hall.
  exists records, diag, (s <| hook_ingress_log := log' |>), kept, tail.
  split_and!; try done.
  - unfold repair_and_read. change (read_rows (hook_ingress_log s) start) with (rows start b).
    change (hook_ingress_log s) with log. by rewrite Hloop.
  - eapply Forall_impl; [exact Hall|]. intros [r end_] (at_ & row & Hat & Hr & Ha).
    exists at_, row. split_and!; [|done|done]. apply row_ending_at_complete.
    destruct Hat as (x & y & Hxy & Hrest). exists x, y. cbn. rewrite Hlog'. by split.
  - intros Hne. rewrite Hlast. unfold log_len. cbn. rewrite Hlog'. destruct kept; [|done].
    simpl in Hcount. by destruct records.
Qed.

(** A row that ends at [end_] still ends there after an append. *)
Lemma row_at_app b c end_ at_ row :
  row_at (Some b) end_ at_ row -> row_at (Some (b ++ c)) end_ at_ row.
Proof.
  intros (x & y & Hxy & Hrest). exists x, (y ++ c). split; [|done].
  cbn [contents] in *. by rewrite Hxy, <-!app_assoc.
Qed.

Lemma row_at_bound f end_ at_ row : row_at f end_ at_ row -> (0 < end_ <= u64_of_len (contents f))%N.
Proof.
  intros (x & y & -> & _ & -> & _). unfold u64_of_len. rewrite !length_app. simpl. lia.
Qed.

Lemma cursor_end_ok_row s end_ at_ row :
  row_at (hook_ingress_log s) end_ at_ row ->
  cursor_end_ok s end_ (option_map event_id (row_record at_ row)) = Ok true.
Proof.
  intros Hrow. unfold cursor_end_ok. pose proof (row_at_bound _ _ _ _ Hrow).
  destruct (N.eqb_spec end_ 0); [lia|]. rewrite (row_ending_at_complete _ _ _ _ Hrow).
  unfold row_record. destruct (decode_record at_ true row) as [f|e] eqn:E.
  - by rewrite bool_decide_eq_true_2.
  - rewrite (decode_record_corruption _ _ _ _ E).
    rewrite bool_decide_eq_true_2; [done|]. by destruct (fused_frame at_ row).
Qed.

(** A cursor position: the start, or the end of a row with its record's id. *)
Definition position_at (s : ingress_state) (end_ : N) (id : option text) : Prop :=
  (end_ = 0%N /\ id = None) \/
  exists at_ row, row_at (hook_ingress_log s) end_ at_ row
    /\ id = option_map event_id (row_record at_ row).

Lemma position_ok s end_ id :
  position_at s end_ id -> cursor_end_ok s end_ id = Ok true /\ (end_ <= log_len s)%N.
Proof.
  intros [[-> ->]|(at_ & row & Hrow & ->)].
  - unfold cursor_end_ok. simpl. split; [done|lia].
  - split; [by apply cursor_end_ok_row|]. pose proof (row_at_bound _ _ _ _ Hrow). unfold log_len. lia.
Qed.

Lemma read_cursor_written s c b :
  hook_drain_cursor s = Some b -> to_vec c = Some b -> version c = CURSOR_VERSION ->
  position_at s (applied c) (applied_event_id c) ->
  position_at s (claimed c) (claimed_event_id c) ->
  read_cursor s = Ok c.
Proof.
  intros Hs Hb Hv [Ha1 Ha2]%position_ok [Hc1 Hc2]%position_ok. unfold read_cursor.
  rewrite Hs, (json_roundtrip _ _ Hb), Hv. cbn [negb N.eqb CURSOR_VERSION Pos.eqb].
  rewrite (proj2 (N.ltb_ge _ _) Ha2), (proj2 (N.ltb_ge _ _) Hc2), Ha1, Hc1. done.
Qed.

(** A cursor written at offsets where records end, with the ids of those
    records, is read back as written, also after hooks append further
    frames; it is never reset to zero, which would apply frames twice. *)
Theorem cursor_survives_appends s c s' (frames : list HookIngress) log :
  version c = CURSOR_VERSION ->
  position_at s (applied c) (applied_event_id c) ->
  position_at s (claimed c) (claimed_event_id c) ->
  write_cursor s c = Ok s' ->
  append_batch (hook_ingress_log s') frames = Ok log ->
  read_cursor (s' <| hook_ingress_log := log |>) = Ok c.
Proof.
  intros Hv Ha Hc Hw Hf. unfold write_cursor in Hw.
  destruct (to_vec c) as [b|] eqn:Hb; [|done]. injection Hw as <-. cbn in *.
  assert (Hlog : exists more, contents log = contents (hook_ingress_log s) ++ more).
  { unfold append_batch in Hf. destruct (is_empty frames).
    - injection Hf as <-. exists []. by rewrite app_nil_r.
    - destruct (encode_batch frames) as [m|]; [|done]. injection Hf as <-. by exists m. }
  destruct Hlog as [more Hlog].
  assert (Hpos : forall end_ id, position_at s end_ id ->
    position_at {| hook_ingress_log := log; hook_drain_cursor := Some b |} end_ id).
  { intros end_ id [?|(at_ & row & Hrow & ?)]; [by left|right]. exists at_, row. split; [|done].
    apply (row_at_app _ more) in Hrow. unfold row_at in *. cbn in *. by rewrite Hlog. }
  by apply (read_cursor_written {| hook_ingress_log := log; hook_drain_cursor := Some b |} c b);
    try apply Hpos.
Qed.

(** The log is truncated exactly when the cursor on disk says every byte
    is applied and claimed; then the log is empty and the cursor is at its
    start, and in every other case nothing changes. *)
Theorem truncate_drained_spec s b :
  to_vec default_cursor = Some b ->
  match truncate_drained s with
  | (Ok true, s') =>
      (exists c, read_cursor s = Ok c /\ applied c = log_len s /\ claimed c = log_len s)
      /\ log_len s <> 0%N /\ log_len s' = 0%N /\ read_cursor s' = Ok default_cursor
  | (Ok false, s') =>
      s' = s /\ (log_len s = 0%N \/ exists c, read_cursor s = Ok c
                   /\ (applied c <> log_len s \/ claimed c <> log_len s))
  | (Err e, s') => s' = s /\ read_cursor s = Err e
  end.
Proof.
  intros Hb. unfold truncate_drained. destruct (N.eqb_spec (log_len s) 0) as [|Hne]; [auto|].
  destruct (read_cursor s) as [c|e]; [|done].
  destruct (N.eqb_spec (applied c) (log_len s)) as [Ha|Ha]; cbn [negb orb]; [|eauto 6].
  destruct (N.eqb_spec (claimed c) (log_len s)) as [Hc|Hc]; cbn [negb orb]; [|eauto 6].
  unfold write_cursor. rewrite Hb. split_and!; [by exists c|done|done|].
  by apply (read_cursor_written {| hook_ingress_log := Some []; hook_drain_cursor := Some b |} _ b);
    try left.
Qed.

Lemma fused_loop_found at_ row k :
  (exists c, row !! k = Some c /\ is_ascii_digit c = true) ->
  (exists f, decode_record (A:=HookIngress) (at_ + N.of_nat k) true (drop k row) = Ok f) ->
  exists start f j, fused_loop at_ row = Some (start, f) /\ j <= k
    /\ start = (at_ + N.of_nat j)%N /\ decode_record start true (drop j row) = Ok f.
Proof.
  revert at_ k. induction row as [|c row IH]; intros at_ k (d & Hd & Hdig) [f Hf]; [done|].
  cbn [fused_loop].
  assert (Hlater : k <> 0 -> exists start f j, fused_loop (at_ + 1) row = Some (start, f) /\ j <= k
    /\ start = (at_ + N.of_nat j)%N /\ decode_record start true (drop j (c :: row)) = Ok f).
  { intros Hk. destruct k as [|k]; [done|].
    destruct (IH (at_ + 1)%N k) as (start & f' & j & Hl & Hj & -> & Hdec).
    - by exists d.
    - exists f. by replace (at_ + 1 + N.of_nat k)%N with (at_ + N.of_nat (S k))%N by lia.
    - eexists _, f', (S j). split_and!; [exact Hl|lia|lia|done]. }
  destruct (is_ascii_digit c) eqn:Ec.
  - destruct (decode_record at_ true (c :: row)) as [g|e] eqn:E.
    + exists at_, g, 0. split_and!; [done|lia|lia|done].
    + apply Hlater. intros ->. rewrite N.add_0_r, drop_0 in Hf. congruence.
  - apply Hlater. intros ->. injection Hd as <-. congruence.
Qed.

(** When an appender's torn frame shares its line with the whole frame a
    later appender wrote, the line still yields a frame: the earliest suffix
    that decodes, at or before the start of the whole one. *)
Theorem fused_frame_recovered (frame : HookIngress) b torn at_ :
  to_vec frame = Some b -> (u64_of_len b <= U64_MAX)%N -> torn <> [] ->
  exists start f j, fused_frame at_ (torn ++ frame_row b) = Some (start, f)
    /\ 0 < j <= length torn /\ start = (at_ + N.of_nat j)%N
    /\ decode_record start true (drop j (torn ++ frame_row b)) = Ok f.
Proof.
  intros Hb Hlen Hne. destruct torn as [|c torn]; [done|]. cbn [app fused_frame].
  destruct (fused_loop_found (at_ + 1) (torn ++ frame_row b) (length torn))
    as (start & f & j & Hl & Hj & -> & Hdec).
  - rewrite lookup_app_r, Nat.sub_diag by done. unfold frame_row.
    destruct (dec_width_pos (N.size_nat (u64_of_len b)) (u64_of_len b)) as [k Hk].
    unfold show_N. rewrite Hk. cbn [fixed_digits app lookup list_lookup]. eexists. split; [done|].
    set (d := ((u64_of_len b / _) mod 10)%N).
    assert (Hd : (d < 10)%N) by (by apply N.mod_lt). clearbody d. clear -Hd.
    destruct d as [|p]; [done|]. do 4 (destruct p as [p|p|]; try done; try lia).
  - exists frame. rewrite drop_app_length. by apply decode_frame_row.
  - exists (at_ + 1 + N.of_nat j)%N, f, (S j). cbn [length]. split_and!; [done|lia|lia|lia|done].
Qed.

(** A hook frame appended behind anything is what the next read from the
    old length delivers, ending at the returned length. *)
Theorem append_then_read s frame len s' :
  append s frame = Ok (len, s') -> (len <= U64_MAX)%N ->
  read_from_offset s' (log_len s) = Ok ([(frame, len)], len)
  /\ hook_drain_cursor s' = hook_drain_cursor s /\ (log_len s < len)%N.
Proof.
  unfold append, Log.append. destruct (to_vec frame) as [b|] eqn:Hb; [|done].
  intros [= <- <-]. unfold log_len. cbn. set (pre := contents (hook_ingress_log s)).
  intros Hlen. unfold read_from_offset, visit_records_through_offset, log_len. cbn.
  rewrite to_nat_u64_of_len, drop_app_length.
  rewrite take_N_all by (unfold saturating_sub, u64_of_len; rewrite length_app; lia).
  rewrite encode_frame_row in *. unfold u64_of_len in Hlen.
  rewrite !length_app in Hlen. cbn [length] in Hlen.
  assert (Hp : length b <= length (frame_row b)).
  { unfold frame_row. rewrite length_app. cbn [length]. rewrite length_app. cbn [length]. lia. }
  rewrite scan_line by (apply frame_row_line, (json_line _ _ Hb)).
  rewrite (decode_frame_row frame) by (done || unfold u64_of_len; lia).
  rewrite scan_tail by (by apply not_elem_of_nil).
  assert (Hend : (u64_of_len pre + u64_of_len (frame_row b ++ [10%N])
     = u64_of_len (pre ++ frame_row b ++ [10%N]))%N).
  { unfold u64_of_len. rewrite (length_app pre). lia. }
  rewrite Hend. split_and!; [done|done|]. unfold u64_of_len. rewrite !length_app. simpl. lia.
Qed.
End IngressFacts.

(** Two frames, two cursors and a checksum for the witnesses. *)
Module IngressExample.
Import Toy.
Definition frame_of (id : text) : HookIngress :=
  {| boot_id := None; schema_version := str "1"; event_id := id; ts := 0; source := str "claude";
     event := None; payload := []; cwd := str "/"; hook_pid := 1; env := ∅ |}.
Definition cursor_of (end_ : N) (id : option text) : HookDrainCursor :=
  {| version := 1; applied := end_; claimed := end_; applied_event_id := id; claimed_event_id := id;
     log_extent_at_claim := {| generation := 0; offset := 0 |} |}.
Definition frames : list (HookIngress * bytes) :=
  [(frame_of (str "a"), str "{a}"); (frame_of (str "b"), str "{bb}")].
Definition cursors : list (HookDrainCursor * bytes) :=
  [(default_cursor, str "{0}"); (cursor_of 15 (Some (str "a")), str "{1}")].
#[export] Instance frame_Json : Json HookIngress := table_Json frames.
#[export] Instance cursor_Json : Json HookDrainCursor := table_Json cursors.
#[export] Instance frame_JsonLaws : JsonLaws HookIngress.
Proof. by apply table_JsonLaws; vm_compute. Qed.
#[export] Instance cursor_JsonLaws : JsonLaws HookDrainCursor.
Proof. by apply table_JsonLaws; vm_compute. Qed.

Definition row_a : bytes := frame_row (str "{a}").
Definition row_b : bytes := frame_row (str "{bb}").
Definition empty : ingress_state := {| hook_ingress_log := None; hook_drain_cursor := None |}.
Definition one : ingress_state :=
  {| hook_ingress_log := Some (row_a ++ [10%N]); hook_drain_cursor := Some (str "{1}") |}.

(** A frame, a torn frame fused with a whole one, and a torn tail. *)
Definition damaged : ingress_state :=
  {| hook_ingress_log := Some (row_a ++ 10%N :: str "4 00" ++ row_b ++ 10%N :: str "5 12");
     hook_drain_cursor := None |}.

Lemma repair_and_read_spec_witness :
  (exists diag s', repair_and_read damaged 0
     = Ok ([(Some (frame_of (str "a")), 15%N); (Some (frame_of (str "b")), 35%N)], diag, s'))
  /\ exists records diag s', repair_and_read damaged 0 = Ok (records, diag, s')
      /\ (records <> [] -> last (map snd records) = Some (log_len s')).
Proof.
  split; [by eexists _, _; vm_compute|].
  destruct (repair_and_read_spec damaged 0) as (records & diag & s' & _ & _ & Hr & _ & _ & _ & _ & _ & _ & _ & Hl).
  - by vm_compute.
  - by left.
  - by exists records, diag, s'.
Defined.

Lemma one_position : position_at one 15 (Some (str "a")).
Proof.
  right. exists 0%N, row_a. split; [|by vm_compute].
  exists [], []. split_and!; [done|done|by vm_compute| |by left].
  by apply (bool_decide_unpack _); vm_compute.
Qed.

Lemma cursor_survives_appends_witness :
  read_cursor (one <| hook_ingress_log := Some (row_a ++ 10%N :: row_b ++ [10%N]) |>)
  = Ok (cursor_of 15 (Some (str "a"))).
Proof.
  apply (cursor_survives_appends one (cursor_of 15 (Some (str "a"))) one [frame_of (str "b")]).
  - done.
  - exact one_position.
  - exact one_position.
  - by vm_compute.
  - by vm_compute.
Defined.

Lemma truncate_drained_spec_witness :
  fst (truncate_drained one) = Ok true
  /\ match truncate_drained one with
     | (Ok true, s') => log_len s' = 0%N
     | _ => True
     end.
Proof.
  split; [by vm_compute|].
  pose proof (truncate_drained_spec one (str "{0}") ltac:(by vm_compute)) as H.
  destruct (truncate_drained one) as [[[]|] s']; [tauto|done|done].
Defined.

Lemma fused_frame_recovered_witness :
  fused_frame 7 (str "4 00" ++ row_b) = Some (9%N, frame_of (str "b"))
  /\ exists start f, fused_frame 7 (str "4 00" ++ row_b) = Some (start, f).
Proof.
  split; [by vm_compute|].
  destruct (fused_frame_recovered (frame_of (str "b")) (str "{bb}") (str "4 00") 7)
    as (start & f & j & H & _); [by vm_compute|by vm_compute|done|]. by exists start, f.
Defined.

Lemma append_then_read_witness :
  exists s', append one (frame_of (str "b")) = Ok (31%N, s')
    /\ read_from_offset s' (log_len one) = Ok ([(frame_of (str "b"), 31%N)], 31%N).
Proof.
  exists (one <| hook_ingress_log := Some (row_a ++ 10%N :: row_b ++ [10%N]) |>).
  assert (Ha : append one (frame_of (str "b"))
    = Ok (31%N, one <| hook_ingress_log := Some (row_a ++ 10%N :: row_b ++ [10%N]) |>)) by by vm_compute.
  split; [exact Ha|]. by apply (append_then_read one _ _ _ Ha).
Defined.
End IngressExample.
