(* ===== verification/Lifecycle.v ===== *)
(** * The agent lifecycle machine ([crates/rimz/src/agents/lifecycle.rs])

    The transition graph that folds an adapter's lifecycle signal onto the
    reduced state of an agent, and the turn ids a record remembers.  The
    functions keep the names and the branch order of the source; the [&mut]
    transition kind is returned next to the status. *)

From S2P Require Import Prelude.

(** [AgentStatus] of [agents/state.rs]. *)
Inductive AgentStatus := Running | Waiting | Idle | Success | Failed | Paused | Sleeping.
#[export] Instance AgentStatus_eq_dec : EqDecision AgentStatus.
Proof. solve_decision. Defined.

Definition status_as_str (s : AgentStatus) : text :=
  match s with
  | Running => str "running" | Waiting => str "waiting" | Idle => str "idle"
  | Success => str "success" | Failed => str "failed" | Paused => str "paused"
  | Sleeping => str "sleeping"
  end.
Definition is_attention (s : AgentStatus) : bool :=
  match s with Waiting | Failed | Paused => true | _ => false end.
Definition is_actionable (s : AgentStatus) : bool :=
  match s with Waiting | Failed => true | _ => false end.
Definition needs_a_look (s : AgentStatus) : bool :=
  is_attention s || match s with Success => true | _ => false end.

Inductive AskKind := Permission | PlanApproval | Question.
#[export] Instance AskKind_eq_dec : EqDecision AskKind.
Proof. solve_decision. Defined.

Inductive LifecycleSignal :=
| Registered
| TurnStarted (turn_id : option text)
| TurnEnded (errored parked_on_background : bool) (turn_id : option text)
| TurnInterrupted (turn_id : option text)
| SubagentStarted
| SubagentStopped (errored : bool)
| ToolUsed (mutates edits : bool) (name native_key turn_id : option text)
| AwaitingInput (kind : AskKind) (ask_id detail : option text)
    (extra_questions : N) (native_key : option text)
| AskResolved (native_key : option text)
| Compacting
| CompactionEnded (auto : option bool) (failed : bool)
| Ended
| Lost.

Inductive TerminalDisposition := Completed | DispositionFailed | DispositionCanceled.

Definition terminal_disposition (signal : LifecycleSignal) : option TerminalDisposition :=
  match signal with
  | TurnEnded errored false _ => Some (if errored then DispositionFailed else Completed)
  | TurnInterrupted _ => Some DispositionCanceled
  | Ended => Some DispositionFailed
  | _ => None
  end.

Definition establishes_identity (signal : LifecycleSignal) : bool :=
  match signal with Registered | SubagentStarted => true | _ => false end.

Module Phase.
Inductive TurnPhase := Idle | Reasoning | Acting | Parked.
End Phase.
Abbreviation TurnPhase := Phase.TurnPhase.
#[export] Instance TurnPhase_eq_dec : EqDecision TurnPhase.
Proof. solve_decision. Defined.

Record LifecycleState := { status : AgentStatus; phase : TurnPhase; compacting : bool }.
#[export] Instance LifecycleState_eq_dec : EqDecision LifecycleState.
Proof. solve_decision. Defined.

Inductive TransitionKind :=
| Normal
| Reconciled (from : AgentStatus) (reason : text)
| Ignored (reason : text).

Inductive PingEdge := Open | Close | Report.

Record Transition := {
  next : LifecycleState;
  kind : TransitionKind;
  compaction_closed : bool;
  waiting_cleared : bool;
  opened_turn : bool;
  ping : option PingEdge
}.

Record PriorTurnIds := {
  started : option text;
  superseded : option text;
  closed : option text
}.
Definition no_turn_ids : PriorTurnIds := {| started := None; superseded := None; closed := None |}.

(** Returns the [(started, superseded, closed)] ids. *)
Definition turn_ids_after (prior : PriorTurnIds) (signal : LifecycleSignal) (opened_turn : bool)
  : PriorTurnIds :=
  let '(started', superseded') :=
    match signal with
    | TurnStarted turn_id =>
        if decide (turn_id <> started prior)
        then (turn_id, or_else (started prior) (superseded prior))
        else (started prior, superseded prior)
    | _ => (started prior, superseded prior)
    end in
  let closed' :=
    match signal with
    | TurnInterrupted turn_id | TurnEnded _ false turn_id => turn_id
    | Registered | TurnStarted _ => None
    | _ => if opened_turn then None else closed prior
    end in
  {| started := started'; superseded := superseded'; closed := closed' |}.

Definition stale_turn_report (signal : LifecycleSignal) (prior_status : option AgentStatus)
    (turn_ids : PriorTurnIds) : option text :=
  let check (report : text) (interrupted : bool) :=
    if negb (bool_decide (started turn_ids = Some report)) then
      if bool_decide (superseded turn_ids = Some report)
      then Some (str "turn report for a turn a later start superseded") else None
    else if interrupted
            && match prior_status with Some Success | Some Failed => true | _ => false end
    then Some (str "turn cancel after its turn already reported") else None in
  match signal with
  | TurnEnded _ _ (Some report) => check report false
  | TurnInterrupted (Some report) => check report true
  | _ => None
  end.

Definition stale_ask_close (prior_status : option AgentStatus)
    (open_ask_key native_key : option text) : option text :=
  if negb (bool_decide (prior_status = Some Waiting))
  then Some (str "ask resolved outside a waiting row")
  else if is_some open_ask_key && is_some native_key
          && negb (bool_decide (open_ask_key = native_key))
  then Some (str "ask resolved for another open ask") else None.

(** The [opened_turn] function. *)
Definition turn_opened (signal : LifecycleSignal) (prior_status : option AgentStatus)
    (prior_phase : TurnPhase) (status : AgentStatus) : bool :=
  let turn_started := match signal with TurnStarted _ => true | _ => false end in
  if turn_started && bool_decide (prior_status = Some Running)
     && bool_decide (prior_phase = Phase.Parked)
  then false
  else
    turn_started
    || (match signal with SubagentStarted => true | _ => false end
        && bool_decide (status = Running))
    || (bool_decide (status = Running)
        && negb match prior_status with Some Running | Some Waiting => true | _ => false end
        && match signal with ToolUsed _ _ _ _ _ => true | _ => false end).

Definition reconcile_activity (prior_status : option AgentStatus) (reason : text)
    (kind : TransitionKind) : AgentStatus * TransitionKind :=
  match prior_status with
  | Some Running | Some Waiting => (Running, kind)
  | Some Idle => (Running, Reconciled Idle reason)
  | Some Success => (Running, Reconciled Success reason)
  | Some other => (other, kind)
  | None => (Running, Reconciled Idle reason)
  end.

(** [Lost] returns early in [step]; its branch is unreachable there. *)
Definition map_status (signal : LifecycleSignal) (prior_status : option AgentStatus)
    (kind : TransitionKind) : AgentStatus * TransitionKind :=
  match signal with
  | Registered => (Idle, kind)
  | TurnStarted _ => (Running, kind)
  | SubagentStarted =>
      match prior_status with
      | Some Success => (Success, Ignored (str "subagent start after a terminal stop"))
      | Some Failed => (Failed, Ignored (str "subagent start after a terminal stop"))
      | _ => (Running, kind)
      end
  | AwaitingInput _ _ _ _ _ => (Waiting, kind)
  | AskResolved _ => (Running, kind)
  | SubagentStopped errored => (if errored then Failed else Success, kind)
  | TurnEnded errored parked_on_background _ =>
      (if errored then Failed else if parked_on_background then Running else Success, kind)
  | TurnInterrupted _ => (Idle, kind)
  | ToolUsed _ _ _ _ _ =>
      reconcile_activity prior_status
        (match prior_status with
         | None => str "tool used before session registered"
         | Some _ => str "tool used outside a running turn"
         end) kind
  | Compacting =>
      match prior_status with
      | Some Waiting =>
          (Running, Reconciled Waiting (str "compaction began while an ask was open"))
      | other => (unwrap_or other Idle, kind)
      end
  | CompactionEnded _ true | CompactionEnded None _ =>
      (if bool_decide (prior_status = Some Waiting) then Running
       else unwrap_or prior_status Idle, kind)
  | CompactionEnded (Some true) false =>
      (match prior_status with
       | Some Running | Some Waiting => Running
       | other => unwrap_or other Idle
       end, kind)
  | CompactionEnded (Some false) false =>
      (match prior_status with
       | Some Waiting => Running
       | Some Running | None => Idle
       | Some resting => resting
       end, kind)
  | Ended =>
      (match prior_status with
       | Some Running | Some Waiting => Failed
       | other => unwrap_or other Idle
       end, kind)
  | Lost => (unwrap_or prior_status Idle, kind)
  end.

Definition map_phase (signal : LifecycleSignal) (prior_phase : TurnPhase) (status : AgentStatus)
  : TurnPhase :=
  let phase :=
    match signal with
    | TurnStarted _ | SubagentStarted => Phase.Reasoning
    | AwaitingInput _ _ _ _ _ => Phase.Idle
    | AskResolved _ => Phase.Acting
    | ToolUsed _ edits _ _ _ =>
        if negb edits && bool_decide (prior_phase = Phase.Reasoning)
        then Phase.Reasoning else Phase.Acting
    | TurnEnded false true _ => Phase.Parked
    | Compacting => prior_phase
    | CompactionEnded _ _ => prior_phase
    | Registered | Ended | TurnEnded _ _ _ | TurnInterrupted _ | SubagentStopped _ => Phase.Idle
    | Lost => prior_phase
    end in
  if bool_decide (status = Running) then
    if bool_decide (phase = Phase.Idle) then Phase.Reasoning else phase
  else Phase.Idle.

(** Why [step] leaves the state alone, if it does. *)
Definition step_ignored (prior_status : option AgentStatus) (open_ask_key : option text)
    (turn_ids : PriorTurnIds) (signal : LifecycleSignal) : option text :=
  match signal with
  | Lost => Some (str "session lost (legacy replay marker)")
  | AskResolved native_key => stale_ask_close prior_status open_ask_key native_key
  | ToolUsed _ _ _ native_key turn_id =>
      if bool_decide (prior_status = Some Waiting) && is_some open_ask_key
         && negb (bool_decide (open_ask_key = native_key))
      then Some (str "sibling tool completed while a keyed ask is open")
      else if is_some turn_id && bool_decide (closed turn_ids = turn_id)
      then Some (str "tool reported after its turn closed")
      else stale_turn_report signal prior_status turn_ids
  | _ => stale_turn_report signal prior_status turn_ids
  end.

Definition step (prev : option LifecycleState) (open_ask_key : option text)
    (turn_ids : PriorTurnIds) (signal : LifecycleSignal) : Transition :=
  let prior_status := option_map status prev in
  let prior_phase := match prev with Some p => phase p | None => Phase.Idle end in
  let was_compacting := is_some_and prev compacting in
  match step_ignored prior_status open_ask_key turn_ids signal with
  | Some reason =>
      let status := unwrap_or prior_status Idle in
      {| next := {| status := status;
                    phase := if bool_decide (status = Running) then prior_phase else Phase.Idle;
                    compacting := was_compacting |};
         kind := Ignored reason;
         compaction_closed := false; waiting_cleared := false; opened_turn := false;
         ping := None |}
  | None =>
      let compacting := match signal with Compacting => true | _ => false end in
      let '(status, kind) := map_status signal prior_status Normal in
      let phase := map_phase signal prior_phase status in
      let compaction_closed := was_compacting && negb compacting in
      let waiting_cleared :=
        bool_decide (prior_status = Some Waiting) && negb (bool_decide (status = Waiting)) in
      let opened_turn := turn_opened signal prior_status prior_phase status in
      let kind :=
        if match signal with CompactionEnded _ _ => true | _ => false end
           && negb was_compacting
           && match kind with Normal => true | _ => false end
           && bool_decide (prior_status = Some status) && bool_decide (prior_phase = phase)
        then Ignored (str "compaction end without an open bracket") else kind in
      {| next := {| status := status; phase := phase; compacting := compacting |};
         kind := kind; compaction_closed := compaction_closed;
         waiting_cleared := waiting_cleared; opened_turn := opened_turn; ping := None |}
  end.

(** * Properties *)

(** The machine of [step] alone, for the theorems below: the reduced state and
    the turn ids, under signals that are neither state snapshots nor edges of a
    cache ping ([Agents.transition] and [Reducer.fold_lifecycle] have those). *)
Abbreviation machine := (option LifecycleState * PriorTurnIds)%type.

(** One signal: the key of the open ask comes from the record. *)
Definition fold_signal (m : machine) (event : option text * LifecycleSignal) : machine :=
  let t := step m.1 event.1 m.2 event.2 in
  (Some (next t), turn_ids_after m.2 event.2 (opened_turn t)).
Definition run (m : machine) (events : list (option text * LifecycleSignal)) : machine :=
  foldl fold_signal m events.

Inductive reachable : machine -> Prop :=
| reachable_start : reachable (None, no_turn_ids)
| reachable_step m event : reachable m -> reachable (fold_signal m event).

(** The phase is the shape of a running turn and of nothing else. *)
Definition valid (s : LifecycleState) : Prop := phase s <> Phase.Idle <-> status s = Running.
Definition valid_prior (prev : option LifecycleState) : Prop :=
  match prev with Some s => valid s | None => True end.
(** A status some hook reports; the other two are projections. *)
Definition observed (s : AgentStatus) : Prop := s <> Paused /\ s <> Sleeping.

Section StepFacts.
Implicit Types (prev : option LifecycleState) (signal : LifecycleSignal).

Lemma map_phase_valid signal prior_phase s :
  map_phase signal prior_phase s <> Phase.Idle <-> s = Running.
Proof.
  unfold map_phase. case_bool_decide as Hs; [|naive_solver].
  case_bool_decide; naive_solver.
Qed.

Lemma map_status_observed signal prior kind0 :
  (forall s, prior = Some s -> observed s) -> observed (map_status signal prior kind0).1.
Proof.
  intros Hp. assert (Hd : observed (unwrap_or prior Idle)).
  { destruct prior; simpl; [by apply Hp|by split]. }
  destruct signal as [| |[] []| | |[]| | | | |[[]|] []| |]; simpl; try (by split); try done.
  all: destruct prior as [[]|]; simpl in *; try (by split); try done; by apply (Hp _ eq_refl).
Qed.

Lemma step_valid prev key ids signal :
  valid_prior prev -> valid (next (step prev key ids signal)).
Proof.
  intros Hv. unfold step. destruct (step_ignored _ _ _ _); simpl.
  - unfold valid; simpl. destruct prev as [s|]; simpl; [|naive_solver].
    unfold valid in Hv. simpl in Hv. case_bool_decide; naive_solver.
  - destruct (map_status _ _ _) as [s k]. unfold valid. simpl. apply map_phase_valid.
Qed.

Lemma step_observed prev key ids signal :
  (forall s, prev = Some s -> observed (status s)) ->
  observed (status (next (step prev key ids signal))).
Proof.
  intros Hp.
  assert (Hp' : forall s, option_map status prev = Some s -> observed s).
  { destruct prev; simpl; [intros s [= <-]; by apply Hp|done]. }
  unfold step. destruct (step_ignored _ _ _ _); simpl.
  - destruct prev; simpl; [by apply Hp|by split].
  - pose proof (map_status_observed signal _ Normal Hp') as Hm.
    destruct (map_status _ _ _). done.
Qed.

Lemma reachable_valid m s : reachable m -> m.1 = Some s -> valid s.
Proof.
  intros Hm. revert s. induction Hm as [|m event Hm IH]; intros s; [done|].
  intros [= <-]. apply step_valid. destruct m.1 eqn:E; [|done]. by apply IH.
Qed.

Lemma map_status_kind signal prior s k :
  map_status signal prior Normal = (s, k) ->
  match k with
  | Ignored _ => signal = SubagentStarted /\ prior = Some s /\ (s = Success \/ s = Failed)
  | _ => True
  end.
Proof.
  destruct signal as [| |[] []| | |[]| | | | |[[]|] []| |]; simpl; intros [= <- <-] || idtac; try done.
  all: destruct prior as [[]|]; simpl; intros [= <- <-]; auto.
Qed.

(** The facts a transition reports are exact: a bracket closes exactly when
    compacting stops, a wait clears exactly when the row leaves waiting, only
    a running row opens a turn, and an ignored signal leaves status and phase
    as they were and opens and clears nothing. *)
Theorem transition_facts_exact prev key ids signal :
  valid_prior prev ->
  let t := step prev key ids signal in
  compaction_closed t = is_some_and prev compacting && negb (compacting (next t))
  /\ waiting_cleared t = bool_decide (option_map status prev = Some Waiting)
                         && negb (bool_decide (status (next t) = Waiting))
  /\ (opened_turn t = true -> status (next t) = Running)
  /\ match kind t with
     | Ignored _ => status (next t) = unwrap_or (option_map status prev) Idle
         /\ phase (next t) = match prev with Some p => phase p | None => Phase.Idle end
         /\ opened_turn t = false /\ waiting_cleared t = false
     | _ => True
     end.
Proof.
  intros Hv t. unfold t, step. clear t. destruct (step_ignored _ _ _ _) as [r|] eqn:Ei; simpl.
  - split_and!; try done.
    + by destruct prev as [[? ? []]|].
    + by destruct prev as [[[] ? ?]|].
    + destruct prev as [s|]; simpl; [|done]. unfold valid_prior, valid in Hv.
      case_bool_decide; [done|]. destruct (phase s); naive_solver.
  - destruct (map_status _ _ _) as [s k] eqn:Em. simpl.
    pose proof (map_status_kind _ _ _ _ Em) as Hk.
    assert (Hopen : turn_opened signal (option_map status prev)
              (match prev with Some p => phase p | None => Phase.Idle end) s = true -> s = Running).
    { unfold turn_opened. destruct (decide (s = Running)) as [|Hne]; [done|].
      rewrite (bool_decide_eq_false_2 (s = Running)) by done.
      destruct signal; simpl; rewrite ?andb_false_r; try done. simpl in Em. congruence. }
    split_and!; [done|done|done|].
    destruct (_ && _ && _ && _ && _) eqn:Ec.
    + rewrite !andb_true_iff, !bool_decide_eq_true in Ec.
      destruct Ec as [[[[Hs Hw] Hn] Hst] Hph]. destruct signal; try done.
      rewrite Hst. simpl. split_and!; [done|done| |].
      * unfold turn_opened. simpl. by rewrite andb_false_r.
      * destruct (bool_decide (Some s = Some Waiting)) eqn:Eb; [|done].
        apply bool_decide_eq_true in Eb as [= ->]. done.
    + destruct k as [| |r]; try done. destruct Hk as (-> & Hp & Hsf). rewrite Hp. simpl.
      split_and!; [done| | |by destruct Hsf as [-> | ->]].
      * destruct prev as [s0|]; [|done]. injection Hp as Hp.
        unfold map_phase. rewrite bool_decide_eq_false_2 by (by destruct Hsf as [-> | ->]).
        unfold valid_prior, valid in Hv. rewrite Hp in Hv.
        destruct (decide (phase s0 = Phase.Idle)) as [->|Hne]; [done|].
        apply Hv in Hne. by destruct Hsf as [-> | ->].
      * unfold turn_opened. by destruct Hsf as [-> | ->].
Qed.
End StepFacts.

Definition closes_turn (signal : LifecycleSignal) (t : text) : Prop :=
  (exists errored, signal = TurnEnded errored false (Some t)) \/ signal = TurnInterrupted (Some t).
Definition tool_of (t : text) (signal : LifecycleSignal) : Prop :=
  exists mutates edits name native_key, signal = ToolUsed mutates edits name native_key (Some t).
Definition starts_turn (signal : LifecycleSignal) : Prop :=
  exists turn_id, signal = TurnStarted turn_id.

Section TurnFacts.
Lemma step_ignored_next s key ids signal r :
  valid s -> step_ignored (Some (status s)) key ids signal = Some r ->
  next (step (Some s) key ids signal) = s /\ opened_turn (step (Some s) key ids signal) = false.
Proof.
  intros Hv Hi. unfold step. simpl. rewrite Hi. simpl. split; [|done].
  destruct s as [st ph co]. unfold valid in Hv. simpl in *. f_equal.
  case_bool_decide as Hb; [done|]. destruct (decide (ph = Phase.Idle)) as [->|Hne]; [done|].
  by apply Hv in Hne.
Qed.

Lemma closed_tool_ignored s key ids t signal :
  closed ids = Some t -> tool_of t signal ->
  exists r, step_ignored (Some (status s)) key ids signal = Some r.
Proof.
  intros Hc (mu & ed & name & nk & ->). simpl.
  destruct (bool_decide _ && _ && _); [by eexists|].
  rewrite Hc, bool_decide_eq_true_2 by done. by eexists.
Qed.

(** Once a turn has reported its end or its cancel, tools of that turn that
    arrive late, in any number, never move the row or reopen the turn. *)
Theorem closed_turn_tools_inert m key signal t tools :
  reachable m -> closes_turn signal t -> Forall (fun e => tool_of t e.2) tools ->
  run (fold_signal m (key, signal)) tools = fold_signal m (key, signal).
Proof.
  intros Hm Hclose Htools. set (m1 := fold_signal m (key, signal)).
  assert (Hm1 : reachable m1) by by constructor.
  destruct m1 as [[s|] ids] eqn:E; [|done].
  assert (Hv : valid s).
  { by apply (reachable_valid _ _ Hm1). }
  assert (Hc : closed ids = Some t).
  { unfold m1, fold_signal in E. injection E as _ <-.
    by destruct Hclose as [[er ->]| ->]. }
  clear -Hv Hc Htools. induction Htools as [|[k sg] tools Htool _ IH]; [done|].
  change (run (fold_signal (Some s, ids) (k, sg)) tools = (Some s, ids)).
  assert (Hf : fold_signal (Some s, ids) (k, sg) = (Some s, ids)); [|by rewrite Hf].
  unfold fold_signal. simpl.
  destruct (closed_tool_ignored s k ids t sg Hc Htool) as [r Hr].
  destruct (step_ignored_next s k ids sg r Hv Hr) as [-> ->].
  destruct Htool as (mu & ed & name & nk & Hsg). simpl in Hsg. subst sg. by destruct ids.
Qed.

Lemma ids_without_start m events :
  Forall (fun e => ~ starts_turn e.2) events ->
  started (run m events).2 = started m.2 /\ superseded (run m events).2 = superseded m.2.
Proof.
  intros H. revert m. induction H as [|[k sg] events Hsg _ IH]; intros m; [done|].
  change (run m ((k, sg) :: events)) with (run (fold_signal m (k, sg)) events).
  destruct (IH (fold_signal m (k, sg))) as [-> ->]. unfold fold_signal, turn_ids_after. simpl.
  destruct sg; try done. destruct Hsg. by eexists.
Qed.

(** A report for a turn that a later start superseded leaves the row as it
    is, however many other signals arrive between the start and the report. *)
Theorem superseded_report_inert m k1 k2 k3 a b events signal :
  reachable m -> a <> b -> Forall (fun e => ~ starts_turn e.2) events ->
  (signal = TurnInterrupted (Some a) \/ exists errored parked, signal = TurnEnded errored parked (Some a)) ->
  let m' := run m ((k1, TurnStarted (Some a)) :: (k2, TurnStarted (Some b)) :: events) in
  (fold_signal m' (k3, signal)).1 = m'.1.
Proof.
  intros Hm Hab Hev Hsig m'.
  assert (Hr : reachable m').
  { unfold m', run. clear -Hm. revert m Hm.
    generalize ((k1, TurnStarted (Some a)) :: (k2, TurnStarted (Some b)) :: events) as l.
    induction l as [|e l IH]; intros m Hm; [done|]. simpl. apply IH. by constructor. }
  set (m2 := fold_signal (fold_signal m (k1, TurnStarted (Some a))) (k2, TurnStarted (Some b))).
  destruct (ids_without_start m2 events Hev) as [Hst Hsu].
  change (run m2 events) with m' in Hst, Hsu.
  assert (H1 : started m2.2 = Some b /\ superseded m2.2 = Some a).
  { unfold m2, fold_signal, turn_ids_after. simpl.
    destruct (decide (Some a <> started m.2)) as [Hne|He]; simpl.
    - rewrite decide_True by congruence. done.
    - apply dec_stable in He. rewrite <-He. rewrite decide_True by congruence. done. }
  destruct H1 as [H1 H2]. rewrite H1 in Hst. rewrite H2 in Hsu.
  destruct m' as [[s|] ids] eqn:Em; [|].
  2: { exfalso. clear -Em. unfold m', run in Em. simpl in Em.
       assert (Hs : forall l m0 s0, m0.1 = Some s0 -> exists s1, (foldl fold_signal m0 l).1 = Some s1).
       { induction l as [|e l IH]; intros m0 s0 Hm0; [by eexists|]. simpl. by eapply IH. }
       destruct (Hs events (fold_signal (fold_signal m (k1, TurnStarted (Some a))) (k2, TurnStarted (Some b)))
         _ eq_refl) as [s1 Hs1].
       rewrite Em in Hs1. done. }
  simpl in Hst, Hsu. unfold fold_signal. cbn [fst snd]. f_equal.
  assert (Hv : valid s).
  { by apply (reachable_valid _ _ Hr). }
  eapply step_ignored_next; [done|].
  instantiate (1 := str "turn report for a turn a later start superseded").
  assert (Hcheck : stale_turn_report signal (Some (status s)) ids
            = Some (str "turn report for a turn a later start superseded")).
  { unfold stale_turn_report. rewrite Hst, Hsu.
    destruct Hsig as [->|(er & pk & ->)];
      rewrite (bool_decide_eq_false_2 (Some b = Some a)), bool_decide_eq_true_2 by congruence; done. }
  by destruct Hsig as [->|(er & pk & ->)].
Qed.
End TurnFacts.

Lemma transition_facts_exact_witness :
  let s := {| status := Waiting; phase := Phase.Idle; compacting := true |} in
  compaction_closed (step (Some s) None no_turn_ids Compacting) = false
  /\ waiting_cleared (step (Some s) None no_turn_ids Compacting) = true.
Proof.
  intros s. assert (Hv : valid_prior (Some s)) by (unfold valid_prior, valid; simpl; naive_solver).
  destruct (transition_facts_exact (Some s) None no_turn_ids Compacting Hv) as (-> & -> & _).
  by split.
Defined.

Lemma closed_turn_tools_inert_witness :
  let m := fold_signal (None, no_turn_ids) (None, TurnStarted (Some (str "t1"))) in
  let late := [(None, ToolUsed true true None None (Some (str "t1")))] in
  run (fold_signal m (None, TurnEnded false false (Some (str "t1")))) late
  = fold_signal m (None, TurnEnded false false (Some (str "t1")))
  /\ option_map status (fold_signal m (None, TurnEnded false false (Some (str "t1")))).1 = Some Success.
Proof.
  intros m late. split; [|by vm_compute].
  apply (closed_turn_tools_inert m None _ (str "t1")).
  - apply reachable_step, reachable_start.
  - left. by eexists.
  - repeat constructor. by do 4 eexists.
Defined.

Lemma superseded_report_inert_witness :
  let m := run (None, no_turn_ids)
    [(None, TurnStarted (Some (str "t1"))); (None, TurnStarted (Some (str "t2")));
     (None, ToolUsed true true None None (Some (str "t2")))] in
  (fold_signal m (None, TurnInterrupted (Some (str "t1")))).1 = m.1
  /\ option_map status m.1 = Some Running.
Proof.
  intros m. split; [|by vm_compute].
  apply (superseded_report_inert (None, no_turn_ids) None None None (str "t1") (str "t2")
    [(None, ToolUsed true true None None (Some (str "t2")))]).
  - apply reachable_start.
  - done.
  - repeat constructor. intros [? ?]; done.
  - by left.
Defined.
