(* ===== verification/Agents.v ===== *)
(** * Agent records ([crates/rimz/src/agents/state.rs] and its neighbours)

    The fields of [AgentState] and [AgentContext] that the modelled operations
    read; the others (labels, usage, worktree and display enrichment) reach
    none of them.  Instants and durations are nanoseconds.  Module [TurnError]
    models the error classes of [agents/context.rs], [PetName] the sender
    handles of [agents/petname.rs], [Agent] the record's operations. *)

From S2P Require Import Prelude Lifecycle.

Definition SECOND : Z := 1000000000.
(** [SignedDuration::as_secs]: whole seconds, towards zero. *)
Definition as_secs (d : Z) : Z := Z.quot d SECOND.
(** [jiff::Timestamp::MAX]; [checked_add] fails beyond it. *)
Definition TIMESTAMP_MAX : Z := 253402207200999999999.
Definition ts_checked_add (t d : Z) : option Z :=
  if (t + d <=? TIMESTAMP_MAX)%Z then Some (t + d)%Z else None.

(** [str::contains], and [str::match_indices] as the (before, after) pairs of
    the non-overlapping occurrences. *)
Definition contains (p t : text) : bool := is_some (split_once p t).
Fixpoint match_splits (fuel : nat) (p before t : text) : list (text * text) :=
  match fuel with
  | O => []
  | S fuel' =>
      match split_once p t with
      | None => []
      | Some (a, b) => (before ++ a, b) :: match_splits fuel' p (before ++ a ++ p) b
      end
  end.
Definition match_indices (p t : text) : list (text * text) := match_splits (S (length t)) p [] t.

Module TurnError.

Inductive TurnErrorClass :=
| PausedRateLimit | PausedSpendLimit | PausedOverloaded | Unknown | NotEntitled | Failed.
#[export] Instance TurnErrorClass_eq_dec : EqDecision TurnErrorClass.
Proof. solve_decision. Defined.

Definition pauses_turn (c : TurnErrorClass) : bool :=
  match c with PausedRateLimit | PausedSpendLimit | PausedOverloaded => true | _ => false end.
Definition is_limit (c : TurnErrorClass) : bool :=
  match c with PausedRateLimit | PausedSpendLimit => true | _ => false end.

Definition is_usage_cap_error (lower : text) : bool :=
  existsb (fun '(_, suffix) =>
    is_some_and (split_once (str "usage limits") suffix) (fun '(middle, _) =>
      forallb (fun ch => is_ascii_alphanumeric ch || (ch =? 95)%N || (ch =? 45)%N
                         || is_whitespace ch) middle))
    (flat_map (fun '(_, after) =>
       [([] : text, unwrap_or (option_map fst (split_once (str "reached your specified") after)) after)])
       (match_indices (str "reached your specified") lower)).

(** [char::is_ascii_whitespace]. *)
Definition is_ascii_whitespace (c : char) : bool :=
  (c =? 32)%N || (c =? 9)%N || (c =? 10)%N || (c =? 12)%N || (c =? 13)%N.

Fixpoint trim_start_matches (f : char -> bool) (t : text) : text :=
  match t with
  | c :: t' => if f c then trim_start_matches f t' else t
  | [] => []
  end.

(** The status that follows one occurrence of a marker. *)
Definition marker_status (occurrence : text * text) : option N :=
  let '(before, suffix) := occurrence in
  if is_some_and (last before) is_ascii_alphanumeric then None
  else
    let digits := trim_start_matches
      (fun ch => is_ascii_whitespace ch || (ch =? 58)%N || (ch =? 47)%N || (ch =? 61)%N) suffix in
    if (length digits =? length suffix)%nat then None
    else
      match digits with
      | b0 :: b1 :: b2 :: rest =>
          if negb (forallb is_ascii_digit [b0; b1; b2]) || is_some_and (head rest) is_ascii_digit
          then None
          else
            let code := ((b0 - 48) * 100 + (b1 - 48) * 10 + (b2 - 48))%N in
            if (400 <=? code)%N && (code <? 600)%N then Some code else None
      | _ => None
      end.

(** [Iterator::find_map]. *)
Fixpoint find_map {A B} (f : A -> option B) (l : list A) : option B :=
  match l with
  | [] => None
  | x :: l' => match f x with Some y => Some y | None => find_map f l' end
  end.

Definition http_error_status (lower : text) : option N :=
  find_map marker_status
    (flat_map (fun marker => match_indices marker lower)
       [str "status"; str "gateway"; str "error code"]).

Definition is_transient_server_error (lower : text) : bool :=
  existsb (fun p => contains p lower)
    [str "overloaded"; str "at capacity"; str "high demand"; str "server is busy";
     str "internal server error"; str "server error"; str "service unavailable";
     str "bad gateway"; str "gateway timeout"; str "no response from api"; str "stalled";
     str "timed out"; str "timeout"; str "connection error"; str "connection closed";
     str "connection reset"; str "connection lost"; str "socket hang up"; str "broken pipe";
     str "econnreset"; str "mid-response"; str "mid-stream"; str "network error"].

Definition classify_label (label : option text) : TurnErrorClass :=
  let! label := label else Failed in
  let lower := to_ascii_lowercase label in
  if is_usage_cap_error lower then Failed
  else
    let status := http_error_status lower in
    if contains (str "spend limit") lower then PausedSpendLimit
    else if existsb (fun p => contains p lower)
              [str "usage limit"; str "session limit"; str "rate limit"; str "quota";
               str "too many requests"]
            || bool_decide (status = Some 429%N)
    then PausedRateLimit
    else if is_transient_server_error lower
            || is_some_and status (fun code => (500 <=? code)%N && (code <? 600)%N)
    then PausedOverloaded
    else Failed.

Record AgentTurnError := {
  ended_turn : bool;
  class : TurnErrorClass;
  at_ : Z;
  label : option text
}.

Definition effective_turn_error_class (error : AgentTurnError) : TurnErrorClass :=
  if negb (bool_decide (class error = Failed)) then class error
  else
    match classify_label (label error) with
    | PausedSpendLimit => PausedSpendLimit
    | PausedRateLimit => PausedRateLimit
    | _ => Failed
    end.

End TurnError.

Module PetName.

Definition sender_handle (role name : option text) (kind : text) : text :=
  let base := unwrap_or (or_else (ofilter role (fun v => negb (is_empty v)))
                                 (ofilter name (fun v => negb (is_empty v)))) kind in
  str "@" ++ base.

Definition sender_label (handle : text) (profile : option text) (kind : text) : option text :=
  let label := unwrap_or (ofilter profile (fun v => negb (is_empty v))) kind in
  let base := unwrap_or (strip_prefix (str "@") handle) handle in
  let base := match split_once (str "#") base with Some (base, _) => base | None => base end in
  let role := match profile with
              | Some p => option_map snd (split_once (str ".") p)
              | None => None
              end in
  if negb (bool_decide (label = base)) && negb (bool_decide (role = Some base))
  then Some label else None.

End PetName.

(** ** Where an agent runs ([pane.rs], [agents/observation.rs]) *)

Module Placement.

Inductive Automation := Loop | AWorkflow (workflow step : text).
#[export] Instance Automation_eq_dec : EqDecision Automation.
Proof. solve_decision. Defined.

Inductive RuntimeOwnerKind := OwnerAgent | OwnerDaemon | OwnerScript.
#[export] Instance RuntimeOwnerKind_eq_dec : EqDecision RuntimeOwnerKind.
Proof. solve_decision. Defined.
Record RuntimeOwner := {
  runtime_kind : RuntimeOwnerKind; subject_id : text; runtime_pid : N; process_start : option text
}.

(** The fields of [PaneRef] some modelled code reads or writes; the others travel
    with the record. *)
Record PaneRef := {
  pane_id : text;
  foreground_cmdline : option text;
  spawn_command : option text;
  pane_pid : option N;
  pane_process_start : option Z
}.
#[export] Instance PaneRef_eta : Eta PaneRef := fun p =>
  {| pane_id := pane_id p; foreground_cmdline := foreground_cmdline p;
     spawn_command := spawn_command p; pane_pid := pane_pid p;
     pane_process_start := pane_process_start p |}.

(** [PaneRef::from_id]. *)
Definition from_id (id : text) : PaneRef :=
  {| pane_id := id; foreground_cmdline := None; spawn_command := None; pane_pid := None;
     pane_process_start := None |}.

End Placement.

Module Agent.
Import TurnError.

Inductive TurnSettleOutcome := Complete | PlanProposed | NativeWait | Interrupted.
#[export] Instance TurnSettleOutcome_eq_dec : EqDecision TurnSettleOutcome.
Proof. solve_decision. Defined.
Record TurnSettle := { settle_at : Z; outcome : TurnSettleOutcome }.

Record PermissionSettle := { ask_since : Z; proof_at : Z }.
Definition answers (p : PermissionSettle) (since : Z) : bool :=
  (ask_since p =? since)%Z && (since <? proof_at p)%Z.

Record AgentContext := {
  turn_error : option AgentTurnError;
  settle : option TurnSettle;
  permission_settle : option PermissionSettle
}.

Record OpenAsk := {
  ask_id : text;
  ask_kind : AskKind;
  ask_detail : option text;
  extra_questions : N;
  ask_native_key : option text;
  since : Z
}.

(** [agents/background_shell.rs]. *)
Record BackgroundShell := {
  shell_id : text;
  shell_command : option text;
  shell_description : option text;
  shell_started_at : Z
}.
Inductive PendingWaitClass := Working | WaitSleeping | Inert.
Inductive PermissionMode := Auto | Ask | Yolo | Plan.
#[export] Instance PermissionMode_eq_dec : EqDecision PermissionMode.
Proof. solve_decision. Defined.
Inductive SamePaneSessionPolicy := FollowLatest | KeepPrimary.

(** What the agent registry tells of a kind ([spec_by_kind]). *)
Record AgentSpec := {
  permission_before_auto_review : bool;
  same_pane_session : SamePaneSessionPolicy;
  native_turn_started : bool
}.

Record AgentState := {
  molted_from : option text;
  agent_id : text;
  launch_id : option text;
  prior_launch_ids : list text;
  agent_kind : text;
  name : option text;
  mode : option PermissionMode;
  role : option text;
  team : option text;
  channel_stamp : option text;
  root_lane : bool;
  ended_at : option Z;
  resumed_at : option Z;
  agent_status : AgentStatus;
  agent_phase : TurnPhase;
  parent_agent_id : option text;
  parent_agent_kind : option text;
  launch_depth : option N;
  launched_by : option (text * text);
  worktree_path : option text;
  checkout : option text;
  profile : option text;
  context : option AgentContext;
  budget_park : bool;
  pending_waits : list PendingWaitClass;
  background_shells : list BackgroundShell;
  turn_started_at : option Z;
  turn_ended_at : option Z;
  ping_turn : bool;
  waiting_since : option Z;
  open_ask : option OpenAsk;
  started_turn_id : option text;
  superseded_turn_id : option text;
  closed_turn_id : option text;
  compacting_since : option Z;
  compacted_awaiting_prompt : option Z;
  last_activity : Z;
  registered_at : option Z;
  on_screen_at : option Z
}.
#[export] Instance AgentState_eta : Eta AgentState := fun a =>
  {| molted_from := molted_from a; agent_id := agent_id a; launch_id := launch_id a;
     prior_launch_ids := prior_launch_ids a; agent_kind := agent_kind a; name := name a;
     mode := mode a; role := role a; team := team a; channel_stamp := channel_stamp a;
     root_lane := root_lane a; ended_at := ended_at a; resumed_at := resumed_at a;
     agent_status := agent_status a; agent_phase := agent_phase a;
     parent_agent_id := parent_agent_id a; parent_agent_kind := parent_agent_kind a;
     launch_depth := launch_depth a; launched_by := launched_by a;
     worktree_path := worktree_path a; checkout := checkout a; profile := profile a;
     context := context a; budget_park := budget_park a; pending_waits := pending_waits a;
     background_shells := background_shells a; turn_started_at := turn_started_at a;
     turn_ended_at := turn_ended_at a; ping_turn := ping_turn a; waiting_since := waiting_since a;
     open_ask := open_ask a; started_turn_id := started_turn_id a;
     superseded_turn_id := superseded_turn_id a; closed_turn_id := closed_turn_id a;
     compacting_since := compacting_since a;
     compacted_awaiting_prompt := compacted_awaiting_prompt a;
     last_activity := last_activity a; registered_at := registered_at a;
     on_screen_at := on_screen_at a |}.

(** [AgentCardRef]: kind, session id, stable name. *)
Record AgentCardRef := { card_kind : text; card_id : text; card_name : option text }.
Definition matches (self other : AgentCardRef) : bool :=
  bool_decide (card_kind self = card_kind other)
  && (bool_decide (card_id self = card_id other)
      || (is_some (card_name self) && bool_decide (card_name self = card_name other))).
Definition card_ref (a : AgentState) : AgentCardRef :=
  {| card_kind := agent_kind a; card_id := agent_id a; card_name := name a |}.

(** [TurnCompletion::of]. *)
Inductive TurnCompletion := TurnOpen | TurnCompleted | TurnFailed.
Definition turn_completion_of (status : AgentStatus) (turn_started_at : option Z) : TurnCompletion :=
  match status with
  | Lifecycle.Failed => TurnFailed
  | Idle | Success => if is_some turn_started_at then TurnCompleted else TurnOpen
  | _ => TurnOpen
  end.

Definition is_stalled (status : AgentStatus) (last_activity now : Z) (stalled_after_secs : N) : bool :=
  bool_decide (status = Running) && (Z.of_N stalled_after_secs <=? as_secs (now - last_activity))%Z.

(** [repeat] is the count of the repeated call. *)
Definition is_tool_looping (status : AgentStatus) (repeat : option N) (attention_after : N) : bool :=
  bool_decide (status = Running) && is_some_and repeat (fun count => (attention_after <=? count)%N).

Definition active_turn_error (status : AgentStatus) (context : option AgentContext)
    (last_activity : Z) : option AgentTurnError :=
  if negb (bool_decide (status = Running)) then None
  else
    let! context := context else None in
    ofilter (turn_error context) (fun error => (last_activity <? at_ error)%Z).
Definition is_turn_dead (status : AgentStatus) (context : option AgentContext)
    (last_activity : Z) : bool := is_some (active_turn_error status context last_activity).

Definition waiting_turn_ended (context : option AgentContext) (last_activity : Z) : bool :=
  is_some_and (active_turn_error Running context last_activity) ended_turn.

Definition terminal_turn_error (status : AgentStatus) (context : option AgentContext)
    (turn_started_at : option Z) : option AgentTurnError :=
  if negb (bool_decide (status = Lifecycle.Failed)) then None
  else
    let! started := turn_started_at else None in
    let! context := context else None in
    ofilter (turn_error context) (fun error => (started <=? at_ error)%Z).

Definition display_turn_error (status : AgentStatus) (context : option AgentContext)
    (last_activity : Z) (turn_started_at : option Z) : option AgentTurnError :=
  or_else (active_turn_error status context last_activity)
          (terminal_turn_error status context turn_started_at).

Definition settled_outcome (status : AgentStatus) (context : option AgentContext)
    (last_activity : Z) : option TurnSettleOutcome :=
  let! context := context else None in
  let! settle := settle context else None in
  if (settle_at settle <=? last_activity)%Z then None
  else
    let admitted :=
      match outcome settle with
      | Interrupted => match status with Running | Waiting => true | _ => false end
      | _ => bool_decide (status = Running)
      end in
    if admitted then Some (outcome settle) else None.

Inductive WaitingResolution := NotWaiting | ResInterrupted | TurnEndedRes | Held | Answered | InReview.

Definition COMPACTING_WINDOW_SECS : Z := 90.
Definition PERMISSION_REVIEW_WINDOW_SECS : Z := 60.

Definition is_launched_child (a : AgentState) : bool :=
  is_some (parent_agent_id a) && is_some (launch_depth a).
Definition is_provider_subagent (a : AgentState) : bool :=
  is_some (parent_agent_id a) && is_none (launch_depth a).
Definition is_child_session (a : AgentState) : bool := is_some (parent_agent_id a).

Definition launcher (a : AgentState) : option (text * text) :=
  if is_launched_child a then
    option_map (fun id => (unwrap_or (parent_agent_kind a) (agent_kind a), id)) (parent_agent_id a)
  else launched_by a.

Definition identity_ids (a : AgentState) : list text :=
  agent_id a :: (match launch_id a with Some id => [id] | None => [] end) ++ prior_launch_ids a.
Definition answers_to (a : AgentState) (id : text) : bool :=
  existsb (fun identity => bool_decide (identity = id)) (identity_ids a).

Definition set_launch_id (a : AgentState) (id : text) : AgentState :=
  if bool_decide (launch_id a = Some id) then a
  else
    let priors := List.filter (fun prior => negb (bool_decide (prior = id))) (prior_launch_ids a) in
    let priors := match launch_id a with Some previous => priors ++ [previous] | None => priors end in
    a <| launch_id := Some id |> <| prior_launch_ids := priors |>.

Definition launcher_is (a candidate : AgentState) : bool :=
  is_some_and (launcher a) (fun '(kind, id) =>
    bool_decide (kind = agent_kind candidate) && answers_to candidate id).
Definition is_team_seat (a : AgentState) : bool :=
  is_some_and (team a) (fun team => negb (is_empty team)) && negb (is_launched_child a).
Definition parent_is (a candidate : AgentState) : bool :=
  is_some_and (parent_agent_id a) (answers_to candidate)
  && bool_decide (unwrap_or (parent_agent_kind a) (agent_kind a) = agent_kind candidate).

Definition lane_path (a : AgentState) : option text := or_else (checkout a) (worktree_path a).

(** [ids::compose_channel]; a path's basename is its last [/] component. *)
Definition compose_channel (explicit dir_basename : option text) : option text :=
  or_else (ofilter explicit (fun c => negb (is_empty c)))
          (ofilter dir_basename (fun d => negb (is_empty d))).
Fixpoint path_basename (acc path : text) : text :=
  match path with
  | [] => acc
  | c :: path' => if (c =? 47)%N then path_basename [] path' else path_basename (acc ++ [c]) path'
  end.
Definition channel (a : AgentState) : option text :=
  compose_channel (channel_stamp a) (option_map (path_basename []) (lane_path a)).
Definition lane_label (a : AgentState) : option text :=
  if root_lane a then Some (str "main") else channel a.

Definition is_compacting (a : AgentState) (now : Z) : bool :=
  is_some_and (compacting_since a) (fun since => (as_secs (now - since) <? COMPACTING_WINDOW_SECS)%Z).

Definition lifecycle (a : AgentState) : LifecycleState :=
  {| status := agent_status a; phase := agent_phase a; compacting := is_some (compacting_since a) |}.
Definition turn_ids (a : AgentState) : PriorTurnIds :=
  {| started := started_turn_id a; superseded := superseded_turn_id a; closed := closed_turn_id a |}.

(** [AgentSessionId::is_provisional]. *)
Definition is_provisional (id : text) : bool := starts_with (str "launch_") id.
Definition molt_stands (a : AgentState) : bool :=
  is_none (ended_at a)
  && negb (bool_decide (agent_status a = Lifecycle.Failed) && is_provisional (agent_id a)).

(** The work list of [standing_successor] is a stack ([Vec::pop] takes the last). *)
Fixpoint successor_loop (fuel : nat) (agents : list AgentState) (pending visited : list text)
  : option AgentState :=
  match fuel with
  | O => None
  | S fuel' =>
      match last pending with
      | None => None
      | Some predecessor =>
          let pending := removelast pending in
          if bool_decide (predecessor ∈ visited) then successor_loop fuel' agents pending visited
          else
            let children :=
              List.filter (fun a => bool_decide (molted_from a = Some predecessor)) agents in
            match List.find molt_stands children with
            | Some agent => Some agent
            | None =>
                successor_loop fuel' agents (pending ++ flat_map identity_ids children)
                  (predecessor :: visited)
            end
      end
  end.
(** Every identity enters the work list at most once, for the one row that
    carries it, and the predecessor once. *)
Definition standing_successor (agents : list AgentState) (predecessor : text) : option AgentState :=
  successor_loop (2 + length (flat_map identity_ids agents)) agents [predecessor] [].

(** ** Status projections *)

Section Projections.
(** The registry's entry of a kind. *)
Variable spec_by_kind : text -> option AgentSpec.

Definition has_native_turn_started (a : AgentState) : bool :=
  is_some_and (spec_by_kind (agent_kind a)) native_turn_started.
Definition compacted_since_prompt (a : AgentState) : bool :=
  is_some (compacted_awaiting_prompt a) && has_native_turn_started a.
Definition compaction_unprompted (a : AgentState) (now : Z) : bool :=
  is_compacting a now || compacted_since_prompt a.

Definition auto_reviewed_permission (a : AgentState) : option OpenAsk :=
  ofilter (open_ask a) (fun ask =>
    bool_decide (ask_kind ask = Permission) && bool_decide (mode a = Some Auto)
    && is_some_and (spec_by_kind (agent_kind a)) permission_before_auto_review).
Definition settleable_permission_since (a : AgentState) : option Z :=
  option_map since (ofilter (auto_reviewed_permission a) (fun ask => is_none (ask_native_key ask))).
Definition waiting_permission_settled (a : AgentState) (context : option AgentContext) : bool :=
  is_some_and (settleable_permission_since a) (fun since =>
    match context with
    | Some context => is_some_and (permission_settle context) (fun proof => answers proof since)
    | None => false
    end).
Definition permission_settled (a : AgentState) : bool :=
  bool_decide (agent_status a = Waiting) && waiting_permission_settled a (context a).

Definition holds_open_turn (a : AgentState) : bool :=
  let settled := settled_outcome (agent_status a) (context a) (last_activity a) in
  match agent_status a with
  | Running =>
      if match settled with Some NativeWait | Some PlanProposed => true | _ => false end then true
      else
        negb (budget_park a) && negb (bool_decide (agent_phase a = Phase.Parked))
        && is_none (active_turn_error (agent_status a) (context a) (last_activity a))
        && negb match settled with Some Complete | Some Interrupted => true | _ => false end
  | Waiting =>
      negb (bool_decide (settled = Some Interrupted))
      && negb (waiting_turn_ended (context a) (last_activity a))
  | _ => false
  end.
Definition is_asking (a : AgentState) : bool :=
  bool_decide (agent_status a = Waiting) && holds_open_turn a.

Definition is_awaiting_input (a : AgentState) : bool :=
  if permission_settled a then false
  else
    let settled := settled_outcome (agent_status a) (context a) (last_activity a) in
    let ask_reserves :=
      is_some_and (open_ask a) (fun ask => is_some (ask_native_key ask))
      || is_some_and (waiting_since a) (fun waiting_since => (last_activity a <=? waiting_since)%Z) in
    if bool_decide (agent_status a = Waiting) && waiting_turn_ended (context a) (last_activity a)
    then
      ask_reserves
      && negb match mode a with Some Auto | Some Yolo => true | _ => false end
      && negb (bool_decide (settled = Some Interrupted))
    else
      match settled with Some NativeWait | Some PlanProposed => true | _ => false end
      || (bool_decide (agent_status a = Waiting) && holds_open_turn a && ask_reserves).

Definition permission_review_until (a : AgentState) : option Z :=
  let! ask := auto_reviewed_permission a else None in
  if negb (is_awaiting_input a) then None
  else ts_checked_add (since ask) (PERMISSION_REVIEW_WINDOW_SECS * SECOND).
Definition is_reviewing_permission (a : AgentState) (now : Z) : bool :=
  is_some_and (permission_review_until a) (fun until => (now <? until)%Z).

Definition attention_ask (a : AgentState) (now : Z) : option OpenAsk :=
  ofilter (open_ask a) (fun _ =>
    holds_open_turn a && is_awaiting_input a && negb (is_reviewing_permission a now)).

(** [WaitingResolution::resolve]. *)
Definition resolve (status : AgentStatus) (context : option AgentContext) (last_activity_ : Z)
    (source_agent : option AgentState) (now : Z) : WaitingResolution :=
  if negb (bool_decide (status = Waiting)) then NotWaiting
  else if bool_decide (settled_outcome status context last_activity_ = Some Interrupted)
  then ResInterrupted
  else if waiting_turn_ended context last_activity_ then TurnEndedRes
  else if is_some_and source_agent (fun agent => waiting_permission_settled agent context)
  then Answered
  else if is_some_and source_agent (fun agent =>
            is_none_or (open_ask agent) (fun ask => is_none (ask_native_key ask))
            && is_some_and (waiting_since agent) (fun since => (since <? last_activity agent)%Z))
  then Answered
  else if is_some_and source_agent (fun agent => is_reviewing_permission agent now)
  then InReview
  else Held.

Definition own_resolution (a : AgentState) (now : Z) : WaitingResolution :=
  resolve (agent_status a) (context a) (last_activity a) (Some a) now.

Definition resolved_status_phase (a : AgentState) (now : Z) : AgentStatus * TurnPhase :=
  match own_resolution a now with
  | TurnEndedRes | Answered | InReview => (Running, Phase.Reasoning)
  | NotWaiting | ResInterrupted | Held => (agent_status a, agent_phase a)
  end.

Definition displayed_turn_error (a : AgentState) (now : Z)
  : option (TurnErrorClass * AgentTurnError) :=
  let '(status, _) := resolved_status_phase a now in
  option_map (fun error => (effective_turn_error_class error, error))
    (display_turn_error status (context a) (last_activity a) (turn_started_at a)).

Definition rested_status (a : AgentState) (now : Z) : AgentStatus :=
  let '(status, phase) := resolved_status_phase a now in
  let settled := settled_outcome status (context a) (last_activity a) in
  if match settled with Some NativeWait | Some PlanProposed => true | _ => false end
  then Waiting
  else if budget_park a && negb (bool_decide (status = Waiting)) then Paused
  else if bool_decide (status = Waiting) && bool_decide (settled = Some Interrupted) then Idle
  else
    match displayed_turn_error a now with
    | Some (class, _) => if pauses_turn class then Paused else Lifecycle.Failed
    | None =>
        if negb (bool_decide (status = Running)) then status
        else
          match settled with
          | Some Complete => Success
          | Some Interrupted => Idle
          | Some PlanProposed | Some NativeWait | None =>
              if bool_decide (phase = Phase.Parked) then Success else status
          end
    end.

Definition effective_status (a : AgentState) (now : Z) : AgentStatus :=
  let status := rested_status a now in
  if match status with Idle | Success => true | _ => false end && negb (is_empty (pending_waits a))
  then Sleeping else status.

Definition display_rest_status (a : AgentState) (status : AgentStatus) : AgentStatus :=
  if negb match status with Idle | Success => true | _ => false end then status
  else if negb (is_empty (background_shells a))
          || existsb (fun w => match w with Working => true | _ => false end) (pending_waits a)
  then Running
  else if existsb (fun w => match w with WaitSleeping => true | _ => false end) (pending_waits a)
  then Sleeping
  else status.

Definition is_focused_pair (a other : AgentState) : bool :=
  bool_decide (agent_kind a = agent_kind other)
  && (is_some (on_screen_at a) || is_some (on_screen_at other))
  && is_some_and (spec_by_kind (agent_kind a)) (fun definition =>
       match same_pane_session definition with FollowLatest => true | KeepPrimary => false end).

(** [Ordering::then_with], [bool::cmp], [Option<Timestamp>::cmp]. *)
Definition then_with (c d : comparison) : comparison := match c with Eq => d | _ => c end.
Definition bool_cmp (a b : bool) : comparison :=
  match a, b with false, true => Lt | true, false => Gt | _, _ => Eq end.
Definition option_cmp (a b : option Z) : comparison :=
  match a, b with
  | None, None => Eq | None, Some _ => Lt | Some _, None => Gt
  | Some x, Some y => (x ?= y)%Z
  end.

Definition latest_registration (l r : AgentState) : comparison :=
  match registered_at l, registered_at r with
  | Some l, Some r => (r ?= l)%Z
  | Some _, None => Lt
  | None, Some _ => Gt
  | None, None => Eq
  end.

Definition follows_latest (a other : AgentState) : bool :=
  bool_decide (agent_kind a = agent_kind other)
  && is_some_and (spec_by_kind (agent_kind a)) (fun definition =>
       match same_pane_session definition with FollowLatest => true | KeepPrimary => false end).

Definition compare_same_pane_owner (a other : AgentState) : comparison :=
  let follows_latest := follows_latest a other in
  let focus_order :=
    if is_focused_pair a other
    then then_with (bool_cmp (is_asking other) (is_asking a))
                   (option_cmp (on_screen_at other) (on_screen_at a))
    else Eq in
  then_with focus_order
    (then_with (bool_cmp (holds_open_turn other) (holds_open_turn a))
       (if holds_open_turn a then
          if follows_latest
          then then_with (latest_registration a other)
                 (then_with (last_activity other ?= last_activity a)%Z
                            (text_cmp (agent_id other) (agent_id a)))
          else then_with (then_with (bool_cmp (is_none (registered_at a)) (is_none (registered_at other)))
                                    (option_cmp (registered_at a) (registered_at other)))
                 (text_cmp (agent_id a) (agent_id other))
        else
          then_with (last_activity other ?= last_activity a)%Z
            (then_with (latest_registration a other)
               (if follows_latest then text_cmp (agent_id other) (agent_id a)
                else text_cmp (agent_id a) (agent_id other))))).
End Projections.

(** ** The lifecycle step of a record *)

Definition snapshot_transition (prior : option LifecycleState) (signal : LifecycleSignal) : Transition :=
  let prior_state := unwrap_or prior {| status := Idle; phase := Phase.Idle; compacting := false |} in
  let prior_status := status prior_state in
  let next_status :=
    match signal, prior_status with
    | TurnStarted _, _ => Running
    | Registered, (Running | Waiting) => Idle
    | _, _ => prior_status
    end in
  let next_phase :=
    if bool_decide (next_status = prior_status) then phase prior_state
    else if bool_decide (next_status = Running) then Phase.Reasoning else Phase.Idle in
  {| next := {| status := next_status; phase := next_phase; compacting := compacting prior_state |};
     kind := Normal;
     compaction_closed := false;
     waiting_cleared := bool_decide (prior_status = Waiting) && negb (bool_decide (next_status = Waiting));
     opened_turn := bool_decide (next_status = Running)
                    && negb match prior_status with Running | Waiting => true | _ => false end;
     ping := None |}.

Definition rests_in_lifecycle (a : AgentState) : bool :=
  match agent_status a with
  | Idle | Success => true
  | Running => bool_decide (agent_phase a = Phase.Parked)
  | _ => false
  end.

Definition transition (prior : option AgentState) (signal : LifecycleSignal)
    (keepalive_prompt state_snapshot : bool) : Transition :=
  if state_snapshot then snapshot_transition (option_map lifecycle prior) signal
  else
    let stepped :=
      step (option_map lifecycle prior)
        (match prior with
         | Some agent => match open_ask agent with Some ask => ask_native_key ask | None => None end
         | None => None
         end)
        (match prior with Some agent => turn_ids agent | None => no_turn_ids end) signal in
    let! prior := prior else stepped in
    let stale := match kind stepped with Ignored _ => true | _ => false end in
    let close_edge (turn_id : option text) :=
      if ping_turn prior then
        let known_real :=
          stale || (is_some turn_id && bool_decide (started_turn_id prior = turn_id)) in
        Some (if known_real then Report else Close)
      else None in
    let ping :=
      match signal with
      | TurnStarted _ =>
          if negb stale
             && ((ping_turn prior || (rests_in_lifecycle prior && is_none (compacting_since prior)))
                 && keepalive_prompt)
          then Some Open else None
      | TurnEnded _ _ turn_id => close_edge turn_id
      | TurnInterrupted turn_id => close_edge turn_id
      | _ => None
      end in
    let! edge := ping else stepped in
    let kind :=
      match stale, edge with
      | true, _ => kind stepped
      | false, Report =>
          Ignored (str "turn report for a real turn while a cache keepalive is open")
      | false, _ => Ignored (str "cache keepalive turn")
      end in
    {| next := lifecycle prior; kind := kind; compaction_closed := false; waiting_cleared := false;
       opened_turn := false; ping := Some edge |}.

End Agent.

(** * Properties *)

Module AgentFacts.
Import TurnError Agent.

Section ProjectionFacts.
Variable spec_by_kind : text -> option AgentSpec.

Lemma settled_admitted status context last_activity o :
  settled_outcome status context last_activity = Some o ->
  match o with
  | Interrupted => status = Running \/ status = Waiting
  | _ => status = Running
  end.
Proof.
  unfold settled_outcome. destruct context as [c|]; [|done]. destruct (settle c) as [s|]; [|done].
  destruct (_ <=? _)%Z; [done|]. destruct (outcome s), status; simpl; intros [= <-] || idtac; auto; done.
Qed.

Lemma effective_keeps_turn a now :
  match effective_status spec_by_kind a now with Running | Waiting => true | _ => false end
  = match rested_status spec_by_kind a now with Running | Waiting => true | _ => false end.
Proof.
  unfold effective_status. destruct (rested_status _ _ _) eqn:E; simpl; try done.
  all: by destruct (pending_waits a).
Qed.

Lemma resolve_not_waiting status c last agent now :
  resolve spec_by_kind status c last agent now = NotWaiting <-> status <> Waiting.
Proof.
  unfold resolve. destruct (decide (status = Waiting)) as [->|Hne].
  - simpl. split; [|done]. repeat case_match; done.
  - by rewrite bool_decide_eq_false_2.
Qed.

(** C38: whatever markers a provider left, a row whose wait is not already
    resolved owns an open turn exactly when its effective status, the one the
    delivery gates read, is running or waiting. *)
Theorem open_turn_iff_effective a now :
  match own_resolution spec_by_kind a now with
  | NotWaiting | ResInterrupted | Held =>
      holds_open_turn a
      = match effective_status spec_by_kind a now with Running | Waiting => true | _ => false end
  | TurnEndedRes => holds_open_turn a = false
  | Answered | InReview => agent_status a = Waiting
  end.
Proof.
  rewrite effective_keeps_turn. unfold rested_status, displayed_turn_error, resolved_status_phase.
  destruct (own_resolution spec_by_kind a now) eqn:Er; unfold own_resolution in Er.
  - apply resolve_not_waiting in Er. unfold holds_open_turn, display_turn_error.
    pose proof (settled_admitted (agent_status a) (context a) (last_activity a)) as Hs.
    destruct (settled_outcome _ _ _) as [o|].
    + specialize (Hs o eq_refl). assert (Hr : agent_status a = Running) by (destruct o; naive_solver).
      rewrite Hr. unfold terminal_turn_error. cbn [bool_decide].
      destruct o; simpl; rewrite ?andb_false_r; try done.
      all: destruct (budget_park a); [done|]; simpl.
      all: destruct (active_turn_error _ _ _); simpl; [by destruct (pauses_turn _)|done].
    + destruct (agent_status a) eqn:Est; try done; simpl.
      * destruct (budget_park a); [done|]; simpl.
        unfold terminal_turn_error. simpl.
        destruct (active_turn_error _ _ _) as [e|]; simpl.
        { rewrite andb_false_r. by destruct (pauses_turn _). }
        destruct (bool_decide (agent_phase a = Phase.Parked)); done.
      * destruct (budget_park a); [done|]. unfold active_turn_error, terminal_turn_error. by simpl.
      * destruct (budget_park a); [done|]. unfold active_turn_error, terminal_turn_error. by simpl.
      * destruct (budget_park a); [done|]; simpl. unfold active_turn_error. simpl.
        destruct (terminal_turn_error _ _ _); simpl; [by destruct (pauses_turn _)|done].
      * destruct (budget_park a); [done|]. unfold active_turn_error, terminal_turn_error. by simpl.
      * destruct (budget_park a); [done|]. unfold active_turn_error, terminal_turn_error. by simpl.
  - unfold resolve in Er. unfold holds_open_turn.
    destruct (bool_decide (agent_status a = Waiting)) eqn:Ew; [|done].
    apply bool_decide_eq_true in Ew. rewrite Ew in *. simpl in Er |- *.
    destruct (bool_decide (_ = Some Interrupted)) eqn:Ei; [|repeat case_match; done].
    apply bool_decide_eq_true in Ei. rewrite Ei. simpl. by rewrite andb_false_r.
  - unfold resolve in Er. unfold holds_open_turn.
    destruct (bool_decide (agent_status a = Waiting)) eqn:Ew; [|done].
    apply bool_decide_eq_true in Ew. rewrite Ew in *. simpl in Er |- *.
    destruct (bool_decide (_ = Some Interrupted)); [done|].
    destruct (waiting_turn_ended _ _); [done|]. repeat case_match; done.
  - unfold resolve in Er. unfold holds_open_turn.
    destruct (bool_decide (agent_status a = Waiting)) eqn:Ew; [|done].
    apply bool_decide_eq_true in Ew. rewrite Ew in *. simpl in Er |- *.
    pose proof (settled_admitted Waiting (context a) (last_activity a)) as Hs.
    destruct (bool_decide (settled_outcome Waiting _ _ = Some Interrupted)) eqn:Ei; [done|].
    apply bool_decide_eq_false in Ei.
    destruct (settled_outcome Waiting _ _) as [o|]; [specialize (Hs o eq_refl); destruct o; done|].
    destruct (waiting_turn_ended _ _); [done|]. simpl. rewrite andb_false_r. simpl.
    unfold display_turn_error, active_turn_error, terminal_turn_error. done.
  - unfold resolve in Er. destruct (decide (agent_status a = Waiting)); [done|].
    by rewrite bool_decide_eq_false_2 in Er.
  - unfold resolve in Er. destruct (decide (agent_status a = Waiting)); [done|].
    by rewrite bool_decide_eq_false_2 in Er.
Qed.
End ProjectionFacts.

Section OwnerFacts.
Variable spec_by_kind : text -> option AgentSpec.

Lemma then_with_opp c d : CompOpp (then_with c d) = then_with (CompOpp c) (CompOpp d).
Proof. by destruct c. Qed.
Lemma bool_cmp_opp a b : CompOpp (bool_cmp a b) = bool_cmp b a.
Proof. by destruct a, b. Qed.
Lemma option_cmp_opp a b : CompOpp (option_cmp a b) = option_cmp b a.
Proof. destruct a, b; simpl; try done. by rewrite Z.compare_antisym, CompOpp_involutive. Qed.
Lemma registration_opp a b : CompOpp (latest_registration a b) = latest_registration b a.
Proof.
  unfold latest_registration. destruct (registered_at a), (registered_at b); try done.
  by rewrite Z.compare_antisym, CompOpp_involutive.
Qed.
Lemma bool_cmp_eq a b : bool_cmp a b = Eq -> a = b.
Proof. by destruct a, b. Qed.

Lemma then_with_eq c d : then_with c d = Eq -> c = Eq /\ d = Eq.
Proof. by destruct c. Qed.

Lemma focused_sym a b : is_focused_pair spec_by_kind a b = is_focused_pair spec_by_kind b a.
Proof.
  unfold is_focused_pair. destruct (decide (agent_kind a = agent_kind b)) as [He|Hne].
  - rewrite !bool_decide_eq_true_2, He by done. f_equal. by rewrite orb_comm.
  - by rewrite !bool_decide_eq_false_2 by congruence.
Qed.

(** The order that picks the owner of a pane shared by two roots does not
    depend on which one is asked, and ties only a row with itself. *)
Theorem pane_owner_order_total a b :
  compare_same_pane_owner spec_by_kind b a = CompOpp (compare_same_pane_owner spec_by_kind a b)
  /\ (compare_same_pane_owner spec_by_kind a b = Eq -> agent_id a = agent_id b).
Proof.
  unfold compare_same_pane_owner. rewrite (focused_sym b a).
  assert (Hf : follows_latest spec_by_kind b a = follows_latest spec_by_kind a b).
  { unfold follows_latest. destruct (decide (agent_kind a = agent_kind b)) as [He|Hne].
    - by rewrite !bool_decide_eq_true_2, He by done.
    - by rewrite !bool_decide_eq_false_2 by congruence. }
  rewrite Hf. set (f := follows_latest spec_by_kind a b). clearbody f. clear Hf.
  split.
  - rewrite !then_with_opp. f_equal.
    { destruct (is_focused_pair _ a b); [|done]. by rewrite then_with_opp, bool_cmp_opp, option_cmp_opp. }
    rewrite bool_cmp_opp.
    destruct (holds_open_turn a) eqn:Ea, (holds_open_turn b) eqn:Eb; try done; cbn [bool_cmp then_with].
    + destruct f; rewrite !then_with_opp.
      * by rewrite registration_opp, <-Z.compare_antisym, <-text_cmp_antisym.
      * by rewrite bool_cmp_opp, option_cmp_opp, <-text_cmp_antisym.
    + rewrite !then_with_opp, registration_opp, <-Z.compare_antisym.
      by destruct f; rewrite <-text_cmp_antisym.
  - intros [_ [_ H]%then_with_eq]%then_with_eq.
    assert (Hid : forall x y : text, text_cmp x y = Eq -> x = y) by (intros; by apply text_cmp_eq).
    destruct (holds_open_turn a), f; repeat (apply then_with_eq in H as [_ H]);
      apply Hid in H; congruence.
Qed.
End OwnerFacts.

Section IdentityFacts.
Lemma answers_to_elem a id : answers_to a id = true <-> id ∈ identity_ids a.
Proof.
  unfold answers_to. rewrite existsb_exists. setoid_rewrite bool_decide_eq_true.
  split; [intros (x & Hin & ->); by apply list_elem_of_In|].
  intros H%list_elem_of_In. eauto.
Qed.

(** Rebinding a launch id loses no address and adds the new one. *)
Lemma set_launch_id_answers a id other :
  answers_to (set_launch_id a id) other = true <-> other = id \/ answers_to a other = true.
Proof.
  rewrite !answers_to_elem. unfold set_launch_id, identity_ids.
  case_bool_decide as Hb; [rewrite Hb; set_solver|].
  cbn [agent_id launch_id prior_launch_ids set_field].
  rewrite !elem_of_cons, !elem_of_app.
  assert (Hfil : forall l, other ∈ List.filter (fun prior => negb (bool_decide (prior = id))) l
             <-> other ∈ l /\ other <> id).
  { intros l. rewrite !list_elem_of_In, filter_In, negb_true_iff, bool_decide_eq_false. done. }
  destruct (decide (other = id)) as [->|Hne].
  - split; [by left|]. intros _. right. left. set_solver.
  - destruct (launch_id a) as [l|]; rewrite ?elem_of_app, Hfil; set_solver.
Qed.
End IdentityFacts.

(** ** The molt chain *)

Section MoltFacts.
Context (agents : list AgentState).

(** [id] is an identity of a row that molted, in some steps, from [start]. *)
Inductive molt_reach (start : text) : text -> Prop :=
| molt_here : molt_reach start start
| molt_next id a id' :
    molt_reach start id -> a ∈ agents -> molted_from a = Some id -> molt_stands a = false ->
    id' ∈ identity_ids a -> molt_reach start id'.

Definition children_of (p : text) : list AgentState :=
  List.filter (fun a => bool_decide (molted_from a = Some p)) agents.

Lemma elem_children a p : a ∈ children_of p <-> a ∈ agents /\ molted_from a = Some p.
Proof. unfold children_of. by rewrite !list_elem_of_In, filter_In, bool_decide_eq_true. Qed.

(** The identities of the rows whose predecessor is not visited yet. *)
Definition unexplored (visited : list text) : nat :=
  length (flat_map identity_ids
    (List.filter (fun a => negb (is_some_and (molted_from a) (fun p => bool_decide (p ∈ visited)))) agents)).

Lemma unexplored_visit p visited :
  p ∉ visited ->
  unexplored visited
  = length (flat_map identity_ids (children_of p)) + unexplored (p :: visited).
Proof.
  intros Hp. unfold unexplored, children_of. induction agents as [|a l IH]; [done|].
  assert (Hcase : molted_from a = Some p \/ molted_from a <> Some p)
    by (destruct (decide (molted_from a = Some p)); auto).
  simpl. destruct Hcase as [Hm|Hm].
  - rewrite (bool_decide_eq_true_2 (molted_from a = Some p)) by done.
    rewrite Hm. simpl. rewrite (bool_decide_eq_false_2 (p ∈ visited)) by done.
    rewrite (bool_decide_eq_true_2 (p ∈ p :: visited)) by set_solver. simpl.
    rewrite !length_app, IH. lia.
  - rewrite (bool_decide_eq_false_2 (molted_from a = Some p)) by done.
    assert (Hsame : is_some_and (molted_from a) (fun q => bool_decide (q ∈ p :: visited))
              = is_some_and (molted_from a) (fun q => bool_decide (q ∈ visited))).
    { destruct (molted_from a) as [q|]; [|done]. simpl. apply bool_decide_ext. set_solver. }
    rewrite Hsame. destruct (negb _); [|exact IH].
    simpl. rewrite !length_app, IH. lia.
Qed.

(** The loop invariant: fuel covers the pending identities and those still to
    be explored; every pending and visited id is reached; the rows of visited
    ids do not stand and all their identities are pending or visited. *)
Lemma successor_loop_spec fuel pending visited start :
  length pending + unexplored visited < fuel ->
  (forall id, id ∈ pending \/ id ∈ visited -> molt_reach start id) ->
  (forall id a, id ∈ visited -> a ∈ agents -> molted_from a = Some id ->
     molt_stands a = false /\ forall i, i ∈ identity_ids a -> i ∈ pending \/ i ∈ visited) ->
  (start ∈ pending \/ start ∈ visited) ->
  match successor_loop fuel agents pending visited with
  | Some a => a ∈ agents /\ molt_stands a = true
              /\ exists id, molt_reach start id /\ molted_from a = Some id
  | None => forall id a, molt_reach start id -> a ∈ agents -> molted_from a = Some id ->
              molt_stands a = false
  end.
Proof.
  revert pending visited. induction fuel as [|fuel IH]; intros pending visited Hfuel Hreach Hvis Hstart; [lia|].
  cbn [successor_loop]. destruct pending as [|p0 pending _] using rev_ind.
  { simpl. intros id a Hr Ha Hm.
    assert (Hin : id ∈ visited).
    { clear Ha Hm a. induction Hr as [|id a id' Hr IHr Ha Hm Hs Hid]; [set_solver|].
      destruct (Hvis _ _ IHr Ha Hm) as [_ Hall]. destruct (Hall _ Hid); [set_solver|done]. }
    by destruct (Hvis _ _ Hin Ha Hm). }
  rewrite last_snoc, removelast_last. rewrite length_app in Hfuel. simpl in Hfuel.
  case_bool_decide as Hp.
  { apply IH; [lia| | |].
    - intros id Hid. apply Hreach. set_solver.
    - intros id a Hid Ha Hm. destruct (Hvis _ _ Hid Ha Hm) as [? Hall]. split; [done|].
      intros i Hi. destruct (Hall i Hi) as [Hq|?]; [|by right].
      apply elem_of_app in Hq as [?|?]; [by left|set_solver].
    - set_solver. }
  fold (children_of p0).
  assert (Hp0 : molt_reach start p0) by (apply Hreach; set_solver).
  destruct (List.find molt_stands (children_of p0)) as [a|] eqn:Ef.
  { apply List.find_some in Ef as [Hin Hs]. apply list_elem_of_In, elem_children in Hin as [Ha Hm].
    split_and!; [done|done|]. by exists p0. }
  pose proof (List.find_none _ _ Ef) as Hnone.
  assert (Hns : forall a, a ∈ agents -> molted_from a = Some p0 -> molt_stands a = false).
  { intros a Ha Hm. apply Hnone, list_elem_of_In, elem_children. done. }
  assert (Hflat : forall i, i ∈ flat_map identity_ids (children_of p0) <->
            exists a, a ∈ agents /\ molted_from a = Some p0 /\ i ∈ identity_ids a).
  { intros i. rewrite list_elem_of_In, in_flat_map. split.
    - intros (a & Ha & Hi). apply list_elem_of_In, elem_children in Ha as [? ?].
      exists a. split_and!; [done|done|by apply list_elem_of_In].
    - intros (a & Ha & Hm & Hi). exists a. rewrite <-!list_elem_of_In. by rewrite elem_children. }
  apply IH.
  - rewrite length_app. rewrite (unexplored_visit p0 visited Hp) in Hfuel. lia.
  - intros id. rewrite elem_of_app, elem_of_cons, Hflat.
    intros [[?|(a & Ha & Hm & Hi)]|[->|?]]; [apply Hreach; set_solver| |done|apply Hreach; by right].
    eapply molt_next; [exact Hp0|exact Ha|exact Hm|by apply Hns|exact Hi].
  - intros id a Hid Ha Hm. apply elem_of_cons in Hid as [->|Hid].
    + split; [by apply Hns|]. intros i Hi. left. apply elem_of_app. right. apply Hflat. eauto.
    + destruct (Hvis _ _ Hid Ha Hm) as [? Hall]. split; [done|]. intros i Hi.
      destruct (Hall i Hi) as [Hq|?]; [|right; set_solver].
      apply elem_of_app in Hq as [?|?]; [left|right]; set_solver.
  - set_solver.
Qed.

Lemma unexplored_start : unexplored [] <= length (flat_map identity_ids agents).
Proof.
  unfold unexplored. induction agents as [|a l IH]; [done|]. cbn [List.filter flat_map].
  rewrite length_app. destruct (negb _); [|lia]. cbn [flat_map]. rewrite length_app. lia.
Qed.

(** The search for the live successor of a molted session always ends; it
    returns a standing row reached through rows that no longer stand, and
    returns nothing only when every row so reached has fallen. *)
Theorem standing_successor_spec predecessor :
  match standing_successor agents predecessor with
  | Some a => a ∈ agents /\ molt_stands a = true
              /\ exists id, molt_reach predecessor id /\ molted_from a = Some id
  | None => forall id a, molt_reach predecessor id -> a ∈ agents -> molted_from a = Some id ->
              molt_stands a = false
  end.
Proof.
  unfold standing_successor. pose proof unexplored_start.
  apply successor_loop_spec.
  - cbn [length]. lia.
  - intros id [->%list_elem_of_singleton|?%elem_of_nil]; [constructor|done].
  - by intros id a ?%elem_of_nil.
  - left. set_solver.
Qed.
End MoltFacts.

Section PingFacts.
(** A prompt made only of cache keepalives, and its close, leave no trace
    in the lifecycle: state kept, nothing opened, closed or cleared. *)
Theorem ping_edges_inert prior signal keepalive_prompt state_snapshot :
  let t := transition prior signal keepalive_prompt state_snapshot in
  is_some (ping t) = true ->
  option_map lifecycle prior = Some (next t)
  /\ opened_turn t = false /\ compaction_closed t = false /\ waiting_cleared t = false
  /\ (exists reason, kind t = Ignored reason)
  /\ (ping t = Some Open -> keepalive_prompt = true /\ exists id, signal = TurnStarted id).
Proof.
  intros t. unfold t, transition. clear t. destruct state_snapshot; [done|].
  assert (Hstep : forall s k i g, ping (step s k i g) = None).
  { intros. unfold step. destruct (step_ignored _ _ _ _); [done|]. by destruct (map_status _ _ _). }
  destruct prior as [prior|]; cbn [option_map]; [|by rewrite Hstep].
  set (stepped := step _ _ _ signal). assert (Hp : ping stepped = None) by apply Hstep.
  clearbody stepped.
  set (stale := match kind stepped with Ignored _ => true | _ => false end).
  assert (Hk : forall e, exists reason, match stale, e with
    | true, _ => kind stepped
    | false, Report => Ignored (str "turn report for a real turn while a cache keepalive is open")
    | false, _ => Ignored (str "cache keepalive turn") end = Ignored reason).
  { intros e. unfold stale. destruct (kind stepped), e; eauto. }
  destruct signal; simpl; try (by rewrite Hp).
  - destruct (negb stale && _) eqn:E; [|by rewrite Hp]. intros _. simpl.
    split_and!; try done; [apply (Hk Open)|]. intros _.
    apply andb_prop in E as [_ [_ ?]%andb_prop]. eauto.
  - destruct (ping_turn prior); [|by rewrite Hp]. intros _. simpl.
    split_and!; try done; try apply Hk; by destruct (stale || _).
  - destruct (ping_turn prior); [|by rewrite Hp]. intros _. simpl.
    split_and!; try done; try apply Hk; by destruct (stale || _).
Qed.
End PingFacts.

(** A resting row for the witness. *)
Definition resting : AgentState :=
  {| molted_from := None; agent_id := str "s1"; launch_id := None; prior_launch_ids := [];
     agent_kind := str "claude"; name := Some (str "bold-arc"); mode := None; role := None; team := None;
     channel_stamp := None; root_lane := false; ended_at := None; resumed_at := None;
     agent_status := Idle; agent_phase := Phase.Idle; parent_agent_id := None;
     parent_agent_kind := None; launch_depth := None; launched_by := None; worktree_path := None;
     checkout := None; profile := None; context := None; budget_park := false; pending_waits := [];
     background_shells := []; turn_started_at := None; turn_ended_at := None; ping_turn := false;
     waiting_since := None; open_ask := None; started_turn_id := None; superseded_turn_id := None;
     closed_turn_id := None; compacting_since := None; compacted_awaiting_prompt := None;
     last_activity := 0; registered_at := None; on_screen_at := None |}.

Lemma ping_edges_inert_witness :
  let t := transition (Some resting) (TurnStarted None) true false in
  ping t = Some Open /\ opened_turn t = false
  /\ opened_turn (transition (Some resting) (TurnStarted None) false false) = true.
Proof.
  intros t. split; [by vm_compute|]. split; [|by vm_compute].
  destruct (ping_edges_inert (Some resting) (TurnStarted None) true false) as (_ & H & _);
    [by vm_compute|exact H].
Defined.
End AgentFacts.
