(* ===== verification/Units.v ===== *)
(** * Durations and sizes as people write them

    The parsing and printing of compact durations ([utils/time.rs]) and of
    byte sizes ([utils/size.rs]), and the inverse laws between them.  A
    [Duration] is its nanoseconds. *)

From S2P Require Import Prelude.

(** ** Durations ([utils/time.rs]) *)

Inductive DurationUnit := UnitlessSecond | Millisecond | Second | Minute | Hour | Day.
#[export] Instance DurationUnit_eq_dec : EqDecision DurationUnit.
Proof. solve_decision. Defined.

Definition NANOS : N := 1000000000.
Definition from_secs (n : N) : N := (n * NANOS)%N.
Definition from_millis (n : N) : N := (n * 1000000)%N.
Definition as_seconds (d : N) : N := (d / NANOS)%N.
Definition as_millis (d : N) : N := (d / 1000000)%N.
Definition saturating_mul_u64 (a b : N) : N := N.min (a * b) U64_MAX.

Definition suffix (u : DurationUnit) : text :=
  match u with
  | UnitlessSecond => []
  | Millisecond => str "ms"
  | Second => str "s"
  | Minute => str "m"
  | Hour => str "h"
  | Day => str "d"
  end.
Definition unit_duration (u : DurationUnit) (amount : N) : N :=
  match u with
  | UnitlessSecond | Second => from_secs amount
  | Millisecond => from_millis amount
  | Minute => from_secs (saturating_mul_u64 amount 60)
  | Hour => from_secs (saturating_mul_u64 amount 3600)
  | Day => from_secs (saturating_mul_u64 amount 86400)
  end.

Inductive TimeInputErr :=
| EmptyDuration
| UnknownDurationUnit (unit_ allowed : text)
| InvalidDurationInteger (value : text).

(** The digits a text starts with, and what is behind them. *)
Fixpoint split_digits (t : text) : text * text :=
  match t with
  | c :: t' => if is_ascii_digit c then let '(d, s) := split_digits t' in (c :: d, s) else ([], t)
  | [] => ([], [])
  end.

Definition parse_duration_units (raw : text) (allowed : list DurationUnit) : TimeInputErr + N :=
  let trimmed := trim raw in
  if is_empty trimmed then inl EmptyDuration
  else
    let '(digits, suffix_) := split_digits trimmed in
    match List.find (fun u => bool_decide (suffix u = suffix_)) allowed with
    | None => inl (UnknownDurationUnit suffix_ (join (str "/") (map suffix allowed)))
    | Some u =>
        match parse_u64 digits with
        | None => inl (InvalidDurationInteger raw)
        | Some amount => inr (unit_duration u amount)
        end
    end.

Fixpoint compact_loop (units : list (text * N)) (seconds : N) : text :=
  match units with
  | [] => show_N seconds ++ str "s"
  | (unit_, factor) :: units' =>
      if (factor <=? seconds)%N && (seconds mod factor =? 0)%N
      then show_N (seconds / factor) ++ unit_
      else compact_loop units' seconds
  end.
Definition format_duration_compact (d : N) : text :=
  compact_loop [(str "d", 86400%N); (str "h", 3600%N); (str "m", 60%N)] (as_seconds d).

(** ** Sizes ([utils/size.rs]) *)

Definition size_factor (suffix_ : text) : option N :=
  let is_ (s : string) := bool_decide (suffix_ = str s) in
  if is_ ""%string || is_ "B"%string then Some 1%N
  else if is_ "K"%string || is_ "KB"%string then Some 1000%N
  else if is_ "KiB"%string then Some 1024%N
  else if is_ "M"%string || is_ "MB"%string then Some 1000000%N
  else if is_ "MiB"%string then Some 1048576%N
  else if is_ "G"%string || is_ "GB"%string then Some 1000000000%N
  else if is_ "GiB"%string then Some 1073741824%N
  else None.

Inductive SizeErr := SizeEmpty | SizeNotInteger | UnknownSizeUnit (unit_ : text) | SizeOverflows.

Definition parse_byte_size (raw : text) : SizeErr + N :=
  let trimmed := trim raw in
  if is_empty trimmed then inl SizeEmpty
  else
    let '(digits, suffix_) := split_digits trimmed in
    match parse_u64 digits with
    | None => inl SizeNotInteger
    | Some n =>
        match size_factor suffix_ with
        | None => inl (UnknownSizeUnit suffix_)
        | Some factor => match checked_mul_u64 n factor with Some b => inr b | None => inl SizeOverflows end
        end
    end.

(** ** Printing and parsing *)

Lemma split_digits_app d s : Forall (fun c => is_ascii_digit c = true) d ->
  match s with c :: _ => is_ascii_digit c = false | [] => True end -> split_digits (d ++ s) = (d, s).
Proof.
  intros Hd Hs. induction Hd as [|c d Hc _ IH]; cbn.
  - destruct s as [|c s]; cbn; [done|]. by rewrite Hs.
  - by rewrite Hc, IH.
Qed.

Lemma digit_is_digit d : (d < 10)%N -> is_ascii_digit (digit_char d) = true.
Proof.
  intros Hd.
  assert (d = 0 \/ d = 1 \/ d = 2 \/ d = 3 \/ d = 4 \/ d = 5 \/ d = 6 \/ d = 7 \/ d = 8 \/ d = 9)%N as Hs by lia.
  by repeat destruct Hs as [->|Hs]; [..|rewrite Hs].
Qed.

Lemma show_N_digits n : Forall (fun c => is_ascii_digit c = true) (show_N n).
Proof.
  unfold show_N. generalize (dec_width (N.size_nat n) n). intros k.
  induction k as [|k IH]; cbn [fixed_digits]; constructor; [|done].
  apply digit_is_digit, N.mod_lt. lia.
Qed.

Lemma show_N_cons n : exists c t, show_N n = c :: t.
Proof.
  unfold show_N. destruct (dec_width_pos (N.size_nat n) n) as [k ->]. cbn. eauto.
Qed.

Lemma digit_not_blank c : is_ascii_digit c = true -> is_whitespace c = false.
Proof.
  unfold is_ascii_digit, is_whitespace. intros [H1%N.leb_le H2%N.leb_le]%andb_prop.
  repeat (rewrite orb_false_iff; split); try (apply N.eqb_neq; lia);
    try (apply andb_false_iff; rewrite !N.leb_gt; lia).
Qed.

Lemma trim_start_solid t : Forall (fun c => is_whitespace c = false) t -> trim_start t = t.
Proof. intros [|c t' Hc _]; [done|]. by apply trim_start_head. Qed.
Lemma trim_solid t : Forall (fun c => is_whitespace c = false) t -> trim t = t.
Proof.
  intros Ht. unfold trim, trim_end. rewrite (trim_start_solid t Ht), trim_start_solid.
  - apply rev_involutive.
  - apply Forall_forall. intros c Hc. rewrite Forall_forall in Ht. apply Ht.
    apply list_elem_of_In, in_rev. by apply list_elem_of_In.
Qed.

(** A numeral with a unit is already trimmed and splits into the two. *)
Lemma split_numeral n u : Forall (fun c => is_ascii_lowercase c = true) u ->
  is_empty (trim (show_N n ++ u)) = false /\ split_digits (trim (show_N n ++ u)) = (show_N n, u).
Proof.
  intros Hu. rewrite trim_solid.
  - destruct (show_N_cons n) as (c & t & E). split; [by rewrite E|]. apply split_digits_app; [apply show_N_digits|].
    destruct Hu as [|x u Hx _]; [done|]. unfold is_ascii_lowercase, is_ascii_digit in *.
    apply andb_prop in Hx as [Hx%N.leb_le _]. apply andb_false_iff. right. apply N.leb_gt. lia.
  - apply Forall_app. split.
    + eapply Forall_impl; [apply show_N_digits|]. apply digit_not_blank.
    + eapply Forall_impl; [exact Hu|]. intros x [H1%N.leb_le H2%N.leb_le]%andb_prop. unfold is_whitespace.
      repeat (rewrite orb_false_iff; split); try (apply N.eqb_neq; lia);
        try (apply andb_false_iff; rewrite !N.leb_gt; lia).
Qed.

Lemma parse_numeral n u unit_ allowed : (n <= U64_MAX)%N -> suffix unit_ = u ->
  Forall (fun c => is_ascii_lowercase c = true) u ->
  List.find (fun x => bool_decide (suffix x = u)) allowed = Some unit_ ->
  parse_duration_units (show_N n ++ u) allowed = inr (unit_duration unit_ n).
Proof.
  intros Hn Hs Hu Hf. destruct (split_numeral n u Hu) as [He Hd].
  unfold parse_duration_units. rewrite He, Hd, Hf, parse_show_u64 by done. done.
Qed.

(** The factor of a unit gives the seconds back. *)
Lemma unit_exact secs factor : (secs <= U64_MAX)%N -> (0 < factor)%N -> (secs mod factor = 0)%N ->
  saturating_mul_u64 (secs / factor) factor = secs.
Proof.
  intros Hs Hf Hm. unfold saturating_mul_u64. assert (secs / factor * factor = secs)%N as ->; [|lia].
  pose proof (N.div_mod secs factor). lia.
Qed.

Lemma div_le_max secs factor : (secs <= U64_MAX)%N -> (0 < factor)%N -> (secs / factor <= U64_MAX)%N.
Proof. intros Hs Hf. transitivity secs; [apply N.Div0.div_le_upper_bound; nia|done]. Qed.

(** C39: Printing and parsing durations are inverse: a duration printed in its
    largest exact unit parses back, wherever seconds, minutes, hours and days
    are accepted, to the same whole seconds. *)
Theorem parse_format_compact d : (as_seconds d <= U64_MAX)%N ->
  parse_duration_units (format_duration_compact d) [Second; Minute; Hour; Day] = inr (from_secs (as_seconds d)).
Proof.
  intros Hd. unfold format_duration_compact. cbn [compact_loop]. set (secs := as_seconds d) in *.
  assert (Hu : forall n u unit_, (n <= U64_MAX)%N -> suffix unit_ = u ->
    Forall (fun c => is_ascii_lowercase c = true) u ->
    List.find (fun x => bool_decide (suffix x = u)) [Second; Minute; Hour; Day] = Some unit_ ->
    unit_duration unit_ n = from_secs secs ->
    parse_duration_units (show_N n ++ u) [Second; Minute; Hour; Day] = inr (from_secs secs)).
  { intros n u unit_ Hn Hs Hl Hf <-. by apply parse_numeral. }
  repeat match goal with |- context [if ?b then _ else _] => destruct b eqn:?Eb end;
  repeat match goal with E : _ && _ = true |- _ => apply andb_prop in E as [_ E%N.eqb_eq] end;
  (eapply Hu; cycle 3;
    [reflexivity| |first [done|apply div_le_max; [done|lia]]|reflexivity|by repeat constructor]);
  cbn [unit_duration]; by rewrite ?unit_exact by (done || lia).
Qed.

Lemma parse_format_compact_witness :
  parse_duration_units (format_duration_compact 5400500000000%N) [Second; Minute; Hour; Day] = inr (from_secs 5400).
Proof. apply (parse_format_compact 5400500000000%N). vm_compute. discriminate. Defined.
