(* ===== verification/Message.v ===== *)
(** * Durable messages ([crates/rimz/src/store/message.rs])

    The message vocabulary, the record with all its fields, the predicates on
    one record, and the selection of queue heads, blockers and batches over
    the live queue.  Environment variables are a parameter ([Env]); instants
    and durations are nanoseconds. *)

From S2P Require Import Prelude Lifecycle Agents.
Import Agent.

(** [std::env::var]. *)
Class Env := env_var : text -> option text.

Definition MILLISECOND : Z := 1000000.
Definition DEFAULT_DELIVERY_WINDOW : Z := 30 * SECOND.
Definition DELIVERY_WINDOW_ENV : text := str "RIMZ_MESSAGE_DELIVERY_WINDOW_MS".
Definition DEFAULT_COMMAND_DELIVERY_WINDOW : Z := 180 * SECOND.
Definition COMMAND_DELIVERY_WINDOW_ENV : text := str "RIMZ_MESSAGE_COMMAND_DELIVERY_WINDOW_MS".
Definition DEFAULT_COMMAND_VALIDITY : Z := 600 * SECOND.
Definition COMMAND_VALIDITY_ENV : text := str "RIMZ_MESSAGE_COMMAND_VALIDITY_MS".
Definition MAX_DELIVERY_ATTEMPTS : N := 5.
Definition CLAIM_TTL : Z := 15 * SECOND.

Definition env_ms `{Env} (key : text) : option Z :=
  let! value := env_var key else None in
  option_map (fun ms => (Z.of_N ms * MILLISECOND)%Z) (parse_u64 value).

Definition command_validity `{Env} : Z := unwrap_or (env_ms COMMAND_VALIDITY_ENV) DEFAULT_COMMAND_VALIDITY.

(** [AskKind]s aside, the vocabulary of messages. *)
Inductive HarnessNotice :=
| CacheKeepalive | Deadline | SubagentReport | AgentReport | Wait | Signal | Stage | TeamReport
| SubagentPaused | SubagentStalled | TeamStalled | MessageUndelivered | MessageQueued
| Other (notice : text).
#[export] Instance HarnessNotice_eq_dec : EqDecision HarnessNotice.
Proof. solve_decision. Defined.

Definition is_fleet_digest (n : HarnessNotice) : bool :=
  match n with SubagentReport | AgentReport => true | _ => false end.

Definition header_type (n : HarnessNotice) : text :=
  match n with
  | CacheKeepalive => str "CACHE_KEEPALIVE"
  | SubagentReport => str "SUBAGENT_REPORT"
  | AgentReport => str "AGENT_REPORT"
  | TeamReport => str "TEAM_REPORT"
  | SubagentPaused => str "SUBAGENT_PAUSED"
  | SubagentStalled => str "SUBAGENT_STALLED"
  | TeamStalled => str "TEAM_STALLED"
  | MessageUndelivered => str "MESSAGE_UNDELIVERED"
  | MessageQueued => str "MESSAGE_QUEUED"
  | Deadline => str "DEADLINE"
  | Wait => str "WAIT"
  | Signal => str "SIGNAL"
  | Stage => str "STAGE"
  | Other notice => to_ascii_uppercase notice
  end.

Module Origin.
Inductive SectionOrigin := Human | Agent (sender : text) | Subagent (sender : text)
| Notice (sender : text) | Harness.
End Origin.

Module Sender.
Inductive MessageSender :=
| Human
| Agent (kind : text) (agent_id name profile role channel : option text)
| Harness (notice : HarnessNotice)
| Subagent (kind name : text)
| System.
End Sender.
Abbreviation MessageSender := Sender.MessageSender.
#[export] Instance MessageSender_eq_dec : EqDecision MessageSender.
Proof. solve_decision. Defined.

Definition is_conversation (s : MessageSender) : bool :=
  match s with Sender.Human | Sender.Agent _ _ _ _ _ _ => true | _ => false end.

Definition render (s : MessageSender) : text :=
  match s with
  | Sender.Human => str "user"
  | Sender.System => str "rimz"
  | Sender.Harness _ => str "@rimz"
  | Sender.Subagent _ name => str "@" ++ name
  | Sender.Agent kind _ name _ role channel =>
      PetName.sender_handle role name kind
      ++ match ofilter channel (fun v => negb (is_empty v)) with
         | Some channel => str "#" ++ channel
         | None => []
         end
  end.

Definition notice_section_origin (n : HarnessNotice) (sender : text) : Origin.SectionOrigin :=
  match n with
  | SubagentReport | AgentReport | TeamReport => Origin.Subagent sender
  | _ => Origin.Notice sender
  end.
Definition section_origin (s : MessageSender) : Origin.SectionOrigin :=
  match s with
  | Sender.Human => Origin.Human
  | Sender.Agent _ _ _ _ _ _ => Origin.Agent (render s)
  | Sender.Subagent _ _ => Origin.Subagent (render s)
  | Sender.Harness notice => notice_section_origin notice (render s)
  | Sender.System => Origin.Harness
  end.

Inductive DeliveryGate := Done | Any | Resume.
#[export] Instance DeliveryGate_eq_dec : EqDecision DeliveryGate.
Proof. solve_decision. Defined.
Definition gate_as_str (g : DeliveryGate) : text :=
  match g with Done => str "done" | Any => str "any" | Resume => str "resume" end.

Inductive AutoCompact := Percent (pct : N) | Tokens (tokens : N).
#[export] Instance AutoCompact_eq_dec : EqDecision AutoCompact.
Proof. solve_decision. Defined.

(** The error texts of [AutoCompact::parse]. *)
Inductive AutoCompactErr :=
| InvalidPercentage | PercentageTooLarge | InvalidThreshold | ThresholdTooLarge | NotNativeWindow.

Definition auto_compact_parse (raw : text) : result AutoCompactErr AutoCompact :=
  let raw := trim raw in
  match strip_suffix (str "%") raw with
  | Some pct =>
      let! pct := parse_u8 (trim pct) else Err InvalidPercentage in
      if (100 <? pct)%N then Err PercentageTooLarge else Ok (Percent pct)
  | None =>
      let '(mantissa, scale) :=
        match last raw with
        | Some 107%N | Some 75%N => (removelast raw, 1000%N)
        | Some 109%N | Some 77%N => (removelast raw, 1000000%N)
        | _ => (raw, 1%N)
        end in
      let! count := parse_u64 (trim mantissa) else Err InvalidThreshold in
      let! tokens := checked_mul_u64 count scale else Err ThresholdTooLarge in
      Ok (Tokens tokens)
  end.

Definition parse_native_window (raw : text) : result AutoCompactErr N :=
  let? threshold := auto_compact_parse raw in
  match threshold with
  | Tokens tokens =>
      if (100000 <=? tokens)%N && (tokens <=? 1000000)%N then Ok tokens else Err NotNativeWindow
  | Percent _ => Err NotNativeWindow
  end.

(** The products are [u128]: no overflow. *)
Definition reached (threshold : AutoCompact) (occupied : N) (window : option N) : bool :=
  match threshold with
  | Percent percent =>
      is_some_and window (fun window =>
        (0 <? window)%N && (window * percent <=? occupied * 100)%N)
  | Tokens tokens => (tokens <=? occupied)%N
  end.

Module Status.
Inductive MessageStatus :=
| Queued | Claimed | Sent | Delivered | TimedOut | Errored | Canceled | Abandoned | Expired
| Archived.
End Status.
Abbreviation MessageStatus := Status.MessageStatus.
#[export] Instance MessageStatus_eq_dec : EqDecision MessageStatus.
Proof. solve_decision. Defined.

Definition is_terminal (s : MessageStatus) : bool :=
  match s with
  | Status.Delivered | Status.TimedOut | Status.Errored | Status.Canceled | Status.Abandoned
  | Status.Expired | Status.Archived => true
  | _ => false
  end.
Definition is_open (s : MessageStatus) : bool :=
  match s with Status.Queued | Status.Claimed => true | _ => false end.
Definition message_status_as_str (s : MessageStatus) : text :=
  match s with
  | Status.Queued => str "queued" | Status.Claimed => str "claimed" | Status.Sent => str "sent"
  | Status.Delivered => str "delivered" | Status.TimedOut => str "timed_out"
  | Status.Errored => str "errored" | Status.Canceled => str "canceled"
  | Status.Abandoned => str "abandoned" | Status.Expired => str "expired"
  | Status.Archived => str "archived"
  end.

Inductive MessageBody := Prompt | Command.
#[export] Instance MessageBody_eq_dec : EqDecision MessageBody.
Proof. solve_decision. Defined.
Definition body_as_str (b : MessageBody) : text :=
  match b with Prompt => str "prompt" | Command => str "command" end.
Definition delivery_window `{Env} (b : MessageBody) : Z :=
  match b with
  | Prompt => unwrap_or (env_ms DELIVERY_WINDOW_ENV) DEFAULT_DELIVERY_WINDOW
  | Command => unwrap_or (env_ms COMMAND_DELIVERY_WINDOW_ENV) DEFAULT_COMMAND_DELIVERY_WINDOW
  end.
Definition resends_unconfirmed (b : MessageBody) : bool :=
  match b with Prompt => true | Command => false end.

Record AfterCondition := {
  after_kind : text;
  after_agent_id : text;
  after_agent_name : option text;
  after_address : text;
  after_met_at : option Z
}.
#[export] Instance AfterCondition_eq_dec : EqDecision AfterCondition.
Proof. solve_decision. Defined.
Definition after_card_ref (c : AfterCondition) : AgentCardRef :=
  {| card_kind := after_kind c; card_id := after_agent_id c; card_name := after_agent_name c |}.

Record WhenCondition := {
  when_kind : text;
  when_agent_id : text;
  when_agent_name : option text;
  when_address : text;
  when_status : AgentStatus;
  dwell_secs : N;
  when_met_at : option Z
}.
#[export] Instance WhenCondition_eq_dec : EqDecision WhenCondition.
Proof. solve_decision. Defined.
Definition when_card_ref (c : WhenCondition) : AgentCardRef :=
  {| card_kind := when_kind c; card_id := when_agent_id c; card_name := when_agent_name c |}.

Fixpoint format_dwell_loop (units : list (text * N)) (secs : N) : text :=
  match units with
  | [] => show_N secs ++ str "s"
  | (unit, unit_secs) :: units' =>
      if (unit_secs <=? secs)%N && (secs mod unit_secs =? 0)%N
      then show_N (secs / unit_secs) ++ unit
      else format_dwell_loop units' secs
  end.
Definition format_dwell (secs : N) : text :=
  format_dwell_loop [(str "d", 86400%N); (str "h", 3600%N); (str "m", 60%N)] secs.

Definition expiry_reason (c : WhenCondition) : text :=
  str "watched agent " ++ when_address c ++ str " ended before '"
  ++ status_as_str (when_status c) ++ str " " ++ format_dwell (dwell_secs c) ++ str "' was met".

(** The derived order puts [Steer] below [Interrupt], and [None] below both. *)
Inductive TypingHoldReplay := Steer | Interrupt.
#[export] Instance TypingHoldReplay_eq_dec : EqDecision TypingHoldReplay.
Proof. solve_decision. Defined.
Definition replay_max (a b : option TypingHoldReplay) : option TypingHoldReplay :=
  match a, b with
  | Some Interrupt, _ | _, Some Interrupt => Some Interrupt
  | Some Steer, _ | _, Some Steer => Some Steer
  | None, None => None
  end.

Record TypingHold := { until : Z; replay : option TypingHoldReplay; hold_force : bool }.
#[export] Instance TypingHold_eq_dec : EqDecision TypingHold.
Proof. solve_decision. Defined.
Definition with_replay (h : TypingHold) (r : option TypingHoldReplay) (force : bool) : TypingHold :=
  {| until := until h; replay := replay_max (replay h) r; hold_force := hold_force h || force |}.

Inductive SoftCompactStep := WrapUp | Continue.
#[export] Instance SoftCompactStep_eq_dec : EqDecision SoftCompactStep.
Proof. solve_decision. Defined.

Record MessageRecord := {
  message_id : text;
  in_reply_to : list text;
  about_run : option text;
  workspace_id : text;
  kind : text;
  agent_id : text;
  agent_name : option text;
  address : option text;
  channel : option text;
  sender : MessageSender;
  automated : bool;
  reply_wait : bool;
  body : MessageBody;
  msg_text : text;
  enter : bool;
  gate : DeliveryGate;
  force : bool;
  pane_id : option text;
  status : MessageStatus;
  enqueued_at : Z;
  updated_at : Z;
  register_by : option Z;
  attempts : N;
  unconfirmed_sends : N;
  last_attempt_at : option Z;
  last_sent_at : option Z;
  last_error : option text;
  delivered_at : option Z;
  not_before : option Z;
  after : list AfterCondition;
  when_ : list WhenCondition;
  retry_after : option Z;
  typing_hold : option TypingHold;
  queued_notice_at : option Z;
  auto_compact : option AutoCompact;
  soft_compact : option SoftCompactStep;
  compacted_context_tokens : option N;
  idle_since : option Z;
  batch_id : option text
}.
#[export] Instance MessageRecord_eq_dec : EqDecision MessageRecord.
Proof. solve_decision. Defined.
#[export] Instance MessageRecord_eta : Eta MessageRecord := fun m =>
  {| message_id := message_id m; in_reply_to := in_reply_to m; about_run := about_run m;
     workspace_id := workspace_id m; kind := kind m; agent_id := agent_id m;
     agent_name := agent_name m; address := address m; channel := channel m;
     sender := sender m; automated := automated m; reply_wait := reply_wait m; body := body m;
     msg_text := msg_text m; enter := enter m; gate := gate m; force := force m;
     pane_id := pane_id m; status := status m; enqueued_at := enqueued_at m;
     updated_at := updated_at m; register_by := register_by m; attempts := attempts m;
     unconfirmed_sends := unconfirmed_sends m; last_attempt_at := last_attempt_at m;
     last_sent_at := last_sent_at m; last_error := last_error m;
     delivered_at := delivered_at m; not_before := not_before m; after := after m;
     when_ := when_ m; retry_after := retry_after m; typing_hold := typing_hold m;
     queued_notice_at := queued_notice_at m; auto_compact := auto_compact m;
     soft_compact := soft_compact m; compacted_context_tokens := compacted_context_tokens m;
     idle_since := idle_since m; batch_id := batch_id m |}.

Definition claim_expired (last_attempt_at : option Z) (now : Z) : bool :=
  let! last := last_attempt_at else true in
  let age := (now - last)%Z in
  (age <? 0)%Z || (as_secs CLAIM_TTL <=? as_secs age)%Z.

Definition same_delivery_lane (candidate queued : DeliveryGate) : bool :=
  match candidate with
  | Resume => bool_decide (queued = Resume)
  | Done | Any => negb (bool_decide (queued = Resume))
  end.

Definition gate_open (gate : DeliveryGate) (status : AgentStatus) : bool :=
  match gate with
  | Done => match status with Idle | Success | Sleeping => true | _ => false end
  | Any => match status with Idle | Success | Sleeping | Failed => true | _ => false end
  | Resume => bool_decide (status = Paused)
  end.

(** The later turn edge of an agent; [Option::max]. *)
Definition idle_compaction_edge (agent : AgentState) : option Z :=
  omax (turn_started_at agent) (turn_ended_at agent).

Definition from_agent (s : MessageSender) : bool :=
  match s with Sender.Agent _ _ _ _ _ _ => true | _ => false end.

Section Record.
Context `{Env}.
Implicit Types (m : MessageRecord) (now : Z).

Definition wants_undelivered_notice m : bool :=
  from_agent (sender m) && negb (reply_wait m)
  && match status m with
     | Status.Archived | Status.TimedOut | Status.Abandoned | Status.Expired => true
     | _ => false
     end.
Definition wants_queued_notice m : bool :=
  from_agent (sender m) && negb (reply_wait m) && bool_decide (status m = Status.Queued).

Definition ships_headerless m : bool :=
  match sender m, body m with
  | Sender.System, _ => true
  | _, Command => true
  | _, Prompt => false
  end.

Definition awaiting_late_ack m : bool :=
  bool_decide (status m = Status.Queued) && (0 <? unconfirmed_sends m)%N
  && is_some (last_sent_at m).
Definition in_flight m : bool :=
  bool_decide (status m = Status.Sent) || awaiting_late_ack m.

Definition is_user_input m : bool :=
  match sender m with Sender.Human => true | _ => false end
  && negb (automated m) && negb (bool_decide (gate m = Resume)).

(** [new_for_card]; [id] is [MessageId::new()] and [now] the clock. *)
Definition new_for_card (id workspace_id kind agent_id : text) (agent_name : option text)
    (text_ : text) (enter : bool) (gate : DeliveryGate) now : MessageRecord :=
  {| message_id := id; in_reply_to := []; about_run := None; workspace_id := workspace_id;
     kind := kind; agent_id := agent_id; agent_name := agent_name; address := None;
     channel := None; sender := Sender.Human; automated := false; reply_wait := false;
     body := Prompt; msg_text := text_; enter := enter; gate := gate; force := false;
     pane_id := None; status := Status.Queued; enqueued_at := now; updated_at := now;
     register_by := None; attempts := 0; unconfirmed_sends := 0; last_attempt_at := None;
     last_sent_at := None; last_error := None; delivered_at := None; not_before := None;
     after := []; when_ := []; retry_after := None; typing_hold := None;
     queued_notice_at := None; auto_compact := None; soft_compact := None;
     compacted_context_tokens := None; idle_since := None; batch_id := None |}.
Definition new (id workspace_id : text) (agent : AgentState) (text_ : text) (gate : DeliveryGate) now
  : MessageRecord :=
  new_for_card id workspace_id (agent_kind agent) (Agent.agent_id agent) (name agent) text_ true gate now.

Definition clear_after (c : AfterCondition) : AfterCondition :=
  {| after_kind := after_kind c; after_agent_id := after_agent_id c;
     after_agent_name := after_agent_name c; after_address := after_address c;
     after_met_at := None |}.
Definition clear_when (c : WhenCondition) : WhenCondition :=
  {| when_kind := when_kind c; when_agent_id := when_agent_id c;
     when_agent_name := when_agent_name c; when_address := when_address c;
     when_status := when_status c; dwell_secs := dwell_secs c; when_met_at := None |}.

Definition requeue_from (id : text) (record : MessageRecord) now : MessageRecord :=
  new_for_card id (workspace_id record) (kind record) (agent_id record) (agent_name record)
    (msg_text record) (enter record) (gate record) now
  <| address := address record |> <| channel := channel record |> <| sender := sender record |>
  <| automated := automated record |> <| in_reply_to := in_reply_to record |>
  <| about_run := about_run record |> <| force := force record |>
  <| auto_compact := auto_compact record |> <| body := body record |>
  <| not_before := not_before record |>
  <| after := map clear_after (after record) |>
  <| when_ := map clear_when (when_ record) |>
  <| soft_compact := soft_compact record |>.

Definition message_card_ref m : AgentCardRef :=
  {| card_kind := kind m; card_id := agent_id m; card_name := agent_name m |}.
Definition same_card m (card : AgentCardRef) : bool := matches (message_card_ref m) card.
Definition same_agent_card m (agent : AgentState) : bool := same_card m (card_ref agent).

Definition awaiting_registration m (agents : list AgentState) : bool :=
  bool_decide (status m = Status.Queued) && is_some (register_by m)
  && forallb (fun agent =>
       is_some_and (ended_at agent) (fun ended_at => (ended_at <=? enqueued_at m)%Z))
     (List.filter (same_agent_card m) agents).

Definition idle_compaction_lapsed m (agent : AgentState) : bool :=
  is_open (status m) && same_agent_card m agent
  && is_some_and (idle_since m) (fun idle_since =>
       is_some_and (idle_compaction_edge agent) (fun edge => (idle_since <? edge)%Z)).

Definition is_ready m now : bool := is_none_or (not_before m) (fun nb => (nb <=? now)%Z).
Definition after_met m : bool := forallb (fun c => is_some (after_met_at c)) (after m).
Definition when_met m : bool := forallb (fun c => is_some (when_met_at c)) (when_ m).
Definition conditions_met m : bool := after_met m && when_met m.

Definition perishable m : bool := bool_decide (body m = Command) && automated m.
Definition expires_at m : option Z :=
  if perishable m then Some (enqueued_at m + command_validity)%Z else None.
Definition expired m now : bool :=
  bool_decide (status m = Status.Queued) && is_some_and (expires_at m) (fun at_ => (at_ <=? now)%Z).

Definition is_deliverable m now : bool :=
  negb (bool_decide (soft_compact m = Some WrapUp)) && is_ready m now && conditions_met m
  && negb (expired m now).

Definition sent_reconcile_deadline m : option Z :=
  if bool_decide (status m = Status.Sent)
  then Some (unwrap_or (retry_after m)
               (unwrap_or (last_sent_at m) (updated_at m) + delivery_window (body m))%Z)
  else None.
Definition sent_hold_expired m now : bool :=
  is_some_and (sent_reconcile_deadline m) (fun deadline => (deadline <=? now)%Z).
Definition held_by_compaction m (agent : AgentState) : bool :=
  bool_decide (status m = Status.Sent) && is_some (compacting_since agent)
  && same_agent_card m agent.

Definition wake_deadline m now : option Z :=
  match status m with
  | Status.Queued =>
      if bool_decide (soft_compact m = Some WrapUp) then Some (updated_at m + CLAIM_TTL)%Z
      else if bool_decide (gate m = Resume) then None
      else
        let deadline :=
          unwrap_or (or_else (ofilter (not_before m) (fun nb => (now <? nb)%Z)) (retry_after m))
                    (updated_at m) in
        omin (omin (Some deadline) (expires_at m))
             (ofilter (register_by m) (fun register_by => (now <? register_by)%Z))
  | Status.Sent => sent_reconcile_deadline m
  | Status.Claimed => Some (unwrap_or (last_attempt_at m) (updated_at m) + CLAIM_TTL)%Z
  | _ => None
  end.

Definition batch_key m : option text :=
  match sender m with
  | Sender.Agent _ _ _ _ _ channel => channel
  | Sender.Harness _ => None
  | Sender.Human | Sender.Subagent _ _ | Sender.System => channel m
  end.
Definition batchable m : bool :=
  bool_decide (body m = Prompt) && enter m
  && negb (starts_with (str "/") (trim_start (msg_text m)))
  && negb match sender m with Sender.Harness notice => is_fleet_digest notice | _ => false end.

(** ** Selection over the live queue *)

Definition queue_head (pending : list MessageRecord) (card : AgentCardRef) now
  : option MessageRecord :=
  min_by message_id text_ltb
    (List.filter (fun m =>
       bool_decide (status m = Status.Queued) && negb (bool_decide (gate m = Resume))
       && same_card m card && is_deliverable m now) pending).

(** The deadline one record contributes to [queue_wake_deadline]. *)
Definition record_wake (pending : list MessageRecord) now m : option Z :=
  let follower :=
    bool_decide (status m = Status.Queued) && negb (bool_decide (gate m = Resume))
    && is_deliverable m now
    && is_some_and (queue_head pending (message_card_ref m) now)
         (fun head => negb (bool_decide (message_id head = message_id m))) in
  let deadline :=
    if follower
    then omin (expires_at m) (ofilter (register_by m) (fun deadline => (now <? deadline)%Z))
    else wake_deadline m now in
  let hold :=
    let! hold := typing_hold m else None in
    if negb (bool_decide (status m = Status.Queued)) then None
    else if (now <? until hold)%Z then Some (until hold)
    else if is_some (replay hold) || bool_decide (gate m = Resume)
    then or_else (retry_after m) (Some (until hold))
    else None in
  omin deadline hold.
Definition queue_wake_deadline (pending : list MessageRecord) now : option Z :=
  min_of (map (record_wake pending now) pending).

Definition holds_boundary m now : bool :=
  negb (bool_decide (soft_compact m = Some WrapUp))
  && (is_open (status m)
      || (bool_decide (status m = Status.Sent) && bool_decide (body m = Prompt)
          && negb (sent_hold_expired m now))).

Definition in_flight_claim (pending : list MessageRecord) (card : AgentCardRef) now
  : option MessageRecord :=
  List.find (fun m =>
    holds_boundary m now && negb (bool_decide (gate m = Resume)) && same_card m card
    && (bool_decide (status m = Status.Sent)
        || (bool_decide (status m = Status.Claimed)
            && negb (claim_expired (last_attempt_at m) now)))) pending.

Definition fresh_boundary_blocker (pending : list MessageRecord) (card : AgentCardRef) now
  : option MessageRecord :=
  or_else (queue_head pending card now) (in_flight_claim pending card now).

Definition older_ready_blocker (pending : list MessageRecord) (candidate : MessageRecord) now
    (ready : MessageRecord -> bool) : option MessageRecord :=
  min_by message_id text_ltb
    (List.filter (fun m =>
       holds_boundary m now && same_card m (message_card_ref candidate)
       && same_delivery_lane (gate candidate) (gate m)
       && text_ltb (message_id m) (message_id candidate)
       && (bool_decide (status m = Status.Sent) || ready m)) pending).

Definition batch_compatible (head candidate : MessageRecord) (agent_status : AgentStatus) : bool :=
  batchable candidate && bool_decide (batch_key candidate = batch_key head)
  && Bool.eqb (force candidate) (force head) && gate_open (gate candidate) agent_status.

(** The followers of [head] that join its batch, in queue order: [rest] are
    the records behind it, the first of them at [index]. *)
Fixpoint batch_loop (head : MessageRecord) (agent_status : AgentStatus) now (index : nat)
    (rest : list MessageRecord) : list nat :=
  match rest with
  | [] => []
  | candidate :: rest' =>
      if is_open (status candidate) && same_card candidate (message_card_ref head)
         && same_delivery_lane (gate head) (gate candidate) && is_deliverable candidate now
      then
        if negb (claim_expired (last_attempt_at candidate) now)
           || is_some_and (typing_hold candidate) (fun hold => (now <? until hold)%Z)
           || negb (batch_compatible head candidate agent_status)
        then []
        else index :: batch_loop head agent_status now (S index) rest'
      else batch_loop head agent_status now (S index) rest'
  end.

Definition delivery_batch_indices (live : list MessageRecord) (target_id : text)
    (agent_status : AgentStatus) now : option (list nat) :=
  let! head_index := position (fun m => bool_decide (message_id m = target_id)) live else None in
  let! head := live !! head_index else None in
  if negb (bool_decide (status head = Status.Queued))
     || negb (is_deliverable head now)
     || is_some_and (typing_hold head) (fun hold => (now <? until hold)%Z)
     || negb (claim_expired (last_attempt_at head) now)
     || existsb (fun m =>
          holds_boundary m now && same_card m (message_card_ref head)
          && same_delivery_lane (gate head) (gate m)
          && (bool_decide (status m = Status.Sent) || is_deliverable m now))
        (take head_index live)
  then None
  else if negb (batchable head) || bool_decide (gate head = Resume) then Some [head_index]
  else Some (head_index :: batch_loop head agent_status now (S head_index) (drop (S head_index) live)).
End Record.

(** * Properties *)

Section Selection.
Context `{Env}.
Implicit Types (m head : MessageRecord) (now : Z).

(** A record that the FIFO of [head] counts: open, same card and lane, ready. *)
Definition in_lane head m now : bool :=
  is_open (status m) && same_card m (message_card_ref head)
  && same_delivery_lane (gate head) (gate m) && is_deliverable m now.

(** A record that may enter a batch behind [head]. *)
Definition joins head m (st : AgentStatus) now : Prop :=
  in_lane head m now = true /\ claim_expired (last_attempt_at m) now = true
  /\ is_some_and (typing_hold m) (fun hold => (now <? until hold)%Z) = false
  /\ batch_compatible head m st = true.

(** A record between [index] and [i] that the FIFO counts and that may not enter. *)
Definition stopped_by (live : list MessageRecord) head (st : AgentStatus) now (index i : nat) : Prop :=
  exists j m, index <= j /\ j <= i /\ live !! j = Some m /\ in_lane head m now = true /\ ~ joins head m st now.

Lemma batch_loop_spec head st now live index rest :
  drop index live = rest ->
  let idxs := batch_loop head st now index rest in
  StronglySorted lt idxs
  /\ (forall i, i ∈ idxs -> index <= i /\ exists m, live !! i = Some m /\ joins head m st now)
  /\ (forall i j m, j ∈ idxs -> index <= i -> i < j -> live !! i = Some m ->
        in_lane head m now = true -> i ∈ idxs)
  /\ (forall i m, index <= i -> live !! i = Some m -> in_lane head m now = true -> i ∉ idxs ->
        stopped_by live head st now index i).
Proof.
  revert index. induction rest as [|c rest IH]; intros index Hdrop; cbn [batch_loop].
  { split_and!; [constructor|by intros i ?%elem_of_nil|by intros i j m ?%elem_of_nil|].
    intros i m Hi Hm. exfalso. apply (f_equal length) in Hdrop. rewrite length_drop in Hdrop. cbn in Hdrop.
    apply lookup_lt_Some in Hm. lia. }
  assert (Hc : live !! index = Some c).
  { rewrite <-(Nat.add_0_r index), <-lookup_drop, Hdrop. done. }
  assert (Hrest : drop (S index) live = rest).
  { rewrite <-Nat.add_1_r, <-drop_drop, Hdrop. done. }
  destruct (IH (S index) Hrest) as (Hs & Hin & Hcont & Hstop). clear IH.
  fold (in_lane head c now). destruct (in_lane head c now) eqn:El.
  - destruct (negb _ || _ || _) eqn:Eb.
    { split_and!; [constructor|by intros i ?%elem_of_nil|by intros i j m ?%elem_of_nil|].
      intros i m Hi _ _ _. exists index, c. split_and!; [lia|lia|done|done|].
      intros (_ & Hexp & Hhold & Hcomp). by rewrite Hexp, Hhold, Hcomp in Eb. }
    rewrite !orb_false_iff, !negb_false_iff in Eb. destruct Eb as [[Ee Eh] Ec].
    split_and!.
    + constructor; [done|]. apply Forall_forall. intros i Hi. apply Hin in Hi as [? _]. lia.
    + intros i. rewrite elem_of_cons. intros [->|Hi].
      * split; [done|]. by exists c.
      * destruct (Hin i Hi) as [? ?]. split; [lia|done].
    + intros i j m Hj Hle Hlt Hm Hl. rewrite elem_of_cons in Hj |- *.
      destruct (decide (i = index)) as [|Hne]; [by left|right].
      destruct Hj as [->|Hj]; [lia|]. eapply Hcont; [exact Hj|lia|done..].
    + intros i m Hi Hm Hl. rewrite elem_of_cons. intros Hn. destruct (Hstop i m) as (j & y & ? & ? & ? & ? & ?); [|done|done| |].
      * destruct (decide (i = index)) as [->|]; [|lia]. exfalso. auto.
      * intros ?. auto.
      * exists j, y. split_and!; [lia|done..].
  - split_and!; [done| | |].
    + intros i Hi. destruct (Hin i Hi) as [? ?]. split; [lia|done].
    + intros i j m Hj Hle Hlt Hm Hl. destruct (decide (i = index)) as [->|Hne]; [congruence|].
      eapply Hcont; [exact Hj|lia|done..].
    + intros i m Hi Hm Hl Hn. destruct (decide (i = index)) as [->|Hne]; [congruence|].
      destruct (Hstop i m) as (j & y & ? & ? & ? & ? & ?); [lia|done..|]. exists j, y. split_and!; [lia|done..].
Qed.

(** The first record with the id of the target, at [h], may head a batch. *)
Record heads (live : list MessageRecord) (target : text) now (h : nat) head : Prop := {
  hd_at : live !! h = Some head;
  hd_target : message_id head = target;
  hd_first : forall i m, i < h -> live !! i = Some m -> message_id m <> target;
  hd_queued : status head = Status.Queued;
  hd_ready : is_deliverable head now = true;
  hd_typing : is_some_and (typing_hold head) (fun hold => (now <? until hold)%Z) = false;
  hd_claim : claim_expired (last_attempt_at head) now = true;
  hd_older : forall i m, i < h -> live !! i = Some m -> same_card m (message_card_ref head) = true ->
    same_delivery_lane (gate head) (gate m) = true -> holds_boundary m now = true ->
    status m <> Status.Sent /\ is_deliverable m now = false
}.

Lemma delivery_batch_heads live target st now idxs :
  delivery_batch_indices live target st now = Some idxs <->
  exists h head, heads live target now h head /\
    idxs = if negb (batchable head) || bool_decide (gate head = Resume) then [h]
           else h :: batch_loop head st now (S h) (drop (S h) live).
Proof.
  unfold delivery_batch_indices. split.
  - destruct (position _ live) as [h|] eqn:Ep; [|done].
    apply position_Some in Ep as (head & Hh & Hid%bool_decide_eq_true & Hfirst). rewrite Hh.
    destruct (negb _ || _ || _ || _ || _) eqn:Eg; [done|].
    rewrite !orb_false_iff, !negb_false_iff in Eg. destruct Eg as [[[[Eq%bool_decide_eq_true Ed] Ehold] Ec] Eold].
    intros Hi. exists h, head. split; [|by destruct (negb (batchable head) || _); injection Hi as <-].
    split; try done; [by intros i m Hlt Hm; apply (bool_decide_eq_false (_ = _)), (Hfirst i)|].
    intros i m Hlt Hm H1 H2 H3. assert (Hin : In m (take h live)).
    { apply list_elem_of_In. eapply list_elem_of_lookup_2. by rewrite lookup_take_lt. }
    apply not_true_iff_false in Eold. rewrite existsb_exists in Eold.
    assert (Hno : bool_decide (status m = Status.Sent) || is_deliverable m now = false).
    { apply not_true_iff_false. intros Hyes. apply Eold. exists m. split; [done|]. by rewrite H1, H2, H3. }
    apply orb_false_iff in Hno as [Hs Hd]. by apply bool_decide_eq_false in Hs.
  - intros (h & head & [] & ->).
    assert (Ep : position (fun m => bool_decide (message_id m = target)) live = Some h).
    { apply position_Some. exists head. split_and!; [done|by apply bool_decide_eq_true|].
      intros i m Hlt Hm. apply bool_decide_eq_false. by eapply hd_first0. }
    rewrite Ep, hd_at0, bool_decide_eq_true_2 by done. rewrite hd_ready0, hd_typing0, hd_claim0. cbn [negb orb].
    assert (Eold : existsb (fun m => holds_boundary m now && same_card m (message_card_ref head)
      && same_delivery_lane (gate head) (gate m)
      && (bool_decide (status m = Status.Sent) || is_deliverable m now)) (take h live) = false).
    { apply not_true_iff_false. intros (m & Hm & Hb)%existsb_exists. rewrite !andb_true_iff in Hb.
      destruct Hb as [[[Hb Hc] Hl] Ho]. apply list_elem_of_In, list_elem_of_lookup in Hm as [i Hm].
      apply lookup_take_Some in Hm as [Hm Hi]. destruct (hd_older0 i m Hi Hm Hc Hl Hb) as [Hs Hd].
      rewrite Hd, orb_false_r in Ho. by apply bool_decide_eq_true in Ho. }
    rewrite Eold. by destruct (negb (batchable head) || _).
Qed.

(** C20: a batch can be claimed exactly when its target may head one: it is
    queued and ready, nobody types over it and nobody holds it, and among the
    older records of its card and lane that hold the boundary none is in
    flight or ready (an older one that still waits for its time or its
    conditions does not block).  The batch starts there; its followers are
    open, ready, unheld records of the same card and lane, compatible with
    the head, in queue order; no ready record of the lane between two members
    is passed over; and a head that may be batched takes all up to the first
    ready one of the lane that may not join. *)
Theorem delivery_batch_is_fifo live target st now :
  ((exists idxs, delivery_batch_indices live target st now = Some idxs)
    <-> exists h head, heads live target now h head)
  /\ forall idxs, delivery_batch_indices live target st now = Some idxs ->
  exists h head followers,
    idxs = h :: followers /\ heads live target now h head
    /\ StronglySorted lt idxs
    /\ (forall i, i ∈ followers -> exists m, live !! i = Some m /\ joins head m st now)
    /\ (forall i j m, j ∈ followers -> h < i -> i < j -> live !! i = Some m ->
          in_lane head m now = true -> i ∈ followers)
    /\ (batchable head = true -> gate head <> Resume -> forall i m, h < i -> live !! i = Some m ->
          in_lane head m now = true -> i ∉ followers -> stopped_by live head st now (S h) i).
Proof.
  split.
  { split; [intros (idxs & (h & head & ? & _)%delivery_batch_heads); eauto|].
    intros (h & head & Hh). eexists. apply delivery_batch_heads. by exists h, head. }
  intros idxs (h & head & Hh & ->)%delivery_batch_heads.
  destruct (negb (batchable head) || _) eqn:Eb.
  - exists h, head, []. split_and!; try done; [by repeat constructor|by intros i ?%elem_of_nil|by intros i j m ?%elem_of_nil|].
    intros Hb Hg. by rewrite Hb, bool_decide_eq_false_2 in Eb.
  - destruct (batch_loop_spec head st now live (S h) _ eq_refl) as (Hs & Hin & Hcont & Hstop).
    exists h, head, (batch_loop head st now (S h) (drop (S h) live)). split_and!; try done.
    + constructor; [done|]. apply Forall_forall. intros i Hi. apply Hin in Hi as [? _]. lia.
    + intros i Hi. by apply Hin in Hi as [_ ?].
Qed.

Lemma matches_refl card : matches card card = true.
Proof. unfold matches. by rewrite !bool_decide_eq_true_2. Qed.

(** The records that must be woken: in flight, or queued outside the resume
    lane, or a wrap-up. *)
Definition owes_wake m : bool :=
  match status m with
  | Status.Queued => negb (bool_decide (gate m = Resume)) || bool_decide (soft_compact m = Some WrapUp)
  | Status.Claimed | Status.Sent => true
  | _ => false
  end.

Lemma wake_deadline_some m now : owes_wake m = true -> exists d, wake_deadline m now = Some d.
Proof.
  unfold owes_wake, wake_deadline, sent_reconcile_deadline. destruct (status m); try done; [| |].
  - destruct (bool_decide (soft_compact m = Some WrapUp)); [by eexists|].
    rewrite orb_false_r. intros Hg. apply negb_true_iff in Hg. rewrite Hg.
    destruct (expires_at m), (ofilter (register_by m) _); simpl; eauto.
  - eauto.
  - rewrite bool_decide_eq_true_2 by done. eauto.
Qed.

Lemma omin_some_l a b d : a = Some d -> exists d', omin a b = Some d' /\ (d' <= d)%Z.
Proof. intros ->. destruct b; simpl; eexists; (split; [done|]); lia. Qed.

Lemma min_of_elem l d : Some d ∈ l -> exists d', min_of l = Some d' /\ (d' <= d)%Z.
Proof.
  intros Hd. destruct (min_of l) as [d'|] eqn:E.
  - exists d'. split; [done|]. by apply (min_of_Some _ _ E).
  - apply min_of_None with (o := Some d) in E; done.
Qed.

Definition below pending m : list MessageRecord :=
  List.filter (fun x => text_ltb (message_id x) (message_id m)) pending.

Lemma below_le pending a b :
  text_ltb (message_id a) (message_id b) = true -> length (below pending a) <= length (below pending b).
Proof.
  intros Hlt. induction pending as [|y l IH]; [done|]. unfold below in *. cbn [List.filter].
  destruct (text_ltb (message_id y) (message_id a)) eqn:E1.
  - rewrite (text_ltb_trans _ _ _ E1 Hlt). simpl. lia.
  - destruct (text_ltb (message_id y) (message_id b)); simpl; lia.
Qed.

Lemma below_decreases pending a b :
  In a pending -> text_ltb (message_id a) (message_id b) = true ->
  length (below pending a) < length (below pending b).
Proof.
  intros Hin Hlt. induction pending as [|y l IH]; [done|].
  pose proof (below_le l a b Hlt) as Hle. unfold below in *. cbn [List.filter].
  destruct Hin as [->|Hin].
  - rewrite text_ltb_irrefl, Hlt. simpl. lia.
  - specialize (IH Hin). destruct (text_ltb (message_id y) (message_id a)) eqn:E1.
    + rewrite (text_ltb_trans _ _ _ E1 Hlt). simpl. lia.
    + destruct (text_ltb (message_id y) (message_id b)); simpl; lia.
Qed.

(** [head] is the record that [m] waits behind: the head of the queue of its
    card, ready, and older than [m]. *)
Definition waits_behind (pending : list MessageRecord) now m head : Prop :=
  status m = Status.Queued /\ gate m <> Resume /\ is_deliverable m now = true
  /\ queue_head pending (message_card_ref m) now = Some head
  /\ head ∈ pending /\ same_card head (message_card_ref m) = true
  /\ status head = Status.Queued /\ gate head <> Resume /\ is_deliverable head now = true
  /\ text_ltb (message_id head) (message_id m) = true.

Lemma record_wake_cases pending now m d : m ∈ pending -> wake_deadline m now = Some d ->
  (exists head, waits_behind pending now m head)
  \/ (forall head, ~ waits_behind pending now m head)
     /\ exists d', record_wake pending now m = Some d' /\ (d' <= d)%Z.
Proof.
  intros Hin Hd. unfold record_wake.
  destruct (bool_decide (status m = Status.Queued) && _ && _ && _) eqn:Ef; [left|right].
  2: { split; [|by apply omin_some_l]. intros head (Hq & Hg & Hr & Hhead & _ & _ & _ & _ & _ & Hlt).
       rewrite Hhead, Hr, bool_decide_eq_true_2, bool_decide_eq_false_2 in Ef by done. cbn in Ef.
       apply negb_false_iff, bool_decide_eq_true in Ef. rewrite Ef in Hlt. by rewrite text_ltb_irrefl in Hlt. }
  rewrite !andb_true_iff, negb_true_iff, bool_decide_eq_true, bool_decide_eq_false in Ef.
  destruct Ef as [[[Eq Eg] Ed] Eh].
  destruct (queue_head pending (message_card_ref m) now) as [head|] eqn:Ehead; [|done].
  cbn in Eh. apply negb_true_iff, bool_decide_eq_false in Eh.
  pose proof Ehead as [Hhin Hmin]%min_by_spec. apply list_elem_of_In, filter_In in Hhin as [Hhin Hhead].
  rewrite !andb_true_iff, negb_true_iff, bool_decide_eq_true, bool_decide_eq_false in Hhead.
  destruct Hhead as [[[Hq Hg] Hc] Hr].
  exists head. split_and!; try done; [by apply list_elem_of_In|].
  destruct (text_ltb_total _ _ Eh) as [|Hgt]; [done|].
  rewrite Hmin in Hgt; [done|]. apply list_elem_of_In, filter_In. split; [by apply list_elem_of_In|].
  rewrite Ed, !bool_decide_eq_true_2, bool_decide_eq_false_2 by done.
  unfold same_card. by rewrite matches_refl.
Qed.

(** C33: a live record that must be woken never sleeps for ever: following
    from a record the head of the queue of its card that it waits behind, and
    from that head its own, always ends at a record that waits behind none,
    and the wake stamp is at or before the deadline of that one.  So the stamp
    is early enough for every record that is not a follower, and a follower
    sleeps only behind older ready records of its own card. *)
Theorem queue_wake_covers pending now m :
  m ∈ pending -> owes_wake m = true ->
  exists m' d d', rtc (waits_behind pending now) m m' /\ (forall head, ~ waits_behind pending now m' head)
    /\ m' ∈ pending /\ wake_deadline m' now = Some d
    /\ queue_wake_deadline pending now = Some d' /\ (d' <= d)%Z.
Proof.
  intros Hin Hw. remember (length (below pending m)) as n eqn:Hn.
  revert m Hin Hw Hn. induction (lt_wf n) as [n _ IH]. intros m Hin Hw ->.
  destruct (wake_deadline_some m now Hw) as [d Hd].
  destruct (record_wake_cases pending now m d Hin Hd) as [(head & Hh)|(Hno & d1 & Hrec & Hle1)].
  - pose proof Hh as (_ & _ & _ & _ & Hhin & _ & Hq & Hg & _ & Hlt).
    assert (Hdec : length (below pending head) < length (below pending m))
      by (apply below_decreases; [by apply list_elem_of_In|done]).
    destruct (IH _ Hdec head) as (m' & d0 & d' & Hr & Hrest); [done| |done|].
    { unfold owes_wake. by rewrite Hq, bool_decide_eq_false_2. }
    exists m', d0, d'. split; [by eapply rtc_l|done].
  - destruct (min_of_elem (map (record_wake pending now) pending) d1) as (d2 & Hmin & Hle2).
    { apply list_elem_of_fmap. by exists m. }
    exists m, d, d2. split_and!; try done. lia.
Qed.
End Selection.

(** Records for the witnesses, under an empty environment. *)
Module Sample.
#[export] Instance no_env : Env := fun _ => None.
Definition msg (id : text) (body : text) : MessageRecord :=
  new_for_card id (str "ws") (str "claude") (str "s1") (Some (str "bold-arc")) body true Done 0.
Definition id1 : text := str "msg_0000000000000001".
Definition id2 : text := str "msg_0000000000000002".
Definition id3 : text := str "msg_0000000000000003".
Definition queue : list MessageRecord := [msg id1 (str "a"); msg id2 (str "b"); msg id3 (str "/compact")].
End Sample.
Import Sample.

Lemma delivery_batch_is_fifo_witness :
  delivery_batch_indices queue id1 Idle 100 = Some [0; 1]
  /\ exists h head followers, [0; 1] = h :: followers /\ queue !! h = Some head
       /\ message_id head = id1.
Proof.
  assert (E : delivery_batch_indices queue id1 Idle 100 = Some [0; 1]) by by vm_compute.
  split; [exact E|].
  destruct (proj2 (delivery_batch_is_fifo queue id1 Idle 100) [0; 1] E) as (h & head & fs & H1 & [H2 H3] & _).
  by exists h, head, fs.
Defined.

Lemma queue_wake_covers_witness :
  owes_wake (msg id2 (str "b")) = true
  /\ exists d', queue_wake_deadline queue 100 = Some d'.
Proof.
  split; [by vm_compute|].
  destruct (queue_wake_covers queue 100 (msg id2 (str "b"))) as (m' & d & d' & _ & _ & _ & _ & H & _).
  - right. left.
  - by vm_compute.
  - by exists d'.
Defined.
