(* ===== verification/Prompt.v ===== *)
(** * Submitted prompts ([crates/rimz/src/store/message.rs], the header grammar)

    What an agent reports as a prompt is text a batch of messages was pasted
    into.  This file models the header grammar, the split of a batched paste
    into sections, the alignment of a paste with the records written as its
    batch, and the paste itself ([crates/rimz/src/message/send.rs] and
    [message_header] of [crates/rimz/src/address.rs]).  A [&str] slice is its
    text. *)

From S2P Require Import Prelude Lifecycle Agents Message.

Inductive HeaderKind := HeaderAgent | HeaderUser | HeaderNotice (notice : HarnessNotice).
#[export] Instance HeaderKind_eq_dec : EqDecision HeaderKind.
Proof. solve_decision. Defined.

(** The wire names of [HarnessNotice]; every other name is [Other]. *)
Definition notice_from_name (name : text) : HarnessNotice :=
  if decide (name = str "cache_keepalive") then CacheKeepalive
  else if decide (name = str "deadline") then Deadline
  else if decide (name = str "subagent_report") then SubagentReport
  else if decide (name = str "agent_report") then AgentReport
  else if decide (name = str "wait") then Wait
  else if decide (name = str "signal") then Signal
  else if decide (name = str "stage") then Stage
  else if decide (name = str "team_report") then TeamReport
  else if decide (name = str "subagent_paused") then SubagentPaused
  else if decide (name = str "subagent_stalled") then SubagentStalled
  else if decide (name = str "team_stalled") then TeamStalled
  else if decide (name = str "message_undelivered") then MessageUndelivered
  else if decide (name = str "message_queued") then MessageQueued
  else Other name.

Definition classify_header_start (line : text) (from : option text) : option HeaderKind :=
  if decide (line = str "Type: AGENT_MESSAGE") then Some HeaderAgent
  else if decide (line = str "Type: USER_MESSAGE") then Some HeaderUser
  else
    let! token := strip_prefix (str "Type: ") line else None in
    match token with
    | [] => None
    | c :: rest =>
        if negb (is_ascii_uppercase c)
           || negb (forallb (fun b => is_ascii_uppercase b || is_ascii_digit b || (b =? 95)%N) rest)
        then None
        else
          let notice := notice_from_name (to_ascii_lowercase token) in
          if match notice with Other _ => true | _ => false end
             && negb (bool_decide (from = Some (str "From: @rimz")))
          then None
          else Some (HeaderNotice notice)
    end.

Definition parse_sender_handle (from : text) : option text :=
  let! handle :=
    match split_once (str " (") from with
    | Some (handle, label) =>
        let! label := strip_suffix (str ")") label else None in
        if is_empty label
           || existsb (fun ch => is_whitespace ch || (ch =? 40)%N || (ch =? 41)%N) label
        then None
        else Some handle
    | None => Some from
    end else None in
  if negb (is_empty handle) && negb (existsb is_whitespace handle) then Some handle else None.

Definition parse_message_header (t : text) : option (HeaderKind * text * text) :=
  let! (kind, rest) := split_once [10%N] t else None in
  let! (from, rest) := split_once [10%N] rest else None in
  let! kind := classify_header_start kind (Some from) else None in
  let! from := strip_prefix (str "From: @") from else None in
  let! handle := parse_sender_handle from else None in
  let! body := strip_prefix (str "Content:" ++ [10%N]) rest else None in
  Some (kind, str "@" ++ handle, body).

(** The two first lines of a text, as [split] on newlines gives them. *)
Definition first_lines (t : text) : text * option text :=
  match split_once [10%N] t with
  | None => (t, None)
  | Some (l1, rest) =>
      (l1, Some (match split_once [10%N] rest with Some (l2, _) => l2 | None => rest end))
  end.

Fixpoint leading_newlines (t : text) : text * text :=
  match t with
  | 10%N :: t' => let '(nl, rest) := leading_newlines t' in (10%N :: nl, rest)
  | _ => ([], t)
  end.

(** [segment] is the text from the start of the open segment to the cursor,
    [rest] the text behind the cursor; every turn moves the cursor. *)
Fixpoint split_loop (fuel : nat) (segments : list text) (segment rest : text) : list text * text :=
  match fuel with
  | O => (segments, segment ++ rest)
  | S fuel' =>
      match split_once [10%N; 10%N] rest with
      | None => (segments, segment ++ rest)
      | Some (before, after) =>
          let '(newlines, next) := leading_newlines after in
          let '(line1, line2) := first_lines next in
          if is_some (classify_header_start line1 line2)
          then split_loop fuel' (segments ++ [segment ++ before]) [] next
          else split_loop fuel' segments (segment ++ before ++ [10%N; 10%N] ++ newlines) next
      end
  end.
Definition split_batched_prompt (t : text) : list text :=
  let '(segments, last_segment) := split_loop (length t) [] [] t in
  if is_empty segments then [t] else segments ++ [last_segment].

Definition prompt_is_keepalive_only (prompt : text) : bool :=
  negb (is_empty (trim prompt))
  && forallb (fun section =>
       is_some_and (parse_message_header (trim_start section)) (fun '(kind, _, _) =>
         bool_decide (kind = HeaderNotice CacheKeepalive))) (split_batched_prompt prompt).

Definition prompt_is_wake_only (prompt : text) : bool :=
  negb (is_empty (trim prompt))
  && forallb (fun section =>
       is_some_and (parse_message_header (trim_start section)) (fun '(kind, _, _) =>
         bool_decide (kind = HeaderNotice Wait) || bool_decide (kind = HeaderNotice Signal)))
       (split_batched_prompt prompt).

(** ** Alignment *)

Definition content_mark : text := 10%N :: str "Content:" ++ [10%N].
Definition agent_start : text := str "Type: AGENT_MESSAGE" ++ 10%N :: str "From: @".
Definition subagent_start : text := str "Type: SUBAGENT_REPORT" ++ 10%N :: str "From: @".
Definition human_header : text :=
  str "Type: USER_MESSAGE" ++ 10%N :: str "From: @user" ++ content_mark.
Definition harness_header (notice : HarnessNotice) : text :=
  str "Type: " ++ header_type notice ++ 10%N :: str "From: @rimz" ++ content_mark.

Definition nonempty_trimmed (t : text) : option text :=
  let t := trim t in if is_empty t then None else Some t.

(** Strip the rendered header of one record off its segment. *)
Definition strip_header (s : MessageSender) (segment : text) : option text :=
  let attributed (start : text) :=
    let! attributed := strip_prefix start segment else None in
    let! (handle, text_) := split_once content_mark attributed else None in
    let! _ := parse_sender_handle handle else None in
    Some text_ in
  match s with
  | Sender.Agent _ _ _ _ _ _ => attributed agent_start
  | Sender.Subagent _ _ => attributed subagent_start
  | Sender.Harness notice => strip_prefix (harness_header notice) segment
  | Sender.Human => strip_prefix human_header segment
  | Sender.System => Some segment
  end.

Fixpoint align_submitted_prompt_from (first : bool) (remaining : text) (records : list MessageRecord)
  : option (list text * text) :=
  match records with
  | [] => None
  | record :: records' =>
      let segment := remaining in
      let! body := strip_header (sender record) segment else None in
      let last := is_empty records' in
      let body := if first then trim_start body else body in
      let expected :=
        match first, last with
        | true, true => trim (msg_text record)
        | true, false => trim_start (msg_text record)
        | false, true => trim_end (msg_text record)
        | false, false => msg_text record
        end in
      if is_empty expected then None
      else
        let! after_text := strip_prefix expected body else None in
        let this := trim (take (length segment - length after_text) segment) in
        if last then Some ([this], after_text)
        else
          let! after_join := strip_prefix [10%N; 10%N] after_text else None in
          let! (segments, trailing) := align_submitted_prompt_from false after_join records' else None in
          Some (this :: segments, trailing)
  end.

(** The occurrences of the anchor, tried in order: (before, from the anchor on). *)
Fixpoint align_at (anchor : text) (occurrences : list (text * text)) (records : list MessageRecord)
  : option (option text * list text * option text) :=
  match occurrences with
  | [] => None
  | (before, behind) :: occurrences' =>
      match align_submitted_prompt_from true (anchor ++ behind) records with
      | Some (segments, trailing) =>
          Some (nonempty_trimmed before, segments, nonempty_trimmed trailing)
      | None => align_at anchor occurrences' records
      end
  end.

Definition align_submitted_prompt (prompt : text) (records : list MessageRecord)
  : option (option text * list text * option text) :=
  match records with
  | [] => None
  | record :: _ =>
      let prompt := trim prompt in
      let try_anchor anchor := align_at anchor (match_indices anchor prompt) records in
      match sender record with
      | Sender.Agent _ _ _ _ _ _ => try_anchor agent_start
      | Sender.Subagent _ _ => try_anchor subagent_start
      | Sender.Harness notice => try_anchor (harness_header notice)
      | Sender.Human => try_anchor human_header
      | Sender.System =>
          let! (segments, trailing) := align_submitted_prompt_from true prompt records else None in
          if is_empty trailing then Some (None, segments, None) else None
      end
  end.

(** ** Classification *)

Record PromptSection := {
  section_text : text;
  origin : Origin.SectionOrigin;
  record : option MessageRecord
}.

Definition header_origin (header : HeaderKind) (sender : text) : Origin.SectionOrigin :=
  match header with
  | HeaderAgent => Origin.Agent sender
  | HeaderNotice notice => notice_section_origin notice sender
  | HeaderUser => Origin.Human
  end.

(** The loop over the segments; [delivered] are the records behind the cursor,
    [unmatched] the in-flight records not consumed yet. *)
Fixpoint classify_loop (batch_aligned : bool) (segments : list (text * bool))
    (delivered unmatched : list MessageRecord) : list PromptSection :=
  match segments with
  | [] => []
  | (segment, aligned_record) :: segments' =>
      let header := parse_message_header (trim_start segment) in
      let segment := trim segment in
      if is_empty segment then classify_loop batch_aligned segments' delivered unmatched
      else
        let '(text_, origin) :=
          match header with
          | Some (header, sender, body) => (trim_end body, Some (header_origin header sender))
          | None => (segment, None)
          end in
        let matched :=
          if aligned_record then option_map (fun r => (0, r)) (head delivered)
          else if negb batch_aligned then
            match position (fun r => bool_decide (msg_text r = text_)) delivered with
            | Some i => option_map (fun r => (i, r)) (delivered !! i)
            | None => None
            end
          else None in
        let '(record, delivered, unmatched) :=
          match matched with
          | Some (offset, record) => (Some record, drop (S offset) delivered, unmatched)
          | None =>
              if is_none origin then
                match position (fun r => ships_headerless r
                        && bool_decide (trim (msg_text r) = text_)) unmatched with
                | Some index =>
                    (unmatched !! index, delivered, take index unmatched ++ drop (S index) unmatched)
                | None => (None, delivered, unmatched)
                end
              else (None, delivered, unmatched)
          end in
        let origin :=
          unwrap_or (or_else origin (option_map (fun r => section_origin (sender r)) record))
                    Origin.Human in
        {| section_text := text_; origin := origin; record := record |}
        :: classify_loop batch_aligned segments' delivered unmatched
  end.

Definition classify_submitted_prompt (prompt : text) (delivered in_flight : list MessageRecord)
  : list PromptSection :=
  match align_submitted_prompt prompt delivered with
  | Some (leading, aligned, trailing) =>
      let outer (o : option text) := match o with Some t => [(t, false)] | None => [] end in
      classify_loop true (outer leading ++ map (fun t => (t, true)) aligned ++ outer trailing)
        delivered in_flight
  | None =>
      classify_loop false (map (fun t => (t, false)) (split_batched_prompt prompt)) delivered in_flight
  end.

Definition prompt_is_harness_delivered (prompt : text) : bool :=
  if is_empty (trim prompt) then false
  else forallb (fun section => match origin section with Origin.Human => false | _ => true end)
         (classify_submitted_prompt prompt [] []).

(** ** The paste *)

(** [message_header]; [handle] and [label] are the reply handle of an agent
    sender, without its [@], and the optional label behind it, which the
    address book resolves. *)
Definition message_header (s : MessageSender) (handle : text) (label : option text) : option text :=
  match s with
  | Sender.Human => Some human_header
  | Sender.Subagent _ name => Some (subagent_start ++ name ++ content_mark)
  | Sender.Harness notice => Some (harness_header notice)
  | Sender.Agent _ _ _ _ _ _ =>
      Some (agent_start ++ handle
            ++ match label with Some l => str " (" ++ l ++ str ")" | None => [] end ++ content_mark)
  | Sender.System => None
  end.

(** The payload of a prompt batch: each record with the handle of its sender. *)
Abbreviation batch_entry := (MessageRecord * text * option text)%type.
Definition entry_record (e : batch_entry) : MessageRecord := e.1.1.
Definition rendered (e : batch_entry) : text :=
  unwrap_or (message_header (sender (entry_record e)) e.1.2 e.2) [] ++ msg_text (entry_record e).
Definition paste_payload (batch : list batch_entry) : text :=
  join [10%N; 10%N] (map rendered batch).

(** * Properties *)

(** A handle or label the address book gives: no blank, no parenthesis. *)
Definition plain (t : text) : Prop := t <> [] /\ Forall (fun c => is_whitespace c = false) t.
Definition plain_label (t : text) : Prop :=
  plain t /\ Forall (fun c => (c =? 40)%N = false /\ (c =? 41)%N = false) t.

(** What the paste of a record relies on: a text that is not blank, and a
    printable sender. *)
Definition entry_ok (e : batch_entry) : Prop :=
  trim (msg_text (entry_record e)) <> []
  /\ match sender (entry_record e) with
     | Sender.Agent _ _ _ _ _ _ =>
         plain e.1.2 /\ match e.2 with Some l => plain_label l | None => True end
     | Sender.Subagent _ name => plain name
     | _ => True
     end.

Section Align.
Lemma split_once_here p c p' a b : p = c :: p' -> c ∉ a -> split_once p (a ++ p ++ b) = Some (a, b).
Proof.
  intros ->. induction a as [|x a IH]; intros Hc.
  - cbn [app split_once]. by rewrite app_comm_cons, strip_prefix_app.
  - cbn [app split_once strip_prefix]. destruct (N.eqb_spec c x) as [->|]; [set_solver|].
    change (c :: p' ++ b) with ((c :: p') ++ b). rewrite IH by set_solver. done.
Qed.

Lemma plain_notin t c : plain t -> is_whitespace c = true -> c ∉ t.
Proof. intros [_ Hf] Hc Hin. rewrite Forall_forall in Hf. apply Hf in Hin. congruence. Qed.

Lemma plain_no_blank t : plain t -> existsb is_whitespace t = false /\ is_empty t = false.
Proof.
  intros [Hne Hf]. split; [|by destruct t].
  apply not_true_iff_false. rewrite existsb_exists. intros (c & Hin%list_elem_of_In & Hc).
  rewrite Forall_forall in Hf. apply Hf in Hin. congruence.
Qed.

Lemma split_once_absent c p t : c ∉ t -> split_once (c :: p) t = None.
Proof.
  induction t as [|d t IH]; intros Hc; [done|]. cbn [split_once strip_prefix].
  destruct (N.eqb_spec c d) as [->|]; [set_solver|]. rewrite IH; [done|set_solver].
Qed.

Lemma parse_plain_handle h label :
  plain h -> match label with Some l => plain_label l | None => True end ->
  parse_sender_handle (h ++ match label with Some l => str " (" ++ l ++ str ")" | None => [] end) = Some h.
Proof.
  intros Hh Hl. destruct (plain_no_blank h Hh) as [Hw He]. unfold parse_sender_handle.
  destruct label as [l|].
  - rewrite (split_once_here (str " (") 32%N (str "(")); [|done|by apply plain_notin].
    cbn match. unfold strip_suffix. rewrite rev_app_distr. change (rev (str ")")) with (str ")").
    rewrite strip_prefix_app. cbn [option_map]. rewrite rev_involutive.
    destruct Hl as [Hl Hp]. destruct (plain_no_blank l Hl) as [_ ->]. cbn [orb].
    assert (Hx : existsb (fun ch => is_whitespace ch || (ch =? 40)%N || (ch =? 41)%N) l = false).
    { apply not_true_iff_false. rewrite existsb_exists. intros (c & Hin%list_elem_of_In & Hc).
      destruct Hl as [_ Hf]. rewrite Forall_forall in Hf, Hp.
      destruct (Hp c Hin) as [H40 H41]. by rewrite (Hf c Hin), H40, H41 in Hc. }
    rewrite Hx. by rewrite He, Hw.
  - rewrite app_nil_r. change (str " (") with (32%N :: str "(").
    rewrite split_once_absent by by apply plain_notin. by rewrite He, Hw.
Qed.

(** The header of an entry strips off its rendering. *)
Lemma strip_header_rendered e more :
  entry_ok e ->
  strip_header (sender (entry_record e))
    (unwrap_or (message_header (sender (entry_record e)) e.1.2 e.2) [] ++ more) = Some more.
Proof.
  destruct e as [[r h] label]. intros [_ Hs]. unfold entry_record in *. cbn [fst snd] in *.
  unfold strip_header, message_header.
  destruct (sender r) as [|k i n p ro ch|notice|k nm|]; cbn [unwrap_or].
  - by rewrite strip_prefix_app.
  - destruct Hs as [Hh Hl].
    rewrite <-!app_assoc. rewrite strip_prefix_app. cbn match. rewrite (app_assoc h).
    rewrite (split_once_here content_mark 10%N (str "Content:" ++ [10%N])); [|done|].
    + cbn match. by rewrite parse_plain_handle.
    + rewrite elem_of_app. intros [Hin|Hin]; [by apply plain_notin in Hin|].
      destruct label as [l|]; [|by apply elem_of_nil in Hin].
      rewrite !elem_of_app in Hin. destruct Hin as [Hin|[Hin|Hin]].
      * by apply list_elem_of_In in Hin as [?|[?|[]]].
      * destruct Hl as [Hl _]. by apply plain_notin in Hin.
      * by apply list_elem_of_In in Hin as [?|[]].
  - by rewrite strip_prefix_app.
  - rewrite <-!app_assoc, strip_prefix_app. cbn match.
    rewrite (split_once_here content_mark 10%N (str "Content:" ++ [10%N])); [|done|by apply plain_notin].
    cbn match. pose proof (parse_plain_handle nm None Hs I) as Hp. rewrite app_nil_r in Hp. by rewrite Hp.
  - done.
Qed.

Lemma rendered_nonblank e x y : entry_ok e -> trim (x ++ rendered e ++ y) <> [].
Proof.
  intros [Hne _]. unfold rendered. rewrite <-(app_assoc _ (msg_text _)), app_assoc.
  by apply trim_app_nonblank.
Qed.

Lemma joined_nonblank e es : entry_ok e -> trim (paste_payload (e :: es)) <> [].
Proof.
  intros He. unfold paste_payload. destruct es as [|e2 es]; cbn [map join].
  - rewrite <-(app_nil_r (rendered e)). by apply (rendered_nonblank e [] []).
  - by apply (rendered_nonblank e []).
Qed.

Lemma paste_cons e e2 es :
  paste_payload (e :: e2 :: es) = rendered e ++ [10%N; 10%N] ++ paste_payload (e2 :: es).
Proof. done. Qed.

Lemma take_len_sub {A} (x y : list A) : take (length (x ++ y) - length y) (x ++ y) = x.
Proof.
  rewrite length_app. replace (length x + length y - length y) with (length x) by lia.
  apply take_app_length.
Qed.

Lemma strip_prefix_self p : strip_prefix p p = Some [].
Proof. rewrite <-(app_nil_r p) at 2. apply strip_prefix_app. Qed.

(** One step of the alignment, before more records. *)
Lemma align_more first seg r r2 rs :
  align_submitted_prompt_from first seg (r :: r2 :: rs) =
  let! body := strip_header (sender r) seg else None in
  let body := if first then trim_start body else body in
  let expected := if first then trim_start (msg_text r) else msg_text r in
  if is_empty expected then None
  else
    let! after_text := strip_prefix expected body else None in
    let! after_join := strip_prefix [10%N; 10%N] after_text else None in
    let! (segments, trailing) := align_submitted_prompt_from false after_join (r2 :: rs) else None in
    Some (trim (take (length seg - length after_text) seg) :: segments, trailing).
Proof. by destruct first. Qed.

(** The records behind the first. *)
Lemma align_rest e es :
  Forall entry_ok (e :: es) ->
  align_submitted_prompt_from false (trim_end (paste_payload (e :: es))) (map entry_record (e :: es))
  = Some (map (fun e => trim (rendered e)) (e :: es), []).
Proof.
  revert e. induction es as [|e2 es IH]; intros e Hall; apply Forall_cons in Hall as [He Hes].
  - cbn [map align_submitted_prompt_from is_empty]. unfold paste_payload. cbn [map join].
    destruct He as [Hne Hok]. unfold rendered at 1. rewrite trim_end_app by done.
    rewrite strip_header_rendered by done. cbn match.
    destruct (trim_nonblank _ Hne) as [_ Hte].
    destruct (trim_end (msg_text (entry_record e))) as [|c t] eqn:Et; [done|]. cbn [is_empty].
    rewrite strip_prefix_self. cbn match.
    cbn [length]. rewrite Nat.sub_0_r, firstn_all.
    assert (Hr : trim (rendered e) <> []).
    { rewrite <-(app_nil_r (rendered e)). by apply (rendered_nonblank e [] []). }
    by destruct (trim_of_trimmed _ Hr) as [-> _].
  - rewrite paste_cons, (app_assoc (rendered e)).
    rewrite trim_end_app by (apply Forall_cons in Hes as [? _]; by apply joined_nonblank).
    rewrite <-app_assoc. cbn [map]. rewrite align_more.
    unfold rendered at 1. rewrite <-app_assoc. rewrite strip_header_rendered by done. cbn match.
    destruct He as [Hne Hok].
    destruct (msg_text (entry_record e)) as [|c t] eqn:Et; [done|]. cbn [is_empty].
    rewrite strip_prefix_app. cbn match. rewrite strip_prefix_app. cbn match.
    specialize (IH e2 Hes). cbn [map] in IH. rewrite IH.
    by rewrite take_len_sub.
Qed.

Lemma header_head s h l :
  s <> Sender.System -> exists t, message_header s h l = Some (84%N :: t).
Proof. intros Hs. destruct s; try done; by eexists. Qed.

(** The first record: [p] is what is left of its rendering before the text. *)
Lemma align_first e es :
  Forall entry_ok (e :: es) ->
  align_submitted_prompt_from true (trim (paste_payload (e :: es))) (map entry_record (e :: es))
  = Some (map (fun e => trim (rendered e)) (e :: es), []).
Proof.
  intros Hall. apply Forall_cons in Hall as [He Hes].
  pose proof (joined_nonblank e es He) as Hnb. destruct He as [Hne Hok].
  assert (Hr : trim (rendered e) <> []).
  { rewrite <-(app_nil_r (rendered e)). by apply (rendered_nonblank e [] []). }
  destruct (trim_nonblank _ Hne) as [Hts Hte].
  set (hdr := unwrap_or (message_header (sender (entry_record e)) e.1.2 e.2) []).
  (* the trimmed paste: the header, and the trimmed text before the rest *)
  assert (Hhead : forall y, trim_start (rendered e ++ y)
            = hdr ++ (if is_empty hdr then trim_start (msg_text (entry_record e))
                      else msg_text (entry_record e)) ++ y
            /\ trim_start (if is_empty hdr then trim_start (msg_text (entry_record e))
                      else msg_text (entry_record e)) = trim_start (msg_text (entry_record e))).
  { intros y. unfold rendered. fold hdr.
    destruct (decide (sender (entry_record e) = Sender.System)) as [Hs|Hs].
    - unfold hdr. rewrite Hs. cbn [message_header unwrap_or is_empty app].
      split; [by apply trim_start_app|by apply trim_idem_start].
    - destruct (header_head _ e.1.2 e.2 Hs) as [t Ht]. unfold hdr. rewrite Ht.
      cbn [unwrap_or is_empty app]. split; [|done]. rewrite trim_start_head by done.
      by rewrite <-app_assoc. }
  set (txt := if is_empty hdr then trim_start (msg_text (entry_record e)) else msg_text (entry_record e)) in *.
  assert (Htxt : trim txt = trim (msg_text (entry_record e))).
  { unfold txt. destruct (is_empty hdr); [|done]. by apply trim_of_trimmed. }
  assert (Hseg : trim (hdr ++ txt) = trim (rendered e)).
  { destruct (Hhead []) as [Hh _]. rewrite !app_nil_r in Hh. rewrite <-Hh. by apply trim_of_trimmed. }
  destruct es as [|e2 es].
  - cbn [map align_submitted_prompt_from is_empty].
    unfold paste_payload. cbn [map join]. unfold trim at 1.
    destruct (Hhead []) as [Hh Htt]. rewrite !app_nil_r in Hh. rewrite Hh.
    assert (Htn : trim txt <> []) by by rewrite Htxt.
    rewrite trim_end_app by done. rewrite strip_header_rendered by done. cbn match.
    rewrite trim_end_then_start, Htxt.
    destruct (trim (msg_text (entry_record e))) as [|c t] eqn:Et; [done|]. cbn [is_empty].
    rewrite strip_prefix_self. cbn match.
    cbn [length]. rewrite Nat.sub_0_r, firstn_all. do 3 f_equal.
    destruct (trim_of_trimmed _ Hr) as [_ Hr2]. unfold trim at 2.
    destruct (trim_of_trimmed (trim_start (rendered e))) as [-> _]; by rewrite Hr2.
  - rewrite paste_cons. unfold trim at 1.
    destruct (Hhead ([10%N; 10%N] ++ paste_payload (e2 :: es))) as [-> Htt].
    rewrite !app_assoc. rewrite trim_end_app by (apply Forall_cons in Hes as [? _]; by apply joined_nonblank).
    rewrite <-!app_assoc. cbn [map]. rewrite align_more.
    rewrite strip_header_rendered by done. cbn match.
    rewrite trim_start_app by (by rewrite Htxt). rewrite Htt.
    destruct (trim_start (msg_text (entry_record e))) as [|c t] eqn:Et; [done|]. cbn [is_empty].
    rewrite strip_prefix_app. cbn match. rewrite strip_prefix_app. cbn match.
    pose proof (align_rest e2 es Hes) as IH. cbn [map] in IH. rewrite IH.
    rewrite (app_assoc hdr), take_len_sub. by rewrite Hseg.
Qed.

Definition anchor_of (s : MessageSender) : option text :=
  match s with
  | Sender.Agent _ _ _ _ _ _ => Some agent_start
  | Sender.Subagent _ _ => Some subagent_start
  | Sender.Harness notice => Some (harness_header notice)
  | Sender.Human => Some human_header
  | Sender.System => None
  end.

Lemma match_indices_here c w y : exists r, match_indices (c :: w) ((c :: w) ++ y) = ([], y) :: r.
Proof.
  unfold match_indices. cbn [match_splits].
  pose proof (split_once_here (c :: w) c w [] y eq_refl) as H. cbn [app] in H |- *.
  rewrite H by apply not_elem_of_nil. by eexists.
Qed.

Lemma header_anchored s h l a : anchor_of s = Some a -> exists y, message_header s h l = Some (a ++ y).
Proof.
  destruct s; cbn [anchor_of message_header]; intros [= <-]; try (by eexists);
    exists []; by rewrite app_nil_r.
Qed.

Lemma paste_starts e es a :
  entry_ok e -> Forall entry_ok es -> anchor_of (sender (entry_record e)) = Some a ->
  exists y, trim (paste_payload (e :: es)) = a ++ y.
Proof.
  intros He Hes Ha. destruct (header_anchored _ e.1.2 e.2 a Ha) as [y Hy].
  assert (Hw : exists w, a = 84%N :: w).
  { destruct (sender (entry_record e)); inversion Ha; subst; by eexists. }
  destruct Hw as [w ->]. destruct He as [Hne Hok].
  assert (Hr : rendered e = (84%N :: w) ++ y ++ msg_text (entry_record e)).
  { unfold rendered. rewrite Hy. cbn [unwrap_or]. by rewrite <-app_assoc. }
  unfold trim. destruct es as [|e2 es].
  - unfold paste_payload. cbn [map join]. rewrite Hr. cbn [app]. rewrite trim_start_head by done.
    rewrite app_comm_cons, app_assoc, trim_end_app by done. rewrite <-app_assoc. by eexists.
  - apply Forall_cons in Hes as [He2 _]. rewrite paste_cons, Hr. cbn [app].
    rewrite trim_start_head by done.
    change (84%N :: ?u) with ([84%N] ++ u).
    rewrite !app_assoc, trim_end_app by (by apply joined_nonblank). rewrite <-!app_assoc. by eexists.
Qed.
End Align.

Lemma paste_aligns (e : batch_entry) (es : list batch_entry)
    (Hok : Forall entry_ok (e :: es)) :
  align_submitted_prompt (paste_payload (e :: es)) (map entry_record (e :: es))
  = Some (None, map (fun e => trim (rendered e)) (e :: es), None).
Proof.
  pose proof (align_first e es Hok) as Hal. apply Forall_cons in Hok as [He Hes].
  unfold align_submitted_prompt. cbn [map] in Hal |- *.
  assert (Hanchor : forall a, anchor_of (sender (entry_record e)) = Some a ->
            align_at a (match_indices a (trim (paste_payload (e :: es))))
              (entry_record e :: map entry_record es)
            = Some (None, trim (rendered e) :: map (fun e => trim (rendered e)) es, None)).
  { intros a Ha. destruct (paste_starts e es a He Hes Ha) as [y Hy]. rewrite Hy in Hal |- *.
    assert (Hne : exists c w, a = c :: w).
    { destruct (sender (entry_record e)); inversion Ha; subst; by eexists _, _. }
    destruct Hne as (c & w & ->). destruct (match_indices_here c w y) as [r ->]. cbn [align_at].
    by rewrite Hal. }
  destruct (sender (entry_record e)) eqn:Es; try (by apply Hanchor).
  by rewrite Hal.
Qed.

(** C19: the alignment of a submitted prompt inverts the paste: for every batch
    of records with non-blank texts and printable senders -- prompts of the
    operator, of agents, subagents and the harness, mixed in any order, and
    whatever header-like lines their texts hold -- aligning what the paste
    path typed against the delivered records gives back one segment per
    record, in order, with no leading and no trailing operator text. *)
Theorem aligned_paste_recovers_batch (e : batch_entry) (es : list batch_entry)
    (Hok : Forall entry_ok (e :: es)) :
  align_submitted_prompt (paste_payload (e :: es)) (map entry_record (e :: es))
  = Some (None, map (fun e => trim (rendered e)) (e :: es), None).
Proof. by apply paste_aligns. Qed.

Import Sample.
Lemma aligned_paste_recovers_batch_witness :
  let batch := [(msg id1 (str "Type: USER_MESSAGE"), [], None); (msg id2 (str "b"), [], None)] in
  Forall entry_ok batch
  /\ align_submitted_prompt (paste_payload batch) (map entry_record batch)
     = Some (None, map (fun e => trim (rendered e)) batch, None).
Proof.
  cbv zeta.
  assert (H : Forall entry_ok [(msg id1 (str "Type: USER_MESSAGE"), [], None); (msg id2 (str "b"), [], None)]).
  { repeat constructor; done. }
  split; [exact H|]. by apply (aligned_paste_recovers_batch _ _ H).
Defined.
