(* ===== verification/Card.v ===== *)
(** * The row of an agent ([agents/state.rs], [agents/observation.rs], [pane.rs])

    [Row] is the [AgentState] the event fold keeps: the record of [Agents.v]
    with the other fields the fold reads or writes (labels, launch settings,
    usage, worktree, clocks).  The fields only an enrichment fills after the
    fold (sign-in, hibernation, tool repeats, subagent cost) are left out: the
    fold leaves them at their seed.  The modules [Params], [Obs], [Launch] and
    [Attach] are the payloads the events carry; [Usage] is the token summary,
    [Label] the prompt labels, [Shells] the background shell reports and
    [Instance_] the identity of an agent process
    ([store/session_death.rs]). *)

From S2P Require Import Prelude Lifecycle.
From S2P Require Import Agents Message Prompt.
Import Agents.Placement Agents.Agent.

(** ** Prompt labels *)

Module Label.

Definition PROMPT_LABEL_MAX_CHARS : N := 160.

(** [char::is_control]: the Unicode class Cc. *)
Definition is_control (c : char) : bool := (c <? 32)%N || ((127 <=? c)%N && (c <=? 159)%N).

(** The loop of [single_line_prefix] over the rest of the text. *)
Fixpoint prefix_loop (max_chars : N) (value out : text) (chars : N) (pending_space : bool) : text :=
  match value with
  | [] => out
  | ch :: value' =>
      if is_whitespace ch then
        prefix_loop max_chars value' out chars (pending_space || negb (is_empty out))
      else if is_control ch then prefix_loop max_chars value' out chars pending_space
      else
        let width := if pending_space then 2%N else 1%N in
        if (max_chars <? chars + width)%N then out
        else
          prefix_loop max_chars value' (out ++ (if pending_space then [32%N] else []) ++ [ch])
            (chars + width) false
  end.
Definition single_line_prefix (value : text) (max_chars : N) : option text :=
  let out := prefix_loop max_chars value [] 0 false in
  if is_empty out then None else Some out.

Definition CONTROL_TAG_PREFIXES : list text :=
  [str "<task-notification>"; str "<system-reminder>"; str "<system_reminder>";
   str "<previous-attempt-failure>"; str "<command-message>"; str "<command-name>";
   str "<local-command-stdout>"; str "<skill name="].
Definition looks_like_control_text (value : text) : bool :=
  existsb (fun tag => starts_with tag (trim_start value)) CONTROL_TAG_PREFIXES.
Definition usable_description (value : text) : bool :=
  existsb (fun ch => negb (is_whitespace ch) && negb (is_control ch)) value
  && negb (looks_like_control_text value).

(** [non_empty_string] of [store/snapshot/project.rs]. *)
Definition non_empty_string (value : option text) : option text :=
  ofilter (option_map trim value) (fun value => negb (is_empty value)).

End Label.

(** ** Token usage *)

Module Usage.

Record AgentUsageSummary := {
  context_pct : option N;
  context_window : option N;
  context_capacity : option N;
  total_tokens : option N;
  run_total_tokens : option N;
  cache_read_input_tokens : option N;
  cache_write_input_tokens : option N;
  fresh_input_tokens : option N;
  output_tokens : option N
}.
Definition default : AgentUsageSummary :=
  {| context_pct := None; context_window := None; context_capacity := None; total_tokens := None;
     run_total_tokens := None; cache_read_input_tokens := None; cache_write_input_tokens := None;
     fresh_input_tokens := None; output_tokens := None |}.

(** The sum wraps at 64 bits, as a release build adds. *)
Definition input_context_tokens (self : AgentUsageSummary) : option N :=
  let! fresh := fresh_input_tokens self else None in
  let input :=
    wrapping_add_u64 (wrapping_add_u64 (unwrap_or (cache_read_input_tokens self) 0%N)
                                       (unwrap_or (cache_write_input_tokens self) 0%N)) fresh in
  if (0 <? input)%N || negb (is_some_and (total_tokens self) (fun total => (0 <? total)%N))
  then Some input else None.
Definition context_used_tokens (self : AgentUsageSummary) : option N :=
  or_else (input_context_tokens self) (total_tokens self).

Definition resolved_context_window (self : AgentUsageSummary) (default_window : option N) : option N :=
  or_else (context_window self) default_window.
Definition resolved_context_pct (self : AgentUsageSummary) (default_window : option N) : option N :=
  match context_pct self with
  | Some pct => Some pct
  | None =>
      let! used := context_used_tokens self else None in
      let! window := resolved_context_window self default_window else None in
      if (0 <? window)%N then Some (N.min (N.min (used * 100) U64_MAX / window) 100)%N else None
  end.

Definition merge (self : AgentUsageSummary) (prior : option AgentUsageSummary)
    (default_window : option N) : AgentUsageSummary :=
  let prior := unwrap_or prior default in
  let merged pct :=
    {| context_pct := pct;
       context_window := or_else (context_window self) (context_window prior);
       context_capacity :=
         if is_some (context_window self) then context_capacity self else context_capacity prior;
       total_tokens := or_else (total_tokens self) (total_tokens prior);
       run_total_tokens := or_else (run_total_tokens self) (run_total_tokens prior);
       cache_read_input_tokens :=
         or_else (cache_read_input_tokens self) (cache_read_input_tokens prior);
       cache_write_input_tokens :=
         or_else (cache_write_input_tokens self) (cache_write_input_tokens prior);
       fresh_input_tokens := or_else (fresh_input_tokens self) (fresh_input_tokens prior);
       output_tokens := or_else (output_tokens self) (output_tokens prior) |} in
  merged (or_else (or_else (context_pct self) (resolved_context_pct (merged None) default_window))
                  (context_pct prior)).

(** [clear_current_window] of [store/snapshot/project.rs]. *)
Definition clear_current_window (usage : AgentUsageSummary) : AgentUsageSummary :=
  {| context_pct := None; context_window := context_window usage;
     context_capacity := context_capacity usage; total_tokens := None;
     run_total_tokens := run_total_tokens usage; cache_read_input_tokens := None;
     cache_write_input_tokens := None; fresh_input_tokens := None; output_tokens := None |}.

End Usage.

(** ** Background shells *)

Module Shells.

Inductive BackgroundShellReport :=
| Started (shell : BackgroundShell)
| Snapshot (shells : list BackgroundShell)
| Finished (ids : list text).

Definition apply (self : BackgroundShellReport) (shells : list BackgroundShell)
  : list BackgroundShell :=
  match self with
  | Started shell =>
      if existsb (fun known => bool_decide (shell_id known = shell_id shell)) shells then shells
      else shells ++ [shell]
  | Snapshot reported =>
      map (fun shell =>
        {| shell_id := shell_id shell; shell_command := shell_command shell;
           shell_description := shell_description shell;
           shell_started_at :=
             match List.find (fun known => bool_decide (shell_id known = shell_id shell)) shells with
             | Some known => shell_started_at known
             | None => shell_started_at shell
             end |}) reported
  | Finished ids => List.filter (fun known => negb (bool_decide (shell_id known ∈ ids))) shells
  end.

End Shells.

(** ** Pane and process identity ([store/session_death.rs]) *)

Module Instance_.

Definition compatible_tokens {T} `{EqDecision T} (older newer : option T) : bool :=
  match older, newer with
  | Some older, Some newer => bool_decide (older = newer)
  | _, _ => true
  end.

Definition same_instance_placement (older newer : option PaneRef * option RuntimeOwner) : bool :=
  match older.1, newer.1 with
  | Some older_pane, Some newer_pane =>
      bool_decide (pane_id older_pane = pane_id newer_pane)
      && compatible_tokens (pane_process_start older_pane) (pane_process_start newer_pane)
  | _, _ => false
  end
  && match older.2, newer.2 with
     | Some older_owner, Some newer_owner =>
         bool_decide (runtime_kind older_owner = OwnerAgent)
         && bool_decide (runtime_kind newer_owner = OwnerAgent)
         && bool_decide (runtime_pid older_owner = runtime_pid newer_owner)
         && compatible_tokens (process_start older_owner) (process_start newer_owner)
     | _, _ => false
     end.

Definition reaped_end_rests_at_idle (event_name : option text) (prior_status : option AgentStatus)
  : bool :=
  is_some_and event_name (fun event_name =>
    bool_decide (event_name ∈ [str "ReapedSuperseded"; str "ReapedDead"; str "ReapedStale";
                               str "WorktreeRemoved"]))
  && match prior_status with Some Running | Some Waiting => true | _ => false end.

End Instance_.

(** ** Launch settings *)

Inductive SessionOrigin := Fresh | Forked | SideConversation.
#[export] Instance SessionOrigin_eq_dec : EqDecision SessionOrigin.
Proof. solve_decision. Defined.

Inductive Isolation := Host | Scoped | Sandbox.
Inductive ProfileScope := ScopeAgents | ScopeSubagents.

Record LaunchRecord := {
  record_model : option text;
  record_effort : option text;
  record_agent : option text;
  record_fast : bool;
  auto_compact : option N;
  notes : option text;
  loop_section : option text
}.

Inductive ModelTier := Intern | Junior | Senior | Principal.
(** The fold copies the stamp whole; the passed models ([skipped],
    [unbuildable]) travel with it. *)
Record TierStamp := { tier_ : ModelTier; tier_model : text; used_tier : option ModelTier }.

Inductive WorkflowAttemptRole := RoleStep | RoleJudge.
#[export] Instance WorkflowAttemptRole_eq_dec : EqDecision WorkflowAttemptRole.
Proof. solve_decision. Defined.
Record WorkflowAttemptRef := { attempt_run : text; attempt_seq : N; attempt_role : WorkflowAttemptRole }.
#[export] Instance WorkflowAttemptRef_eq_dec : EqDecision WorkflowAttemptRef.
Proof. solve_decision. Defined.

Module Params.
Record LaunchParams := {
  automation : option Automation;
  workflow : option WorkflowAttemptRef;
  checkout : option text;
  add_dirs : list text;
  untrusted_checkout : bool;
  molted_from : option text;
  record : option LaunchRecord;
  tier : option TierStamp;
  parent_agent_id : option text;
  parent_agent_kind : option text;
  launch_depth : option N;
  launched_by : option (text * text);
  profile : option text;
  profile_scope : option ProfileScope;
  login : option text;
  mode : option PermissionMode;
  isolation : option Isolation;
  role : option text;
  model : option text;
  effort : option text;
  fast : bool;
  budget : option text;
  team : option text;
  loop_task : option text;
  launch_group : option text;
  launch_ordinal : option N;
  channel : option text;
  kind_ordinal : option N
}.
Definition default : LaunchParams :=
  {| automation := None; workflow := None; checkout := None; add_dirs := [];
     untrusted_checkout := false; molted_from := None; record := None; tier := None;
     parent_agent_id := None; parent_agent_kind := None; launch_depth := None;
     launched_by := None; profile := None; profile_scope := None; login := None; mode := None;
     isolation := None; role := None; model := None; effort := None; fast := false;
     budget := None; team := None; loop_task := None; launch_group := None;
     launch_ordinal := None; channel := None; kind_ordinal := None |}.
End Params.

(** ** What the events carry *)

Record QueuedAsk := { queued_id : text; queued_detail : text; queued_key : text; queued_since : Z }.
Record QueuedQuestion := { question_id : option text; question_key : text; question_detail : text }.
Record AskQueueEdit := { clear_all : bool; queued : list QueuedQuestion; answered : list text }.

Module Obs.
Record AgentLifecycleObservation := {
  on_screen : option bool;
  state_snapshot : option bool;
  agent_id : option text;
  agent_name : option text;
  launch : Params.LaunchParams;
  signal : LifecycleSignal;
  ask_queue : option AskQueueEdit;
  agent_pid : option N;
  account_key : option text;
  agent_process_start : option text;
  runtime_owner : option RuntimeOwner;
  worktree_path : option text;
  worktree_branch : option text;
  task : option text;
  prompt : option text;
  description : option text;
  transcript_path : option text;
  origin : option SessionOrigin;
  compacted_from : option text;
  usage : Usage.AgentUsageSummary;
  pane_id : option text;
  pane_stamp : option PaneRef;
  parent_agent_id : option text;
  background_shells : option Shells.BackgroundShellReport
}.

Definition new (agent_id : option text) (signal : LifecycleSignal) : AgentLifecycleObservation :=
  {| on_screen := None; state_snapshot := None; agent_id := agent_id; agent_name := None;
     launch := Params.default; signal := signal; ask_queue := None; agent_pid := None;
     account_key := None; agent_process_start := None; runtime_owner := None;
     worktree_path := None; worktree_branch := None; task := None; prompt := None;
     description := None; transcript_path := None; origin := None; compacted_from := None;
     usage := Usage.default; pane_id := None; pane_stamp := None; parent_agent_id := None;
     background_shells := None |}.
#[export] Instance Obs_eta : Eta AgentLifecycleObservation := fun o =>
  {| on_screen := on_screen o; state_snapshot := state_snapshot o; agent_id := agent_id o;
     agent_name := agent_name o; launch := launch o; signal := signal o;
     ask_queue := ask_queue o; agent_pid := agent_pid o; account_key := account_key o;
     agent_process_start := agent_process_start o; runtime_owner := runtime_owner o;
     worktree_path := worktree_path o; worktree_branch := worktree_branch o; task := task o;
     prompt := prompt o; description := description o; transcript_path := transcript_path o;
     origin := origin o; compacted_from := compacted_from o; usage := usage o;
     pane_id := pane_id o; pane_stamp := pane_stamp o; parent_agent_id := parent_agent_id o;
     background_shells := background_shells o |}.
End Obs.
#[export] Existing Instance Obs.Obs_eta.

Inductive AgentLaunchState := Starting | Bound | LaunchFailed.
#[export] Instance AgentLaunchState_eq_dec : EqDecision AgentLaunchState.
Proof. solve_decision. Defined.

Module Launch.
Record AgentLaunchPayload := {
  agent_id : text;
  launch_id : option text;
  system_prompt_digest : option text;
  agent_name : text;
  agent_name_explicit : bool;
  launch : Params.LaunchParams;
  state : AgentLaunchState;
  run_id : option text;
  pane_id : option text;
  runtime_owner : option RuntimeOwner;
  worktree_path : option text;
  worktree_branch : option text;
  prompt : option text;
  description : option text
}.
End Launch.

Module Attach.
Record AgentAttachPayload := {
  record : option LaunchRecord;
  tier : option TierStamp;
  mode : option PermissionMode;
  agent_id : text;
  isolation : option Isolation;
  effective_isolation : option Isolation;
  launch_id : option text;
  login : option text;
  pane_id : text;
  pane_pid : option N;
  runtime_owner : RuntimeOwner
}.
End Attach.

(** [MessageEventPayload], the fields the fold reads. *)
Module Msg.
Record MessageEventPayload := {
  message_id : text;
  kind : text;
  agent_id : text;
  agent_name : option text;
  gate : DeliveryGate;
  status : MessageStatus;
  body : MessageBody;
  enqueued_at : option Z;
  compacted_context_tokens : option N;
  soft_compact : option SoftCompactStep
}.
End Msg.

(** [EventKind].  [Other] stands for the signals, the death markers and the
    methods the fold does not know. *)
Inductive EventKind :=
| AgentLifecycle (event_name : option text) (observation : Obs.AgentLifecycleObservation)
| AgentAttach (payload : Attach.AgentAttachPayload)
| AgentLaunchWarnings (agent_id : text) (warnings : list text)
| AgentWorkflowCleared (agent_id : text) (workflow : WorkflowAttemptRef)
| AgentLaunch (payload : Launch.AgentLaunchPayload)
| MessageEvent (payload : Msg.MessageEventPayload)
| SessionRebirth
| Other.
(** A decoded event: the [source], [timestamp] and [kind] of its envelope. *)
Record FoldEvent := { source : text; timestamp : Z; event_kind : EventKind }.

(** ** The row *)

Inductive SoftCompactProgress := WrappingUp | SoftTurnEnded | Continued.
#[export] Instance SoftCompactProgress_eq_dec : EqDecision SoftCompactProgress.
Proof. solve_decision. Defined.
Record SoftCompactMark := { steered_at : Z; compactions : option N; progress : SoftCompactProgress }.
#[export] Instance SoftCompactMark_eta : Eta SoftCompactMark := fun m =>
  {| steered_at := steered_at m; compactions := compactions m; progress := progress m |}.

(** [core] has the fields of [AgentState] the rest of the program decides by. *)
Record Row := {
  core :> AgentState;
  system_prompt_digest : option text;
  launch_warnings : list text;
  name_explicit : bool;
  kind_ordinal : option N;
  profile_scope : option ProfileScope;
  login : option text;
  tier : option TierStamp;
  record : option LaunchRecord;
  isolation : option Isolation;
  effective_isolation : option Isolation;
  loop_task : option text;
  workflow : option WorkflowAttemptRef;
  automation : option Automation;
  launch_group : option text;
  launch_ordinal : option N;
  finished_at : option Z;
  pane : option PaneRef;
  runtime_owner : option RuntimeOwner;
  add_dirs : list text;
  untrusted_checkout : bool;
  worktree_branch : option text;
  worktree_branches : gset text;
  task : option text;
  first_prompt : option text;
  prompt : option text;
  prompt_wake_only : bool;
  description : option text;
  transcript_path : option text;
  origin : option SessionOrigin;
  account_key : option text;
  compacted_from : option text;
  model : option text;
  effort : option text;
  budget : option text;
  usage : Usage.AgentUsageSummary;
  last_tool_at : option Z;
  user_turn_started_at : option Z;
  last_prompt_at : option Z;
  keepalive_since : option Z;
  pinged_at : option Z;
  queued_asks : list QueuedAsk;
  compaction_count : N;
  soft_compact : option SoftCompactMark;
  tool_calls : gmap text N;
  last_compact_command_tokens : option N;
  retired_context_tokens : option N;
  compaction_retired : bool;
  compacted_unmeasured : bool;
  last_seen : Z
}.
#[export] Instance Row_eta : Eta Row := fun r =>
  {| core := core r; system_prompt_digest := system_prompt_digest r;
     launch_warnings := launch_warnings r; name_explicit := name_explicit r;
     kind_ordinal := kind_ordinal r; profile_scope := profile_scope r; login := login r;
     tier := tier r; record := record r; isolation := isolation r;
     effective_isolation := effective_isolation r; loop_task := loop_task r;
     workflow := workflow r; automation := automation r; launch_group := launch_group r;
     launch_ordinal := launch_ordinal r; finished_at := finished_at r; pane := pane r;
     runtime_owner := runtime_owner r; add_dirs := add_dirs r;
     untrusted_checkout := untrusted_checkout r; worktree_branch := worktree_branch r;
     worktree_branches := worktree_branches r; task := task r; first_prompt := first_prompt r;
     prompt := prompt r; prompt_wake_only := prompt_wake_only r; description := description r;
     transcript_path := transcript_path r; origin := origin r; account_key := account_key r;
     compacted_from := compacted_from r; model := model r; effort := effort r;
     budget := budget r; usage := usage r; last_tool_at := last_tool_at r;
     user_turn_started_at := user_turn_started_at r; last_prompt_at := last_prompt_at r;
     keepalive_since := keepalive_since r; pinged_at := pinged_at r;
     queued_asks := queued_asks r; compaction_count := compaction_count r;
     soft_compact := soft_compact r; tool_calls := tool_calls r;
     last_compact_command_tokens := last_compact_command_tokens r;
     retired_context_tokens := retired_context_tokens r;
     compaction_retired := compaction_retired r;
     compacted_unmeasured := compacted_unmeasured r; last_seen := last_seen r |}.

(** [AgentState::seed]. *)
Definition seed (kind id : text) (status : AgentStatus) (at' : Z) : Row :=
  {| core :=
       {| molted_from := None; agent_id := id; launch_id := None; prior_launch_ids := [];
          agent_kind := kind; name := None; mode := None; role := None; team := None;
          channel_stamp := None; root_lane := false; ended_at := None; resumed_at := None;
          agent_status := status;
          agent_phase := match status with Running => Phase.Reasoning | _ => Phase.Idle end;
          parent_agent_id := None; parent_agent_kind := None; launch_depth := None;
          launched_by := None; worktree_path := None; checkout := None; profile := None;
          context := None; budget_park := false; pending_waits := []; background_shells := [];
          turn_started_at := None; turn_ended_at := None; ping_turn := false;
          waiting_since := None; open_ask := None; started_turn_id := None;
          superseded_turn_id := None; closed_turn_id := None; compacting_since := None;
          compacted_awaiting_prompt := None; last_activity := at'; registered_at := Some at';
          on_screen_at := None |};
     system_prompt_digest := None; launch_warnings := []; name_explicit := false;
     kind_ordinal := None; profile_scope := None; login := None; tier := None; record := None;
     isolation := None; effective_isolation := None; loop_task := None; workflow := None;
     automation := None; launch_group := None; launch_ordinal := None; finished_at := None;
     pane := None; runtime_owner := None; add_dirs := []; untrusted_checkout := false;
     worktree_branch := None; worktree_branches := ∅; task := None; first_prompt := None;
     prompt := None; prompt_wake_only := false; description := None; transcript_path := None;
     origin := None; account_key := None; compacted_from := None; model := None; effort := None;
     budget := None; usage := Usage.default; last_tool_at := None; user_turn_started_at := None;
     last_prompt_at := None; keepalive_since := None; pinged_at := None; queued_asks := [];
     compaction_count := 0; soft_compact := None; tool_calls := ∅;
     last_compact_command_tokens := None; retired_context_tokens := None;
     compaction_retired := false; compacted_unmeasured := false; last_seen := at' |}.

Definition observe_prompt (self : Row) (prompt_ : text) (wake_only : bool) : Row :=
  let label := Label.single_line_prefix prompt_ Label.PROMPT_LABEL_MAX_CHARS in
  let self :=
    if is_none (first_prompt self) && Label.usable_description prompt_
    then self <| first_prompt := label |> else self in
  self <| prompt := label |> <| prompt_wake_only := wake_only |>.

Definition normalize_prompt_labels (self : Row) : Row :=
  let normal (label : option text) :=
    let! t := label else None in Label.single_line_prefix t Label.PROMPT_LABEL_MAX_CHARS in
  self <| first_prompt := normal (first_prompt self) |> <| prompt := normal (prompt self) |>.

Definition trim_ended_text (self : Row) : Row :=
  if is_none (ended_at self) then self
  else
    self <| pane := option_map (fun p => p <| spawn_command := None |>
                                           <| foreground_cmdline := None |>) (pane self) |>.

(** [Option::max]: [None] is the least. *)
Definition last_request_at (self : Row) : option Z :=
  let real :=
    let! end_ := turn_ended_at self else None in
    option_map (fun request => Z.min request end_)
      (omax (turn_started_at self) (last_tool_at self)) in
  omax real (pinged_at self).

Definition same_agent_instance (older newer : Row) : bool :=
  Instance_.same_instance_placement (pane older, runtime_owner older)
                                    (pane newer, runtime_owner newer).

(** [set_launch_id] of [Agents.v], on the row. *)
Definition rebind (self : Row) (id : text) : Row := self <| core := set_launch_id self id |>.

(** What a hook keeps of an observation that establishes no identity
    ([observation_for_event] of [store/event.rs]). *)
Definition observation_for_event (obs : Obs.AgentLifecycleObservation)
  : Obs.AgentLifecycleObservation :=
  if establishes_identity (Obs.signal obs) || is_some (Obs.parent_agent_id obs) then obs
  else
    let l := Obs.launch obs in
    obs
    <| Obs.transcript_path :=
         match Obs.signal obs with TurnEnded _ _ _ => Obs.transcript_path obs | _ => None end |>
    <| Obs.account_key := None |>
    <| Obs.launch :=
         {| Params.automation := None; Params.workflow := None; Params.checkout := None;
            Params.add_dirs := []; Params.untrusted_checkout := false;
            Params.molted_from := Params.molted_from l; Params.record := None;
            Params.tier := None; Params.parent_agent_id := Params.parent_agent_id l;
            Params.parent_agent_kind := Params.parent_agent_kind l;
            Params.launch_depth := Params.launch_depth l;
            Params.launched_by := Params.launched_by l; Params.profile := None;
            Params.profile_scope := Params.profile_scope l; Params.login := None;
            Params.mode := Params.mode l; Params.isolation := Params.isolation l;
            Params.role := None; Params.model := Params.model l;
            Params.effort := Params.effort l; Params.fast := Params.fast l;
            Params.budget := Params.budget l; Params.team := None; Params.loop_task := None;
            Params.launch_group := Params.launch_group l;
            Params.launch_ordinal := Params.launch_ordinal l; Params.channel := None;
            Params.kind_ordinal := Params.kind_ordinal l |} |>.
