(* ===== verification/CardIdentity.v ===== *)
(** * Names and ordinals of agent cards

    [PetNames] is the name generator of [agents/petname.rs]; the module
    [Identity] is [store/snapshot/project/identity.rs]: which name and which
    ordinal of its kind a card gets when an event is folded, and what of that
    survives a persisted fold ([AgentIdentityState]).

    Rust's [BTreeMap] is a finite map; where its order shows, [ordered] lists
    it by key.  The digest of a seed (SHA-256, [hash_u64]) and the registered
    agent kinds (built-in and plugin) are parameters. *)

From S2P Require Import Prelude Lifecycle.
From S2P Require Import Agents Message Prompt Card.
Import Agents.Placement Agents.Agent.

(** ** Keys and their order *)

Abbreviation AgentKey := (text * text)%type.

Definition key_leb (a b : AgentKey) : bool :=
  text_ltb a.1 b.1 || (bool_decide (a.1 = b.1) && text_leb a.2 b.2).

(** A [BTreeMap] in its order. *)
Definition ordered {A} (m : gmap AgentKey A) : list (AgentKey * A) :=
  sort_by fst key_leb (map_to_list m).
Definition rows_of {A} (m : gmap AgentKey A) : list A := (ordered m).*2.

Definition row_key (r : Row) : AgentKey := (agent_kind r, agent_id r).

(** ** The name generator *)

Module PetNames.

Definition ADJECTIVES : list text :=
  map str
   ["able"; "acute"; "amber"; "ample"; "apt"; "bold"; "brave"; "bright"; "candid"; "chief";
    "civil"; "clever"; "cool"; "crisp"; "direct"; "eager"; "early"; "easy"; "exact"; "fair";
    "firm"; "fit"; "glad"; "gold"; "grand"; "green"; "handy"; "happy"; "hardy"; "honest"; "ideal";
    "jolly"; "kind"; "level"; "light"; "lucid"; "major"; "merry"; "mint"; "modern"; "neat";
    "noble"; "novel"; "open"; "patient"; "plain"; "prime"; "prompt"; "proper"; "proud"; "quick";
    "real"; "right"; "robust"; "round"; "simple"; "smart"; "solid"; "sound"; "spry"; "stable";
    "still"; "stout"; "tidy"; "true"; "trusty"; "useful"; "valid"; "vast"; "warm"; "whole"; "wise";
    "witty"; "young"; "zesty"; "active"; "choice"; "dapper"; "deft"; "even"; "expert"; "polite";
    "sure"; "upbeat"]%string.

Definition NOUNS : list text :=
  map str
   ["arc"; "atlas"; "badge"; "beam"; "beacon"; "binder"; "block"; "brook"; "cable"; "camp";
    "canyon"; "cargo"; "cipher"; "cliff"; "cloud"; "cobalt"; "comet"; "compass"; "copper"; "coral";
    "dock"; "drift"; "echo"; "fig"; "flare"; "forge"; "frame"; "frost"; "garden"; "gate"; "glyph";
    "grain"; "grove"; "haven"; "hazel"; "hinge"; "index"; "iris"; "isle"; "jolt"; "kernel";
    "keystone"; "lagoon"; "lane"; "store"; "lens"; "linen"; "lumen"; "maple"; "marker"; "mesa";
    "meter"; "mint"; "mirror"; "module"; "needle"; "notch"; "nova"; "oak"; "parcel"; "path";
    "pillar"; "pixel"; "plaza"; "portal"; "ridge"; "river"; "rivet"; "route"; "saddle"; "signal";
    "silver"; "slate"; "spark"; "spire"; "spring"; "square"; "stone"; "strand"; "summit";
    "thicket"; "thread"; "tower"; "trace"; "valley"; "vector"; "vista"; "wicket"; "yard"]%string.

Definition RESERVED_AGENT_WORDS : list text :=
  map str ["compact"; "exec"; "focus"; "fork"; "list"; "ls"; "molt"; "profiles"; "show"; "stop";
           "term"; "wait"]%string.
Definition HEADER_PSEUDO_HANDLES : list text := [str "user"; str "rimz"].
Definition UNSUFFIXED_ATTEMPTS : N := 64.

Definition basic_valid_name (name : text) : bool :=
  negb (is_empty (trim name))
  && bool_decide (name = trim name)
  && forallb (fun ch => is_ascii_alphanumeric ch || (ch =? 45)%N) name
  && negb (bool_decide (name = str "all"))
  && negb (bool_decide (name = str "me"))
  && negb (bool_decide (name ∈ RESERVED_AGENT_WORDS)).

Section Minting.
(** The registered kinds, and the first eight bytes of the SHA-256 digest of a
    seed and an attempt. *)
Context (known_kinds : list text) (hash_u64 : text -> N -> N).

Definition valid_agent_name (name : text) : bool :=
  basic_valid_name name
  && negb (starts_with (str "wait-") name)
  && negb (existsb (fun kind =>
       bool_decide (name = kind)
       || is_some_and (strip_prefix kind name) (fun tail => starts_with (str "-") tail))
       known_kinds).

Definition candidate (seed : text) (attempt : N) : text :=
  let value := hash_u64 seed attempt in
  let adjective := nth (N.to_nat (value mod N.of_nat (length ADJECTIVES))) ADJECTIVES [] in
  let noun := nth (N.to_nat (N.shiftr value 16 mod N.of_nat (length NOUNS))) NOUNS [] in
  if (attempt <? UNSUFFIXED_ATTEMPTS)%N then adjective ++ str "-" ++ noun
  else adjective ++ str "-" ++ noun ++ str "-" ++ show_N attempt.

(** The loop over the attempts. *)
Fixpoint mint_loop (fuel : nat) (seed : text) (taken : text -> bool) (attempt : N) : option text :=
  match fuel with
  | O => None
  | S fuel' =>
      let name := candidate seed attempt in
      if valid_agent_name name && negb (bool_decide (name ∈ HEADER_PSEUDO_HANDLES))
         && negb (taken name)
      then Some name else mint_loop fuel' seed taken (attempt + 1)
  end.

(** [names] bounds how many names [taken] can hold: past the unsuffixed
    attempts every attempt is another name. *)
Definition mint_from_seed (seed : text) (names : nat) (taken : text -> bool) : text :=
  unwrap_or (mint_loop (N.to_nat UNSUFFIXED_ATTEMPTS + S names) seed taken 0) [].
Definition mint_for_session := mint_from_seed.
End Minting.

End PetNames.

(** ** The allocator *)

Module Identity.
Import PetNames.

Record AgentIdentityState := {
  s_names : gmap text AgentKey;
  s_next_ordinal : gmap text N;
  s_consumed_launches : gset text;
  s_side_sessions : gset text
}.
Definition no_identity : AgentIdentityState :=
  {| s_names := ∅; s_next_ordinal := ∅; s_consumed_launches := ∅; s_side_sessions := ∅ |}.

Record CardIdentity := { card_name : text; card_name_explicit : bool; card_kind_ordinal : N }.

Record CardIdentityAllocator := {
  names : gmap text AgentKey;
  ordinals : gmap (text * N) text;
  next_ordinal : gmap text N;
  consumed_launches : gset text;
  side_sessions : gset text
}.
#[export] Instance CardIdentityAllocator_eta : Eta CardIdentityAllocator := fun a =>
  {| names := names a; ordinals := ordinals a; next_ordinal := next_ordinal a;
     consumed_launches := consumed_launches a; side_sessions := side_sessions a |}.

(** [entry(kind).and_modify(max).or_insert]: the next ordinal is past
    [ordinal]. *)
Definition raise_next (kind : text) (ordinal : N) (next : gmap text N) : gmap text N :=
  let past := saturating_add_u32 ordinal 1 in
  <[kind := match next !! kind with Some n => N.max n past | None => past end]> next.

Definition with_agent_ordinals (self : AgentIdentityState) (agents : list Row)
  : AgentIdentityState :=
  {| s_names := s_names self;
     s_next_ordinal :=
       foldl (fun next agent =>
         match kind_ordinal agent with
         | Some ordinal => raise_next (agent_kind agent) ordinal next
         | None => next
         end) (s_next_ordinal self) agents;
     s_consumed_launches := s_consumed_launches self;
     s_side_sessions := s_side_sessions self |}.
Definition without_consumed_launches (self : AgentIdentityState) : AgentIdentityState :=
  {| s_names := s_names self; s_next_ordinal := s_next_ordinal self;
     s_consumed_launches := ∅; s_side_sessions := s_side_sessions self |}.

Section Kinds.
Context (known_kinds : list text) (hash_u64 : text -> N -> N).

(** The first usable name of a row. *)
Definition row_name (r : Row) : option text := ofilter (name r) (valid_agent_name known_kinds).

(** One row of the map entering the allocator. *)
Definition enter (a : CardIdentityAllocator) (entry : AgentKey * Row) : CardIdentityAllocator :=
  let '(key, state) := entry in
  let a :=
    match row_name state with
    | Some name =>
        if negb (is_provider_subagent state) && is_none (names a !! name)
        then a <| names := <[name := key]> (names a) |> else a
    | None => a
    end in
  match kind_ordinal state with
  | Some ordinal =>
      a <| ordinals := match ordinals a !! (key.1, ordinal) with
                       | Some _ => ordinals a
                       | None => <[(key.1, ordinal) := key.2]> (ordinals a)
                       end |>
        <| next_ordinal := raise_next key.1 ordinal (next_ordinal a) |>
  | None => a
  end.

Definition from_map_and_state (m : gmap AgentKey Row) (state : AgentIdentityState)
  : CardIdentityAllocator :=
  foldl enter
    {| names := filter (fun '(_, owner) =>
                  is_some_and (m !! owner) (fun r : Row => negb (is_provider_subagent r)) = true)
                  (s_names state);
       ordinals := ∅; next_ordinal := s_next_ordinal state;
       consumed_launches := s_consumed_launches state; side_sessions := s_side_sessions state |}
    (ordered m).

(** Every held ordinal raises the next one of its kind. *)
Definition state (a : CardIdentityAllocator) : AgentIdentityState :=
  {| s_names := names a;
     s_next_ordinal :=
       foldr (fun '((kind, ordinal), _) next => raise_next kind ordinal next)
             (next_ordinal a) (map_to_list (ordinals a));
     s_consumed_launches := ∅;
     s_side_sessions := side_sessions a |}.

Definition mark_side_session (a : CardIdentityAllocator) (agent_id : text) : CardIdentityAllocator :=
  a <| side_sessions := {[agent_id]} ∪ side_sessions a |>.
Definition is_side_session (a : CardIdentityAllocator) (agent_id : text) : bool :=
  bool_decide (agent_id ∈ side_sessions a).
Definition reset_ordinals (a : CardIdentityAllocator) : CardIdentityAllocator :=
  a <| ordinals := ∅ |> <| next_ordinal := ∅ |>.
Definition owner_for_name (a : CardIdentityAllocator) (name : text) : option AgentKey :=
  names a !! name.

Definition adoptable_owner_for_name (a : CardIdentityAllocator) (m : gmap AgentKey Row)
    (kind name : text) (new_key : AgentKey) : option AgentKey :=
  let! owner := names a !! name else None in
  if negb (bool_decide (owner.1 = kind)) || bool_decide (owner = new_key) then None
  else if is_provisional owner.2 then Some owner
  else
    let! prior := m !! owner else None in
    if is_none (kind_ordinal prior) || is_none (pane prior) then Some owner else None.

(** [(registered_at, kind_ordinal)] as a tuple of options compares. *)
Definition claim_ltb (a b : option Z * option N) : bool :=
  match option_cmp a.1 b.1 with
  | Lt => true
  | Eq => match option_cmp (option_map Z.of_N a.2) (option_map Z.of_N b.2) with
          | Lt => true | _ => false
          end
  | Gt => false
  end.

Definition adoptable_owner_for_pane (m : gmap AgentKey Row) (kind pane_id_ : text)
    (new_key : AgentKey) : option AgentKey :=
  option_map fst
    (max_by (fun entry : AgentKey * Row => (registered_at entry.2, kind_ordinal entry.2)) claim_ltb
       (List.filter (fun '(owner, state) =>
          negb (bool_decide (owner = new_key)) && bool_decide (owner.1 = kind)
          && is_provisional owner.2
          && is_some_and (pane state) (fun pane => bool_decide (pane_id pane = pane_id_)))
          (ordered m))).

Definition release_key (a : CardIdentityAllocator) (key : AgentKey) : CardIdentityAllocator :=
  a <| names := filter (fun '(_, owner) => owner <> key) (names a) |>
    <| ordinals := filter (fun '(_, owner) => owner <> key.2) (ordinals a) |>.

Definition consume_launch_key (a : CardIdentityAllocator) (key : AgentKey) : CardIdentityAllocator :=
  if is_provisional key.2
  then a <| consumed_launches := {[key.2]} ∪ consumed_launches a |> else a.
Definition launch_consumed (a : CardIdentityAllocator) (agent_id : text) : bool :=
  bool_decide (agent_id ∈ consumed_launches a).

(** *** Names *)

Definition name_available_for (a : CardIdentityAllocator) (name : text) (key : AgentKey) : bool :=
  is_none_or (names a !! name) (fun owner => bool_decide (owner = key)).

Definition assign_name_candidate (a : CardIdentityAllocator) (key : AgentKey)
    (candidate : option text) (prior : option Row) (fallback_id : text)
  : text * CardIdentityAllocator :=
  let take (name : text) := (name, a <| names := <[name := key]> (names a) |>) in
  match ofilter candidate (fun name => name_available_for a name key) with
  | Some name => take name
  | None =>
      match ofilter (match prior with Some prior => row_name prior | None => None end)
                    (fun name => name_available_for a name key) with
      | Some name => take name
      | None =>
          take (mint_for_session known_kinds hash_u64 fallback_id (size (names a))
                  (fun name => is_some_and (names a !! name) (fun owner =>
                                 negb (bool_decide (owner = key)))))
      end
  end.

Definition assign_child_name (a : CardIdentityAllocator) (candidate : option text)
    (prior : option Row) (fallback_id : text) : text :=
  match ofilter candidate (valid_agent_name known_kinds) with
  | Some name => name
  | None =>
      match (match prior with Some prior => row_name prior | None => None end) with
      | Some name => name
      | None => mint_for_session known_kinds hash_u64 fallback_id (size (names a))
                  (fun name => is_some (names a !! name))
      end
  end.

Definition assign_name (a : CardIdentityAllocator) (key : AgentKey)
    (observation : Obs.AgentLifecycleObservation) (prior : option Row)
  : text * CardIdentityAllocator :=
  let prior_name := match prior with Some prior => row_name prior | None => None end in
  let stamped := ofilter (Obs.agent_name observation) (valid_agent_name known_kinds) in
  let candidate :=
    if is_some_and prior (fun prior : Row => is_some (ended_at prior))
    then or_else prior_name stamped else or_else stamped prior_name in
  assign_name_candidate a key candidate prior key.2.

(** *** Ordinals *)

Definition ordinal_available_for (a : CardIdentityAllocator) (kind agent_id : text) (ordinal : N)
  : bool :=
  is_none_or (ordinals a !! (kind, ordinal)) (fun owner => bool_decide (owner = agent_id)).

Definition ordinal_candidate_allowed (a : CardIdentityAllocator) (kind agent_id : text)
    (ordinal : N) (prior : option Row) : bool :=
  if negb (ordinal_available_for a kind agent_id ordinal) then false
  else if bool_decide (match prior with Some prior => kind_ordinal prior | None => None end
                       = Some ordinal) then true
  else (unwrap_or (next_ordinal a !! kind) 1 <=? ordinal)%N.

(** [while !available(next) { next = next.saturating_add(1) }].  When every
    ordinal up to [u32::MAX] is taken the source does not leave the loop; the
    model then answers the last one. *)
Fixpoint next_free (fuel : nat) (a : CardIdentityAllocator) (kind agent_id : text) (next : N) : N :=
  match fuel with
  | O => next
  | S fuel' =>
      if ordinal_available_for a kind agent_id next then next
      else next_free fuel' a kind agent_id (saturating_add_u32 next 1)
  end.

Definition assign_ordinal_candidate (a : CardIdentityAllocator) (kind agent_id : text)
    (candidate : option N) (prior : option Row) : N * CardIdentityAllocator :=
  match ofilter candidate (fun ordinal => ordinal_candidate_allowed a kind agent_id ordinal prior) with
  | Some ordinal =>
      (ordinal,
       a <| ordinals := <[(kind, ordinal) := agent_id]> (ordinals a) |>
         <| next_ordinal := raise_next kind ordinal (next_ordinal a) |>)
  | None =>
      let next := N.max (unwrap_or (next_ordinal a !! kind) 1%N) 1 in
      let next := next_free (size (ordinals a)) a kind agent_id next in
      (next,
       a <| ordinals := <[(kind, next) := agent_id]> (ordinals a) |>
         <| next_ordinal := <[kind := saturating_add_u32 next 1]> (next_ordinal a) |>)
  end.

Definition assign_ordinal (a : CardIdentityAllocator) (kind agent_id : text)
    (observation : Obs.AgentLifecycleObservation) (prior : option Row)
  : N * CardIdentityAllocator :=
  let candidate := or_else (Params.kind_ordinal (Obs.launch observation))
                     (match prior with Some prior => kind_ordinal prior | None => None end) in
  assign_ordinal_candidate a kind agent_id candidate prior.

(** *** One event *)

Definition keeps_explicit_name (prior : option Row) (name_ : text) : bool :=
  is_some_and prior (fun prior : Row =>
    is_some_and (name prior) (fun prior_name =>
      name_explicit prior && bool_decide (name_ = prior_name))).

(** A child's name is free of the names of the others. *)
Definition assign_event_name (a : CardIdentityAllocator) (key : AgentKey)
    (observation : Obs.AgentLifecycleObservation) (prior : option Row)
  : text * CardIdentityAllocator :=
  if is_some (Obs.parent_agent_id observation)
     || is_some_and prior (fun prior : Row => is_provider_subagent prior)
  then
    let a := a <| names := filter (fun '(_, owner) => owner <> key) (names a) |> in
    (assign_child_name a (Obs.agent_name observation) prior key.2, a)
  else assign_name a key observation prior.

Definition assign (a : CardIdentityAllocator) (kind agent_id : text)
    (observation : Obs.AgentLifecycleObservation) (prior : option Row)
  : CardIdentity * CardIdentityAllocator :=
  let '(name, a) := assign_event_name a (kind, agent_id) observation prior in
  let explicit :=
    (is_some (Obs.parent_agent_id observation)
     && bool_decide (Obs.agent_name observation = Some name))
    || keeps_explicit_name prior name in
  let '(ordinal, a) := assign_ordinal a kind agent_id observation prior in
  ({| card_name := name; card_name_explicit := explicit; card_kind_ordinal := ordinal |}, a).

Definition assign_launch (a : CardIdentityAllocator) (kind agent_id : text)
    (payload : Launch.AgentLaunchPayload) (prior : option Row)
  : CardIdentity * CardIdentityAllocator :=
  let key := (kind, agent_id) in
  let '(name, a) :=
    assign_name_candidate a key (Some (Launch.agent_name payload)) prior agent_id in
  let explicit :=
    Launch.agent_name_explicit payload && bool_decide (name = Launch.agent_name payload) in
  let candidate := or_else (Params.kind_ordinal (Launch.launch payload))
                     (match prior with Some prior => kind_ordinal prior | None => None end) in
  let '(ordinal, a) := assign_ordinal_candidate a kind agent_id candidate prior in
  ({| card_name := name; card_name_explicit := explicit; card_kind_ordinal := ordinal |}, a).

Definition assign_existing (a : CardIdentityAllocator) (kind agent_id : text) (prior : option Row)
  : CardIdentity * CardIdentityAllocator :=
  let key := (kind, agent_id) in
  let '(name, a) :=
    if is_some_and prior (fun prior : Row => is_provider_subagent prior)
    then (assign_child_name a None prior agent_id, a)
    else assign_name_candidate a key None prior agent_id in
  let candidate := match prior with Some prior => kind_ordinal prior | None => None end in
  let '(ordinal, a) := assign_ordinal_candidate a kind agent_id candidate prior in
  ({| card_name := name; card_name_explicit := keeps_explicit_name prior name;
      card_kind_ordinal := ordinal |}, a).

(** *** Backfilling rows without an identity *)

Definition has_card_identity (agent : Row) : bool :=
  is_some_and (name agent) (valid_agent_name known_kinds) && is_some (kind_ordinal agent).

(** The loop over the rows in the order of their keys; [index_by_key] points at
    the row a key is looked up at. *)
Fixpoint backfill_loop (order : list (AgentKey * nat)) (agents : list Row)
    (index_by_key : gmap AgentKey nat) (a : CardIdentityAllocator)
  : list Row * CardIdentityAllocator :=
  match order with
  | [] => (agents, a)
  | (key, index) :: order' =>
      match agents !! index with
      | None => backfill_loop order' agents index_by_key a
      | Some agent =>
          if has_card_identity agent then backfill_loop order' agents index_by_key a
          else
            let prior := let! prior := index_by_key !! key else None in agents !! prior in
            let '(identity, a) := assign_existing a key.1 key.2 prior in
            let agent :=
              agent <| core := agent <| name := Some (card_name identity) |> |>
                    <| name_explicit := card_name_explicit identity |>
                    <| kind_ordinal := Some (card_kind_ordinal identity) |> in
            backfill_loop order' (<[index := agent]> agents) (<[key := index]> index_by_key) a
      end
  end.

Definition backfill_agent_identities (agents : list Row) (state_ : AgentIdentityState)
  : list Row * AgentIdentityState :=
  let entries := imap (fun index agent => (row_key agent, index)) agents in
  let index_by_key : gmap AgentKey nat := list_to_map (rev entries) in
  let a := from_map_and_state (list_to_map (rev (map (fun agent => (row_key agent, agent)) agents)))
             state_ in
  let order := sort_by fst key_leb entries in
  let '(agents, a) := backfill_loop order agents index_by_key a in
  (agents, state a).
End Kinds.

End Identity.
