(* ===== verification/CardIdentityFacts.v ===== *)
(** * Facts of the card identity allocator

    The order of keys and what [ordered] lists; what [from_map_and_state]
    reads off a map; the minted names; and the two ordinal and name rules an
    assignment follows when the allocator agrees with the map ([ordinals_hold],
    [names_hold]). *)

From S2P Require Import Prelude.
From S2P Require Units.
From S2P Require Import Agents Message Prompt Card CardIdentity.
From S2P Require Import Lifecycle.
Import Agents.Placement Agents.Agent CardIdentity.Identity CardIdentity.PetNames.

(** ** The order of keys *)

Lemma key_leb_refl a : key_leb a a = true.
Proof.
  unfold key_leb. rewrite bool_decide_true by done.
  by rewrite text_leb_ltb, !text_ltb_irrefl.
Qed.

Lemma key_leb_cases a b :
  key_leb a b = true <-> text_ltb a.1 b.1 = true \/ (a.1 = b.1 /\ text_leb a.2 b.2 = true).
Proof. unfold key_leb. rewrite orb_true_iff, andb_true_iff, bool_decide_eq_true. done. Qed.

#[export] Instance key_leb_trans : Transitive (fun a b => key_leb a b = true).
Proof.
  intros a b c. rewrite !key_leb_cases. intros [H1|[E1 H1]] [H2|[E2 H2]].
  - left. by eapply text_ltb_trans.
  - left. by rewrite <- E2.
  - left. by rewrite E1.
  - right. split; [congruence|]. by eapply text_leb_trans.
Qed.

#[export] Instance key_leb_total : Total (fun a b => key_leb a b = true).
Proof.
  intros a b. rewrite !key_leb_cases. destruct (decide (a.1 = b.1)) as [E|E].
  - destruct (text_leb_total a.2 b.2); [left|right]; right; by split.
  - destruct (text_ltb_total _ _ E); [left|right]; by left.
Qed.

Lemma key_leb_antisym a b : key_leb a b = true -> key_leb b a = true -> a = b.
Proof.
  rewrite !key_leb_cases. destruct a as [a1 a2], b as [b1 b2]; simpl.
  intros [H1|[-> H1]] [H2|[E2 H2]].
  - exfalso. pose proof (text_ltb_trans _ _ _ H1 H2) as H. by rewrite text_ltb_irrefl in H.
  - subst. by rewrite text_ltb_irrefl in H1.
  - by rewrite text_ltb_irrefl in H2.
  - f_equal. by apply text_leb_antisym.
Qed.

(** Two lists sorted by their distinct keys that hold the same elements are one. *)
Lemma sorted_unique {A} (key : A -> AgentKey) (l1 l2 : list A) :
  StronglySorted (fun x y => key_leb (key x) (key y) = true) l1 ->
  StronglySorted (fun x y => key_leb (key x) (key y) = true) l2 ->
  (forall x y, x ∈ l1 -> y ∈ l1 -> key x = key y -> x = y) ->
  l1 ≡ₚ l2 -> l1 = l2.
Proof.
  intros Hs1. revert l2. induction Hs1 as [|x l1 Hs1 IH Hx]; intros l2 Hs2 Hk Hp.
  { by apply Permutation_nil in Hp. }
  destruct l2 as [|y l2]; [by apply Permutation_sym, Permutation_nil in Hp|].
  assert (x = y) as <-.
  { apply Hk.
    - constructor.
    - rewrite Hp. constructor.
    - apply key_leb_antisym.
      + assert (Hy : y ∈ x :: l1) by (rewrite Hp; constructor).
        apply elem_of_cons in Hy as [->|Hy]; [apply key_leb_refl|].
        by eapply Forall_forall in Hx.
      + assert (Hy : x ∈ y :: l2) by (rewrite <- Hp; constructor).
        apply elem_of_cons in Hy as [->|Hy]; [apply key_leb_refl|].
        inversion Hs2 as [|? ? ? Hf]; subst. by eapply Forall_forall in Hf. }
  f_equal. apply IH.
  - by inversion Hs2.
  - intros a b Ha Hb. apply Hk; by constructor.
  - by eapply Permutation_cons_inv.
Qed.

Section Ordered.
Context {A : Type}.
Implicit Types (m : gmap AgentKey A).

Lemma ordered_perm m : ordered m ≡ₚ map_to_list m.
Proof. apply sort_by_Permutation. Qed.

Lemma elem_of_ordered m k x : (k, x) ∈ ordered m <-> m !! k = Some x.
Proof. rewrite ordered_perm. apply elem_of_map_to_list. Qed.

Lemma ordered_sorted m : StronglySorted (fun x y => key_leb x.1 y.1 = true) (ordered m).
Proof. apply sort_by_StronglySorted; apply _. Qed.

Lemma ordered_NoDup m : NoDup (ordered m).*1.
Proof. rewrite ordered_perm. apply NoDup_fst_map_to_list. Qed.

Lemma elem_of_rows m x : x ∈ rows_of m <-> exists k, m !! k = Some x.
Proof.
  unfold rows_of. rewrite list_elem_of_fmap. split.
  - intros ([k y] & -> & H%elem_of_ordered). by exists k.
  - intros (k & H%elem_of_ordered). by exists (k, x).
Qed.
End Ordered.

(** ** Minted names *)

Lemma show_N_inj n m : show_N n = show_N m -> n = m.
Proof.
  intros H. unfold show_N in H.
  assert (Hv : forall v, exists k, dec_width (N.size_nat v) v = S k
                 /\ parse_radix 10 (N.max n m) (fixed_digits 10 (S k) v)
                    = if (v <=? N.max n m)%N then Some v else
                        parse_radix 10 (N.max n m) (fixed_digits 10 (S k) v)).
  { intros v. destruct (dec_width_pos (N.size_nat v) v) as [k Hk]. exists k. split; [done|].
    destruct (N.leb_spec v (N.max n m)); [|done]. apply parse_radix_fixed; try done.
    rewrite <- Hk. apply dec_width_bound, size_nat_bound. }
  destruct (Hv n) as (k & Hk & H1), (Hv m) as (l & Hl & H2).
  rewrite Hk, Hl in H. rewrite H in H1. rewrite H1 in H2.
  destruct (N.leb_spec n (N.max n m)); [|lia]. destruct (N.leb_spec m (N.max n m)); [|lia].
  congruence.
Qed.

(** The text before the first dash is determined. *)
Lemma before_dash (a b r s : text) :
  45%N ∉ a -> 45%N ∉ b -> a ++ str "-" ++ r = b ++ str "-" ++ s -> a = b /\ r = s.
Proof.
  revert b. induction a as [|x a IH]; intros [|y b] Ha Hb H; simpl in H; simplify_eq.
  - done.
  - exfalso. apply Hb. constructor.
  - exfalso. apply Ha. constructor.
  - destruct (IH b) as [-> ->]; try done; set_solver.
Qed.

Definition is_name_char (ch : char) : bool := is_ascii_alphanumeric ch || (ch =? 45)%N.

Lemma name_char_solid ch : is_name_char ch = true -> is_whitespace ch = false.
Proof.
  intros H. assert (Hr : (45 <= ch <= 122)%N).
  { unfold is_name_char, is_ascii_alphanumeric, is_ascii_digit, is_ascii_uppercase,
      is_ascii_lowercase in H.
    rewrite !orb_true_iff, !andb_true_iff, !N.leb_le, N.eqb_eq in H. lia. }
  unfold is_whitespace.
  repeat match goal with
         | |- context [N.leb ?x ?y] => destruct (N.leb_spec x y); try lia
         | |- context [N.eqb ?x ?y] => destruct (N.eqb_spec x y); try lia
         end.
  all: done.
Qed.

Lemma trim_name t : forallb is_name_char t = true -> trim t = t.
Proof.
  intros H. unfold trim, trim_end.
  assert (Hs : trim_start t = t).
  { destruct t as [|c t]; [done|]. simpl in H. apply andb_prop in H as [H _].
    apply trim_start_head. by apply name_char_solid. }
  rewrite Hs. destruct t as [|d t' _] using rev_ind; [done|].
  rewrite forallb_app in H. simpl in H. rewrite andb_true_r in H. apply andb_prop in H as [_ H].
  rewrite rev_app_distr. simpl. rewrite (name_char_solid d H). simpl.
  by rewrite rev_involutive.
Qed.

Section Mint.
Context (known_kinds : list text) (hash_u64 : text -> N -> N).

(** No registered kind holds a dash or is an adjective of the generator. *)
Definition plain_kinds : bool :=
  forallb (fun kind => negb (bool_decide (45%N ∈ kind)) && negb (bool_decide (kind ∈ ADJECTIVES)))
    known_kinds.

Definition plain_words (l : list text) : bool :=
  forallb (fun w => forallb is_name_char w && negb (bool_decide (45%N ∈ w)) && negb (is_empty w)) l.

Lemma words_plain : plain_words ADJECTIVES = true /\ plain_words NOUNS = true.
Proof. split; vm_compute; reflexivity. Qed.

Lemma plain_word l w : plain_words l = true -> w ∈ l ->
  forallb is_name_char w = true /\ 45%N ∉ w /\ w <> [].
Proof.
  intros H Hw. apply forallb_forall with (x := w) in H; [|by apply list_elem_of_In].
  apply andb_prop in H as [[H1 H2]%andb_prop H3]. split; [done|].
  apply negb_true_iff, bool_decide_eq_false in H2. split; [done|]. by intros ->.
Qed.

Lemma no_dash l w : plain_words l = true -> w ∈ l -> 45%N ∉ w.
Proof. intros H Hw. by destruct (plain_word l w H Hw) as (_ & ? & _). Qed.

Lemma nth_mod (l : list text) v : l <> [] -> nth (N.to_nat (v mod N.of_nat (length l))) l [] ∈ l.
Proof.
  intros Hl. apply list_elem_of_In, nth_In.
  assert (length l <> 0)%nat by (by destruct l).
  pose proof (N.mod_lt v (N.of_nat (length l)) ltac:(lia)). lia.
Qed.

Lemma candidate_shape seed n : exists adjective noun tail,
  candidate hash_u64 seed n = adjective ++ str "-" ++ noun ++ tail
  /\ adjective ∈ ADJECTIVES /\ noun ∈ NOUNS
  /\ tail = if (n <? UNSUFFIXED_ATTEMPTS)%N then [] else str "-" ++ show_N n.
Proof.
  unfold candidate.
  exists (nth (N.to_nat (hash_u64 seed n mod N.of_nat (length ADJECTIVES))) ADJECTIVES []).
  exists (nth (N.to_nat (N.shiftr (hash_u64 seed n) 16 mod N.of_nat (length NOUNS))) NOUNS []).
  eexists. split; [|split; [by apply nth_mod|split; [by apply nth_mod|reflexivity]]].
  destruct (n <? UNSUFFIXED_ATTEMPTS)%N; [by rewrite app_nil_r|done].
Qed.

(** Past the unsuffixed attempts no two candidates are the same. *)
Lemma candidate_inj seed n m :
  (UNSUFFIXED_ATTEMPTS <= n)%N -> (UNSUFFIXED_ATTEMPTS <= m)%N ->
  candidate hash_u64 seed n = candidate hash_u64 seed m -> n = m.
Proof.
  intros Hn Hm H.
  destruct (candidate_shape seed n) as (a1 & n1 & t1 & E1 & Ha1 & Hn1 & ->).
  destruct (candidate_shape seed m) as (a2 & n2 & t2 & E2 & Ha2 & Hn2 & ->).
  rewrite E1, E2 in H.
  destruct (N.ltb_spec n UNSUFFIXED_ATTEMPTS); [lia|].
  destruct (N.ltb_spec m UNSUFFIXED_ATTEMPTS); [lia|].
  destruct words_plain as [Pa Pn].
  apply before_dash in H as [_ H]; [|by apply (no_dash ADJECTIVES)..].
  apply before_dash in H as [_ H]; [|by apply (no_dash NOUNS)..]. by apply show_N_inj.
Qed.

Lemma strip_dash kind t : starts_with (str "-") t = true -> exists r, kind ++ t = kind ++ str "-" ++ r.
Proof. intros [r ->]%starts_with_true. by exists r. Qed.

Lemma candidate_valid seed n :
  plain_kinds = true -> valid_agent_name known_kinds (candidate hash_u64 seed n) = true
  /\ candidate hash_u64 seed n ∉ HEADER_PSEUDO_HANDLES.
Proof.
  intros Hk. destruct words_plain as [Pa Pn].
  destruct (candidate_shape seed n) as (a & w & tail & -> & Ha & Hw & Ht).
  destruct (plain_word _ _ Pa Ha) as (Ca & Da & Na), (plain_word _ _ Pn Hw) as (Cw & Dw & Nw).
  set (name := a ++ str "-" ++ w ++ tail).
  assert (Hc : forallb is_name_char name = true).
  { unfold name. rewrite !forallb_app, Ca, Cw. simpl. subst tail.
    destruct (n <? UNSUFFIXED_ATTEMPTS)%N; [done|]. simpl. apply forallb_forall. intros c Hc.
    apply list_elem_of_In in Hc. pose proof (Units.show_N_digits n) as Hd.
    rewrite Forall_forall in Hd. apply Hd in Hc. unfold is_name_char, is_ascii_alphanumeric.
    by rewrite Hc. }
  assert (Hd : 45%N ∈ name).
  { unfold name. apply elem_of_app. right. apply list_elem_of_here. }
  assert (Hno : forall t : text, forallb (fun c => negb (c =? 45)%N) t = true -> name <> t).
  { intros t Ht' ->. rewrite forallb_forall in Ht'. apply list_elem_of_In, Ht' in Hd. done. }
  assert (Hin : forall l : list text,
             forallb (forallb (fun c => negb (c =? 45)%N)) l = true -> name ∉ l).
  { intros l Hl Hn. rewrite forallb_forall in Hl.
    by apply (Hno name); [apply Hl, list_elem_of_In|]. }
  assert (Hpre : forall kind r : text, 45%N ∉ kind -> name = kind ++ str "-" ++ r -> kind = a).
  { intros kind r Hkd E. symmetry. unfold name in E. by eapply before_dash in E as [-> _]. }
  split; [|by apply Hin].
  unfold valid_agent_name, basic_valid_name.
  fold is_name_char. change (fun ch => is_ascii_alphanumeric ch || (ch =? 45)%N) with is_name_char.
  rewrite (trim_name _ Hc), Hc, bool_decide_true by done.
  rewrite !bool_decide_false by first [by apply Hno | by apply Hin].
  assert (is_empty name = false) as ->. { by destruct name; [apply elem_of_nil in Hd|]. }
  simpl. apply andb_true_intro. split; apply negb_true_iff.
  - apply not_true_is_false. intros [r Hr]%starts_with_true.
    apply (bool_decide_eq_true_2 (a ∈ ADJECTIVES)) in Ha.
    rewrite <- (Hpre (str "wait") r) in Ha; [by vm_compute in Ha| |done].
    apply (bool_decide_eq_true_1 (45%N ∉ str "wait")). by vm_compute.
  - apply not_true_is_false. intros (kind & Hin' & Hkind)%existsb_exists.
    unfold plain_kinds in Hk. rewrite forallb_forall in Hk. apply Hk in Hin'.
    apply andb_prop in Hin' as [K1%negb_true_iff%bool_decide_eq_false K2%negb_true_iff%bool_decide_eq_false].
    apply orb_prop in Hkind as [Hkind%bool_decide_eq_true|Hkind].
    + by rewrite Hkind in Hd.
    + destruct (strip_prefix kind name) as [t|] eqn:E; [|done]. simpl in Hkind.
      apply strip_prefix_Some in E. apply starts_with_true in Hkind as [r ->].
      by rewrite (Hpre kind r K1 E) in K2.
Qed.

Lemma mint_loop_Some fuel seed taken a name :
  mint_loop known_kinds hash_u64 fuel seed taken a = Some name ->
  valid_agent_name known_kinds name = true /\ name ∉ HEADER_PSEUDO_HANDLES /\ taken name = false.
Proof.
  revert a. induction fuel as [|fuel IH]; intros a; simpl; [done|].
  destruct (_ && _ && _) eqn:E; [|apply IH]. intros [= <-].
  apply andb_prop in E as [[E1 E2%negb_true_iff%bool_decide_eq_false]%andb_prop E3%negb_true_iff].
  done.
Qed.

Lemma mint_loop_None fuel seed taken a :
  plain_kinds = true -> mint_loop known_kinds hash_u64 fuel seed taken a = None ->
  forall i, (i < fuel)%nat -> taken (candidate hash_u64 seed (a + N.of_nat i)) = true.
Proof.
  intros Hk. revert a. induction fuel as [|fuel IH]; intros a; simpl; [lia|].
  destruct (candidate_valid seed a Hk) as [Hv Hp]. rewrite Hv, bool_decide_false by done. simpl.
  destruct (taken (candidate hash_u64 seed a)) eqn:Et; simpl; [|done].
  intros Hn [|i] Hi; [by rewrite N.add_0_r|].
  replace (a + N.of_nat (S i))%N with (a + 1 + N.of_nat i)%N by lia. apply IH; [done|lia].
Qed.

(** Minting ends: when at most [bound] names are taken, the bounded loop finds
    a valid name that is free. *)
Lemma mint_finds seed bound taken :
  plain_kinds = true ->
  (forall l : list text, NoDup l -> Forall (fun n => taken n = true) l -> (length l <= bound)%nat) ->
  exists name, mint_loop known_kinds hash_u64 (N.to_nat UNSUFFIXED_ATTEMPTS + S bound) seed taken 0
               = Some name
  /\ mint_from_seed known_kinds hash_u64 seed bound taken = name
  /\ valid_agent_name known_kinds name = true /\ name ∉ HEADER_PSEUDO_HANDLES /\ taken name = false.
Proof.
  intros Hk Hb. unfold mint_from_seed.
  destruct (mint_loop _ _ _ _ _ _) as [name|] eqn:E.
  { exists name. split; [done|]. split; [done|]. by eapply mint_loop_Some. }
  exfalso.
  set (l := map (fun i => candidate hash_u64 seed (UNSUFFIXED_ATTEMPTS + N.of_nat i)) (seq 0 (S bound))).
  assert (Hl : (length l <= bound)%nat).
  { apply Hb.
    - unfold l. apply (NoDup_fmap_2_strong _ (seq 0 (S bound))); [|apply NoDup_seq].
      intros i j _ _ H. apply candidate_inj in H; lia.
    - apply Forall_forall. intros n (i & -> & Hi)%list_elem_of_fmap.
      apply elem_of_seq in Hi.
      replace (UNSUFFIXED_ATTEMPTS + N.of_nat i)%N
        with (0 + N.of_nat (N.to_nat UNSUFFIXED_ATTEMPTS + i))%N by lia.
      eapply mint_loop_None; [done|exact E|lia]. }
  unfold l in Hl. rewrite length_map, length_seq in Hl. lia.
Qed.

(** The names of a map bound the names it holds. *)
Lemma taken_bound {V} (m : gmap text V) (taken : text -> bool) :
  (forall n, taken n = true -> is_Some (m !! n)) ->
  forall l : list text, NoDup l -> Forall (fun n => taken n = true) l -> (length l <= size m)%nat.
Proof.
  intros Ht l Hl Hf. rewrite <- (size_dom (D := gset text) m).
  rewrite <- (size_list_to_set (C := gset text) l) by done.
  apply subseteq_size. intros n Hn%elem_of_list_to_set. apply elem_of_dom, Ht.
  by eapply Forall_forall in Hf.
Qed.
End Mint.

(** ** The ordinal rule *)

(** Which ordinal a card of a kind gets, from the next one of the kind, the
    ordinal of its prior row and the wanted one. *)
Definition wanted_ordinal (next prior wanted : option N) : option N :=
  ofilter wanted (fun ordinal =>
    bool_decide (prior = Some ordinal) || (unwrap_or next 1 <=? ordinal)%N).
Definition ordinal_rule (next prior wanted : option N) : N :=
  match wanted_ordinal next prior wanted with
  | Some ordinal => ordinal
  | None => N.max (unwrap_or next 1%N) 1
  end.
Definition next_rule (next prior wanted : option N) : N :=
  match wanted_ordinal next prior wanted with
  | Some ordinal => match next with Some n => N.max n (ordinal + 1) | None => (ordinal + 1)%N end
  | None => (N.max (unwrap_or next 1%N) 1 + 1)%N
  end.

(** The ordinal of a card is below the next one of its kind. *)
Definition below (a : CardIdentityAllocator) (kind : text) (ordinal : N) : Prop :=
  exists n, next_ordinal a !! kind = Some n /\ (ordinal < n)%N.

(** The allocator agrees with the rows of [m], and no next ordinal exceeds
    [limit]. *)
Record ordinals_hold (limit : N) (m : gmap AgentKey Row) (a : CardIdentityAllocator) : Prop := {
  next_limit kind n : next_ordinal a !! kind = Some n -> (n <= limit)%N;
  held_below kind ordinal id : ordinals a !! (kind, ordinal) = Some id -> below a kind ordinal;
  rows_below key r ordinal :
    m !! key = Some r -> kind_ordinal r = Some ordinal -> below a key.1 ordinal;
  rows_own key r ordinal id :
    m !! key = Some r -> kind_ordinal r = Some ordinal ->
    ordinals a !! (key.1, ordinal) = Some id -> id = key.2;
  rows_apart key1 key2 r1 r2 ordinal :
    m !! key1 = Some r1 -> m !! key2 = Some r2 -> key1.1 = key2.1 ->
    kind_ordinal r1 = Some ordinal -> kind_ordinal r2 = Some ordinal -> key1 = key2
}.

(** The prior row's ordinal is the card's to keep. *)
Record may_keep (m : gmap AgentKey Row) (a : CardIdentityAllocator) (key : AgentKey)
    (prior : option Row) : Prop := {
  keep_below p ordinal : prior = Some p -> kind_ordinal p = Some ordinal -> below a key.1 ordinal;
  keep_own p ordinal id : prior = Some p -> kind_ordinal p = Some ordinal ->
    ordinals a !! (key.1, ordinal) = Some id -> id = key.2;
  keep_apart p ordinal k r : prior = Some p -> kind_ordinal p = Some ordinal ->
    m !! k = Some r -> k.1 = key.1 -> kind_ordinal r = Some ordinal -> k = key
}.

Definition prior_ordinal (prior : option Row) : option N :=
  match prior with Some prior => kind_ordinal prior | None => None end.

Section OrdinalRule.
Context (limit : N) (m : gmap AgentKey Row) (a : CardIdentityAllocator).
Context (Hlimit : (limit < U32_MAX)%N) (Hpos : (1 <= limit)%N) (Hold : ordinals_hold limit m a).

Lemma past_free kind id ordinal :
  (unwrap_or (next_ordinal a !! kind) 1%N <= ordinal)%N ->
  ordinals a !! (kind, ordinal) = None /\ ordinal_available_for a kind id ordinal = true.
Proof using Hlimit Hpos Hold.
  intros Hn. assert (ordinals a !! (kind, ordinal) = None) as E.
  { destruct (ordinals a !! (kind, ordinal)) as [id'|] eqn:E; [|done].
    destruct (held_below _ _ _ Hold _ _ _ E) as (n & En & Hlt). rewrite En in Hn. simpl in Hn. lia. }
  split; [done|]. unfold ordinal_available_for. by rewrite E.
Qed.

Lemma wanted_allowed key prior wanted :
  may_keep m a key prior ->
  ofilter wanted (fun ordinal => ordinal_candidate_allowed a key.1 key.2 ordinal prior)
  = wanted_ordinal (next_ordinal a !! key.1) (prior_ordinal prior) wanted.
Proof using Hlimit Hpos Hold.
  intros Hk. unfold wanted_ordinal. destruct wanted as [o|]; [|done]. simpl.
  unfold ordinal_candidate_allowed. fold (prior_ordinal prior).
  case_bool_decide as Hp; simpl.
  - destruct prior as [p|]; [|done]. simpl in Hp.
    assert (ordinal_available_for a key.1 key.2 o = true) as ->; [|done].
    unfold ordinal_available_for. destruct (ordinals a !! (key.1, o)) as [id|] eqn:E; [|done].
    simpl. apply bool_decide_eq_true. by eapply (keep_own _ _ _ _ Hk p).
  - destruct (N.leb_spec (unwrap_or (next_ordinal a !! key.1) 1%N) o) as [Hn|Hn].
    + by rewrite (proj2 (past_free key.1 key.2 o Hn)).
    + by destruct (ordinal_available_for a key.1 key.2 o).
Qed.

Lemma next_free_now kind id fuel :
  next_free fuel a kind id (N.max (unwrap_or (next_ordinal a !! kind) 1%N) 1)
  = N.max (unwrap_or (next_ordinal a !! kind) 1%N) 1.
Proof using Hlimit Hpos Hold.
  destruct fuel as [|fuel]; simpl; [done|].
  by rewrite (proj2 (past_free kind id _ (N.le_max_l _ 1))).
Qed.

Lemma next_default kind : (unwrap_or (next_ordinal a !! kind) 1 <= limit)%N.
Proof using Hlimit Hpos Hold.
  destruct (next_ordinal a !! kind) as [n|] eqn:E; simpl; [|done].
  by eapply (next_limit _ _ _ Hold).
Qed.

(** Under the invariant the assignment is [ordinal_rule], and the invariant
    holds again with the card in the map. *)
Lemma assign_ordinal_rule key prior wanted o a' :
  may_keep m a key prior -> (forall w, wanted = Some w -> prior_ordinal prior <> Some w -> (w <= limit)%N) ->
  assign_ordinal_candidate a key.1 key.2 wanted prior = (o, a') ->
  o = ordinal_rule (next_ordinal a !! key.1) (prior_ordinal prior) wanted
  /\ next_ordinal a' = <[key.1 := next_rule (next_ordinal a !! key.1) (prior_ordinal prior) wanted]>
                         (next_ordinal a)
  /\ ordinals a' = <[(key.1, o) := key.2]> (ordinals a)
  /\ names a' = names a /\ consumed_launches a' = consumed_launches a
  /\ side_sessions a' = side_sessions a.
Proof using Hlimit Hpos Hold.
  intros Hk Hw. unfold assign_ordinal_candidate.
  rewrite (wanted_allowed _ _ _ Hk), next_free_now. unfold ordinal_rule, next_rule.
  destruct (wanted_ordinal _ _ _) as [w|] eqn:E; intros [= <- <-]; simpl; split_and!; try done.
  - unfold raise_next. f_equal.
    assert (Hb : (w <= limit)%N).
    { apply ofilter_Some in E as [-> E]. destruct (decide (prior_ordinal prior = Some w)) as [Hp|Hp].
      - destruct prior as [p|]; [|done]. destruct (keep_below _ _ _ _ Hk p w eq_refl Hp) as (n & En & Hn).
        apply (next_limit _ _ _ Hold) in En. lia.
      - by apply Hw. }
    unfold saturating_add_u32. rewrite N.min_l by lia. done.
  - f_equal. unfold saturating_add_u32. rewrite N.min_l; [done|].
    pose proof (next_default key.1). lia.
Qed.

Lemma rule_facts key prior wanted :
  may_keep m a key prior -> (forall w, wanted = Some w -> prior_ordinal prior <> Some w -> (w <= limit)%N) ->
  let next := next_ordinal a !! key.1 in
  let o := ordinal_rule next (prior_ordinal prior) wanted in
  let n := next_rule next (prior_ordinal prior) wanted in
  (o < n)%N /\ (n <= limit + 1)%N /\ (forall n0, next = Some n0 -> (n0 <= n)%N)
  /\ (forall k r, m !! k = Some r -> k.1 = key.1 -> kind_ordinal r = Some o -> k = key).
Proof using Hlimit Hpos Hold.
  intros Hk Hw next o n. pose proof (next_default key.1) as Hd. fold next in Hd.
  assert (Hfresh : forall x k r, (unwrap_or next 1 <= x)%N -> m !! k = Some r -> k.1 = key.1 ->
                      kind_ordinal r = Some x -> k = key).
  { intros x k r Hx Hr Hkk Ho. exfalso.
    destruct (rows_below _ _ _ Hold _ _ _ Hr Ho) as (n1 & E & Hlt). rewrite Hkk in E.
    unfold next in Hx. rewrite E in Hx. simpl in Hx. lia. }
  unfold o, n, ordinal_rule, next_rule. destruct (wanted_ordinal _ _ _) as [w|] eqn:E.
  - apply ofilter_Some in E as [Ew E].
    assert (Hb : (w <= limit)%N /\ forall k r, m !! k = Some r -> k.1 = key.1 ->
                   kind_ordinal r = Some w -> k = key).
    { case_bool_decide as Hp; simpl in E.
      - destruct prior as [p|]; [|done]. split.
        + destruct (keep_below _ _ _ _ Hk p w eq_refl Hp) as (n1 & En & Hn).
          apply (next_limit _ _ _ Hold) in En. lia.
        + intros k r. by apply (keep_apart _ _ _ _ Hk p w).
      - apply N.leb_le in E. split; [by apply Hw|]. intros k r. by apply Hfresh. }
    destruct Hb as [Hb Ha]. destruct next as [n0|] eqn:En; simpl in *.
    + assert (Hn0 : (n0 <= limit)%N) by (by eapply (next_limit _ _ _ Hold)).
      split_and!; try lia; [intros ? [= <-]; lia|done].
    + split_and!; try lia; [done|done].
  - split_and!; try lia.
    + intros n0 ->. simpl. lia.
    + intros k r. apply Hfresh. lia.
Qed.

Lemma assigned_holds key prior wanted o a' r :
  may_keep m a key prior -> (forall w, wanted = Some w -> prior_ordinal prior <> Some w -> (w <= limit)%N) ->
  assign_ordinal_candidate a key.1 key.2 wanted prior = (o, a') -> kind_ordinal r = Some o ->
  ordinals_hold (limit + 1) (<[key := r]> m) a'.
Proof using Hlimit Hpos Hold.
  intros Hk Hw Ha Hr.
  destruct (assign_ordinal_rule key prior wanted o a' Hk Hw Ha) as (Ho & Hn & Hs & _).
  destruct (rule_facts key prior wanted Hk Hw) as (F1 & F2 & F3 & F4). rewrite <- Ho in F1, F4.
  set (n := next_rule _ _ _) in *. clearbody n. clear Ho.
  assert (Hb : forall kind x, below a kind x -> below a' kind x).
  { intros kind x (n0 & E & Hlt). unfold below. rewrite Hn. destruct (decide (kind = key.1)) as [->|Hne].
    - exists n. rewrite lookup_insert_eq. split; [done|]. apply F3 in E. lia.
    - exists n0. by rewrite lookup_insert_ne. }
  assert (Hown : below a' key.1 o) by (exists n; rewrite Hn, lookup_insert_eq; done).
  split.
  - intros kind x. rewrite Hn. intros [[<- <-]|[_ E]]%lookup_insert_Some; [done|].
    apply (next_limit _ _ _ Hold) in E. lia.
  - intros kind x id. rewrite Hs. intros [[[= <- <-] _]|[_ E]]%lookup_insert_Some; [done|].
    by eapply Hb, (held_below _ _ _ Hold).
  - intros k r' x [[<- <-]|[_ E]]%lookup_insert_Some Hx; [congruence|].
    by eapply Hb, (rows_below _ _ _ Hold).
  - intros k r' x id Hk' Hx. rewrite Hs. rewrite lookup_insert_Some.
    apply lookup_insert_Some in Hk' as [[<- <-]|[Hne Hk']].
    + intros [[_ <-]|[Hne _]]; [done|]. exfalso. apply Hne. f_equal. congruence.
    + intros [[E <-]|[_ E]]; [|by eapply (rows_own _ _ _ Hold)].
      injection E as E1 E2. rewrite <- E2 in Hx. exfalso. apply Hne. symmetry.
      by apply (F4 k r').
  - intros k1 k2 r1 r2 x [[<- <-]|[Hne1 H1]]%lookup_insert_Some
      [[<- <-]|[Hne2 H2]]%lookup_insert_Some E X1 X2; try done.
    + symmetry. apply (F4 k2 r2); [done|done|congruence].
    + apply (F4 k1 r1); [done|done|congruence].
    + by eapply (rows_apart _ _ _ Hold).
Qed.
End OrdinalRule.

(** ** Keeping the ordinals as rows come and go *)

Lemma ordinals_hold_weaken (limit limit' : N) m a :
  (limit <= limit')%N -> ordinals_hold limit m a -> ordinals_hold limit' m a.
Proof. intros Hl [H1 H2 H3 H4 H5]. split; eauto. intros kind n E. apply H1 in E. lia. Qed.

(** Rows may go, and lose their ordinal. *)
Lemma ordinals_hold_sub (limit : N) (m m' : gmap AgentKey Row) a :
  (forall k r', m' !! k = Some r' -> forall o, kind_ordinal r' = Some o ->
     exists r, m !! k = Some r /\ kind_ordinal r = Some o) ->
  ordinals_hold limit m a -> ordinals_hold limit m' a.
Proof.
  intros Hs [H1 H2 H3 H4 H5]. split; [done|done|..].
  - intros k r o Hk Ho. destruct (Hs _ _ Hk _ Ho) as (r0 & Hr & E). eauto.
  - intros k r o id Hk Ho. destruct (Hs _ _ Hk _ Ho) as (r0 & Hr & E). eauto.
  - intros k1 k2 r1 r2 o Hk1 Hk2 E Ho1 Ho2.
    destruct (Hs _ _ Hk1 _ Ho1) as (? & ? & ?), (Hs _ _ Hk2 _ Ho2) as (? & ? & ?). eauto.
Qed.

Lemma ordinals_hold_delete (limit : N) m a k :
  ordinals_hold limit m a -> ordinals_hold limit (delete k m) a.
Proof.
  apply ordinals_hold_sub. intros k' r' [_ Hr]%lookup_delete_Some o Ho. eauto.
Qed.

Lemma ordinals_hold_fields (limit : N) m a a' :
  next_ordinal a' = next_ordinal a -> (forall x id, ordinals a' !! x = Some id -> ordinals a !! x = Some id) ->
  ordinals_hold limit m a -> ordinals_hold limit m a'.
Proof.
  intros Hn Ho [H1 H2 H3 H4 H5].
  assert (Hb : forall kind x, below a kind x -> below a' kind x) by (intros kind x; unfold below; by rewrite Hn).
  split; [by rewrite Hn|..]; eauto.
Qed.

Lemma ordinals_hold_release (limit : N) m a k :
  ordinals_hold limit m a -> ordinals_hold limit m (release_key a k).
Proof.
  apply ordinals_hold_fields; [done|]. intros x id. simpl. by intros [? _]%map_lookup_filter_Some.
Qed.

Lemma may_keep_own (limit : N) m a key :
  ordinals_hold limit m a -> may_keep m a key (m !! key).
Proof.
  intros [H1 H2 H3 H4 H5]. split; [by eauto|by eauto|].
  intros p o k r Hp Ho Hr Hk Ho'. by eapply (H5 k key).
Qed.

Lemma may_keep_none m a key : may_keep m a key None.
Proof. by split. Qed.

(** A row that is dropped with its claims leaves its ordinal to the key that
    adopts it. *)
Lemma may_keep_adopted (limit : N) m a key dropped :
  ordinals_hold limit m a -> dropped.1 = key.1 ->
  may_keep (delete dropped m) (release_key a dropped) key (m !! dropped).
Proof.
  intros [H1 H2 H3 H4 H5] Hk. split.
  - intros p o Hp Ho. rewrite <- Hk. by eapply (H3 dropped).
  - intros p o id Hp Ho. simpl. intros [E Hne]%map_lookup_filter_Some. simpl in Hne.
    rewrite <- Hk in E. by eapply (H4 dropped) in E.
  - intros p o k r Hp Ho [Hne Hr]%lookup_delete_Some Hkk Ho'. exfalso. apply Hne.
    symmetry. eapply (H5 k dropped); try done. congruence.
Qed.

Lemma ordinals_hold_reset (limit : N) (m : gmap AgentKey Row) a :
  (forall k r, m !! k = Some r -> kind_ordinal r = None) -> ordinals_hold limit m (reset_ordinals a).
Proof.
  intros Hm. split; simpl; try done; intros; try congruence.
  all: naive_solver eauto with congruence.
Qed.

(** ** The name rule *)

Section NameRule.
Context (known_kinds : list text) (hash_u64 : text -> N -> N).

(** Names are owned by rows that are no provider's children, and such a row
    owns its name. *)
Record names_hold (m : gmap AgentKey Row) (a : CardIdentityAllocator) : Prop := {
  owner_rooted n k : names a !! n = Some k ->
    exists r : Row, m !! k = Some r /\ is_provider_subagent r = false;
  root_named k (r : Row) n : m !! k = Some r -> is_provider_subagent r = false ->
    row_name known_kinds r = Some n -> names a !! n = Some k
}.

Lemma names_hold_sub (m m' : gmap AgentKey Row) a :
  (forall k (r : Row), m !! k = Some r ->
     exists r' : Row, m' !! k = Some r' /\ is_provider_subagent r' = is_provider_subagent r) ->
  (forall k (r' : Row), m' !! k = Some r' -> name r' = None \/
     exists r : Row, m !! k = Some r /\ name r' = name r
               /\ is_provider_subagent r' = is_provider_subagent r) ->
  names_hold m a -> names_hold m' a.
Proof.
  intros Hf Hb [H1 H2]. split.
  - intros n k E. destruct (H1 _ _ E) as (r & Hr & Hs). destruct (Hf _ _ Hr) as (r' & Hr' & Es).
    exists r'. split; [done|congruence].
  - intros k r n Hr Hs Hn. destruct (Hb _ _ Hr) as [E|(r0 & Hr0 & En & Es)].
    + unfold row_name in Hn. by rewrite E in Hn.
    + apply (H2 k r0); [done|congruence|]. unfold row_name in *. by rewrite <- En.
Qed.

Lemma names_hold_fields m a a' : names a' = names a -> names_hold m a -> names_hold m a'.
Proof. intros E [H1 H2]. split; rewrite E; eauto. Qed.

Lemma names_hold_drop m a k : names_hold m a -> names_hold (delete k m) (release_key a k).
Proof.
  intros [H1 H2]. split.
  - intros n k' [E Hne]%map_lookup_filter_Some. simpl in Hne.
    destruct (H1 _ _ E) as (r & Hr & Hs). exists r. split; [|done]. by rewrite lookup_delete_ne.
  - intros k' r n [Hne Hr]%lookup_delete_Some Hs Hn. apply map_lookup_filter_Some.
    split; [by eapply H2|]. simpl. by intros ->.
Qed.

(** The candidate of [assign_name_candidate] is free for the key, or the empty
    text of a generator that found none. *)
Lemma assign_name_rule a key wanted prior id n a' :
  assign_name_candidate known_kinds hash_u64 a key wanted prior id = (n, a') ->
  a' = a <| names := <[n := key]> (names a) |>
  /\ (n = [] \/ forall k, names a !! n = Some k -> k = key).
Proof.
  unfold assign_name_candidate. cbv zeta.
  assert (Hav : forall w x, ofilter w (fun name => name_available_for a name key) = Some x ->
            forall k, names a !! x = Some k -> k = key).
  { intros w x [_ H]%ofilter_Some k E. unfold name_available_for in H. rewrite E in H.
    by apply bool_decide_eq_true in H. }
  destruct (ofilter wanted _) as [x|] eqn:E1; [intros [= <- <-]; split; [done|right; by eapply Hav]|].
  destruct (ofilter (match prior with Some prior => row_name known_kinds prior | None => None end) _)
    as [x|] eqn:E2; [intros [= <- <-]; split; [done|right; by eapply Hav]|].
  intros [= <- <-]. split; [done|]. unfold mint_for_session, mint_from_seed.
  destruct (mint_loop _ _ _ _ _ _) as [x|] eqn:E3; [right|by left]. simpl.
  apply mint_loop_Some in E3 as (_ & _ & E3). intros k Ek. rewrite Ek in E3. simpl in E3.
  by apply negb_false_iff, bool_decide_eq_true in E3.
Qed.

Lemma valid_nonempty n : valid_agent_name known_kinds n = true -> n <> [].
Proof. by intros H ->. Qed.

Lemma names_hold_assign m a key n (r : Row) :
  names_hold m a -> (n = [] \/ forall k, names a !! n = Some k -> k = key) ->
  is_provider_subagent r = false -> name r = Some n ->
  names_hold (<[key := r]> m) (a <| names := <[n := key]> (names a) |>).
Proof.
  intros [H1 H2] Hav Hs Hn. split; simpl.
  - intros n' k [[<- <-]|[Hne E]]%lookup_insert_Some; [exists r; by rewrite lookup_insert_eq|].
    destruct (decide (k = key)) as [->|Hk]; [exists r; by rewrite lookup_insert_eq|].
    destruct (H1 _ _ E) as (r0 & ? & ?). exists r0. by rewrite lookup_insert_ne.
  - intros k r' n' [[<- <-]|[Hk E]]%lookup_insert_Some Hs' Hn'.
    + unfold row_name in Hn'. rewrite Hn in Hn'. apply ofilter_Some in Hn' as [[= <-] _].
      by rewrite lookup_insert_eq.
    + pose proof (H2 _ _ _ E Hs' Hn') as Ho. apply lookup_insert_Some. right. split; [|done].
      intros <-. apply ofilter_Some in Hn' as [_ Hv]. apply valid_nonempty in Hv.
      destruct Hav as [->|Hav]; [done|]. apply Hk. symmetry. by apply Hav.
Qed.

Lemma names_hold_child m a key (r : Row) :
  names_hold m a -> is_provider_subagent r = true ->
  names_hold (<[key := r]> m) (a <| names := filter (fun '(_, owner) => owner <> key) (names a) |>).
Proof.
  intros [H1 H2] Hs. split; simpl.
  - intros n k [E Hne]%map_lookup_filter_Some. simpl in Hne. rewrite lookup_insert_ne by done. eauto.
  - intros k r' n [[<- <-]|[Hk E]]%lookup_insert_Some Hs' Hn; [congruence|].
    apply map_lookup_filter_Some. split; [by eapply H2|]. simpl. congruence.
Qed.

(** ** Entering the rows of a map *)

Lemma enter_names a entry :
  (is_provider_subagent (entry.2 : Row) = false -> forall n, row_name known_kinds entry.2 = Some n -> is_Some (names a !! n)) ->
  names (enter known_kinds a entry) = names a.
Proof.
  destruct entry as [k r]. simpl. intros H. unfold enter.
  assert (E : names (match row_name known_kinds r with
      | Some name => if negb (is_provider_subagent r) && is_none (names a !! name)
                     then a <| names := <[name := k]> (names a) |> else a
      | None => a end) = names a).
  { destruct (row_name known_kinds r) as [n|] eqn:En; [|done].
    destruct (is_provider_subagent r); simpl; [done|].
    by destruct (H eq_refl n eq_refl) as [x ->]. }
  destruct (kind_ordinal r); simpl; done.
Qed.

Lemma raise_next_below kind o next n :
  next !! kind = Some n -> (o < n)%N -> raise_next kind o next = next.
Proof.
  intros E Hlt. unfold raise_next. rewrite E. rewrite N.max_l; [by apply insert_id|].
  unfold saturating_add_u32. lia.
Qed.

(** An entry whose name is owned and whose ordinal is below the next one only
    adds its ordinal. *)
Lemma enter_one a k (r : Row) :
  (is_provider_subagent r = false -> forall n, row_name known_kinds r = Some n -> is_Some (names a !! n)) ->
  (forall o, kind_ordinal r = Some o -> below a k.1 o) ->
  let b := enter known_kinds a (k, r) in
  names b = names a /\ next_ordinal b = next_ordinal a
  /\ consumed_launches b = consumed_launches a /\ side_sessions b = side_sessions a
  /\ (forall x id, ordinals b !! x = Some id ->
        ordinals a !! x = Some id \/ (k = (x.1, id) /\ kind_ordinal r = Some x.2)).
Proof.
  intros Hn Ho b. split; [by apply enter_names|]. unfold b, enter.
  set (a1 := match row_name known_kinds r with Some _ => _ | None => _ end).
  assert (E1 : next_ordinal a1 = next_ordinal a /\ ordinals a1 = ordinals a
               /\ consumed_launches a1 = consumed_launches a /\ side_sessions a1 = side_sessions a).
  { unfold a1. destruct (row_name known_kinds r); [|done]. by destruct (negb _ && _). }
  destruct E1 as (E1 & E2 & E3 & E4). clearbody a1.
  destruct (kind_ordinal r) as [o|]; [|rewrite ?E1, ?E2; by auto].
  destruct (Ho o eq_refl) as (n & En & Hlt). simpl. rewrite E1, E2.
  split; [by eapply raise_next_below|]. split; [done|]. split; [done|].
  intros x id. destruct (ordinals a !! (k.1, o)); [by left|].
  intros [[<- <-]|[_ E]]%lookup_insert_Some; [right|by left]. by destruct k.
Qed.

Lemma enter_all (l : list (AgentKey * Row)) a :
  (forall k (r : Row), (k, r) ∈ l -> is_provider_subagent r = false ->
     forall n, row_name known_kinds r = Some n -> is_Some (names a !! n)) ->
  (forall k r o, (k, r) ∈ l -> kind_ordinal r = Some o -> below a k.1 o) ->
  let b := foldl (enter known_kinds) a l in
  names b = names a /\ next_ordinal b = next_ordinal a
  /\ consumed_launches b = consumed_launches a /\ side_sessions b = side_sessions a
  /\ (forall x id, ordinals b !! x = Some id ->
        ordinals a !! x = Some id \/ exists r, ((x.1, id), r) ∈ l /\ kind_ordinal r = Some x.2).
Proof.
  revert a. induction l as [|[k r] l IH]; intros a Hn Ho; [by split_and!; auto|].
  cbn [foldl].
  destruct (enter_one a k r) as (E1 & E2 & E3 & E4 & E5).
  { eapply Hn. constructor. }
  { intros o. eapply Ho. constructor. }
  destruct (IH (enter known_kinds a (k, r))) as (F1 & F2 & F3 & F4 & F5).
  { intros k' r' Hin. rewrite E1. eapply Hn. by constructor. }
  { intros k' r' o Hin Hr. unfold below. rewrite E2. eapply Ho; [by constructor|done]. }
  split_and!; try congruence.
  intros x id [H|(r' & Hin & Hr)]%F5.
  - apply E5 in H as [H|[-> Hr]]; [by left|right]. exists r. split; [constructor|done].
  - right. exists r'. split; [by constructor|done].
Qed.

Lemma state_next a :
  (forall kind o id, ordinals a !! (kind, o) = Some id -> below a kind o) ->
  s_next_ordinal (state a) = next_ordinal a.
Proof.
  intros H. simpl.
  assert (Hl : forall l : list (text * N * text), (forall e, e ∈ l -> below a e.1.1 e.1.2) ->
    foldr (fun '((kind, ordinal), _) next => raise_next kind ordinal next) (next_ordinal a) l
    = next_ordinal a).
  { induction l as [|[[kind o] id] l IH]; intros Hl; [done|]. cbn [foldr].
    rewrite IH by (intros e He; apply Hl; by constructor).
    destruct (Hl (kind, o, id) ltac:(constructor)) as (n & En & Hlt). by eapply raise_next_below. }
  apply Hl. intros [[kind o] id] He%elem_of_map_to_list. by eapply H.
Qed.

(** A fold resumed from its persisted state carries on with the same names, the
    same next ordinals and the same side conversations; only the consumed
    launches are forgotten. *)
Lemma restart_agrees (limit : N) (m : gmap AgentKey Row) a :
  ordinals_hold limit m a -> names_hold m a ->
  let b := from_map_and_state known_kinds m (state a) in
  names b = names a /\ next_ordinal b = next_ordinal a /\ side_sessions b = side_sessions a
  /\ consumed_launches b = ∅ /\ ordinals_hold limit m b.
Proof.
  intros Ho [N1 N2] b.
  set (a0 := {| names := names a; ordinals := ∅; next_ordinal := next_ordinal a;
                consumed_launches := ∅; side_sessions := side_sessions a |}).
  assert (Eb : b = foldl (enter known_kinds) a0 (ordered m)).
  { unfold b, from_map_and_state. f_equal. unfold a0.
    rewrite state_next by (intros *; by apply (held_below _ _ _ Ho)). simpl. f_equal.
    apply map_filter_id. intros n k E. destruct (N1 _ _ E) as (r & -> & Hs). simpl.
    by rewrite Hs. }
  destruct (enter_all (ordered m) a0) as (E1 & E2 & E3 & E4 & E5).
  { intros k r Hin%elem_of_ordered Hs n Hn. simpl. rewrite (N2 k r n) by done. eauto. }
  { intros k r o Hin%elem_of_ordered Hr. by apply (rows_below _ _ _ Ho k r). }
  rewrite <- Eb in *. split_and!; try done.
  assert (Hb : forall kind x, below b kind x <-> below a kind x)
    by (intros kind x; unfold below; by rewrite E2).
  split.
  - intros kind n. rewrite E2. apply (next_limit _ _ _ Ho).
  - intros kind x id [H|(r & Hin%elem_of_ordered & Hr)]%E5; [done|].
    apply Hb. by apply (rows_below _ _ _ Ho _ _ _ Hin).
  - intros k r x Hk Hr. apply Hb. by apply (rows_below _ _ _ Ho _ _ _ Hk).
  - intros k r x id Hk Hr [H|(r' & Hin%elem_of_ordered & Hr')]%E5; [done|]. simpl in *.
    by rewrite <- (rows_apart _ _ _ Ho _ _ _ _ _ Hin Hk eq_refl Hr' Hr).
  - apply (rows_apart _ _ _ Ho).
Qed.

(** A cold fold: the allocator of an empty map. *)
Lemma cold_holds (limit : N) (st : AgentIdentityState) :
  (forall kind n, s_next_ordinal st !! kind = Some n -> (n <= limit)%N) ->
  ordinals_hold limit ∅ (from_map_and_state known_kinds ∅ st)
  /\ names_hold ∅ (from_map_and_state known_kinds ∅ st).
Proof.
  intros Hn. unfold from_map_and_state.
  assert (E : ordered (∅ : gmap AgentKey Row) = []) by (vm_compute; reflexivity).
  rewrite E. simpl. split.
  - split; simpl; [done|intros; by simplify_map_eq..].
  - split; simpl; [|intros; by simplify_map_eq].
    intros n k [_ H]%map_lookup_filter_Some. by rewrite lookup_empty in H.
Qed.
End NameRule.
