(* ===== verification/Reducer.v ===== *)
(** * The agent reducer ([store/snapshot/project.rs])

    Folds the events of a log into one [Row] per agent, keyed by kind and
    session id.  [ReducerState] is the map, the card identity allocator and the
    launch identity index; [reduce_event] is one event, [reduce] the loop
    seeded with a map and an identity state.  Logging is left out.

    The adapters' default context window of a kind, the registered kinds and
    the digest behind minted names are parameters. *)

From S2P Require Import Prelude.
From S2P Require Import Agents Message Prompt Card CardIdentity.
From S2P Require Import Lifecycle.
Import Agents.Placement Agents.Agent CardIdentity.Identity.

(** ** The launch identity index *)

Abbreviation LaunchInstanceKey := (text * text * N)%type.

Definition launch_instance_key (state : Row) : option LaunchInstanceKey :=
  let! pane := pane state else None in
  let! owner := runtime_owner state else None in
  if bool_decide (runtime_kind owner = OwnerAgent)
  then Some (agent_kind state, pane_id pane, runtime_pid owner) else None.

Record LaunchIdentityIndex := {
  by_instance : gmap LaunchInstanceKey (gset AgentKey);
  by_agent : gmap AgentKey LaunchInstanceKey
}.
Definition empty_index : LaunchIdentityIndex := {| by_instance := ∅; by_agent := ∅ |}.

Definition remove (self : LaunchIdentityIndex) (key : AgentKey) : LaunchIdentityIndex :=
  match by_agent self !! key with
  | None => self
  | Some instance =>
      let by_agent := delete key (by_agent self) in
      match by_instance self !! instance with
      | None => {| by_instance := by_instance self; by_agent := by_agent |}
      | Some keys =>
          let keys := keys ∖ {[key]} in
          {| by_instance :=
               if bool_decide (keys = ∅) then delete instance (by_instance self)
               else <[instance := keys]> (by_instance self);
             by_agent := by_agent |}
      end
  end.

Definition replace (self : LaunchIdentityIndex) (key : AgentKey) (state : Row)
  : LaunchIdentityIndex :=
  let self := remove self key in
  if is_none (launch_id state) || is_provider_subagent state then self
  else
    match launch_instance_key state with
    | None => self
    | Some instance =>
        {| by_instance :=
             <[instance := {[key]} ∪ unwrap_or (by_instance self !! instance) ∅]> (by_instance self);
           by_agent := <[key := instance]> (by_agent self) |}
    end.

Definition from_map (m : gmap AgentKey Row) : LaunchIdentityIndex :=
  foldl (fun index '(key, state) => replace index key state) empty_index (ordered m).

(** The launch of the candidate that opened the instance first. *)
Definition opened_first (candidate : Row) : bool * option Z * text :=
  (is_none (registered_at candidate), registered_at candidate, agent_id candidate).
Definition opened_ltb (a b : bool * option Z * text) : bool :=
  match then_with (bool_cmp a.1.1 b.1.1)
          (then_with (option_cmp a.1.2 b.1.2) (text_cmp a.2 b.2)) with
  | Lt => true
  | _ => false
  end.

Definition precedes (successor candidate : Row) : bool :=
  bool_decide (agent_kind candidate = agent_kind successor)
  && negb (bool_decide (agent_id candidate = agent_id successor))
  && is_some (launch_id candidate)
  && negb (is_provider_subagent candidate)
  && same_agent_instance candidate successor.

Definition predecessor (self : LaunchIdentityIndex) (m : gmap AgentKey Row) (successor : Row)
  : option Row :=
  let! instance := launch_instance_key successor else None in
  let! keys := by_instance self !! instance else None in
  min_by opened_first opened_ltb
    (List.filter (precedes successor)
       (omap (fun key => m !! key) (sort_by id key_leb (elements keys)))).

(** ** The carried baseline and the launch settings *)

(** [str::split_once('[')]. *)
Definition canonical_model (model : text) : text :=
  match split_once (str "[") model with
  | Some (base, _) => trim_end base
  | None => model
  end.

Definition carried_base (kind id : text) (prior : option Row) (event_ts : Z) : Row :=
  let fresh := seed kind id Idle event_ts in
  match prior with
  | None => fresh
  | Some prior =>
      {| core :=
           core fresh
           <| launch_id := launch_id prior |> <| prior_launch_ids := prior_launch_ids prior |>
           <| mode := mode prior |> <| molted_from := molted_from prior |>
           <| parent_agent_id := parent_agent_id prior |>
           <| parent_agent_kind := parent_agent_kind prior |>
           <| launch_depth := launch_depth prior |> <| launched_by := launched_by prior |>
           <| worktree_path := worktree_path prior |> <| role := role prior |>
           <| team := team prior |> <| channel_stamp := channel_stamp prior |>
           <| profile := profile prior |> <| checkout := checkout prior |>
           <| background_shells := background_shells prior |>
           <| compacted_awaiting_prompt := compacted_awaiting_prompt prior |>
           <| turn_started_at := turn_started_at prior |>
           <| registered_at := or_else (registered_at prior) (Some event_ts) |>
           <| on_screen_at := on_screen_at prior |>;
         system_prompt_digest := system_prompt_digest prior;
         launch_warnings := launch_warnings prior; name_explicit := false; kind_ordinal := None;
         profile_scope := profile_scope prior; login := login prior; tier := tier prior;
         record := record prior; isolation := isolation prior;
         effective_isolation := effective_isolation prior; loop_task := loop_task prior;
         workflow := workflow prior; automation := automation prior;
         launch_group := launch_group prior; launch_ordinal := launch_ordinal prior;
         finished_at := None; pane := pane prior; runtime_owner := runtime_owner prior;
         add_dirs := add_dirs prior; untrusted_checkout := untrusted_checkout prior;
         worktree_branch := worktree_branch prior; worktree_branches := worktree_branches prior;
         task := task prior; first_prompt := first_prompt prior; prompt := prompt prior;
         prompt_wake_only := prompt_wake_only prior; description := description prior;
         transcript_path := transcript_path prior; origin := origin prior;
         account_key := account_key prior; compacted_from := compacted_from prior;
         model := model prior; effort := effort prior; budget := budget prior;
         usage := usage prior; last_tool_at := None;
         user_turn_started_at := user_turn_started_at prior;
         last_prompt_at := last_prompt_at prior; keepalive_since := keepalive_since prior;
         pinged_at := pinged_at prior; queued_asks := [];
         compaction_count := compaction_count prior; soft_compact := soft_compact prior;
         tool_calls := tool_calls prior;
         last_compact_command_tokens := last_compact_command_tokens prior;
         retired_context_tokens := retired_context_tokens prior; compaction_retired := false;
         compacted_unmeasured := compacted_unmeasured prior; last_seen := event_ts |}
  end.

(** A setting the launch names replaces the carried one. *)
Definition fold_launch_params (state : Row) (launch : Params.LaunchParams) : Row :=
  state
  <| core :=
       core state
       <| molted_from := or_else (Params.molted_from launch) (molted_from state) |>
       <| parent_agent_id := or_else (Params.parent_agent_id launch) (parent_agent_id state) |>
       <| parent_agent_kind := or_else (Params.parent_agent_kind launch) (parent_agent_kind state) |>
       <| launch_depth := or_else (Params.launch_depth launch) (launch_depth state) |>
       <| launched_by := or_else (Params.launched_by launch) (launched_by state) |>
       <| profile := or_else (Params.profile launch) (profile state) |>
       <| mode := or_else (Params.mode launch) (mode state) |>
       <| checkout := or_else (Params.checkout launch) (checkout state) |>
       <| role := or_else (Params.role launch) (role state) |>
       <| team := or_else (Params.team launch) (team state) |>
       <| channel_stamp := or_else (Params.channel launch) (channel_stamp state) |> |>
  <| automation := or_else (Params.automation launch) (automation state) |>
  <| workflow := or_else (Params.workflow launch) (workflow state) |>
  <| record := or_else (Params.record launch) (record state) |>
  <| profile_scope := or_else (Params.profile_scope launch) (profile_scope state) |>
  <| login := or_else (Params.login launch) (login state) |>
  <| tier := or_else (Params.tier launch) (tier state) |>
  <| isolation := or_else (Params.isolation launch) (isolation state) |>
  <| add_dirs := if is_empty (Params.add_dirs launch) then add_dirs state
                 else Params.add_dirs launch |>
  <| untrusted_checkout := untrusted_checkout state || Params.untrusted_checkout launch |>
  <| loop_task := or_else (Params.loop_task launch) (loop_task state) |>
  <| launch_group := or_else (Params.launch_group launch) (launch_group state) |>
  <| launch_ordinal := or_else (Params.launch_ordinal launch) (launch_ordinal state) |>
  <| model := or_else (option_map canonical_model (Params.model launch)) (model state) |>
  <| effort := or_else (Params.effort launch) (effort state) |>
  <| budget := or_else (Params.budget launch) (budget state) |>.

(** ** One lifecycle signal on the row *)

(** A ping-only turn's edge. *)
Definition carry_across_ping (state prior : Row) (timestamp : Z) (edge : PingEdge) : Row :=
  let is_close := match edge with Close => true | _ => false end in
  let is_open := match edge with Open => true | _ => false end in
  state
  <| core :=
       core state
       <| ping_turn := negb is_close |>
       <| agent_status := agent_status prior |> <| agent_phase := agent_phase prior |>
       <| last_activity := last_activity prior |>
       <| compacting_since := compacting_since prior |>
       <| compacted_awaiting_prompt := compacted_awaiting_prompt prior |>
       <| turn_started_at := turn_started_at prior |> <| turn_ended_at := turn_ended_at prior |>
       <| waiting_since := waiting_since prior |> <| open_ask := open_ask prior |>
       <| started_turn_id := started_turn_id prior |>
       <| superseded_turn_id := superseded_turn_id prior |>
       <| closed_turn_id := closed_turn_id prior |> |>
  <| pinged_at := if is_close then Some timestamp else pinged_at prior |>
  <| keepalive_since := if is_open then or_else (keepalive_since prior) (last_request_at prior)
                        else keepalive_since state |>
  <| user_turn_started_at := user_turn_started_at prior |>
  <| last_prompt_at := last_prompt_at prior |>
  <| queued_asks := queued_asks prior |>
  <| compaction_retired := compaction_retired prior |>.

(** What a state snapshot keeps: it reports the state and is no edge. *)
Definition keep_snapshot_clocks (state : Row) (prior : option Row) : Row :=
  match prior with
  | None => state
  | Some prior =>
      state
      <| core :=
           core state
           <| registered_at := registered_at prior |> <| turn_ended_at := turn_ended_at prior |>
           <| started_turn_id := started_turn_id prior |>
           <| superseded_turn_id := superseded_turn_id prior |>
           <| closed_turn_id := closed_turn_id prior |>
           <| compacting_since := compacting_since prior |>
           <| ping_turn := ping_turn prior |> |>
      <| last_tool_at := last_tool_at prior |>
      <| compaction_retired := compaction_retired prior |>
  end.

Definition is_completed_end (signal : LifecycleSignal) : bool :=
  match signal with CompactionEnded _ false => true | _ => false end.

(** The marker of a context no prompt has used since its compaction. *)
Definition awaiting_prompt_after (carried : option Z) (signal : LifecycleSignal)
    (next : LifecycleState) (compaction_closed : bool) (timestamp : Z) : option Z :=
  match signal with
  | CompactionEnded auto false =>
      if bool_decide (auto = Some false)
         || (negb match status next with Running | Waiting => true | _ => false end
             && (is_some auto || compaction_closed))
      then Some timestamp else carried
  | TurnStarted _ => None
  | _ => carried
  end.

Definition count_tool (signal : LifecycleSignal) (calls : gmap text N) : gmap text N :=
  match signal with
  | ToolUsed _ _ (Some name) _ _ =>
      let name := trim name in
      if is_empty name then calls
      else <[name := saturating_add_u32 (unwrap_or (calls !! name) 0%N) 1]> calls
  | _ => calls
  end.

Definition edit_queued_asks (asks : list QueuedAsk) (edit : AskQueueEdit) (timestamp : Z)
  : list QueuedAsk :=
  let asks := if clear_all edit then [] else asks in
  let asks := List.filter (fun ask => negb (bool_decide (queued_key ask ∈ answered edit))) asks in
  foldl (fun asks question =>
    match question_id question with
    | None => asks
    | Some id =>
        if existsb (fun ask => bool_decide (queued_key ask = question_key question)) asks then asks
        else
          asks ++ [{| queued_id := id; queued_detail := question_detail question;
                      queued_key := question_key question; queued_since := timestamp |}]
    end) asks (queued edit).

Definition open_ask_after (signal : LifecycleSignal) (next : LifecycleState) (prior : option Row)
    (timestamp : Z) : option OpenAsk :=
  match signal with
  | AwaitingInput kind (Some id) detail extra native_key =>
      Some {| ask_id := id; ask_kind := kind; ask_detail := detail; extra_questions := extra;
              ask_native_key := native_key; since := timestamp |}
  | AwaitingInput _ None _ _ _ => None
  | _ => if bool_decide (status next = Waiting)
         then match prior with Some prior => open_ask prior | None => None end else None
  end.

(** The flag and the row; the flag says that the usage measured before a
    compaction is retired. *)
Definition fold_lifecycle (state : Row) (prior : option Row) (timestamp : Z)
    (signal : LifecycleSignal) (prompt_ : option text) (ask_queue : option AskQueueEdit)
    (state_snapshot : bool) : bool * Row :=
  let prior_ids := match prior with Some prior => turn_ids prior | None => no_turn_ids end in
  let keepalive_prompt := is_some_and prompt_ prompt_is_keepalive_only in
  let t := transition (option_map core prior) signal keepalive_prompt state_snapshot in
  let next := next t in
  let opened := opened_turn t in
  match ping t, prior with
  | Some edge, Some prior => (false, carry_across_ping state prior timestamp edge)
  | _, _ =>
      let state :=
        state <| core := core state <| agent_status := status next |>
                                    <| agent_phase := phase next |> |> in
      if state_snapshot then
        let state := keep_snapshot_clocks state prior in
        (false,
         if opened then state <| core := core state <| turn_started_at := Some timestamp |> |>
         else state)
      else
        let rests := negb match status next with Running | Waiting => true | _ => false end in
        let ignored := match kind t with Ignored _ => true | _ => false end in
        let completed_compaction :=
          compaction_closed t
          && negb match signal with CompactionEnded _ true => true | _ => false end in
        let resets_context :=
          is_some_and prior (fun prior : Row => is_some (turn_started_at prior)) && rests
          && (is_completed_end signal || match signal with Registered => true | _ => false end) in
        let closes_request :=
          negb ignored
          && (is_completed_end signal
              || match signal with TurnEnded _ _ _ | TurnInterrupted _ => true | _ => false end) in
        let turn_started := match signal with TurnStarted _ => true | _ => false end in
        let harness_prompt := turn_started && is_some_and prompt_ prompt_is_harness_delivered in
        let keepalive_turn := turn_started && keepalive_prompt in
        let soft_compact_ :=
          match signal with
          | TurnInterrupted _ | Registered => None
          | TurnEnded false _ _ =>
              option_map (fun mark =>
                if closes_request && (steered_at mark <=? timestamp)%Z
                   && bool_decide (progress mark = WrappingUp)
                then mark <| progress := SoftTurnEnded |> else mark) (soft_compact state)
          | _ => soft_compact state
          end in
        let keepalive_since_ :=
          if resets_context || ((opened || turn_started) && negb keepalive_turn) then None
          else if opened then
            Some (unwrap_or (match prior with
                             | Some prior => or_else (keepalive_since prior) (last_request_at prior)
                             | None => None
                             end) timestamp)
          else keepalive_since state in
        let waiting_since_ :=
          match signal with
          | AwaitingInput _ _ _ _ _ => Some timestamp
          | _ => if bool_decide (status next = Waiting)
                 then match prior with Some prior => waiting_since prior | None => None end else None
          end in
        let asks := match prior with Some prior => queued_asks prior | None => [] end in
        let asks := match ask_queue with
                    | Some edit => edit_queued_asks asks edit timestamp
                    | None => asks
                    end in
        let ids := turn_ids_after prior_ids signal opened in
        let already_retired := is_some_and prior (fun prior : Row => compaction_retired prior) in
        let retires_usage :=
          completed_compaction || (negb already_retired && is_completed_end signal) in
        (retires_usage,
         state
         <| core :=
              core state
              <| compacting_since := if compacting next then Some timestamp else None |>
              <| compacted_awaiting_prompt :=
                   awaiting_prompt_after (compacted_awaiting_prompt state) signal next
                     (compaction_closed t) timestamp |>
              <| turn_started_at := if opened || resets_context then Some timestamp
                                    else turn_started_at state |>
              <| turn_ended_at := if closes_request then Some timestamp
                                  else match prior with
                                       | Some prior => turn_ended_at prior | None => None
                                       end |>
              <| ping_turn := is_some_and prior (fun prior : Row => ping_turn prior) && ignored |>
              <| waiting_since := waiting_since_ |>
              <| open_ask := open_ask_after signal next prior timestamp |>
              <| started_turn_id := started ids |> <| superseded_turn_id := superseded ids |>
              <| closed_turn_id := closed ids |> |>
         <| compaction_count := wrapping_add_u32 (compaction_count state)
                                  (if completed_compaction then 1%N else 0%N) |>
         <| soft_compact := soft_compact_ |>
         <| tool_calls := count_tool signal (tool_calls state) |>
         <| user_turn_started_at :=
              if (opened && negb harness_prompt) || resets_context then Some timestamp
              else user_turn_started_at state |>
         <| last_prompt_at := if turn_started && negb keepalive_turn then Some timestamp
                              else last_prompt_at state |>
         <| keepalive_since := keepalive_since_ |>
         <| queued_asks := if rests then [] else asks |>
         <| compaction_retired :=
              retires_usage
              || (already_retired
                  && match signal with CompactionEnded _ _ => true | _ => false end) |>)
  end.

(** ** Projections of an observation *)

Definition finish_clock (prior : option Row) (status : AgentStatus) (phase : TurnPhase) (at' : Z)
  : option Z :=
  if match status with Success | Lifecycle.Failed => true | _ => false end
     || (bool_decide (status = Running) && bool_decide (phase = Phase.Parked))
  then Some (unwrap_or (match prior with Some prior => finished_at prior | None => None end) at')
  else None.

(** The path and the observed branch. *)
Definition worktree_projection (observation : Obs.AgentLifecycleObservation) (prior : option Row)
    (establishes_identity : bool) (event_name : option text) : option text * option text :=
  let event_path := Obs.worktree_path observation in
  let prior_path := match prior with Some prior => worktree_path prior | None => None end in
  let event_first := establishes_identity || is_none event_name in
  let path := if event_first then or_else event_path prior_path else or_else prior_path event_path in
  (path,
   ofilter (Obs.worktree_branch observation) (fun branch =>
     negb (is_empty branch)
     && is_none_or event_path (fun event_path => bool_decide (Some event_path = path)))).

Definition runtime_projection (observation : Obs.AgentLifecycleObservation) (prior : option Row)
    (id : text) : option RuntimeOwner :=
  let event_owner :=
    or_else (Obs.runtime_owner observation)
      (option_map (fun pid =>
         {| runtime_kind := OwnerAgent; subject_id := id; runtime_pid := pid;
            process_start := Obs.agent_process_start observation |}) (Obs.agent_pid observation)) in
  let prior_owner := match prior with Some prior => runtime_owner prior | None => None end in
  match event_owner, prior_owner with
  | Some event, Some prior =>
      if bool_decide (runtime_kind event = OwnerDaemon)
         && bool_decide (runtime_kind prior = OwnerAgent) && bool_decide (subject_id prior = id)
      then Some prior else Some event
  | Some event, None => Some event
  | None, prior => prior
  end.

Definition task_projection (observation : Obs.AgentLifecycleObservation) (prior : option Row)
    (is_subagent : bool) (event_task : option text) : option text :=
  if is_subagent
  then or_else event_task (match prior with Some prior => task prior | None => None end)
  else Label.non_empty_string (Obs.task observation).

Definition pane_projection (observation : Obs.AgentLifecycleObservation) (prior : option Row)
  : option PaneRef :=
  let observed :=
    or_else (Obs.pane_stamp observation) (option_map from_id (Obs.pane_id observation)) in
  match observed, match prior with Some prior => pane prior | None => None end with
  | Some observed, Some prior =>
      if bool_decide (pane_id observed = pane_id prior) && is_none (pane_pid observed)
      then Some prior else Some observed
  | Some observed, None => Some observed
  | None, prior => prior
  end.

(** Established lineage stays; the adoption event makes a root a child. *)
Definition parent_projection (prior : option Row) (event_name event_parent : option text)
  : option text :=
  match prior with
  | Some prior =>
      if is_some (parent_agent_id prior) then parent_agent_id prior
      else if bool_decide (event_name = Some (str "SubagentAdopted")) then event_parent else None
  | None => event_parent
  end.

(** The usage of the row after the event, the retired occupancy and the
    [compacted_unmeasured] flag. *)
Definition usage_projection (state : Row) (prior : option Row)
    (observation : Obs.AgentLifecycleObservation) (retires_usage : bool)
    (default_window : option N) : Usage.AgentUsageSummary * option N * bool :=
  let measures (u : Usage.AgentUsageSummary) :=
    is_some_and (Usage.input_context_tokens u) (fun input => (0 <? input)%N) in
  let carried := option_map usage prior in
  let '(carried, retired) :=
    match carried with
    | Some carried =>
        if retires_usage then
          (Some (Usage.clear_current_window carried),
           match Usage.context_used_tokens carried with
           | Some occupancy =>
               if measures carried || is_none (retired_context_tokens state)
               then Some occupancy else retired_context_tokens state
           | None => retired_context_tokens state
           end)
        else (Some carried, retired_context_tokens state)
    | None => (None, retired_context_tokens state)
    end in
  let observed := Obs.usage observation in
  let observed :=
    if is_some retired && bool_decide (Usage.context_used_tokens observed = retired)
    then Usage.clear_current_window observed else observed in
  (Usage.merge observed carried default_window, retired,
   if measures observed then false else compacted_unmeasured state || retires_usage).

Section Reducer.
Context (default_window : text -> option N).

(** *** [assemble_agent_state], in its stages *)

(** The carried row under the launch settings and the signal. *)
Definition signal_row (kind id : text) (timestamp : Z) (event_name : option text)
    (observation : Obs.AgentLifecycleObservation) (prior : option Row) : bool * Row :=
  let signal := Obs.signal observation in
  let state := fold_launch_params (carried_base kind id prior timestamp) (Obs.launch observation) in
  let resumed :=
    if bool_decide (event_name = Some (str "rimz.agent-resumed")) then Some timestamp else None in
  let '(retires_usage, state) :=
    fold_lifecycle (state <| core := core state <| resumed_at := resumed |> |>) prior timestamp
      signal (Obs.prompt observation) (Obs.ask_queue observation)
      (bool_decide (Obs.state_snapshot observation = Some true)) in
  let ended := match signal with Ended => true | _ => false end in
  let status_ :=
    if ended && Instance_.reaped_end_rests_at_idle event_name
                  (option_map (fun prior : Row => agent_status prior) prior)
    then Idle else agent_status state in
  (retires_usage,
   state <| core := core state <| agent_status := status_ |>
                               <| ended_at := if ended then Some timestamp else None |> |>
         <| finished_at := finish_clock prior status_ (agent_phase state) timestamp |>).

Definition measure_row (kind : text) (observation : Obs.AgentLifecycleObservation)
    (prior : option Row) (signaled : bool * Row) : Row :=
  let '(retires_usage, state) := signaled in
  let '(usage_, retired, unmeasured) :=
    usage_projection state prior observation retires_usage (default_window kind) in
  state <| usage := usage_ |> <| retired_context_tokens := retired |>
        <| compacted_unmeasured := unmeasured |>.

(** The card's identity, its pane and process, its lineage, checkout and task. *)
Definition place_row (id : text) (timestamp : Z) (event_name : option text)
    (observation : Obs.AgentLifecycleObservation) (prior : option Row)
    (event_parent event_task : option text) (card : CardIdentity) (state : Row) : Row :=
  let parent := parent_projection prior event_name event_parent in
  let '(path, branch) :=
    worktree_projection observation prior (establishes_identity (Obs.signal observation))
      event_name in
  let provider_subagent :=
    is_some parent && is_none_or prior (fun prior : Row => is_none (launch_depth prior)) in
  let state :=
    state
    <| core := core state <| name := Some (card_name card) |> |>
    <| name_explicit := card_name_explicit card |>
    <| kind_ordinal := Some (card_kind_ordinal card) |>
    <| pane := pane_projection observation prior |>
    <| runtime_owner := runtime_projection observation prior id |> in
  let on_screen :=
    if bool_decide (Obs.on_screen observation = Some true) then Some timestamp
    else if is_some_and prior (fun prior => negb (same_agent_instance prior state)) then None
    else on_screen_at state in
  state
  <| core := core state <| on_screen_at := on_screen |> <| parent_agent_id := parent |>
                        <| worktree_path := path |> |>
  <| worktree_branches := match branch with
                          | Some branch => {[branch]} ∪ worktree_branches state
                          | None => worktree_branches state
                          end |>
  <| worktree_branch := or_else branch (worktree_branch state) |>
  <| task := task_projection observation prior provider_subagent event_task |>.

(** An open ping's prompt is the harness's, not the agent's latest ask. *)
Definition label_row (observation : Obs.AgentLifecycleObservation) (state : Row) : Row :=
  let state :=
    match Obs.prompt observation with
    | Some prompt => if ping_turn state then state
                     else observe_prompt state prompt (prompt_is_wake_only prompt)
    | None => state
    end in
  state
  <| description := or_else (Obs.description observation) (description state) |>
  <| transcript_path := or_else (Obs.transcript_path observation) (transcript_path state) |>
  <| origin := or_else (Obs.origin observation) (origin state) |>
  <| account_key := or_else (Obs.account_key observation) (account_key state) |>
  <| compacted_from := or_else (Obs.compacted_from observation) (compacted_from state) |>.

Definition shell_row (observation : Obs.AgentLifecycleObservation) (state : Row) : Row :=
  let state_snapshot := bool_decide (Obs.state_snapshot observation = Some true) in
  let ends_session_shells :=
    negb state_snapshot
    && match Obs.signal observation with Ended | Registered => true | _ => false end in
  let shells := if ends_session_shells then [] else background_shells state in
  let shells :=
    match Obs.background_shells observation with
    | Some report => if state_snapshot then shells else Shells.apply report shells
    | None => shells
    end in
  state <| core := core state <| background_shells := shells |> |>.

Definition assemble_agent_state (kind id : text) (timestamp : Z) (event_name : option text)
    (observation : Obs.AgentLifecycleObservation) (prior : option Row)
    (event_parent event_task : option text) (card : CardIdentity) : Row :=
  let state :=
    measure_row kind observation prior
      (signal_row kind id timestamp event_name observation prior) in
  let state :=
    place_row id timestamp event_name observation prior event_parent event_task card state in
  trim_ended_text (shell_row observation (label_row observation state)).

(** *** [assemble_launch_state], in its stages *)

(** The launch's identity and settings on the carried row. *)
Definition launch_settings (kind : text) (timestamp : Z) (payload : Launch.AgentLaunchPayload)
    (prior : option Row) : Row :=
  let state := carried_base kind (Launch.agent_id payload) prior timestamp in
  let state :=
    state <| system_prompt_digest :=
               or_else (Launch.system_prompt_digest payload) (system_prompt_digest state) |> in
  let state := match Launch.launch_id payload with Some id => rebind state id | None => state end in
  fold_launch_params state (Launch.launch payload).

Definition launch_placement (payload : Launch.AgentLaunchPayload) (prior : option Row) (state : Row)
  : Row :=
  let state :=
    match prior with
    | Some prior => if bool_decide (Launch.state payload = Bound)
                    then state <| workflow := workflow prior |> else state
    | None => state
    end in
  let state :=
    state
    <| core := core state <| mode := Params.mode (Launch.launch payload) |> |>
    <| pane := or_else (option_map from_id (Launch.pane_id payload)) (pane state) |>
    <| runtime_owner := or_else (Launch.runtime_owner payload) (runtime_owner state) |> in
  match Launch.prompt payload with
  | Some prompt => observe_prompt state prompt (prompt_is_wake_only prompt)
  | None => state
  end.

Definition launch_status (payload : Launch.AgentLaunchPayload) : AgentStatus * TurnPhase :=
  match Launch.state payload with
  | LaunchFailed => (Lifecycle.Failed, Phase.Idle)
  | Starting | Bound =>
      if is_some (Launch.prompt payload) then (Running, Phase.Reasoning) else (Idle, Phase.Idle)
  end.

Definition launch_outcome (timestamp : Z) (payload : Launch.AgentLaunchPayload) (prior : option Row)
    (card : CardIdentity) (state : Row) : Row :=
  let '(status_, phase_) := launch_status payload in
  let running := bool_decide (status_ = Running) in
  state
  <| core :=
       core state
       <| name := Some (card_name card) |>
       <| worktree_path := or_else (Launch.worktree_path payload) (worktree_path state) |>
       <| agent_status := status_ |> <| agent_phase := phase_ |>
       <| turn_started_at := if running then Some timestamp else turn_started_at state |> |>
  <| name_explicit := card_name_explicit card |>
  <| kind_ordinal := Some (card_kind_ordinal card) |>
  <| task := prompt state |>
  <| description := or_else (Launch.description payload) (description state) |>
  <| worktree_branch := or_else (Launch.worktree_branch payload) (worktree_branch state) |>
  <| worktree_branches :=
       match Launch.worktree_branch payload with
       | Some branch => if is_empty branch then worktree_branches state
                        else {[branch]} ∪ worktree_branches state
       | None => worktree_branches state
       end |>
  <| finished_at := finish_clock prior status_ phase_ timestamp |>
  <| user_turn_started_at := if running then Some timestamp else user_turn_started_at state |>
  <| keepalive_since := if running then None else keepalive_since state |>.

Definition assemble_launch_state (kind : text) (timestamp : Z) (payload : Launch.AgentLaunchPayload)
    (prior : option Row) (card : CardIdentity) : Row :=
  let state := launch_placement payload prior (launch_settings kind timestamp payload prior) in
  let state := launch_outcome timestamp payload prior card state in
  if is_some_and prior (fun prior => negb (same_agent_instance prior state))
  then state <| core := core state <| on_screen_at := None |> |> else state.

(** ** Inheritance between the conversations of one process *)

Definition inherit_compaction_registration (m : gmap AgentKey Row) (continuation : Row) : Row :=
  let! from := compacted_from continuation else continuation in
  let! predecessor := m !! (agent_kind continuation, from) else continuation in
  let continuation :=
    continuation
    <| last_prompt_at := omax (last_prompt_at continuation) (last_prompt_at predecessor) |> in
  let! registered := registered_at predecessor else continuation in
  if is_some_and (registered_at continuation) (fun own => (registered <? own)%Z)
  then continuation <| core := core continuation <| registered_at := Some registered |> |>
  else continuation.

Definition inherit_launch_identity (m : gmap AgentKey Row) (index : LaunchIdentityIndex)
    (successor : Row) : Row :=
  if is_some (launch_id successor) || is_none (pane successor) || is_provider_subagent successor
     || negb (bool_decide (option_map runtime_kind (runtime_owner successor) = Some OwnerAgent))
  then successor
  else
    let! from := predecessor index m successor else successor in
    successor
    <| core :=
         core successor
         <| launch_id := launch_id from |> <| prior_launch_ids := prior_launch_ids from |>
         <| profile := profile from |> <| mode := mode from |> <| checkout := checkout from |>
         <| role := role from |> <| team := team from |> <| molted_from := molted_from from |>
         <| channel_stamp := channel_stamp from |> <| launch_depth := launch_depth from |>
         <| launched_by := launched_by from |> <| parent_agent_id := parent_agent_id from |>
         <| parent_agent_kind := parent_agent_kind from |> |>
    <| launch_warnings := launch_warnings from |> <| profile_scope := profile_scope from |>
    <| login := login from |> <| tier := tier from |> <| record := record from |>
    <| isolation := isolation from |> <| add_dirs := add_dirs from |>
    <| untrusted_checkout := untrusted_checkout from |>
    <| effective_isolation := effective_isolation from |> <| loop_task := loop_task from |>
    <| workflow := workflow from |> <| automation := automation from |>
    <| launch_group := launch_group from |> <| launch_ordinal := launch_ordinal from |>.

(** ** Messages on the row *)

Definition message_agent_key (agents : list Row) (payload : Msg.MessageEventPayload)
  : option AgentKey :=
  let compact_command :=
    bool_decide (Msg.body payload = Command)
    && match Msg.status payload with Status.Sent | Status.Delivered => true | _ => false end in
  let soft_compact_ :=
    match Msg.soft_compact payload, Msg.status payload with
    | Some WrapUp, Status.Sent | Some Continue, Status.Queued => true
    | _, _ => false
    end in
  if negb compact_command && negb soft_compact_ then None
  else
    option_map row_key
      (match List.find (fun agent : Row =>
               bool_decide (agent_kind agent = Msg.kind payload)
               && bool_decide (agent_id agent = Msg.agent_id payload)) agents with
       | Some agent => Some agent
       | None =>
           let! agent_name := Msg.agent_name payload else None in
           List.find (fun agent : Row =>
             bool_decide (agent_kind agent = Msg.kind payload)
             && bool_decide (name agent = Some agent_name)) agents
       end).

Definition stamp_row (agent : Row) (payload : Msg.MessageEventPayload) (timestamp : Z) : Row :=
  let agent :=
    match Msg.soft_compact payload, Msg.status payload with
    | Some WrapUp, Status.Sent =>
        agent <| soft_compact := Some {| steered_at := timestamp;
                                         compactions := Some (compaction_count agent);
                                         progress := WrappingUp |} |>
    | Some Continue, Status.Queued =>
        agent <| soft_compact := option_map (fun mark => mark <| progress := Continued |>)
                                            (soft_compact agent) |>
    | _, _ => agent
    end in
  if negb (bool_decide (Msg.body payload = Command)) then agent
  else
    let agent :=
      agent <| last_compact_command_tokens :=
                 or_else (Msg.compacted_context_tokens payload)
                         (last_compact_command_tokens agent) |> in
    if bool_decide (Msg.status payload = Status.Sent)
    then agent <| core := core agent <| compacted_awaiting_prompt := Some timestamp |> |>
    else agent.

Definition stamp_message (m : gmap AgentKey Row) (payload : Msg.MessageEventPayload) (timestamp : Z)
  : gmap AgentKey Row :=
  let! key := message_agent_key (rows_of m) payload else m in
  alter (fun agent => stamp_row agent payload timestamp) key m.

(** ** The rebirth boundary *)

Definition unstamp (agent : Row) : Row :=
  agent <| core := core agent <| on_screen_at := None |> |>
        <| pane := None |> <| kind_ordinal := None |>.
Definition unstamp_for_rebirth (agents : gmap AgentKey Row) : gmap AgentKey Row := unstamp <$> agents.

(** ** The state of the fold and its events *)

Record ReducerState := {
  rows : gmap AgentKey Row;
  identity : CardIdentityAllocator;
  launch_identity : LaunchIdentityIndex
}.

Definition insert_row (st : ReducerState) (key : AgentKey) (state : Row) : ReducerState :=
  {| rows := <[key := state]> (rows st); identity := identity st;
     launch_identity := replace (launch_identity st) key state |}.

Definition drop_row (st : ReducerState) (key : AgentKey) : ReducerState :=
  {| rows := delete key (rows st); identity := release_key (identity st) key;
     launch_identity := remove (launch_identity st) key |}.

Definition retire_provisional (st : ReducerState) (key : AgentKey) : option Row * ReducerState :=
  let prior := rows st !! key in
  let st := drop_row st key in
  (prior, {| rows := rows st; identity := consume_launch_key (identity st) key;
             launch_identity := launch_identity st |}).

Section Kinds.
Context (known_kinds : list text) (hash_u64 : text -> N -> N).

Definition adopt_provisional (st : ReducerState) (kind : text) (key : AgentKey)
    (observation : Obs.AgentLifecycleObservation) : option Row * ReducerState :=
  let by_pane st :=
    match (let! pane_id := Obs.pane_id observation else None in
           adoptable_owner_for_pane (rows st) kind pane_id key) with
    | Some provisional_key => retire_provisional st provisional_key
    | None => (None, st)
    end in
  match (let! name := Obs.agent_name observation else None in
         adoptable_owner_for_name (identity st) (rows st) kind name key) with
  | Some provisional_key =>
      match retire_provisional st provisional_key with
      | (Some prior, st) => (Some prior, st)
      | (None, st) => by_pane st
      end
  | None => by_pane st
  end.

(** The launch of a retired placeholder moves onto the row that exists. *)
Definition stamp_launch (existing provisional : Row) : Row :=
  let existing :=
    match launch_id provisional with Some id => rebind existing id | None => existing end in
  existing
  <| core := core existing <| mode := mode provisional |> |>
  <| record := record provisional |> <| tier := tier provisional |>
  <| isolation := isolation provisional |>
  <| effective_isolation :=
       or_else (effective_isolation provisional) (effective_isolation existing) |>.

Definition release_stamped_provisional_for_existing (st : ReducerState) (kind : text)
    (key : AgentKey) (observation : Obs.AgentLifecycleObservation) : ReducerState :=
  if is_some_and (rows st !! key) (fun r : Row => is_provider_subagent r) then st
  else if is_none_or (rows st !! key) (fun r : Row => is_some (pane r) && is_none (ended_at r))
  then st
  else
    match (let! pane_id := Obs.pane_id observation else None in
           adoptable_owner_for_pane (rows st) kind pane_id key) with
    | None => st
    | Some provisional_key =>
        match retire_provisional st provisional_key with
        | (None, st) => st
        | (Some provisional, st) =>
            match rows st !! key with
            | None => st
            | Some existing => insert_row st key (stamp_launch existing provisional)
            end
        end
    end.

(** The placeholder whose launch the event completes.  A child's event adopts
    none; an event of a known session only takes over the launch. *)
Definition provisional_prior (st : ReducerState) (kind : text) (key : AgentKey)
    (observation : Obs.AgentLifecycleObservation) : option Row * ReducerState :=
  if is_some (Obs.parent_agent_id observation) then (None, st)
  else if is_some (rows st !! key)
  then (None, release_stamped_provisional_for_existing st kind key observation)
  else adopt_provisional st kind key observation.

Definition quarantined (signal : LifecycleSignal) (prior : option Row)
    (has_compaction_predecessor : bool) (event_parent event_task : option text) : bool :=
  is_none prior
  && match signal with
     | Lost => true
     | Compacting | CompactionEnded _ _ => negb has_compaction_predecessor
     | SubagentStopped _ => is_some event_parent && is_none event_task
     | _ => false
     end.

(** A first sight that ends a compaction takes the marks of its predecessor. *)
Definition inherit_compaction_marks (m : gmap AgentKey Row) (kind : text)
    (observation : Obs.AgentLifecycleObservation) (state : Row) : Row :=
  let from := let! id := Obs.compacted_from observation else None in m !! (kind, id) in
  state
  <| core :=
       core state
       <| compacted_awaiting_prompt :=
            or_else (compacted_awaiting_prompt state)
              (let! from := from else None in compacted_awaiting_prompt from) |> |>
  <| soft_compact :=
       option_map (fun mark => mark <| compactions := None |>)
         (let! from := from else None in soft_compact from) |>.

Definition first_sight (m : gmap AgentKey Row) (kind : text)
    (observation : Obs.AgentLifecycleObservation) (prior : option Row) (state : Row) : Row :=
  match prior, Obs.signal observation with
  | None, CompactionEnded _ _ => inherit_compaction_marks m kind observation state
  | _, _ => state
  end.

(** The row a lifecycle event leaves: assembled, then with what it inherits
    from its predecessors. *)
Definition lifecycle_row (st : ReducerState) (kind id : text) (t : Z) (event_name : option text)
    (observation : Obs.AgentLifecycleObservation) (prior : option Row) (card : CardIdentity) : Row :=
  let state :=
    assemble_agent_state kind id t event_name observation prior
      (Label.non_empty_string (Obs.parent_agent_id observation))
      (Label.non_empty_string (Obs.task observation)) card in
  let state := first_sight (rows st) kind observation prior state in
  inherit_launch_identity (rows st) (launch_identity st)
    (inherit_compaction_registration (rows st) state).

Definition reduce_lifecycle_event (st : ReducerState) (event : FoldEvent)
    (event_name : option text) (observation : Obs.AgentLifecycleObservation) : ReducerState :=
  let kind := source event in
  let signal := Obs.signal observation in
  let! agent_id := Obs.agent_id observation else st in
  let key := (kind, agent_id) in
  let st :=
    if bool_decide (Obs.origin observation = Some SideConversation)
    then drop_row {| rows := rows st; identity := mark_side_session (identity st) agent_id;
                     launch_identity := launch_identity st |} key
    else st in
  if is_side_session (identity st) agent_id then st
  else
    let '(provisional, st) := provisional_prior st kind key observation in
    let event_parent := Label.non_empty_string (Obs.parent_agent_id observation) in
    let event_task := Label.non_empty_string (Obs.task observation) in
    let prior := or_else (rows st !! key) provisional in
    if quarantined signal prior (is_some (Obs.compacted_from observation)) event_parent event_task
    then st
    else
      let '(card, identity) :=
        assign known_kinds hash_u64 (identity st) kind agent_id observation prior in
      insert_row {| rows := rows st; identity := identity; launch_identity := launch_identity st |}
        key (lifecycle_row st kind agent_id (timestamp event) event_name observation prior card).

(** The row under the identity and the place of the resume wrapper. *)
Definition attach_settings (payload : Attach.AgentAttachPayload) (state : Row) : Row :=
  let named := is_some (Attach.record payload) in
  state
  <| core :=
       core state
       <| mode := if named || is_some (Attach.mode payload) then Attach.mode payload
                  else mode state |> |>
  <| login := match Attach.login payload with
              | Some login => if bool_decide (login = str "default") then None else Some login
              | None => login state
              end |>
  <| isolation := or_else (Attach.isolation payload) (isolation state) |>
  <| effective_isolation :=
       or_else (Attach.effective_isolation payload) (effective_isolation state) |>
  <| record := if named then Attach.record payload else record state |>
  <| tier := if named then Attach.tier payload else tier state |>.

Definition attach_place (payload : Attach.AgentAttachPayload) (state : Row) : Row :=
  let placed :=
    state
    <| pane := Some (from_id (Attach.pane_id payload) <| pane_pid := Attach.pane_pid payload |>) |>
    <| runtime_owner := Some (Attach.runtime_owner payload) |> in
  if same_agent_instance state placed then placed
  else placed <| core := core placed <| on_screen_at := None |> |>.

Definition reduce_agent_attach (st : ReducerState) (event : FoldEvent)
    (payload : Attach.AgentAttachPayload) : ReducerState :=
  let key := (source event, Attach.agent_id payload) in
  if is_none (rows st !! key) && is_none (Attach.launch_id payload) then st
  else
    let state := unwrap_or (rows st !! key)
                   (seed (source event) (Attach.agent_id payload) Idle (timestamp event)) in
    let state := match Attach.launch_id payload with Some id => rebind state id | None => state end in
    insert_row st key (attach_place payload (attach_settings payload state)).

Definition reduce_agent_launch (st : ReducerState) (event : FoldEvent)
    (payload : Launch.AgentLaunchPayload) : ReducerState :=
  let kind := source event in
  let id := Launch.agent_id payload in
  let key := (kind, id) in
  let owner := owner_for_name (identity st) (Launch.agent_name payload) in
  if negb (PetNames.valid_agent_name known_kinds (Launch.agent_name payload)) then st
  else if launch_consumed (identity st) id then st
  else if is_provisional id
          && is_some_and owner (fun owner =>
               bool_decide (owner.1 = kind) && negb (bool_decide (owner = key))
               && is_some (rows st !! owner))
  then {| rows := rows st; identity := consume_launch_key (identity st) key;
          launch_identity := launch_identity st |}
  else if bool_decide (Launch.state payload = LaunchFailed) && is_none (rows st !! key)
          && is_none owner
  then st
  else
    let prior := rows st !! key in
    let '(card, identity) := assign_launch known_kinds hash_u64 (identity st) kind id payload prior in
    insert_row {| rows := rows st; identity := identity; launch_identity := launch_identity st |} key
      (assemble_launch_state kind (timestamp event) payload prior card).

Definition reduce_event (st : ReducerState) (event : FoldEvent) : ReducerState :=
  match event_kind event with
  | SessionRebirth =>
      let rows := unstamp_for_rebirth (rows st) in
      {| rows := rows; identity := reset_ordinals (identity st); launch_identity := from_map rows |}
  | AgentLaunch payload => reduce_agent_launch st event payload
  | AgentAttach payload => reduce_agent_attach st event payload
  | AgentLaunchWarnings agent_id warnings =>
      let key := (source event, agent_id) in
      match rows st !! key with
      | None => st
      | Some agent => insert_row st key (agent <| launch_warnings := warnings |>)
      end
  | AgentLifecycle event_name observation => reduce_lifecycle_event st event event_name observation
  | AgentWorkflowCleared agent_id workflow_ =>
      let key := (source event, agent_id) in
      {| rows := alter (fun agent => if bool_decide (workflow agent = Some workflow_)
                                     then agent <| workflow := None |> else agent) key (rows st);
         identity := identity st; launch_identity := launch_identity st |}
  | MessageEvent payload =>
      {| rows := stamp_message (rows st) payload (timestamp event); identity := identity st;
         launch_identity := launch_identity st |}
  | Other => st
  end.

Definition start (seed_rows : gmap AgentKey Row) (state : AgentIdentityState) : ReducerState :=
  {| rows := seed_rows; identity := from_map_and_state known_kinds seed_rows state;
     launch_identity := from_map seed_rows |}.

(** [reduce_agent_states_seeded_with_identity]. *)
Definition reduce (seed_rows : gmap AgentKey Row) (state_ : AgentIdentityState)
    (events : list FoldEvent) : gmap AgentKey Row * AgentIdentityState :=
  let st := foldl reduce_event (start seed_rows state_) events in
  (rows st, state (identity st)).
End Kinds.
End Reducer.
