(* ===== verification/ReducerFacts.v ===== *)
(** * Facts of the agent reducer

    The launch identity index is a function of the rows ([index_ok],
    [index_unique]) and answers what a scan of the rows would
    ([predecessor_scans]); what an assembled row keeps of its prior; and
    [alike], the relation between a fold and the same fold resumed from its
    persisted state, which every tidy event preserves. *)

From S2P Require Import Prelude.
From S2P Require Import Agents Message Prompt Card CardIdentity CardIdentityFacts Reducer.
From S2P Require Import Lifecycle.
Import Agents.Placement Agents.Agent CardIdentity.Identity.

(** ** The index of launch identities *)

(** The instance a row is indexed under. *)
Definition indexed (r : Row) : option LaunchInstanceKey :=
  if is_none (launch_id r) || is_provider_subagent r then None else launch_instance_key r.

Record index_ok (index : LaunchIdentityIndex) (m : gmap AgentKey Row) : Prop := {
  index_agents k : by_agent index !! k = (m !! k) ≫= indexed;
  index_instances i k :
    k ∈ unwrap_or (by_instance index !! i) ∅ <-> by_agent index !! k = Some i;
  index_filled i : by_instance index !! i <> Some ∅
}.

Lemma index_unique index index' m : index_ok index m -> index_ok index' m -> index = index'.
Proof.
  intros [A1 B1 C1] [A2 B2 C2]. destruct index as [bi ba], index' as [bi' ba']; simpl in *.
  assert (ba = ba') as <-. { apply map_eq. intros k. by rewrite A1, A2. }
  f_equal. apply map_eq. intros i.
  assert (Hs : unwrap_or (bi !! i) ∅ = unwrap_or (bi' !! i) ∅).
  { apply set_eq. intros k. by rewrite B1, B2. }
  specialize (C1 i). specialize (C2 i).
  destruct (bi !! i), (bi' !! i); simpl in *; congruence.
Qed.

Lemma empty_index_ok : index_ok empty_index ∅.
Proof. split; simpl; intros; [by rewrite !lookup_empty|rewrite !lookup_empty; set_solver|by rewrite lookup_empty]. Qed.

Lemma remove_ok index m k : index_ok index m -> index_ok (remove index k) (delete k m).
Proof.
  intros [A B C]. unfold remove.
  destruct (by_agent index !! k) as [i|] eqn:E.
  2:{ split; try done. intros k'. rewrite A. destruct (decide (k = k')) as [<-|Hk].
      - rewrite lookup_delete_eq. rewrite <- A. by rewrite E.
      - by rewrite lookup_delete_ne. }
  assert (Hin : k ∈ unwrap_or (by_instance index !! i) ∅) by (by apply B).
  destruct (by_instance index !! i) as [ks|] eqn:Ei; [|set_solver]. simpl in Hin.
  assert (A' : forall k', delete k (by_agent index) !! k' = (delete k m !! k') ≫= indexed).
  { intros k'. destruct (decide (k = k')) as [<-|Hk]; [by rewrite !lookup_delete_eq|].
    by rewrite !lookup_delete_ne. }
  assert (B' : forall i' k', k' ∈ unwrap_or
     ((if bool_decide (ks ∖ {[k]} = ∅) then delete i (by_instance index)
       else <[i := ks ∖ {[k]}]> (by_instance index)) !! i') ∅ <-> delete k (by_agent index) !! k' = Some i').
  { intros i' k'. rewrite lookup_delete_Some. rewrite <- (B i' k').
    destruct (decide (i = i')) as [<-|Hi].
    - rewrite Ei. simpl. case_bool_decide as Hks.
      + rewrite lookup_delete_eq. simpl. set_solver.
      + rewrite lookup_insert_eq. simpl. set_solver.
    - assert (Hk : forall X : Prop, (X -> k <> k') -> (X <-> k <> k' /\ X)) by naive_solver.
      case_bool_decide; [rewrite lookup_delete_ne by done|rewrite lookup_insert_ne by done].
      all: apply Hk; intros Hx%B <-; congruence. }
  split; [done|done|]. simpl. intros i'. case_bool_decide as Hks.
  - intros [_ H]%lookup_delete_Some. by apply C in H.
  - intros [[_ H]|[_ H]]%lookup_insert_Some; [done|by apply C in H].
Qed.

Lemma replace_ok index m k r : index_ok index m -> index_ok (replace index k r) (<[k := r]> m).
Proof.
  intros Hok. unfold replace. pose proof (remove_ok index m k Hok) as Hr.
  rewrite <- (insert_delete_eq m).
  set (index' := remove index k) in *. set (m' := delete k m) in *.
  assert (Hk : m' !! k = None) by apply lookup_delete_eq. clearbody index' m'.
  destruct Hr as [A B C].
  assert (Hnone : indexed r = None -> index_ok index' (<[k := r]> m')).
  { intros E. split; [|done|done]. intros k'. rewrite A.
    destruct (decide (k = k')) as [<-|Hne]; [by rewrite lookup_insert_eq, Hk|by rewrite lookup_insert_ne]. }
  unfold indexed in Hnone.
  destruct (is_none (launch_id r) || is_provider_subagent r) eqn:El; [by apply Hnone|].
  destruct (launch_instance_key r) as [i|] eqn:Ei; [|by apply Hnone]. clear Hnone.
  assert (Hnew : by_agent index' !! k = None) by (by rewrite A, Hk).
  split; simpl.
  - intros k'. destruct (decide (k = k')) as [<-|Hne].
    + rewrite !lookup_insert_eq. simpl. unfold indexed. by rewrite El, Ei.
    + by rewrite !lookup_insert_ne.
  - intros i' k'. destruct (decide (k = k')) as [<-|Hne].
    + rewrite lookup_insert_eq. destruct (decide (i = i')) as [<-|Hi].
      * rewrite lookup_insert_eq. simpl. set_solver.
      * rewrite lookup_insert_ne by done. rewrite B, Hnew. naive_solver.
    + rewrite (lookup_insert_ne (by_agent index')) by done. rewrite <- B. destruct (decide (i = i')) as [<-|Hi].
      * rewrite lookup_insert_eq. simpl. set_solver.
      * by rewrite lookup_insert_ne.
  - intros i' [[_ H]|[_ H]]%lookup_insert_Some; [|by apply C in H].
    assert (k ∈ (∅ : gset AgentKey)) by (rewrite <- H; set_solver). set_solver.
Qed.

Lemma from_map_ok m : index_ok (from_map m) m.
Proof.
  assert (H : forall (l : list (AgentKey * Row)) index m0,
    NoDup l.*1 -> (forall k, k ∈ l.*1 -> m0 !! k = None) -> index_ok index m0 ->
    index_ok (foldl (fun index '(key, state) => replace index key state) index l)
             (list_to_map l ∪ m0)).
  { induction l as [|[k r] l IH]; intros index m0 Hn Hd Hok; simpl.
    - by rewrite (left_id_L ∅ (∪)).
    - apply NoDup_cons in Hn as [Hk Hn].
      replace (<[k := r]> (list_to_map l) ∪ m0) with (list_to_map l ∪ <[k := r]> m0 : gmap AgentKey Row).
      + apply IH; [done| |by apply replace_ok]. intros k' Hk'. rewrite lookup_insert_ne; [|set_solver].
        apply Hd. simpl. set_solver.
      + rewrite <- insert_union_l, insert_union_r; [done|]. by apply not_elem_of_list_to_map_1. }
  pose proof (H (ordered m) empty_index ∅ (ordered_NoDup m) ltac:(done) empty_index_ok) as Hok.
  rewrite (right_id_L ∅ (∪)) in Hok. unfold from_map.
  replace m with (list_to_map (ordered m) : gmap AgentKey Row) at 2; [done|].
  rewrite (list_to_map_proper (ordered m) (map_to_list m)) by first [apply ordered_NoDup|apply ordered_perm].
  apply list_to_map_to_list.
Qed.

(** The rows keep their index entries when the rest of them changes. *)
Lemma index_ok_same (index : LaunchIdentityIndex) (m m' : gmap AgentKey Row) :
  (forall k, m' !! k ≫= indexed = m !! k ≫= indexed) -> index_ok index m -> index_ok index m'.
Proof. intros H [A B C]. split; [|done|done]. intros k. by rewrite A, H. Qed.

(** *** The index answers what a scan answers *)

Definition keyed (m : gmap AgentKey Row) : Prop := forall k r, m !! k = Some r -> row_key r = k.

Lemma StronglySorted_map {A B} (f : A -> B) (R : B -> B -> Prop) l :
  StronglySorted R (map f l) <-> StronglySorted (fun x y => R (f x) (f y)) l.
Proof.
  induction l as [|x l IH]; simpl; [split; constructor|]. split; intros H; inversion H; subst.
  - constructor; [by apply IH|]. by apply Forall_map.
  - constructor; [by apply IH|]. by apply Forall_map.
Qed.

Lemma StronglySorted_filter {A} (f : A -> bool) (R : A -> A -> Prop) l :
  StronglySorted R l -> StronglySorted R (List.filter f l).
Proof.
  induction 1 as [|x l Hs IH Hx]; simpl; [constructor|]. destruct (f x); [|done].
  constructor; [done|]. apply Forall_forall. intros y Hy%elem_of_filter_bool.
  eapply Forall_forall in Hx; [done|]. by destruct Hy.
Qed.

Definition by_key (x y : Row) : Prop := key_leb (row_key x) (row_key y) = true.

Lemma rows_keys m : keyed m -> map row_key (rows_of m) = (ordered m).*1.
Proof.
  intros Hk. unfold rows_of.
  assert (H : forall e, e ∈ ordered m -> row_key e.2 = e.1).
  { intros [k r] He%elem_of_ordered. by apply Hk. }
  induction (ordered m) as [|e l IH]; [done|]. simpl. f_equal.
  - apply H. constructor.
  - apply IH. intros e' He'. apply H. by constructor.
Qed.

Lemma lookup_keys m l : keyed m -> (forall k, k ∈ l -> is_Some (m !! k)) ->
  map row_key (omap (fun k => m !! k) l) = l.
Proof.
  intros Hk. induction l as [|k l IH]; intros Hl; [done|]. simpl.
  destruct (Hl k ltac:(constructor)) as [r Hr]. rewrite Hr. simpl. f_equal; [by apply Hk|].
  apply IH. intros k' Hk'. apply Hl. by constructor.
Qed.

Lemma precedes_instance s c : precedes s c = true ->
  is_Some (launch_instance_key s) /\ indexed c = launch_instance_key s.
Proof.
  unfold precedes, indexed, launch_instance_key, same_agent_instance, Instance_.same_instance_placement.
  simpl. intros H. repeat (apply andb_prop in H as [H ?]).
  destruct (launch_id c); [|done]. destruct (is_provider_subagent c); [done|]. simpl.
  destruct (pane c) as [pc|]; [|done]. destruct (pane s) as [ps|]; [|done].
  destruct (runtime_owner c) as [oc|]; [|by rewrite andb_false_r in *].
  destruct (runtime_owner s) as [os|]; [|by rewrite andb_false_r in *].
  repeat match goal with
         | H : _ && _ = true |- _ => apply andb_prop in H as [? ?]
         | H : bool_decide _ = true |- _ => apply bool_decide_eq_true in H
         end.
  rewrite !bool_decide_true by done. split; [done|]. congruence.
Qed.

Lemma min_by_nil_filter (f : Row -> bool) (l : list Row) :
  (forall x, x ∈ l -> f x = false) -> List.filter f l = [].
Proof.
  induction l as [|x l IH]; intros H; [done|]. simpl. rewrite (H x) by constructor.
  apply IH. intros y Hy. apply H. by constructor.
Qed.

Lemma NoDup_keys (l : list Row) : NoDup (map row_key l) -> NoDup l.
Proof. apply (NoDup_fmap_1 row_key). Qed.

(** The indexed lookup finds the row a scan of all rows finds. *)
Lemma predecessor_scan index m successor :
  index_ok index m -> keyed m ->
  predecessor index m successor
  = min_by opened_first opened_ltb (List.filter (precedes successor) (rows_of m)).
Proof.
  intros [A B C] Hk. unfold predecessor.
  assert (Hrow : forall c, c ∈ rows_of m -> precedes successor c = true ->
            exists i, launch_instance_key successor = Some i
                      /\ row_key c ∈ unwrap_or (by_instance index !! i) ∅).
  { intros c (k & Hc)%elem_of_rows Hp. destruct (precedes_instance _ _ Hp) as [[i Hi] E].
    exists i. split; [done|]. apply B. rewrite (Hk _ _ Hc), A, Hc. simpl. congruence. }
  assert (Hnone : (forall c, c ∈ rows_of m -> precedes successor c = false) ->
            None = min_by opened_first opened_ltb (List.filter (precedes successor) (rows_of m)))
    by (intros H; by rewrite min_by_nil_filter).
  destruct (launch_instance_key successor) as [i|] eqn:Ei.
  2:{ apply Hnone. intros c Hc. apply not_true_is_false. intros Hp. by destruct (Hrow c Hc Hp) as (? & ? & _). }
  destruct (by_instance index !! i) as [ks|] eqn:Eks.
  2:{ apply Hnone. intros c Hc. apply not_true_is_false. intros Hp.
      destruct (Hrow c Hc Hp) as (i' & [= <-] & H). rewrite Eks in H. simpl in H. set_solver. }
  f_equal. set (l := sort_by id key_leb (elements ks)).
  assert (Hl : forall k, k ∈ l <-> by_agent index !! k = Some i).
  { intros k. unfold l. rewrite sort_by_Permutation, elem_of_elements, <- B, Eks. done. }
  assert (Hkeys : map row_key (omap (fun k => m !! k) l) = l).
  { apply lookup_keys; [done|]. intros k Hin. apply Hl in Hin. rewrite A in Hin.
    destruct (m !! k); [eauto|done]. }
  assert (Hs1 : StronglySorted by_key (omap (fun k => m !! k) l)).
  { apply (StronglySorted_map row_key (fun x y => key_leb x y = true)). rewrite Hkeys.
    apply (sort_by_StronglySorted id key_leb); apply _. }
  assert (Hs2 : StronglySorted by_key (rows_of m)).
  { apply (StronglySorted_map row_key (fun x y => key_leb x y = true)). rewrite rows_keys by done.
    apply (StronglySorted_map fst (fun x y => key_leb x y = true)), ordered_sorted. }
  assert (Hkm : forall x, x ∈ omap (fun k => m !! k) l -> m !! row_key x = Some x).
  { intros x (k & _ & Hx)%list_elem_of_omap. by rewrite (Hk _ _ Hx). }
  apply (sorted_unique row_key); [by apply StronglySorted_filter..| |].
  { intros x y [_ Hx]%elem_of_filter_bool [_ Hy]%elem_of_filter_bool E.
    apply Hkm in Hx, Hy. rewrite E in Hx. congruence. }
  apply NoDup_Permutation.
  - apply NoDup_ListNoDup, List.NoDup_filter, NoDup_ListNoDup.
    apply NoDup_keys. rewrite Hkeys. unfold l. rewrite sort_by_Permutation. apply NoDup_elements.
  - apply NoDup_ListNoDup, List.NoDup_filter, NoDup_ListNoDup.
    apply NoDup_keys. rewrite rows_keys by done. apply ordered_NoDup.
  - intros x. rewrite !elem_of_filter_bool. split.
    + intros [Hp (k & _ & Hx)%list_elem_of_omap]. split; [done|]. apply elem_of_rows. eauto.
    + intros [Hp Hx]. split; [done|]. destruct (Hrow x Hx Hp) as (i' & [= <-] & H).
      apply elem_of_rows in Hx as (k & Hx). apply list_elem_of_omap.
      exists k. split; [|done]. apply Hl. rewrite (Hk _ _ Hx) in H. by apply B.
Qed.

(** ** What an assembled row keeps *)

(** The fields the identity rules read. *)
Definition stands_for (r r' : Row) : Prop :=
  row_key r' = row_key r /\ name r' = name r /\ kind_ordinal r' = kind_ordinal r
  /\ parent_agent_id r' = parent_agent_id r /\ launch_depth r' = launch_depth r.

#[export] Instance stands_for_preorder : PreOrder stands_for.
Proof. split; [by intros r|]. intros a b c (?&?&?&?&?) (?&?&?&?&?). unfold stands_for. intuition congruence. Qed.

Lemma fold_lifecycle_stands state prior t signal p q snapshot :
  stands_for state (fold_lifecycle state prior t signal p q snapshot).2.
Proof.
  unfold fold_lifecycle.
  set (tr := transition _ _ _ _). generalize (turn_ids_after
    (match prior with Some prior => turn_ids prior | None => no_turn_ids end) signal (opened_turn tr)).
  intros ids. clearbody tr.
  assert (H1 : forall pr e, stands_for state (carry_across_ping state pr t e)) by (by intros pr []).
  assert (H2 : forall s pr, stands_for s (keep_snapshot_clocks s pr)) by (by intros s []).
  destruct (ping tr) as [e|], prior as [pr|]; try apply H1.
  all: destruct snapshot; [|done]; simpl.
  all: by destruct (opened_turn tr).
Qed.

Lemma observe_prompt_stands r p w : stands_for r (observe_prompt r p w).
Proof. unfold observe_prompt. by destruct (_ && _). Qed.

Lemma trim_stands r : stands_for r (trim_ended_text r).
Proof. unfold trim_ended_text. by destruct (is_none _). Qed.

Lemma signal_row_stands kind id t event_name obs prior :
  stands_for (fold_launch_params (carried_base kind id prior t) (Obs.launch obs))
             (signal_row kind id t event_name obs prior).2.
Proof.
  unfold signal_row. generalize (fold_launch_params (carried_base kind id prior t) (Obs.launch obs)).
  intros base. set (seeded := base <| core := core base <| resumed_at := _ |> |>).
  transitivity seeded; [done|]. clearbody seeded.
  pose proof (fold_lifecycle_stands seeded prior t (Obs.signal obs) (Obs.prompt obs)
                (Obs.ask_queue obs) (bool_decide (Obs.state_snapshot obs = Some true))) as Hf.
  destruct (fold_lifecycle _ _ _ _ _ _ _) as [retires s]. cbn [snd] in Hf.
  transitivity s; done.
Qed.

Lemma measure_row_stands window kind obs prior b s :
  stands_for s (measure_row window kind obs prior (b, s)).
Proof. unfold measure_row. by destruct (usage_projection _ _ _ _ _) as [[us re] un]. Qed.

Lemma label_row_stands obs s : stands_for s (label_row obs s).
Proof.
  unfold label_row. destruct (Obs.prompt obs) as [p|]; [|done].
  destruct (ping_turn s); [done|]. transitivity (observe_prompt s p (prompt_is_wake_only p)); [|done].
  apply observe_prompt_stands.
Qed.

Lemma shell_row_stands obs s : stands_for s (shell_row obs s).
Proof. done. Qed.

Lemma placed id t event_name obs prior event_parent event_task card s :
  let r := place_row id t event_name obs prior event_parent event_task card s in
  row_key r = row_key s /\ name r = Some (card_name card)
  /\ kind_ordinal r = Some (card_kind_ordinal card)
  /\ parent_agent_id r = parent_projection prior event_name event_parent
  /\ launch_depth r = launch_depth s.
Proof. unfold place_row. by destruct (worktree_projection _ _ _ _). Qed.

Lemma assembled window kind id t event_name obs prior event_parent event_task card :
  let r := assemble_agent_state window kind id t event_name obs prior event_parent event_task card in
  row_key r = (kind, id) /\ name r = Some (card_name card)
  /\ kind_ordinal r = Some (card_kind_ordinal card)
  /\ parent_agent_id r = parent_projection prior event_name event_parent
  /\ launch_depth r = or_else (Params.launch_depth (Obs.launch obs))
                        (match prior with Some prior => launch_depth prior | None => None end).
Proof.
  unfold assemble_agent_state.
  pose proof (signal_row_stands kind id t event_name obs prior) as H1.
  destruct (signal_row _ _ _ _ _ _) as [b s]. cbn [snd] in H1.
  pose proof (measure_row_stands window kind obs prior b s) as H2.
  set (s2 := measure_row _ _ _ _ _) in *. clearbody s2.
  pose proof (placed id t event_name obs prior event_parent event_task card s2) as H3.
  set (s3 := place_row _ _ _ _ _ _ _ _ _) in *. clearbody s3.
  assert (H4 : stands_for s3 (trim_ended_text (shell_row obs (label_row obs s3)))).
  { transitivity (label_row obs s3); [apply label_row_stands|].
    transitivity (shell_row obs (label_row obs s3)); [apply shell_row_stands|apply trim_stands]. }
  destruct H4 as (-> & -> & -> & -> & ->), H3 as (-> & -> & -> & -> & ->).
  destruct H2 as (-> & _ & _ & _ & ->), H1 as (-> & _ & _ & _ & ->).
  by destruct prior.
Qed.

Lemma set_launch_id_same (a : AgentState) id :
  let a' := set_launch_id a id in
  agent_kind a' = agent_kind a /\ agent_id a' = agent_id a /\ name a' = name a
  /\ parent_agent_id a' = parent_agent_id a /\ launch_depth a' = launch_depth a.
Proof. unfold set_launch_id. by case_bool_decide. Qed.

Lemma rebind_stands r id : stands_for r (rebind r id).
Proof.
  destruct (set_launch_id_same r id) as (E1 & E2 & E3 & E4 & E5).
  unfold stands_for, rebind, row_key. simpl. by rewrite E1, E2.
Qed.

Lemma launch_placement_stands payload prior s : stands_for s (launch_placement payload prior s).
Proof.
  unfold launch_placement.
  set (s1 := match prior with Some _ => _ | None => s end).
  assert (H1 : stands_for s s1) by (unfold s1; destruct prior; [by case_bool_decide|done]).
  transitivity s1; [done|]. clearbody s1.
  set (s2 := s1 <| core := _ |> <| pane := _ |> <| runtime_owner := _ |>).
  transitivity s2; [done|]. destruct (Launch.prompt payload) as [p|]; [|done].
  apply observe_prompt_stands.
Qed.

Lemma launch_settled kind t payload prior :
  let r := launch_settings kind t payload prior in
  row_key r = (kind, Launch.agent_id payload)
  /\ parent_agent_id r = or_else (Params.parent_agent_id (Launch.launch payload))
       (match prior with Some prior => parent_agent_id prior | None => None end)
  /\ launch_depth r = or_else (Params.launch_depth (Launch.launch payload))
       (match prior with Some prior => launch_depth prior | None => None end).
Proof.
  unfold launch_settings. cbv zeta.
  set (s1 := carried_base _ _ _ _ <| system_prompt_digest := _ |>).
  set (s2 := match Launch.launch_id payload with Some _ => _ | None => s1 end).
  assert (H2 : stands_for s1 s2)
    by (unfold s2; destruct (Launch.launch_id payload); [apply rebind_stands|done]).
  assert (H1 : row_key s1 = (kind, Launch.agent_id payload)
     /\ parent_agent_id s1 = (match prior with Some prior => parent_agent_id prior | None => None end)
     /\ launch_depth s1 = (match prior with Some prior => launch_depth prior | None => None end))
    by (by destruct prior).
  clearbody s2. clearbody s1. destruct H2 as (E1 & _ & _ & E4 & E5), H1 as (F1 & F2 & F3).
  rewrite <- F1, <- F2, <- F3, <- E1, <- E4, <- E5. done.
Qed.

Lemma launch_outcome_places t payload prior card s :
  let r := launch_outcome t payload prior card s in
  row_key r = row_key s /\ name r = Some (card_name card)
  /\ kind_ordinal r = Some (card_kind_ordinal card)
  /\ parent_agent_id r = parent_agent_id s /\ launch_depth r = launch_depth s.
Proof. unfold launch_outcome. by destruct (launch_status payload). Qed.

Lemma launched kind t payload prior card :
  let r := assemble_launch_state kind t payload prior card in
  row_key r = (kind, Launch.agent_id payload) /\ name r = Some (card_name card)
  /\ kind_ordinal r = Some (card_kind_ordinal card)
  /\ parent_agent_id r = or_else (Params.parent_agent_id (Launch.launch payload))
       (match prior with Some prior => parent_agent_id prior | None => None end)
  /\ launch_depth r = or_else (Params.launch_depth (Launch.launch payload))
       (match prior with Some prior => launch_depth prior | None => None end).
Proof.
  unfold assemble_launch_state.
  destruct (launch_settled kind t payload prior) as (<- & <- & <-).
  set (s1 := launch_settings _ _ _ _). clearbody s1.
  destruct (launch_placement_stands payload prior s1) as (<- & _ & _ & <- & <-).
  set (s2 := launch_placement _ _ _). clearbody s2. cbv zeta.
  pose proof (launch_outcome_places t payload prior card s2) as H.
  set (s3 := launch_outcome _ _ _ _ _) in *. clearbody s3.
  by destruct (is_some_and prior _).
Qed.

Lemma stands_for_subagent r r' : stands_for r r' -> is_provider_subagent r' = is_provider_subagent r.
Proof. unfold is_provider_subagent. by intros (_ & _ & _ & -> & ->). Qed.

(** ** Inheritance *)

Lemma inherit_marks_stands m kind obs s : stands_for s (inherit_compaction_marks m kind obs s).
Proof. done. Qed.

Lemma inherit_registration_stands m s : stands_for s (inherit_compaction_registration m s).
Proof.
  unfold inherit_compaction_registration. destruct (compacted_from s) as [from|]; [|done].
  destruct (m !! (agent_kind s, from)) as [p|]; [|done].
  destruct (registered_at p) as [t|]; [|done].
  set (s1 := s <| last_prompt_at := _ |>). assert (H1 : stands_for s s1) by done. clearbody s1.
  destruct (is_some_and (registered_at s1) _); [|done]. by transitivity s1.
Qed.

Lemma predecessor_Some index m s p : predecessor index m s = Some p -> precedes s p = true.
Proof.
  unfold predecessor. destruct (launch_instance_key s); [|done].
  destruct (by_instance index !! _); [|done]. intros H%min_by_elem.
  by apply elem_of_filter_bool in H as [H _].
Qed.

(** The launch identity moves to the successor; whose card it is does not. *)
Lemma inherit_launch_keeps m index s :
  let s' := inherit_launch_identity m index s in
  row_key s' = row_key s /\ name s' = name s /\ kind_ordinal s' = kind_ordinal s
  /\ is_provider_subagent s' = is_provider_subagent s.
Proof.
  unfold inherit_launch_identity.
  destruct (is_some (launch_id s) || is_none (pane s) || is_provider_subagent s || _) eqn:E; [done|].
  destruct (predecessor index m s) as [p|] eqn:Ep; [|done].
  assert (Hs : is_provider_subagent s = false).
  { repeat apply orb_false_elim in E as [E ?]. done. }
  apply predecessor_Some in Ep. unfold precedes in Ep.
  apply andb_prop in Ep as [[_ Hp%negb_true_iff]%andb_prop _].
  rewrite Hs. unfold is_provider_subagent in Hp. repeat split. simpl. done.
Qed.
