(* ===== verification/ReducerResume.v ===== *)
(** * Resuming the agent fold from its persisted state

    A fold persists its rows and [AgentIdentityState] and later resumes from
    them.  [alike] relates a running fold to the same fold resumed; every tidy
    event ([tidy_event]) keeps them alike, so folding a delta onto the persisted
    prefix is folding the whole log.  The same relation carries the rules of
    names and ordinals through the fold. *)

From S2P Require Import Prelude.
From S2P Require Import Agents Message Prompt Card CardIdentity CardIdentityFacts Reducer ReducerFacts.
From S2P Require Import Lifecycle.
Import Agents.Placement Agents.Agent CardIdentity.Identity.

Section Resume.
Context (default_window : text -> option N) (known_kinds : list text) (hash_u64 : text -> N -> N).

Abbreviation reduce_event := (reduce_event default_window known_kinds hash_u64).

(** ** Tidy events *)

(** A child's event is about a child of its provider: its parent is named and
    takes effect, and no launch depth makes the row a card of its own. *)
Definition tidy_lineage (prior : option Row) (event_name : option text)
    (observation : Obs.AgentLifecycleObservation) : bool :=
  if is_some (Obs.parent_agent_id observation)
     || is_some_and prior (fun prior : Row => is_provider_subagent prior)
  then
    is_none (Params.launch_depth (Obs.launch observation))
    && is_none_or prior (fun prior : Row => is_none (launch_depth prior))
    && is_some (parent_projection prior event_name
                  (Label.non_empty_string (Obs.parent_agent_id observation)))
  else true.

(** A launch makes no child of a provider, and one that arrives after its
    placeholder was adopted still carries the name of a card of its kind. *)
Definition tidy_launch (st : ReducerState) (kind : text) (payload : Launch.AgentLaunchPayload)
  : bool :=
  let key := (kind, Launch.agent_id payload) in
  let prior : option Row := rows st !! key in
  let parent := or_else (Params.parent_agent_id (Launch.launch payload))
                  (match prior with Some prior => parent_agent_id prior | None => None end) in
  let depth := or_else (Params.launch_depth (Launch.launch payload))
                 (match prior with Some prior => launch_depth prior | None => None end) in
  negb (is_some parent && is_none depth)
  && (negb (launch_consumed (identity st) (Launch.agent_id payload))
      || (is_provisional (Launch.agent_id payload)
          && is_some_and (owner_for_name (identity st) (Launch.agent_name payload)) (fun owner =>
               bool_decide (owner.1 = kind) && negb (bool_decide (owner = key))))).

Definition tidy_event (st : ReducerState) (event : FoldEvent) : bool :=
  match event_kind event with
  | AgentLifecycle event_name observation =>
      is_none_or (Obs.agent_id observation) (fun agent_id =>
        let key := (source event, agent_id) in
        bool_decide (Obs.origin observation = Some SideConversation)
        || is_side_session (identity st) agent_id
        || (let '(provisional, st) := provisional_prior st (source event) key observation in
            tidy_lineage (or_else (rows st !! key) provisional) event_name observation))
  | AgentLaunch payload => tidy_launch st (source event) payload
  | _ => true
  end.

Fixpoint tidy (st : ReducerState) (events : list FoldEvent) : bool :=
  match events with
  | [] => true
  | event :: events => tidy_event st event && tidy (reduce_event st event) events
  end.

(** The ordinal an event stamps. *)
Definition stamped_ordinal (event : FoldEvent) : option N :=
  match event_kind event with
  | AgentLifecycle _ observation => Params.kind_ordinal (Obs.launch observation)
  | AgentLaunch payload => Params.kind_ordinal (Launch.launch payload)
  | _ => None
  end.

(** ** The relation *)

Record alike (limit : N) (x y : ReducerState) : Prop := {
  same_rows : rows x = rows y;
  rows_keyed : keyed (rows x);
  index_left : index_ok (launch_identity x) (rows x);
  index_right : index_ok (launch_identity y) (rows y);
  same_names : names (identity x) = names (identity y);
  same_next : next_ordinal (identity x) = next_ordinal (identity y);
  same_side : side_sessions (identity x) = side_sessions (identity y);
  fewer_consumed : consumed_launches (identity y) ⊆ consumed_launches (identity x);
  ordinals_left : ordinals_hold limit (rows x) (identity x);
  ordinals_right : ordinals_hold limit (rows y) (identity y);
  names_left : names_hold known_kinds (rows x) (identity x)
}.

Lemma alike_index limit x y : alike limit x y -> launch_identity x = launch_identity y.
Proof. intros H. eapply index_unique; [apply H|]. rewrite (same_rows _ _ _ H). apply H. Qed.

Lemma alike_refl limit x y : alike limit x y -> alike limit x x.
Proof. by intros []. Qed.

Lemma alike_weaken limit limit' x y : (limit <= limit')%N -> alike limit x y -> alike limit' x y.
Proof. intros Hl []. split; try done; by eapply ordinals_hold_weaken. Qed.

Lemma names_right limit x y : alike limit x y -> names_hold known_kinds (rows y) (identity y).
Proof.
  intros H. rewrite <- (same_rows _ _ _ H). eapply names_hold_fields; [|apply (names_left _ _ _ H)].
  by rewrite (same_names _ _ _ H).
Qed.

(** *** Dropping and retiring rows *)

Lemma keyed_delete m k : keyed m -> keyed (delete k m).
Proof. intros H k' r [_ Hr]%lookup_delete_Some. by apply H. Qed.

Lemma alike_drop limit x y key : alike limit x y -> alike limit (drop_row x key) (drop_row y key).
Proof.
  intros []. split; simpl.
  - by rewrite same_rows0.
  - by apply keyed_delete.
  - by apply remove_ok.
  - by apply remove_ok.
  - by rewrite same_names0.
  - done.
  - done.
  - done.
  - by apply ordinals_hold_release, ordinals_hold_delete.
  - by apply ordinals_hold_release, ordinals_hold_delete.
  - by apply (names_hold_drop known_kinds (rows x) (identity x) key).
Qed.

Lemma alike_consume limit x y key :
  alike limit x y ->
  alike limit {| rows := rows x; identity := consume_launch_key (identity x) key;
                 launch_identity := launch_identity x |}
              {| rows := rows y; identity := consume_launch_key (identity y) key;
                 launch_identity := launch_identity y |}.
Proof.
  intros []. unfold consume_launch_key. destruct (is_provisional key.2); [|by split].
  split; simpl; try done.
  - by apply union_mono_l.
  - by eapply ordinals_hold_fields; [..|exact ordinals_left0].
  - by eapply ordinals_hold_fields; [..|exact ordinals_right0].
  - by eapply names_hold_fields; [|exact names_left0].
Qed.

(** The resumed fold learns of a consumed launch again. *)
Lemma alike_consume_right limit x y (key : AgentKey) :
  alike limit x y -> key.2 ∈ consumed_launches (identity x) ->
  alike limit x {| rows := rows y; identity := consume_launch_key (identity y) key;
                   launch_identity := launch_identity y |}.
Proof.
  intros H Hin. unfold consume_launch_key. destruct (is_provisional key.2); [|by destruct H; split].
  destruct H. split; simpl; try done.
  - set_solver.
  - by eapply ordinals_hold_fields; [..|exact ordinals_right0].
Qed.

Lemma alike_retire limit x y key :
  alike limit x y ->
  (retire_provisional x key).1 = (retire_provisional y key).1
  /\ (retire_provisional x key).1 = rows x !! key
  /\ alike limit (retire_provisional x key).2 (retire_provisional y key).2.
Proof.
  intros H. unfold retire_provisional. cbn [fst snd].
  split; [by rewrite (same_rows _ _ _ H)|]. split; [done|].
  by apply (alike_consume limit (drop_row x key) (drop_row y key)), alike_drop.
Qed.

(** *** Rewriting a row in place *)

Lemma keyed_insert m k r : keyed m -> row_key r = k -> keyed (<[k := r]> m).
Proof. intros H Hr k' r' [[<- <-]|[_ E]]%lookup_insert_Some; [done|by apply H]. Qed.

Lemma alike_update limit x y key (r r' : Row) :
  alike limit x y -> rows x !! key = Some r -> stands_for r r' ->
  alike limit (insert_row x key r') (insert_row y key r').
Proof.
  intros H Hr Hs. assert (Hr' : rows y !! key = Some r) by (by rewrite <- (same_rows _ _ _ H)).
  pose proof (stands_for_subagent _ _ Hs) as Hsub. destruct Hs as (E1 & E2 & E3 & _ & _), H.
  assert (Ho : forall m a, m !! key = Some r -> ordinals_hold limit m a -> ordinals_hold limit (<[key := r']> m) a).
  { intros m a Hm. apply ordinals_hold_sub. intros k r0 [[<- <-]|[_ E]]%lookup_insert_Some o Hro; eauto.
    exists r. split; [done|congruence]. }
  split; simpl.
  - by rewrite same_rows0.
  - apply keyed_insert; [done|]. rewrite E1. by apply rows_keyed0.
  - by apply replace_ok.
  - by apply replace_ok.
  - done.
  - done.
  - done.
  - done.
  - by apply Ho.
  - by apply Ho.
  - eapply names_hold_sub; [..|exact names_left0].
    + intros k r0 Hk. destruct (decide (key = k)) as [<-|Hne].
      * exists r'. rewrite lookup_insert_eq. split; [done|]. congruence.
      * exists r0. by rewrite lookup_insert_ne.
    + intros k r0 [[<- <-]|[_ E]]%lookup_insert_Some; right; eauto.
Qed.

(** *** The placeholder an event completes *)

Lemma may_keep_fields m a a' key prior :
  next_ordinal a' = next_ordinal a -> ordinals a' = ordinals a ->
  may_keep m a key prior -> may_keep m a' key prior.
Proof.
  intros Hn Ho [K1 K2 K3]. split; [|by rewrite Ho|done].
  intros p o Hp Hr. unfold below. rewrite Hn. by eapply K1.
Qed.

Lemma consume_keeps a key :
  next_ordinal (consume_launch_key a key) = next_ordinal a
  /\ ordinals (consume_launch_key a key) = ordinals a.
Proof. unfold consume_launch_key. by destruct (is_provisional key.2). Qed.

(** The claim of a retired row passes to a key of its kind. *)
Lemma retired_may_keep limit st dropped (key : AgentKey) :
  ordinals_hold limit (rows st) (identity st) -> dropped.1 = key.1 ->
  let r := retire_provisional st dropped in
  may_keep (rows r.2) (identity r.2) key r.1.
Proof.
  intros Ho Hk r. destruct (consume_keeps (release_key (identity st) dropped) dropped) as [E1 E2].
  eapply may_keep_fields; [exact E1|exact E2|]. by eapply may_keep_adopted.
Qed.

Definition settled_prior limit (key : AgentKey) (x y : option Row * ReducerState) : Prop :=
  x.1 = y.1 /\ alike limit x.2 y.2
  /\ may_keep (rows x.2) (identity x.2) key (or_else (rows x.2 !! key) x.1)
  /\ may_keep (rows y.2) (identity y.2) key (or_else (rows y.2 !! key) y.1).

Lemma settled_none limit key x y : alike limit x y -> settled_prior limit key (None, x) (None, y).
Proof.
  intros H. unfold settled_prior. simpl. split; [done|]. split; [done|].
  split; [pose proof (may_keep_own _ _ _ key (ordinals_left _ _ _ H)) as K
         |pose proof (may_keep_own _ _ _ key (ordinals_right _ _ _ H)) as K].
  all: by destruct (rows _ !! key).
Qed.

Lemma settled_retired limit x y (key dropped : AgentKey) :
  alike limit x y -> dropped.1 = key.1 -> rows x !! key = None ->
  settled_prior limit key (retire_provisional x dropped) (retire_provisional y dropped).
Proof.
  intros H Hk Hnone. destruct (alike_retire limit x y dropped H) as (E1 & E2 & E3).
  split; [done|]. split; [done|].
  assert (Hn : rows (retire_provisional x dropped).2 !! key = None).
  { simpl. apply lookup_delete_None. by right. }
  assert (Hn' : rows (retire_provisional y dropped).2 !! key = None)
    by (by rewrite <- (same_rows _ _ _ E3)).
  rewrite Hn, Hn'. split.
  - apply (retired_may_keep limit); [apply H|done].
  - apply (retired_may_keep limit); [apply H|done].
Qed.

Lemma pane_owner_kind m kind pane key owner :
  adoptable_owner_for_pane m kind pane key = Some owner -> owner.1 = kind /\ owner <> key.
Proof.
  unfold adoptable_owner_for_pane. destruct (max_by _ _ _) as [[k r]|] eqn:E; [|done].
  intros [= <-]. apply max_by_elem in E. apply elem_of_filter_bool in E as [E _]. simpl.
  apply andb_prop in E as [[[E1 E2]%andb_prop _]%andb_prop _].
  apply bool_decide_eq_true in E2. by apply negb_true_iff, bool_decide_eq_false in E1.
Qed.

Lemma name_owner_kind a m kind n key owner :
  adoptable_owner_for_name a m kind n key = Some owner -> owner.1 = kind /\ owner <> key.
Proof.
  unfold adoptable_owner_for_name. destruct (names a !! n) as [k|]; [|done].
  destruct (negb (bool_decide (k.1 = kind)) || bool_decide (k = key)) eqn:E; [done|].
  apply orb_false_elim in E as [E1%negb_false_iff%bool_decide_eq_true E2%bool_decide_eq_false].
  destruct (is_provisional k.2); [by intros [= <-]|].
  destruct (m !! k); [|done]. destruct (_ || _); [by intros [= <-]|done].
Qed.

Lemma alike_by_pane limit x y kind id obs :
  alike limit x y -> rows x !! (kind, id) = None ->
  let by_pane st :=
    match (let! pane_id := Obs.pane_id obs else None in
           adoptable_owner_for_pane (rows st) kind pane_id (kind, id)) with
    | Some provisional_key => retire_provisional st provisional_key
    | None => (None, st)
    end in
  settled_prior limit (kind, id) (by_pane x) (by_pane y).
Proof.
  intros H Hnone by_pane. unfold by_pane. rewrite <- (same_rows _ _ _ H).
  destruct (Obs.pane_id obs) as [p|]; [|by apply settled_none].
  destruct (adoptable_owner_for_pane _ _ _ _) as [owner|] eqn:E; [|by apply settled_none].
  apply settled_retired; [done| |done]. by apply pane_owner_kind in E as [? _].
Qed.

Lemma alike_adopt limit x y kind id obs :
  alike limit x y -> rows x !! (kind, id) = None ->
  settled_prior limit (kind, id) (adopt_provisional x kind (kind, id) obs)
                                 (adopt_provisional y kind (kind, id) obs).
Proof.
  intros H Hnone. unfold adopt_provisional.
  assert (En : (let! name := Obs.agent_name obs else None in
                adoptable_owner_for_name (identity x) (rows x) kind name (kind, id))
             = (let! name := Obs.agent_name obs else None in
                adoptable_owner_for_name (identity y) (rows y) kind name (kind, id))).
  { destruct (Obs.agent_name obs) as [n|]; [|done]. unfold adoptable_owner_for_name.
    by rewrite (same_names _ _ _ H), (same_rows _ _ _ H). }
  rewrite <- En. clear En.
  destruct (Obs.agent_name obs) as [n|]; [|by apply alike_by_pane].
  destruct (adoptable_owner_for_name _ _ _ _ _) as [owner|] eqn:E; [|by apply alike_by_pane].
  apply name_owner_kind in E as [Ek _].
  pose proof (settled_retired limit x y (kind, id) owner H Ek Hnone) as Hs.
  destruct (alike_retire limit x y owner H) as (E1 & _ & E3).
  assert (Hn : rows (retire_provisional x owner).2 !! (kind, id) = None).
  { simpl. apply lookup_delete_None. by right. }
  destruct (retire_provisional x owner) as [[p|] x'], (retire_provisional y owner) as [[q|] y'];
    simpl in *; try congruence. by apply alike_by_pane.
Qed.

Lemma stamp_launch_stands existing provisional : stands_for existing (stamp_launch existing provisional).
Proof.
  unfold stamp_launch. destruct (launch_id provisional) as [id|]; [|done].
  transitivity (rebind existing id); [apply rebind_stands|]. by generalize (rebind existing id).
Qed.

Lemma alike_release limit x y kind id obs :
  alike limit x y ->
  alike limit (release_stamped_provisional_for_existing x kind (kind, id) obs)
              (release_stamped_provisional_for_existing y kind (kind, id) obs).
Proof.
  intros H. unfold release_stamped_provisional_for_existing. rewrite <- (same_rows _ _ _ H).
  destruct (is_some_and (rows x !! (kind, id)) _); [done|].
  destruct (is_none_or (rows x !! (kind, id)) _); [done|].
  destruct (Obs.pane_id obs) as [p|]; [|done].
  destruct (adoptable_owner_for_pane _ _ _ _) as [owner|] eqn:E; [|done].
  destruct (alike_retire limit x y owner H) as (E1 & _ & E3).
  destruct (retire_provisional x owner) as [[pr|] x'], (retire_provisional y owner) as [[q|] y'];
    simpl in *; try congruence.
  injection E1 as <-. rewrite <- (same_rows _ _ _ E3).
  destruct (rows x' !! (kind, id)) as [existing|] eqn:Ex; [|done].
  by eapply alike_update, stamp_launch_stands.
Qed.

Lemma alike_provisional limit x y kind id obs :
  alike limit x y ->
  settled_prior limit (kind, id) (provisional_prior x kind (kind, id) obs)
                                 (provisional_prior y kind (kind, id) obs).
Proof.
  intros H. unfold provisional_prior. rewrite <- (same_rows _ _ _ H).
  destruct (is_some (Obs.parent_agent_id obs)); [by apply settled_none|].
  destruct (rows x !! (kind, id)) as [r|] eqn:Er; simpl.
  - by apply settled_none, alike_release.
  - by apply alike_adopt.
Qed.

(** *** Giving a card its identity *)

Section Bounded.
Context (limit : N) (Hlimit : (limit < U32_MAX)%N) (Hpos : (1 <= limit)%N).

Lemma wanted_bound stamped prior :
  is_none_or stamped (fun o => (o <=? limit)%N) = true ->
  forall w, or_else stamped (prior_ordinal prior) = Some w ->
  prior_ordinal prior <> Some w -> (w <= limit)%N.
Proof using Type.
  intros Hs w. destruct stamped as [s|]; simpl in *; [|done]. intros [= <-] _. by apply N.leb_le.
Qed.

(** The names moved alike, and the ordinal falls alike. *)
Lemma ordinal_alike x y key ns wanted prior o ax o' ay :
  alike limit x y -> 
  may_keep (rows x) (identity x) key prior -> may_keep (rows y) (identity y) key prior ->
  (forall w, wanted = Some w -> prior_ordinal prior <> Some w -> (w <= limit)%N) ->
  assign_ordinal_candidate (identity x <| names := ns |>) key.1 key.2 wanted prior = (o, ax) ->
  assign_ordinal_candidate (identity y <| names := ns |>) key.1 key.2 wanted prior = (o', ay) ->
  o = o' /\ forall r, kind_ordinal r = Some o -> row_key r = key ->
    names_hold known_kinds (<[key := r]> (rows x)) (identity x <| names := ns |>) ->
    alike (limit + 1)
      (insert_row {| rows := rows x; identity := ax; launch_identity := launch_identity x |} key r)
      (insert_row {| rows := rows y; identity := ay; launch_identity := launch_identity y |} key r).
Proof using Hlimit Hpos.
  intros H Kx Ky Hw Ex Ey.
  assert (Hx : ordinals_hold limit (rows x) (identity x <| names := ns |>))
    by (eapply ordinals_hold_fields; [..|apply H]; done).
  assert (Hy : ordinals_hold limit (rows y) (identity y <| names := ns |>))
    by (eapply ordinals_hold_fields; [..|apply (ordinals_right _ _ _ H)]; done).
  apply (may_keep_fields _ _ (identity x <| names := ns |>)) in Kx; [|done|done].
  apply (may_keep_fields _ _ (identity y <| names := ns |>)) in Ky; [|done|done].
  destruct (assign_ordinal_rule limit (rows x) _ Hlimit Hpos Hx _ _ _ _ _ Kx Hw Ex)
    as (-> & Nx & _ & Mx & Cx & Sx).
  destruct (assign_ordinal_rule limit (rows y) _ Hlimit Hpos Hy _ _ _ _ _ Ky Hw Ey)
    as (-> & Ny & _ & My & Cy & Sy).
  simpl in *. rewrite (same_next _ _ _ H). split; [done|]. intros r Hr Hkey Hn.
  assert (Hr' := Hr). rewrite <- (same_next _ _ _ H) in Hr'.
  pose proof (assigned_holds limit (rows x) _ Hlimit Hpos Hx _ _ _ _ _ r Kx Hw Ex) as Ax.
  pose proof (assigned_holds limit (rows y) _ Hlimit Hpos Hy _ _ _ _ _ r Ky Hw Ey) as Ay.
  simpl in *. destruct H. split; simpl.
  - by rewrite same_rows0.
  - by apply keyed_insert.
  - by apply replace_ok.
  - by apply replace_ok.
  - congruence.
  - by rewrite Nx, Ny, same_next0.
  - congruence.
  - by rewrite Cx, Cy.
  - by apply Ax.
  - by apply Ay.
  - by eapply names_hold_fields, Hn.
Qed.

(** The name of [assign_name_candidate] is a function of the names. *)
Lemma assign_name_same a b key wanted prior id :
  names a = names b ->
  exists n, assign_name_candidate known_kinds hash_u64 a key wanted prior id
            = (n, a <| names := <[n := key]> (names a) |>)
  /\ assign_name_candidate known_kinds hash_u64 b key wanted prior id
     = (n, b <| names := <[n := key]> (names b) |>)
  /\ (n = [] \/ forall k, names a !! n = Some k -> k = key).
Proof using Type.
  intros E. destruct (assign_name_candidate known_kinds hash_u64 a key wanted prior id) as [n a'] eqn:Ea.
  destruct (assign_name_candidate known_kinds hash_u64 b key wanted prior id) as [n' b'] eqn:Eb.
  pose proof (assign_name_rule _ _ _ _ _ _ _ _ _ Ea) as [-> Hn].
  pose proof (assign_name_rule _ _ _ _ _ _ _ _ _ Eb) as [-> _].
  assert (n = n') as <-; [|by exists n].
  apply (f_equal fst) in Ea, Eb. simpl in *. rewrite <- Ea, <- Eb.
  unfold assign_name_candidate, name_available_for. rewrite E.
  by repeat match goal with |- context [match ofilter ?o ?f with _ => _ end] => destruct (ofilter o f) end.
Qed.

Lemma event_name_alike x y key obs prior :
  alike limit x y -> exists n ns,
    assign_event_name known_kinds hash_u64 (identity x) key obs prior = (n, identity x <| names := ns |>)
    /\ assign_event_name known_kinds hash_u64 (identity y) key obs prior
       = (n, identity y <| names := ns |>)
    /\ forall r : Row, name r = Some n ->
       is_provider_subagent r = is_some (Obs.parent_agent_id obs)
                                || is_some_and prior (fun prior : Row => is_provider_subagent prior) ->
       names_hold known_kinds (<[key := r]> (rows x)) (identity x <| names := ns |>).
Proof using Type.
  intros H. unfold assign_event_name. destruct (is_some (Obs.parent_agent_id obs) || _).
  - eexists _, _. split; [reflexivity|]. rewrite (same_names _ _ _ H). split; [reflexivity|].
    intros r _ Hr. rewrite <- (same_names _ _ _ H). apply names_hold_child; [apply H|done].
  - unfold assign_name. cbv zeta.
    match goal with |- context [assign_name_candidate _ _ (identity x) key ?w prior ?i] =>
      destruct (assign_name_same (identity x) (identity y) key w prior i (same_names _ _ _ H))
        as (n & -> & -> & Hn) end.
    eexists n, _. split; [reflexivity|]. rewrite (same_names _ _ _ H). split; [reflexivity|].
    intros r Hr Hsub. rewrite <- (same_names _ _ _ H). apply names_hold_assign; [apply H|done..].
Qed.

Lemma assign_alike x y kind id obs prior :
  alike limit x y ->
  may_keep (rows x) (identity x) (kind, id) prior -> may_keep (rows y) (identity y) (kind, id) prior ->
  is_none_or (Params.kind_ordinal (Obs.launch obs)) (fun o => (o <=? limit)%N) = true ->
  exists card ax ay,
    assign known_kinds hash_u64 (identity x) kind id obs prior = (card, ax)
    /\ assign known_kinds hash_u64 (identity y) kind id obs prior = (card, ay)
    /\ forall r, row_key r = (kind, id) -> name r = Some (card_name card) ->
       kind_ordinal r = Some (card_kind_ordinal card) ->
       is_provider_subagent r = is_some (Obs.parent_agent_id obs)
                                || is_some_and prior (fun prior : Row => is_provider_subagent prior) ->
       alike (limit + 1)
         (insert_row {| rows := rows x; identity := ax; launch_identity := launch_identity x |} (kind, id) r)
         (insert_row {| rows := rows y; identity := ay; launch_identity := launch_identity y |} (kind, id) r).
Proof using Hlimit Hpos.
  intros H Kx Ky Hs. unfold assign.
  destruct (event_name_alike x y (kind, id) obs prior H) as (n & ns & -> & -> & Hhold).
  unfold assign_ordinal. cbv zeta.
  fold (prior_ordinal prior).
  destruct (assign_ordinal_candidate (identity x <| names := ns |>) _ _ _ _) as [o ax] eqn:Ex.
  destruct (assign_ordinal_candidate (identity y <| names := ns |>) _ _ _ _) as [o' ay] eqn:Ey.
  destruct (ordinal_alike x y (kind, id) ns _ _ _ _ _ _ H Kx Ky (wanted_bound _ _ Hs) Ex Ey) as [<- Hins].
  eexists _, ax, ay. split; [reflexivity|]. split; [reflexivity|]. simpl.
  intros r Hkey Hr Ho Hsub. apply Hins; [done|done|]. by apply Hhold.
Qed.

Lemma assign_launch_alike x y kind payload :
  let id := Launch.agent_id payload in
  alike limit x y ->
  is_none_or (Params.kind_ordinal (Launch.launch payload)) (fun o => (o <=? limit)%N) = true ->
  exists card ax ay,
    assign_launch known_kinds hash_u64 (identity x) kind id payload (rows x !! (kind, id)) = (card, ax)
    /\ assign_launch known_kinds hash_u64 (identity y) kind id payload (rows x !! (kind, id)) = (card, ay)
    /\ forall r, row_key r = (kind, id) -> name r = Some (card_name card) ->
       kind_ordinal r = Some (card_kind_ordinal card) -> is_provider_subagent r = false ->
       alike (limit + 1)
         (insert_row {| rows := rows x; identity := ax; launch_identity := launch_identity x |} (kind, id) r)
         (insert_row {| rows := rows y; identity := ay; launch_identity := launch_identity y |} (kind, id) r).
Proof using Hlimit Hpos.
  intros id H Hs. unfold assign_launch.
  set (prior := rows x !! (kind, id)).
  assert (Kx : may_keep (rows x) (identity x) (kind, id) prior) by (eapply may_keep_own, H).
  assert (Ky : may_keep (rows y) (identity y) (kind, id) prior).
  { unfold prior. rewrite (same_rows _ _ _ H). eapply may_keep_own, H. }
  clearbody prior.
  destruct (assign_name_same (identity x) (identity y) (kind, id) (Some (Launch.agent_name payload))
              prior id (same_names _ _ _ H)) as (n & -> & -> & Hn).
  rewrite (same_names _ _ _ H). fold (prior_ordinal prior).
  set (ns := <[n := (kind, id)]> (names (identity y))).
  destruct (assign_ordinal_candidate (identity x <| names := ns |>) _ _ _ _) as [o ax] eqn:Ex.
  destruct (assign_ordinal_candidate (identity y <| names := ns |>) _ _ _ _) as [o' ay] eqn:Ey.
  destruct (ordinal_alike x y (kind, id) ns _ _ _ _ _ _ H Kx Ky (wanted_bound _ _ Hs) Ex Ey) as [<- Hins].
  eexists _, ax, ay. split; [reflexivity|]. split; [reflexivity|]. simpl.
  intros r Hkey Hr Ho Hsub. apply Hins; [done|done|].
  unfold ns. rewrite <- (same_names _ _ _ H). apply names_hold_assign; [apply H|done..].
Qed.
End Bounded.

(** *** The events *)

Lemma alike_alter limit x y key (f : Row -> Row) :
  alike limit x y -> (forall r, stands_for r (f r) /\ indexed (f r) = indexed r) ->
  alike limit {| rows := alter f key (rows x); identity := identity x; launch_identity := launch_identity x |}
              {| rows := alter f key (rows y); identity := identity y; launch_identity := launch_identity y |}.
Proof.
  intros H Hf.
  assert (Hl : forall (m : gmap AgentKey Row) k r', alter f key m !! k = Some r' ->
             exists r, m !! k = Some r /\ stands_for r r' /\ indexed r' = indexed r).
  { intros m k r'. destruct (decide (key = k)) as [<-|Hne].
    - rewrite lookup_alter_eq. destruct (m !! key) as [r|]; [|done]. intros [= <-].
      exists r. split; [done|]. apply Hf.
    - rewrite lookup_alter_ne by done. intros Hr. by exists r'. }
  assert (Hb : forall (m : gmap AgentKey Row) k r, m !! k = Some r ->
             exists r', alter f key m !! k = Some r' /\ stands_for r r').
  { intros m k r Hr. destruct (decide (key = k)) as [<-|Hne].
    - rewrite lookup_alter_eq, Hr. exists (f r). split; [done|]. apply Hf.
    - rewrite lookup_alter_ne by done. by exists r. }
  assert (Hi : forall (m : gmap AgentKey Row) k, alter f key m !! k ≫= indexed = m !! k ≫= indexed).
  { intros m k. destruct (alter f key m !! k) as [r'|] eqn:E.
    - destruct (Hl _ _ _ E) as (r & -> & _ & Ei). done.
    - destruct (m !! k) as [r|] eqn:Er; [|done]. destruct (Hb _ _ _ Er) as (r' & E' & _). congruence. }
  assert (Ho : forall m a, ordinals_hold limit m a -> ordinals_hold limit (alter f key m) a).
  { intros m a. apply ordinals_hold_sub. intros k r' Hr o Hro.
    destruct (Hl _ _ _ Hr) as (r & E & (_ & _ & Eo & _) & _). exists r. split; [done|congruence]. }
  destruct H. split; simpl; try done.
  - by rewrite same_rows0.
  - intros k r' Hr. destruct (Hl _ _ _ Hr) as (r & E & (Ek & _) & _). rewrite Ek. by apply rows_keyed0.
  - by eapply index_ok_same, index_left0.
  - by eapply index_ok_same, index_right0.
  - by apply Ho.
  - by apply Ho.
  - eapply names_hold_sub; [..|exact names_left0].
    + intros k r Hr. destruct (Hb _ _ _ Hr) as (r' & E & Hs). exists r'. split; [done|].
      by apply stands_for_subagent.
    + intros k r' Hr. destruct (Hl _ _ _ Hr) as (r & E & Hs & _). right. exists r.
      split; [done|]. split; [by destruct Hs as (_ & ? & _)|]. by apply stands_for_subagent.
Qed.

Lemma stamp_row_keeps payload t r : stands_for r (stamp_row r payload t)
  /\ indexed (stamp_row r payload t) = indexed r.
Proof.
  unfold stamp_row.
  set (r1 := match Msg.soft_compact payload with Some _ => _ | None => r end).
  assert (H1 : stands_for r r1 /\ indexed r1 = indexed r).
  { unfold r1. destruct (Msg.soft_compact payload) as [[]|]; [..|done].
    all: by destruct (Msg.status payload). }
  clearbody r1. destruct (negb _); [done|]. destruct H1 as [H1 H2]. rewrite <- H2.
  case_bool_decide; split; try done; (transitivity r1; done).
Qed.

Lemma alike_rebirth limit x y :
  alike limit x y ->
  let born st := {| rows := unstamp_for_rebirth (rows st); identity := reset_ordinals (identity st);
                    launch_identity := from_map (unstamp_for_rebirth (rows st)) |} in
  alike limit (born x) (born y).
Proof.
  intros H born. unfold born, unstamp_for_rebirth. rewrite <- (same_rows _ _ _ H).
  assert (Hl : forall k r', (unstamp <$> rows x) !! k = Some r' ->
             exists r, rows x !! k = Some r /\ r' = unstamp r).
  { intros k r'. rewrite lookup_fmap. destruct (rows x !! k) as [r|]; [|done].
    intros [= <-]. by exists r. }
  assert (Hn : forall k r', (unstamp <$> rows x) !! k = Some r' -> kind_ordinal r' = None).
  { intros k r' Hr. by destruct (Hl _ _ Hr) as (r & _ & ->). }
  destruct H. split; simpl; try done.
  - intros k r' Hr. destruct (Hl _ _ Hr) as (r & E & ->). by apply (rows_keyed0 k r).
  - apply from_map_ok.
  - apply from_map_ok.
  - by apply ordinals_hold_reset.
  - by apply ordinals_hold_reset.
  - apply (names_hold_fields known_kinds _ (identity x)); [done|].
    eapply names_hold_sub; [..|exact names_left0].
    + intros k r Hr. exists (unstamp r). by rewrite lookup_fmap, Hr.
    + intros k r' Hr. destruct (Hl _ _ Hr) as (r & E & ->). right. by exists r.
Qed.

Lemma alike_insert_new limit x y key (r : Row) :
  alike limit x y -> rows x !! key = None -> row_key r = key -> name r = None ->
  kind_ordinal r = None ->
  alike limit (insert_row x key r) (insert_row y key r).
Proof.
  intros H Hnone Hkey Hname Hord.
  assert (Ho : forall m a, ordinals_hold limit m a -> ordinals_hold limit (<[key := r]> m) a).
  { intros m a. apply ordinals_hold_sub. intros k r' [[<- <-]|[_ E]]%lookup_insert_Some o Hro; [congruence|eauto]. }
  destruct H. split; simpl; try done.
  - by rewrite same_rows0.
  - by apply keyed_insert.
  - by apply replace_ok.
  - by apply replace_ok.
  - by apply Ho.
  - by apply Ho.
  - eapply names_hold_sub; [..|exact names_left0].
    + intros k r0 Hk. exists r0. rewrite lookup_insert_ne by congruence. done.
    + intros k r0 [[<- <-]|[_ E]]%lookup_insert_Some; [by left|right; eauto].
Qed.

Lemma attached_stands payload r :
  stands_for r (attach_place payload (attach_settings payload
    (match Attach.launch_id payload with Some id => rebind r id | None => r end))).
Proof using Type.
  set (s := match Attach.launch_id payload with Some _ => _ | None => r end).
  assert (H1 : stands_for r s) by (unfold s; destruct (Attach.launch_id payload); [apply rebind_stands|done]).
  clearbody s. transitivity s; [exact H1|]. clear H1.
  transitivity (attach_settings payload s); [done|]. generalize (attach_settings payload s).
  intros s'. unfold attach_place. by destruct (same_agent_instance _ _).
Qed.

Lemma alike_attach limit x y event payload :
  alike limit x y ->
  alike limit (reduce_agent_attach x event payload) (reduce_agent_attach y event payload).
Proof.
  intros H. unfold reduce_agent_attach. rewrite <- (same_rows _ _ _ H).
  set (key := (source event, Attach.agent_id payload)).
  destruct (is_none (rows x !! key) && is_none (Attach.launch_id payload)); [done|].
  set (new := seed (source event) (Attach.agent_id payload) Idle (timestamp event)).
  assert (Hs : forall r, stands_for r (attach_place payload (attach_settings payload
             (match Attach.launch_id payload with Some id => rebind r id | None => r end)))).
  { intros r. apply attached_stands. }
  specialize (Hs (unwrap_or (rows x !! key) new)).
  destruct (rows x !! key) as [r|] eqn:Er; cbn [unwrap_or] in *.
  - by eapply alike_update.
  - destruct Hs as (E1 & E2 & E3 & _). apply alike_insert_new; [done|done|by rewrite E1|by rewrite E2|by rewrite E3].
Qed.

(** A tidy event makes a card a provider's child exactly when the allocator
    named it as one. *)
Lemma lineage_subagent prior event_name obs :
  tidy_lineage prior event_name obs = true ->
  is_some (parent_projection prior event_name (Label.non_empty_string (Obs.parent_agent_id obs)))
  && is_none (or_else (Params.launch_depth (Obs.launch obs))
                (match prior with Some prior => launch_depth prior | None => None end))
  = is_some (Obs.parent_agent_id obs)
    || is_some_and prior (fun prior : Row => is_provider_subagent prior).
Proof.
  unfold tidy_lineage. destruct (is_some (Obs.parent_agent_id obs) || _) eqn:E.
  - intros [[H1 H2]%andb_prop H3]%andb_prop. rewrite H3. simpl.
    destruct (Params.launch_depth (Obs.launch obs)); [done|]. by destruct prior.
  - intros _. apply orb_false_elim in E as [E1 E2].
    destruct (Obs.parent_agent_id obs); [done|]. simpl.
    destruct prior as [p|]; [|done]. simpl in *. unfold is_provider_subagent in E2.
    destruct (parent_agent_id p) as [q|]; simpl in *.
    + destruct (launch_depth p); [|done]. by destruct (Params.launch_depth _).
    + by destruct (bool_decide _).
Qed.

Lemma inherited_facts m index kind obs prior s :
  let r := inherit_launch_identity m index
             (inherit_compaction_registration m (first_sight m kind obs prior s)) in
  row_key r = row_key s /\ name r = name s /\ kind_ordinal r = kind_ordinal s
  /\ is_provider_subagent r = is_provider_subagent s.
Proof using Type.
  cbv zeta. assert (H1 : stands_for s (first_sight m kind obs prior s)).
  { unfold first_sight. destruct prior; [done|]. destruct (Obs.signal obs); try reflexivity.
    apply inherit_marks_stands. }
  generalize dependent (first_sight m kind obs prior s). intros s1 H1.
  assert (H2 : stands_for s (inherit_compaction_registration m s1))
    by (transitivity s1; [exact H1|apply inherit_registration_stands]).
  generalize dependent (inherit_compaction_registration m s1). intros s2 H2.
  destruct (inherit_launch_keeps m index s2) as (-> & -> & -> & ->).
  rewrite (stands_for_subagent _ _ H2). destruct H2 as (-> & -> & -> & _). done.
Qed.

Lemma lifecycle_row_facts st kind id t event_name obs prior card :
  tidy_lineage prior event_name obs = true ->
  let r := lifecycle_row default_window st kind id t event_name obs prior card in
  row_key r = (kind, id) /\ name r = Some (card_name card)
  /\ kind_ordinal r = Some (card_kind_ordinal card)
  /\ is_provider_subagent r = is_some (Obs.parent_agent_id obs)
                              || is_some_and prior (fun prior : Row => is_provider_subagent prior).
Proof using Type.
  intros Ht. unfold lifecycle_row. cbv zeta.
  destruct (assembled default_window kind id t event_name obs prior
    (Label.non_empty_string (Obs.parent_agent_id obs)) (Label.non_empty_string (Obs.task obs)) card)
    as (E1 & E2 & E3 & E4 & E5).
  generalize dependent (assemble_agent_state default_window kind id t event_name obs prior
    (Label.non_empty_string (Obs.parent_agent_id obs)) (Label.non_empty_string (Obs.task obs)) card).
  intros s E1 E2 E3 E4 E5.
  destruct (inherited_facts (rows st) (launch_identity st) kind obs prior s) as (-> & -> & -> & ->).
  split; [exact E1|]. split; [exact E2|]. split; [exact E3|].
  rewrite <- (lineage_subagent _ _ _ Ht). unfold is_provider_subagent. by rewrite E4, E5.
Qed.

Lemma lifecycle_row_same limit x y kind id t event_name obs prior card :
  alike limit x y ->
  lifecycle_row default_window x kind id t event_name obs prior card
  = lifecycle_row default_window y kind id t event_name obs prior card.
Proof using Type.
  intros H. unfold lifecycle_row. by rewrite (same_rows _ _ _ H), (alike_index _ _ _ H).
Qed.

Section Step.
Context (limit : N) (Hlimit : (limit < U32_MAX)%N) (Hpos : (1 <= limit)%N).

Lemma alike_lifecycle x y event event_name obs :
  alike limit x y -> event_kind event = AgentLifecycle event_name obs ->
  tidy_event x event = true ->
  is_none_or (stamped_ordinal event) (fun o => (o <=? limit)%N) = true ->
  alike (limit + 1) (reduce_lifecycle_event default_window known_kinds hash_u64 x event event_name obs)
                    (reduce_lifecycle_event default_window known_kinds hash_u64 y event event_name obs).
Proof using Hlimit Hpos.
  intros H Ek Ht Hs. unfold reduce_lifecycle_event.
  unfold tidy_event in Ht. unfold stamped_ordinal in Hs. rewrite Ek in Ht, Hs. clear Ek.
  assert (Hw : forall x y, alike limit x y -> alike (limit + 1) x y) by (intros ?? Hxy; eapply alike_weaken, Hxy; lia).
  destruct (Obs.agent_id obs) as [id|]; [|by apply Hw]. simpl in Ht.
  set (key := (source event, id)) in *. cbv zeta.
  case_bool_decide as Eo.
  { assert (Hd : alike limit
      (drop_row {| rows := rows x; identity := mark_side_session (identity x) id; launch_identity := launch_identity x |} key)
      (drop_row {| rows := rows y; identity := mark_side_session (identity y) id; launch_identity := launch_identity y |} key)).
    { apply alike_drop. destruct H. split; simpl; try done.
      - by rewrite same_side0.
      - by eapply ordinals_hold_fields; [..|exact ordinals_left0].
      - by eapply ordinals_hold_fields; [..|exact ordinals_right0].
      - by eapply names_hold_fields; [|exact names_left0]. }
    assert (Hside : forall st : ReducerState, is_side_session (identity
      (drop_row {| rows := rows st; identity := mark_side_session (identity st) id; launch_identity := launch_identity st |} key)) id = true).
    { intros st. apply bool_decide_eq_true. simpl. set_solver. }
    rewrite !Hside. by apply Hw. }
  assert (Es : is_side_session (identity y) id = is_side_session (identity x) id)
    by (unfold is_side_session; by rewrite (same_side _ _ _ H)).
  rewrite Es. destruct (is_side_session (identity x) id); [by apply Hw|]. simpl in Ht.
  pose proof (alike_provisional limit x y (source event) id obs H) as (Ep & H' & Kx & Ky).
  fold key in Ep, H', Kx, Ky.
  destruct (provisional_prior x (source event) key obs) as [p x'].
  destruct (provisional_prior y (source event) key obs) as [q y']. simpl in *. subst q.
  rewrite <- (same_rows _ _ _ H') in *. set (prior := or_else (rows x' !! key) p) in *.
  destruct (quarantined _ _ _ _ _); [by apply Hw|].
  destruct (assign_alike limit Hlimit Hpos x' y' (source event) id obs prior H' Kx) as
    (card & ax & ay & -> & -> & Hins); [by rewrite <- (same_rows _ _ _ H')|done|].
  rewrite <- (same_rows _ _ _ H') in Hins.
  rewrite <- (lifecycle_row_same limit x' y') by done.
  destruct (lifecycle_row_facts x' (source event) id (timestamp event) event_name obs prior card Ht)
    as (F1 & F2 & F3 & F4).
  by apply Hins.
Qed.

Lemma alike_launch x y event payload :
  alike limit x y -> event_kind event = AgentLaunch payload ->
  tidy_event x event = true ->
  is_none_or (stamped_ordinal event) (fun o => (o <=? limit)%N) = true ->
  alike (limit + 1) (reduce_agent_launch known_kinds hash_u64 x event payload)
                    (reduce_agent_launch known_kinds hash_u64 y event payload).
Proof using All.
  intros H Ek Ht Hs. unfold tidy_event in Ht. unfold stamped_ordinal in Hs. rewrite Ek in Ht, Hs. clear Ek.
  assert (Hw : forall x y, alike limit x y -> alike (limit + 1) x y) by (intros ?? Hxy; eapply alike_weaken, Hxy; lia).
  unfold reduce_agent_launch. set (id := Launch.agent_id payload) in *. set (key := (source event, id)) in *.
  rewrite <- (same_rows _ _ _ H).
  assert (Eo : owner_for_name (identity y) (Launch.agent_name payload)
             = owner_for_name (identity x) (Launch.agent_name payload))
    by (unfold owner_for_name; by rewrite (same_names _ _ _ H)).
  rewrite Eo. set (owner := owner_for_name (identity x) (Launch.agent_name payload)) in *.
  destruct (negb (PetNames.valid_agent_name _ _)); [by apply Hw|].
  unfold tidy_launch in Ht. fold id key owner in Ht.
  apply andb_prop in Ht as [Hsub Hlate].
  set (late := is_provisional id && is_some_and owner _).
  assert (Hcons : launch_consumed (identity y) id = true -> launch_consumed (identity x) id = true).
  { unfold launch_consumed. rewrite !bool_decide_eq_true. apply (fewer_consumed _ _ _ H). }
  destruct (launch_consumed (identity x) id) eqn:Ex.
  - destruct (launch_consumed (identity y) id) eqn:Ey; [by apply Hw|].
    assert (late = true) as ->.
    { unfold late. simpl in Hlate. apply andb_prop in Hlate as [-> Hown]. simpl.
      destruct owner as [o|] eqn:Eow; [|done]. simpl in *. rewrite Hown. simpl.
      destruct (owner_rooted _ _ _ (names_left _ _ _ H) _ _ Eow) as (r & Hr & _).
      change (is_some (rows x !! o) = true). by rewrite Hr. }
    rewrite (same_rows _ _ _ H). apply Hw, alike_consume_right; [done|].
    by apply bool_decide_eq_true in Ex.
  - destruct (launch_consumed (identity y) id) eqn:Ey; [by specialize (Hcons eq_refl)|].
    pose proof (alike_consume limit x y key H) as Hc. rewrite <- (same_rows _ _ _ H) in Hc.
    destruct late; [by apply Hw|].
    destruct (bool_decide (Launch.state payload = LaunchFailed) && _ && _); [by apply Hw|].
    destruct (assign_launch_alike limit Hlimit Hpos x y (source event) payload H Hs)
      as (card & ax & ay & E1 & E2 & Hins).
    fold id key in E1, E2, Hins. rewrite E1, E2.
    destruct (launched (source event) (timestamp event) payload (rows x !! key) card)
      as (F1 & F2 & F3 & F4 & F5).
    rewrite <- (same_rows _ _ _ H) in Hins.
    apply Hins; [done|done|done|]. unfold is_provider_subagent. rewrite F4, F5.
    by apply negb_true_iff in Hsub.
Qed.

(** Every tidy event keeps the running and the resumed fold alike. *)
Lemma reduce_event_alike x y event :
  alike limit x y -> tidy_event x event = true ->
  is_none_or (stamped_ordinal event) (fun o => (o <=? limit)%N) = true ->
  alike (limit + 1) (reduce_event x event) (reduce_event y event).
Proof using All.
  intros H Ht Hs.
  assert (Hw : forall x y, alike limit x y -> alike (limit + 1) x y) by (intros ?? Hxy; eapply alike_weaken, Hxy; lia).
  unfold Reducer.reduce_event. destruct (event_kind event) as [event_name obs|payload|id warnings|id wf|payload|payload| |] eqn:Ek.
  - by apply alike_lifecycle.
  - by apply Hw, alike_attach.
  - apply Hw. rewrite <- (same_rows _ _ _ H). destruct (rows x !! (source event, id)) as [r|] eqn:Er; [|done].
    by eapply alike_update.
  - apply Hw, alike_alter; [done|]. intros r. by case_bool_decide.
  - by apply alike_launch.
  - apply Hw. unfold stamp_message. rewrite <- (same_rows _ _ _ H).
    destruct (message_agent_key (rows_of (rows x)) payload) as [key|].
    + pose proof (alike_alter limit x y key (fun r => stamp_row r payload (timestamp event)) H) as Ha.
      rewrite <- (same_rows _ _ _ H) in Ha. apply Ha. intros r. apply stamp_row_keeps.
    + pose proof H as []. split; simpl; try done; rewrite (same_rows _ _ _ H); done.
  - by apply Hw, alike_rebirth.
  - by apply Hw.
Qed.
End Step.

(** *** Runs *)

Definition stamps_within (limit : N) (events : list FoldEvent) : bool :=
  forallb (fun event => is_none_or (stamped_ordinal event) (fun o => (o <=? limit)%N)) events.

Abbreviation run := (foldl reduce_event).

Lemma run_alike stamped events : forall limit x y,
  (stamped <= limit)%N -> (1 <= limit)%N ->
  (limit + N.of_nat (length events) <= U32_MAX)%N ->
  stamps_within stamped events = true -> tidy x events = true -> alike limit x y ->
  alike (limit + N.of_nat (length events)) (run x events) (run y events).
Proof.
  induction events as [|event events IH]; intros limit x y Hst Hpos Hroom Hs Ht H.
  { by rewrite N.add_0_r. }
  cbn [length foldl] in *. apply andb_prop in Hs as [Hs1 Hs], Ht as [Ht1 Ht].
  replace (limit + N.of_nat (S (length events)))%N
    with ((limit + 1) + N.of_nat (length events))%N in * by lia.
  apply IH; [lia..|done|done|]. apply reduce_event_alike; [lia|done|done|done|].
  destruct (stamped_ordinal event) as [o|]; [|done]. simpl in *.
  apply N.leb_le in Hs1. apply N.leb_le. lia.
Qed.

(** A resumed fold is alike the fold it resumes. *)
Lemma restart_alike limit x y :
  alike limit x y -> alike limit x (start known_kinds (rows x) (state (identity x))).
Proof.
  intros H. destruct (restart_agrees known_kinds limit (rows x) (identity x)) as (E1 & E2 & E3 & E4 & E5);
    [apply H|apply H|].
  destruct H. split; simpl; try done.
  - apply from_map_ok.
  - by rewrite E4.
Qed.

Lemma cold_alike limit st :
  (forall kind n, s_next_ordinal st !! kind = Some n -> (n <= limit)%N) ->
  alike limit (start known_kinds ∅ st) (start known_kinds ∅ st).
Proof.
  intros Hn. destruct (cold_holds known_kinds limit st Hn) as [Ho Hnames].
  split; try done; apply from_map_ok.
Qed.

Lemma alike_result limit x y :
  alike limit x y -> (rows x, state (identity x)) = (rows y, state (identity y)).
Proof.
  intros H. rewrite (same_rows _ _ _ H). f_equal.
  assert (E : forall a b, names a = names b -> side_sessions a = side_sessions b ->
    s_next_ordinal (state a) = s_next_ordinal (state b) -> state a = state b).
  { intros a b E1 E2 E3. unfold state in *. simpl in E3. by rewrite E1, E2, E3. }
  apply E; [apply H|apply H|].
  rewrite (state_next (identity x) (held_below _ _ _ (ordinals_left _ _ _ H))).
  rewrite (state_next (identity y) (held_below _ _ _ (ordinals_right _ _ _ H))). apply H.
Qed.

End Resume.
