(* ===== verification/ReducerLaws.v ===== *)
(** * The laws of the agent fold

    What holds of every fold of the log: its launch index answers what a scan of
    the rows answers; a resumed fold is the whole fold; cards of a kind never
    share an ordinal and cards of the root never share a name. *)

From S2P Require Import Prelude.
From S2P Require Import Agents Message Prompt Card CardIdentity CardIdentityFacts Reducer ReducerFacts ReducerResume.
From S2P Require Import Lifecycle.
Import Agents.Placement Agents.Agent CardIdentity.Identity.

Section Laws.
Context (default_window : text -> option N) (known_kinds : list text) (hash_u64 : text -> N -> N).

Abbreviation reduce_event := (reduce_event default_window known_kinds hash_u64).
Abbreviation reduce := (reduce default_window known_kinds hash_u64).
Abbreviation start := (start known_kinds).
Abbreviation run := (foldl reduce_event).
Abbreviation tidy := (tidy default_window known_kinds hash_u64).

(** ** The launch index of every fold *)

(** The rows lie under their own keys and the index is theirs. *)
Definition indexes (st : ReducerState) : Prop :=
  keyed (rows st) /\ index_ok (launch_identity st) (rows st).

Lemma indexes_drop st key : indexes st -> indexes (drop_row st key).
Proof. intros [Hk Hi]. split; simpl; [by apply keyed_delete|by apply remove_ok]. Qed.

Lemma indexes_retire st key : indexes st -> indexes (retire_provisional st key).2.
Proof. apply (indexes_drop st key). Qed.

Lemma indexes_insert st key r : indexes st -> row_key r = key -> indexes (insert_row st key r).
Proof. intros [Hk Hi] E. split; simpl; [by apply keyed_insert|by apply replace_ok]. Qed.

Lemma indexes_update st key (r r' : Row) :
  indexes st -> rows st !! key = Some r -> stands_for r r' -> indexes (insert_row st key r').
Proof.
  intros H Hr Hs. apply indexes_insert; [done|]. destruct Hs as (-> & _). by apply H.
Qed.

Lemma indexes_alter st key (f : Row -> Row) :
  indexes st -> (forall r, stands_for r (f r) /\ indexed (f r) = indexed r) ->
  indexes {| rows := alter f key (rows st); identity := identity st;
             launch_identity := launch_identity st |}.
Proof.
  intros [Hk Hi] Hf. split; simpl.
  - intros k r'. destruct (decide (key = k)) as [<-|Hne].
    + rewrite lookup_alter_eq. destruct (rows st !! key) as [r|] eqn:Hr; [|done]. intros [= <-]. destruct (Hf r) as [(E & _) _].
      rewrite E. by apply Hk.
    + rewrite lookup_alter_ne by done. apply Hk.
  - eapply index_ok_same, Hi. intros k. destruct (decide (key = k)) as [<-|Hne].
    + rewrite lookup_alter_eq. destruct (rows st !! key) as [r|]; [|done]. simpl. apply Hf.
    + by rewrite lookup_alter_ne.
Qed.

Lemma indexes_adopt st kind key obs :
  indexes st -> indexes (adopt_provisional st kind key obs).2.
Proof.
  intros H. unfold adopt_provisional.
  assert (Hp : forall st, indexes st -> indexes
    (match (let! pane_id := Obs.pane_id obs else None in
            adoptable_owner_for_pane (rows st) kind pane_id key) with
     | Some owner => retire_provisional st owner
     | None => (None, st)
     end).2).
  { intros st' H'. destruct (Obs.pane_id obs) as [p|]; [|done].
    destruct (adoptable_owner_for_pane _ _ _ _); [by apply indexes_retire|done]. }
  destruct (Obs.agent_name obs) as [n|]; [|by apply Hp].
  destruct (adoptable_owner_for_name _ _ _ _ _) as [owner|]; [|by apply Hp].
  pose proof (indexes_retire st owner H) as Hr.
  destruct (retire_provisional st owner) as [[p|] st']; [done|by apply Hp].
Qed.

Lemma indexes_release st kind key obs :
  indexes st -> indexes (release_stamped_provisional_for_existing st kind key obs).
Proof.
  intros H. unfold release_stamped_provisional_for_existing.
  destruct (is_some_and (rows st !! key) _); [done|].
  destruct (is_none_or (rows st !! key) _); [done|].
  destruct (Obs.pane_id obs) as [p|]; [|done].
  destruct (adoptable_owner_for_pane _ _ _ _) as [owner|]; [|done].
  pose proof (indexes_retire st owner H) as Hr.
  destruct (retire_provisional st owner) as [[p'|] st']; [|done].
  destruct (rows st' !! key) as [existing|] eqn:E; [|done].
  by eapply indexes_update, stamp_launch_stands.
Qed.

Lemma indexes_provisional st kind key obs :
  indexes st -> indexes (provisional_prior st kind key obs).2.
Proof.
  intros H. unfold provisional_prior. destruct (is_some (Obs.parent_agent_id obs)); [done|].
  destruct (is_some (rows st !! key)); [by apply indexes_release|by apply indexes_adopt].
Qed.

Lemma lifecycle_row_key st kind id t event_name obs prior card :
  row_key (lifecycle_row default_window st kind id t event_name obs prior card) = (kind, id).
Proof.
  unfold lifecycle_row. cbv zeta.
  destruct (assembled default_window kind id t event_name obs prior
    (Label.non_empty_string (Obs.parent_agent_id obs)) (Label.non_empty_string (Obs.task obs)) card)
    as (E1 & _).
  generalize dependent (assemble_agent_state default_window kind id t event_name obs prior
    (Label.non_empty_string (Obs.parent_agent_id obs)) (Label.non_empty_string (Obs.task obs)) card).
  intros s E1. by destruct (inherited_facts (rows st) (launch_identity st) kind obs prior s) as (-> & _).
Qed.

Lemma indexes_lifecycle st event event_name obs :
  indexes st ->
  indexes (reduce_lifecycle_event default_window known_kinds hash_u64 st event event_name obs).
Proof.
  intros H. unfold reduce_lifecycle_event. destruct (Obs.agent_id obs) as [id|]; [|done].
  cbv zeta. set (key := (source event, id)).
  match goal with |- indexes (if is_side_session (identity ?s) id then _ else _) => set (st1 := s) end.
  assert (H1 : indexes st1) by (unfold st1; case_bool_decide; [by apply indexes_drop|done]).
  clearbody st1. destruct (is_side_session (identity st1) id); [done|].
  pose proof (indexes_provisional st1 (source event) key obs H1) as H2.
  destruct (provisional_prior st1 (source event) key obs) as [p st2]. simpl in H2.
  destruct (quarantined _ _ _ _ _); [done|].
  destruct (assign _ _ _ _ _ _ _) as [card a].
  by apply indexes_insert, lifecycle_row_key.
Qed.
Lemma indexes_event st event : indexes st -> indexes (reduce_event st event).
Proof.
  intros H. unfold Reducer.reduce_event.
  destruct (event_kind event) as [event_name obs|payload|id warnings|id wf|payload|payload| |].
  - by apply indexes_lifecycle.
  - unfold reduce_agent_attach. destruct (_ && _); [done|].
    apply indexes_insert; [done|]. destruct (attached_stands payload (unwrap_or
      (rows st !! (source event, Attach.agent_id payload))
      (seed (source event) (Attach.agent_id payload) Idle (timestamp event)))) as [-> _].
    destruct (rows st !! _) as [r|] eqn:Er; [|done]. by apply H.
  - destruct (rows st !! (source event, id)) as [r|] eqn:Er; [|done]. by eapply indexes_update.
  - apply indexes_alter; [done|]. intros r. by case_bool_decide.
  - unfold reduce_agent_launch. destruct (negb _); [done|]. destruct (launch_consumed _ _); [done|].
    destruct (is_provisional _ && _); [done|]. destruct (_ && _ && _); [done|].
    destruct (assign_launch _ _ _ _ _ _ _) as [card a]. apply indexes_insert; [done|].
    by destruct (launched (source event) (timestamp event) payload
      (rows st !! (source event, Launch.agent_id payload)) card) as [-> _].
  - unfold stamp_message. destruct (message_agent_key (rows_of (rows st)) payload) as [key|]; [|by destruct H].
    apply indexes_alter; [done|]. intros r. apply stamp_row_keeps.
  - split; simpl; [|apply from_map_ok]. intros k r'. unfold unstamp_for_rebirth. rewrite lookup_fmap.
    destruct (rows st !! k) as [r|] eqn:Er; [|done]. intros [= <-]. by apply (proj1 H k r).
  - done.
Qed.

Lemma indexes_run events : forall st, indexes st -> indexes (run st events).
Proof. induction events; intros st H; [done|]. simpl. by apply IHevents, indexes_event. Qed.

Lemma indexes_start m st : keyed m -> indexes (start m st).
Proof. intros H. split; [done|apply from_map_ok]. Qed.

(** C25: The launch index of the fold answers every inheritance question as a
    scan of all rows would: after any event log, folded from any rows that lie
    under their own keys, [predecessor] returns the earliest registered row
    among all those the inheritance rule admits. *)
Theorem predecessor_is_scan (m : gmap AgentKey Row) (st : AgentIdentityState)
    (events : list FoldEvent) (successor : Row) :
  keyed m ->
  let final := run (start m st) events in
  predecessor (launch_identity final) (rows final) successor
  = min_by opened_first opened_ltb (List.filter (precedes successor) (rows_of (rows final))).
Proof.
  intros Hm final. destruct (indexes_run events _ (indexes_start m st Hm)) as [Hk Hi].
  by apply predecessor_scan.
Qed.

(** ** Resuming *)

(** A cold log that leaves room for its ordinals. *)
Record cold_log (limit : N) (st : AgentIdentityState) (events : list FoldEvent) : Prop := {
  known_ordinals kind n : s_next_ordinal st !! kind = Some n -> (n <= limit)%N;
  stamped_ordinals : stamps_within limit events = true;
  room : (1 <= limit)%N /\ (limit + N.of_nat (length events) <= U32_MAX)%N;
  tidy_log : tidy (start ∅ st) events = true
}.

Lemma tidy_app events1 : forall st events2,
  tidy st (events1 ++ events2) = tidy st events1 && tidy (run st events1) events2.
Proof.
  induction events1 as [|e events1 IH]; intros st events2; [done|].
  simpl. by rewrite IH, andb_assoc.
Qed.

Lemma cold_prefix limit st events1 events2 :
  cold_log limit st (events1 ++ events2) ->
  alike known_kinds (limit + N.of_nat (length events1))
    (run (start ∅ st) events1) (run (start ∅ st) events1).
Proof.
  intros [Hn Hs [Hp Hr] Ht]. unfold stamps_within in Hs. rewrite forallb_app in Hs.
  apply andb_prop in Hs as [Hs _]. rewrite tidy_app in Ht. apply andb_prop in Ht as [Ht _].
  rewrite length_app in Hr. eapply run_alike; [reflexivity|done|lia|done|done|].
  by apply cold_alike.
Qed.

(** C9: Folding a delta onto the persisted prefix is folding the whole log, on a
    log from a cold start ([cold_log]): the rows and the identity state
    [AgentIdentityState] that the fold of the prefix returns from no rows, fed
    to a later fold as its seed, give with the later events exactly what one
    fold of all the events gives.  The log must be tidy: a child's lineage takes
    effect, and no launch of an adopted placeholder returns once no card carries
    its name; and its ordinals must have room below [u32::MAX].  Without
    tidiness the two folds differ ([adopted_launch_returns]). *)
Theorem resumed_fold_is_whole_fold (limit : N) (st : AgentIdentityState)
    (prefix delta : list FoldEvent) :
  cold_log limit st (prefix ++ delta) ->
  let '(seed_rows, state) := reduce ∅ st prefix in
  reduce seed_rows state delta = reduce ∅ st (prefix ++ delta).
Proof.
  intros H. unfold Reducer.reduce at 1. pose proof (cold_prefix _ _ _ _ H) as Ha.
  apply restart_alike in Ha. destruct H as [Hn Hs [Hp Hr] Ht].
  unfold stamps_within in Hs. rewrite forallb_app in Hs. apply andb_prop in Hs as [_ Hs].
  rewrite tidy_app in Ht. apply andb_prop in Ht as [_ Ht]. rewrite length_app in Hr.
  unfold Reducer.reduce. rewrite foldl_app. symmetry.
  eapply alike_result, run_alike; [..|exact Hs|exact Ht|exact Ha]; lia.
Qed.

(** ** Cards apart *)

(** C16: No two cards share their place in the list: after any tidy log from a
    cold start, its ordinals within [u32] ([cold_log]), two rows of one kind
    with the same [kind_ordinal] are the same row. *)
Theorem ordinals_never_shared (limit : N) (st : AgentIdentityState) (events : list FoldEvent) :
  cold_log limit st events ->
  forall (key1 key2 : AgentKey) (r1 r2 : Row) (ordinal : N),
  let m := (reduce ∅ st events).1 in
  m !! key1 = Some r1 -> m !! key2 = Some r2 -> key1.1 = key2.1 ->
  kind_ordinal r1 = Some ordinal -> kind_ordinal r2 = Some ordinal -> key1 = key2.
Proof.
  intros H. rewrite <- (app_nil_r events) in H. pose proof (cold_prefix _ _ _ _ H) as Ha.
  intros key1 key2 r1 r2 ordinal m. apply (rows_apart _ _ _ (ordinals_left _ _ _ _ Ha)).
Qed.

(** C17: No two cards of the root answer to one name: after any tidy log from a
    cold start, its ordinals within [u32] ([cold_log]), two rows that are no
    provider's children and carry the same valid name are the same row, and the
    allocator gives that row as the owner of the name. *)
Theorem root_names_never_shared (limit : N) (st : AgentIdentityState) (events : list FoldEvent) :
  cold_log limit st events ->
  forall (key1 key2 : AgentKey) (r1 r2 : Row) (n : text),
  let folded := reduce ∅ st events in
  folded.1 !! key1 = Some r1 -> folded.1 !! key2 = Some r2 ->
  is_provider_subagent r1 = false -> is_provider_subagent r2 = false ->
  row_name known_kinds r1 = Some n -> row_name known_kinds r2 = Some n ->
  key1 = key2 /\ s_names folded.2 !! n = Some key1.
Proof.
  intros H. rewrite <- (app_nil_r events) in H. pose proof (cold_prefix _ _ _ _ H) as Ha.
  intros key1 key2 r1 r2 n folded H1 H2 S1 S2 N1 N2.
  pose proof (root_named _ _ _ (names_left _ _ _ _ Ha) key1 r1 n H1 S1 N1) as E1.
  pose proof (root_named _ _ _ (names_left _ _ _ _ Ha) key2 r2 n H2 S2 N2) as E2.
  split; [congruence|done].
Qed.

(** ** Names are found *)

(** C34: Naming a card always ends with a usable name: when no registered kind
    has a dash or is an adjective of the generator ([plain_kinds]), the name [assign_name] gives is valid, is free or
    already the card's, and is recorded as the card's; the generator's loop
    finds it within the attempts that the taken names allow. *)
Theorem assigned_name_is_free (a : CardIdentityAllocator) (key : AgentKey)
    (observation : Obs.AgentLifecycleObservation) (prior : option Row) :
  plain_kinds known_kinds = true ->
  let '(n, a') := assign_name known_kinds hash_u64 a key observation prior in
  PetNames.valid_agent_name known_kinds n = true
  /\ (names a !! n = None \/ names a !! n = Some key)
  /\ names a' = <[n := key]> (names a).
Proof.
  intros Hk. unfold assign_name. cbv zeta.
  assert (Hv : forall o x, ofilter o (PetNames.valid_agent_name known_kinds) = Some x ->
                           PetNames.valid_agent_name known_kinds x = true)
    by (by intros o x [_ H]%ofilter_Some).
  match goal with |- context [assign_name_candidate _ _ _ _ ?w _ _] => set (wanted := w) end.
  assert (Hw : forall x, wanted = Some x -> PetNames.valid_agent_name known_kinds x = true).
  { intros x. unfold wanted.
    assert (H1 : forall y, (match prior with Some prior => row_name known_kinds prior | None => None end)
                           = Some y -> PetNames.valid_agent_name known_kinds y = true)
      by (intros y; destruct prior; [apply Hv|done]).
    pose proof (Hv (Obs.agent_name observation)) as H2.
    destruct (is_some_and prior _), (match prior with Some _ => _ | None => _ end),
      (ofilter (Obs.agent_name observation) _); simpl; intros [= <-]; auto. }
  clearbody wanted. unfold assign_name_candidate. cbv zeta.
  assert (Ha : forall n, name_available_for a n key = true ->
            names a !! n = None \/ names a !! n = Some key).
  { intros n H. unfold name_available_for in H. destruct (names a !! n) as [k|]; [|by left].
    apply bool_decide_eq_true in H as ->. by right. }
  destruct (ofilter wanted _) as [x|] eqn:E1.
  { apply ofilter_Some in E1 as [E1 E2]. auto. }
  destruct (ofilter (match prior with Some prior => row_name known_kinds prior | None => None end) _)
    as [x|] eqn:E2.
  { apply ofilter_Some in E2 as [E2 E3]. destruct prior as [p|]; [|done].
    split; [by eapply Hv|auto]. }
  unfold PetNames.mint_for_session.
  set (taken := fun n => is_some_and (names a !! n) (fun owner => negb (bool_decide (owner = key)))).
  destruct (mint_finds known_kinds hash_u64 key.2 (size (names a)) taken Hk) as (n & _ & -> & Hn & _ & Ht).
  { apply taken_bound. intros n. unfold taken. by destruct (names a !! n). }
  split; [done|]. split; [|done]. unfold taken in Ht. destruct (names a !! n) as [k|]; [|by left].
  simpl in Ht. apply negb_false_iff, bool_decide_eq_true in Ht as ->. by right.
Qed.
End Laws.

(** ** A log *)

Module Sample.
Definition kinds : list text := [str "claude"; str "codex"].
Definition hash (seed : text) (attempt : N) : N :=
  (attempt * 65537 + N.of_nat (length seed) * 31)%N.
Definition window (_ : text) : option N := None.

Definition launched_as (id name : text) : Launch.AgentLaunchPayload :=
  {| Launch.agent_id := id; Launch.launch_id := Some id; Launch.system_prompt_digest := None;
     Launch.agent_name := name; Launch.agent_name_explicit := false;
     Launch.launch := Params.default; Launch.state := Starting; Launch.run_id := None;
     Launch.pane_id := Some (str "%1");
     Launch.runtime_owner := Some {| runtime_kind := OwnerAgent; subject_id := id;
                                     runtime_pid := 7; process_start := None |};
     Launch.worktree_path := None; Launch.worktree_branch := None; Launch.prompt := None;
     Launch.description := None |}.
Definition seen (id : text) (name : option text) (pane : text) (signal : LifecycleSignal) :=
  Obs.new (Some id) signal <| Obs.agent_name := name |> <| Obs.pane_id := Some pane |>.
Definition at_ (t : Z) (kind : EventKind) : FoldEvent :=
  {| source := str "claude"; timestamp := t; event_kind := kind |}.

(** A placeholder, its adoption, a card without a launch, a child, a side
    conversation, a turn. *)
Definition prefix : list FoldEvent :=
  [at_ 10 (AgentLaunch (launched_as (str "launch_1") (str "bold-arc")));
   at_ 20 (AgentLifecycle None (seen (str "s1") (Some (str "bold-arc")) (str "%1") Registered));
   at_ 25 (AgentLifecycle None (seen (str "s2") None (str "%2") Registered));
   at_ 26 (AgentLifecycle None (seen (str "btw") None (str "%2") Registered
                                  <| Obs.origin := Some SideConversation |>))].
Definition delta : list FoldEvent :=
  [at_ 30 (AgentLifecycle None (seen (str "s1") None (str "%1") (TurnStarted None)));
   at_ 31 (AgentLifecycle None (seen (str "c1") None (str "%1") Registered
                                  <| Obs.parent_agent_id := Some (str "s1") |>
                                  <| Obs.task := Some (str "read") |>));
   at_ 35 (AgentLaunch (launched_as (str "launch_1") (str "bold-arc")));
   at_ 36 (AgentLifecycle None (seen (str "btw") None (str "%2") (TurnStarted None)));
   at_ 38 (AgentLaunch (launched_as (str "launch_2") (str "calm-arc")));
   at_ 40 (AgentLifecycle None (seen (str "s3") (Some (str "bold-arc")) (str "%3") Registered));
   at_ 50 SessionRebirth;
   at_ 60 (AgentLifecycle None (seen (str "s2") None (str "%0") Registered));
   at_ 65 (AgentLaunch (launched_as (str "launch_3") (str "neat-arc")))].

Lemma cold : cold_log window kinds hash 1 no_identity (prefix ++ delta).
Proof.
  split; [done|by vm_compute|by vm_compute|by vm_compute].
Qed.

(** A placeholder adopted under another name, and its launch seen again. *)
Definition renamed : list FoldEvent :=
  [at_ 10 (AgentLaunch (launched_as (str "launch_1") (str "bold-arc")));
   at_ 20 (AgentLifecycle None (seen (str "s1") (Some (str "calm-arc")) (str "%1") Registered))].
Definition late : list FoldEvent :=
  [at_ 30 (AgentLaunch (launched_as (str "launch_1") (str "bold-arc")))].
End Sample.

Section Witnesses.
Import Sample.

(** A conversation that opens in the pane of the placeholder [launch_3]. *)
Definition successor : Row :=
  seed (str "claude") (str "s9") Idle 70
  <| pane := Some (from_id (str "%1")) |>
  <| runtime_owner := Some {| runtime_kind := OwnerAgent; subject_id := str "s9";
                              runtime_pid := 7; process_start := None |} |>.

Lemma predecessor_is_scan_witness :
  let final := foldl (Reducer.reduce_event window kinds hash) (Reducer.start kinds ∅ no_identity)
                 (prefix ++ delta) in
  keyed ∅
  /\ is_some (predecessor (launch_identity final) (rows final) successor) = true
  /\ predecessor (launch_identity final) (rows final) successor
  = min_by opened_first opened_ltb (List.filter (precedes successor) (rows_of (rows final))).
Proof.
  intros final.
  assert (keyed ∅) as He by (intros k r H; rewrite lookup_empty in H; discriminate H).
  split; [exact He|]. split; [vm_compute; reflexivity|].
  exact (predecessor_is_scan window kinds hash ∅ no_identity (prefix ++ delta) successor He).
Defined.

Lemma resumed_fold_is_whole_fold_witness :
  let '(seed_rows, state) := Reducer.reduce window kinds hash ∅ no_identity prefix in
  Reducer.reduce window kinds hash seed_rows state delta
  = Reducer.reduce window kinds hash ∅ no_identity (prefix ++ delta).
Proof. exact (resumed_fold_is_whole_fold window kinds hash 1 no_identity prefix delta cold). Defined.

Lemma ordinals_never_shared_witness :
  let m := (Reducer.reduce window kinds hash ∅ no_identity (prefix ++ delta)).1 in
  exists r : Row, m !! (str "claude", str "s2") = Some r /\ kind_ordinal r = Some 1%N /\
  forall key r', m !! key = Some r' -> key.1 = str "claude" -> kind_ordinal r' = Some 1%N ->
                 key = (str "claude", str "s2").
Proof.
  intros m.
  assert (Hr : exists r : Row, m !! (str "claude", str "s2") = Some r /\ kind_ordinal r = Some 1%N).
  { unfold m. vm_compute. eexists. split; reflexivity. }
  destruct Hr as (r & H1 & H2). exists r. split; [exact H1|]. split; [exact H2|].
  intros key r' Hk Hs Ho.
  exact (ordinals_never_shared window kinds hash 1 no_identity (prefix ++ delta) cold
           key _ r' r 1 Hk H1 Hs Ho H2).
Defined.

Lemma root_names_never_shared_witness :
  let folded := Reducer.reduce window kinds hash ∅ no_identity (prefix ++ delta) in
  exists r : Row, folded.1 !! (str "claude", str "s1") = Some r /\ is_provider_subagent r = false
  /\ row_name kinds r = Some (str "bold-arc")
  /\ s_names folded.2 !! str "bold-arc" = Some (str "claude", str "s1").
Proof.
  intros folded.
  assert (Hr : exists r : Row, folded.1 !! (str "claude", str "s1") = Some r
             /\ is_provider_subagent r = false /\ row_name kinds r = Some (str "bold-arc")).
  { unfold folded. vm_compute. eexists. repeat split; reflexivity. }
  destruct Hr as (r & H1 & H2 & H3). exists r. do 3 (split; [assumption|]).
  exact (proj2 (root_names_never_shared window kinds hash 1 no_identity (prefix ++ delta) cold
           _ _ r r (str "bold-arc") H1 H1 H2 H2 H3 H3)).
Defined.

Lemma assigned_name_is_free_witness :
  let a := {| names := {[ str "bold-arc" := (str "claude", str "s1") ]}; ordinals := ∅;
              next_ordinal := ∅; consumed_launches := ∅; side_sessions := ∅ |} in
  let '(n, a') := assign_name kinds hash a (str "claude", str "s2")
                    (seen (str "s2") (Some (str "bold-arc")) (str "%1") Registered) None in
  PetNames.valid_agent_name kinds n = true
  /\ (names a !! n = None \/ names a !! n = Some (str "claude", str "s2"))
  /\ names a' = <[n := (str "claude", str "s2")]> (names a).
Proof. intros a. apply assigned_name_is_free. reflexivity. Defined.

(** The persisted state forgets which launches were adopted: the launch of an
    adopted placeholder, seen again, is refused by the running fold and makes a
    card of the resumed one.  [tidy_launch] is the condition this violates. *)
Example adopted_launch_returns :
  let '(seed_rows, state) := Reducer.reduce window kinds hash ∅ no_identity renamed in
  (Reducer.reduce window kinds hash ∅ no_identity (renamed ++ late)).1 !! (str "claude", str "launch_1")
    = None
  /\ is_some ((Reducer.reduce window kinds hash seed_rows state late).1
                !! (str "claude", str "launch_1")) = true.
Proof. vm_compute. split; reflexivity. Qed.
End Witnesses.
