(* ===== verification/ReducerNames.v ===== *)
(** * A card with a place has a name

    Every row a fold gives an ordinal also has a usable name, so the backfill of
    [CardIdentity] only finds work among the rows a rebirth took the ordinal of. *)

From S2P Require Import Prelude.
From S2P Require Import Agents Message Prompt Card CardIdentity CardIdentityFacts Reducer ReducerFacts ReducerResume ReducerLaws.
From S2P Require Import Lifecycle.
Import Agents.Placement Agents.Agent CardIdentity.Identity.

Section Names.
Context (default_window : text -> option N) (known_kinds : list text) (hash_u64 : text -> N -> N).
Context (Hkinds : plain_kinds known_kinds = true).

Abbreviation reduce_event := (reduce_event default_window known_kinds hash_u64).
Abbreviation valid := (PetNames.valid_agent_name known_kinds).

(** ** The names of the allocator *)

Lemma row_name_valid prior x :
  match prior with Some prior => row_name known_kinds prior | None => None end = Some x -> valid x = true.
Proof. destruct prior; [|done]. by intros [_ H]%ofilter_Some. Qed.

Lemma minted_valid (a : CardIdentityAllocator) id taken :
  (forall n, taken n = true -> is_Some (names a !! n)) ->
  valid (PetNames.mint_for_session known_kinds hash_u64 id (size (names a)) taken) = true.
Proof.
  intros Ht. unfold PetNames.mint_for_session.
  destruct (mint_finds known_kinds hash_u64 id (size (names a)) taken Hkinds) as (n & _ & -> & H & _);
    [by apply taken_bound|done].
Qed.

Lemma candidate_is_valid (a : CardIdentityAllocator) key wanted prior id :
  (forall x, wanted = Some x -> valid x = true) ->
  valid (assign_name_candidate known_kinds hash_u64 a key wanted prior id).1 = true.
Proof.
  intros Hw. unfold assign_name_candidate. cbv zeta.
  destruct (ofilter wanted _) as [x|] eqn:E1; [apply ofilter_Some in E1 as [E1 _]; by apply Hw|].
  destruct (ofilter (match prior with Some _ => _ | None => _ end) _) as [x|] eqn:E2.
  { apply ofilter_Some in E2 as [E2 _]. by eapply row_name_valid. }
  apply minted_valid. intros n. by destruct (names a !! n).
Qed.

Lemma child_is_valid (a : CardIdentityAllocator) wanted prior id :
  valid (assign_child_name known_kinds hash_u64 a wanted prior id) = true.
Proof.
  unfold assign_child_name. destruct (ofilter wanted _) as [x|] eqn:E1.
  { by apply ofilter_Some in E1 as [_ E1]. }
  destruct (match prior with Some _ => _ | None => _ end) as [x|] eqn:E2; [by eapply row_name_valid|].
  apply minted_valid. intros n. by destruct (names a !! n).
Qed.

Lemma event_card_valid a kind id obs prior :
  valid (card_name (assign known_kinds hash_u64 a kind id obs prior).1) = true.
Proof.
  unfold assign.
  assert (H : valid (assign_event_name known_kinds hash_u64 a (kind, id) obs prior).1 = true).
  { unfold assign_event_name. destruct (_ || _); [apply child_is_valid|].
    unfold assign_name. cbv zeta. apply candidate_is_valid. intros x.
    pose proof (row_name_valid prior) as H1.
    assert (H2 : forall y, ofilter (Obs.agent_name obs) valid = Some y -> valid y = true)
      by (by intros y [_ Hy]%ofilter_Some).
    destruct (is_some_and prior _), (match prior with Some _ => _ | None => _ end),
      (ofilter (Obs.agent_name obs) _); simpl; intros [= <-]; auto. }
  destruct (assign_event_name _ _ _ _ _ _) as [n a1]. by destruct (assign_ordinal _ _ _ _ _).
Qed.

Lemma launch_card_valid a kind id payload prior :
  valid (Launch.agent_name payload) = true ->
  valid (card_name (assign_launch known_kinds hash_u64 a kind id payload prior).1) = true.
Proof.
  intros Hv. unfold assign_launch. cbv zeta.
  pose proof (candidate_is_valid a (kind, id) (Some (Launch.agent_name payload)) prior id) as H.
  destruct (assign_name_candidate _ _ _ _ _ _ _) as [n a1]. destruct (assign_ordinal_candidate _ _ _ _ _).
  apply H. by intros x [= <-].
Qed.

(** ** The rows *)

Definition named (r : Row) : Prop :=
  is_some (kind_ordinal r) = true -> is_some_and (name r) valid = true.
Definition all_named (m : gmap AgentKey Row) : Prop := map_Forall (fun _ r => named r) m.

Lemma named_stands r r' : stands_for r r' -> named r -> named r'.
Proof. unfold named. by intros (_ & -> & -> & _). Qed.

Lemma named_card (r : Row) n o : name r = Some n -> kind_ordinal r = Some o -> valid n = true -> named r.
Proof. intros E1 E2 Hv _. by rewrite E1. Qed.

Lemma named_update m key (r r' : Row) :
  all_named m -> m !! key = Some r -> stands_for r r' -> all_named (<[key := r']> m).
Proof. intros H Hr Hs. apply map_Forall_insert_2; [|done]. eapply named_stands; [done|by apply (H key)]. Qed.

Lemma named_alter m key (f : Row -> Row) :
  all_named m -> (forall r, stands_for r (f r)) -> all_named (alter f key m).
Proof.
  intros H Hf k r. destruct (decide (key = k)) as [<-|Hne].
  - rewrite lookup_alter_eq. destruct (m !! key) as [r0|] eqn:E; [|done]. intros [= <-].
    eapply named_stands; [apply Hf|by apply (H key)].
  - rewrite lookup_alter_ne by done. apply H.
Qed.

Lemma named_adopt st kind key obs :
  all_named (rows st) -> all_named (rows (adopt_provisional st kind key obs).2).
Proof.
  intros H. unfold adopt_provisional.
  assert (Hp : forall st, all_named (rows st) -> all_named (rows
    (match (let! pane_id := Obs.pane_id obs else None in
            adoptable_owner_for_pane (rows st) kind pane_id key) with
     | Some owner => retire_provisional st owner
     | None => (None, st)
     end).2)).
  { intros st' H'. destruct (Obs.pane_id obs) as [p|]; [|done].
    destruct (adoptable_owner_for_pane _ _ _ _); [by apply map_Forall_delete|done]. }
  destruct (Obs.agent_name obs) as [n|]; [|by apply Hp].
  destruct (adoptable_owner_for_name _ _ _ _ _) as [owner|]; [|by apply Hp].
  assert (Hr : all_named (rows (retire_provisional st owner).2)) by (by apply map_Forall_delete).
  destruct (retire_provisional st owner) as [[p|] st']; [done|by apply Hp].
Qed.

Lemma named_release st kind key obs :
  all_named (rows st) -> all_named (rows (release_stamped_provisional_for_existing st kind key obs)).
Proof.
  intros H. unfold release_stamped_provisional_for_existing.
  destruct (is_some_and (rows st !! key) _); [done|].
  destruct (is_none_or (rows st !! key) _); [done|].
  destruct (Obs.pane_id obs) as [p|]; [|done].
  destruct (adoptable_owner_for_pane _ _ _ _) as [owner|]; [|done].
  assert (Hr : all_named (rows (retire_provisional st owner).2)) by (by apply map_Forall_delete).
  destruct (retire_provisional st owner) as [[p'|] st']; [|done].
  destruct (rows st' !! key) as [existing|] eqn:E; [|done].
  eapply named_update; [exact Hr|exact E|apply stamp_launch_stands].
Qed.

Lemma named_provisional st kind key obs :
  all_named (rows st) -> all_named (rows (provisional_prior st kind key obs).2).
Proof.
  intros H. unfold provisional_prior. destruct (is_some (Obs.parent_agent_id obs)); [done|].
  destruct (is_some (rows st !! key)); [by apply named_release|by apply named_adopt].
Qed.

Lemma lifecycle_row_card st kind id t event_name obs prior card :
  let r := lifecycle_row default_window st kind id t event_name obs prior card in
  name r = Some (card_name card) /\ kind_ordinal r = Some (card_kind_ordinal card).
Proof.
  unfold lifecycle_row. cbv zeta.
  destruct (assembled default_window kind id t event_name obs prior
    (Label.non_empty_string (Obs.parent_agent_id obs)) (Label.non_empty_string (Obs.task obs)) card)
    as (_ & E1 & E2 & _).
  generalize dependent (assemble_agent_state default_window kind id t event_name obs prior
    (Label.non_empty_string (Obs.parent_agent_id obs)) (Label.non_empty_string (Obs.task obs)) card).
  intros s E1 E2.
  by destruct (inherited_facts (rows st) (launch_identity st) kind obs prior s) as (_ & -> & -> & _).
Qed.

Lemma named_lifecycle st event event_name obs :
  all_named (rows st) ->
  all_named (rows (reduce_lifecycle_event default_window known_kinds hash_u64 st event event_name obs)).
Proof using All.
  intros H. unfold reduce_lifecycle_event. destruct (Obs.agent_id obs) as [id|]; [|done].
  cbv zeta. set (key := (source event, id)).
  match goal with |- all_named (rows (if is_side_session (identity ?s) id then _ else _)) =>
    set (st1 := s) end.
  assert (H1 : all_named (rows st1))
    by (unfold st1; case_bool_decide; [by apply map_Forall_delete|done]).
  clearbody st1. destruct (is_side_session (identity st1) id); [done|].
  pose proof (named_provisional st1 (source event) key obs H1) as H2.
  destruct (provisional_prior st1 (source event) key obs) as [p st2]. cbn [snd] in H2.
  destruct (quarantined _ _ _ _ _); [done|].
  pose proof (event_card_valid (identity st2) (source event) id obs (or_else (rows st2 !! key) p)) as Hv.
  destruct (assign _ _ _ _ _ _ _) as [card a]. cbn [fst] in Hv.
  apply map_Forall_insert_2; [|done].
  destruct (lifecycle_row_card st2 (source event) id (timestamp event) event_name obs
    (or_else (rows st2 !! key) p) card) as [E1 E2]. by eapply named_card.
Qed.

Lemma named_event st event : all_named (rows st) -> all_named (rows (reduce_event st event)).
Proof using All.
  intros H. unfold Reducer.reduce_event.
  destruct (event_kind event) as [event_name obs|payload|id warnings|id wf|payload|payload| |].
  - by apply named_lifecycle.
  - unfold reduce_agent_attach. destruct (_ && _); [done|].
    apply map_Forall_insert_2; [|done]. eapply named_stands; [apply attached_stands|].
    destruct (rows st !! _) as [r|] eqn:Er; [|done]. by eapply H.
  - destruct (rows st !! (source event, id)) as [r|] eqn:Er; [|done]. by eapply named_update.
  - apply named_alter; [done|]. intros r. by case_bool_decide.
  - unfold reduce_agent_launch. destruct (PetNames.valid_agent_name _ _) eqn:Hv; [|done]. simpl.
    destruct (launch_consumed _ _); [done|].
    destruct (is_provisional _ && _); [done|]. destruct (_ && _ && _); [done|].
    pose proof (launch_card_valid (identity st) (source event) (Launch.agent_id payload) payload
      (rows st !! (source event, Launch.agent_id payload)) Hv) as Hc.
    destruct (assign_launch _ _ _ _ _ _ _) as [card a]. cbn [fst] in Hc.
    apply map_Forall_insert_2; [|done].
    destruct (launched (source event) (timestamp event) payload
      (rows st !! (source event, Launch.agent_id payload)) card) as (_ & E1 & E2 & _).
    by eapply named_card.
  - simpl. unfold stamp_message. destruct (message_agent_key (rows_of (rows st)) payload) as [key|]; [|done].
    apply named_alter; [done|]. intros r. apply stamp_row_keeps.
  - intros k r'. simpl. unfold unstamp_for_rebirth. rewrite lookup_fmap.
    destruct (rows st !! k) as [r|]; [|done]. by intros [= <-].
  - done.
Qed.

Lemma named_run events : forall st,
  all_named (rows st) -> all_named (rows (foldl reduce_event st events)).
Proof using All. induction events; intros st H; [done|]. simpl. by apply IHevents, named_event. Qed.
End Names.
