(* ===== verification/ReducerStatus.v ===== *)
(** * The status and the phase of a folded row

    An invariant of the fold of the log: the phase of every row is the shape of
    a running turn and of nothing else, and its status is one a hook reports.
    The lifecycle step, the state snapshots, the cache pings, the launches and
    the reaped ends of [Reducer] all keep it. *)

From S2P Require Import Prelude.
From S2P Require Import Agents Message Prompt Card CardIdentity CardIdentityFacts Reducer ReducerFacts ReducerResume ReducerLaws.
From S2P Require Import Lifecycle.
Import Agents.Placement Agents.Agent CardIdentity.Identity.

(** A row whose status and phase agree. *)
Definition status_agrees (r : Row) : Prop := valid (lifecycle r) /\ observed (agent_status r).
Definition all_agree (m : gmap AgentKey Row) : Prop := map_Forall (fun _ r => status_agrees r) m.

Lemma agrees_alt (r : Row) : status_agrees r <->
  (agent_phase r <> Phase.Idle <-> agent_status r = Running)
  /\ agent_status r <> Paused /\ agent_status r <> Sleeping.
Proof. done. Qed.

Lemma resting_agrees (r : Row) :
  agent_phase r = Phase.Idle -> agent_status r <> Running -> observed (agent_status r) -> status_agrees r.
Proof. intros E1 E2 Ho. apply agrees_alt. split; [|exact Ho]. rewrite E1. by split. Qed.

(** The row keeps its status and its phase. *)
Definition same_status (r r' : Row) : Prop :=
  agent_status r' = agent_status r /\ agent_phase r' = agent_phase r.
#[export] Instance same_status_preorder : PreOrder same_status.
Proof. split; [by intros r|]. intros a b c [? ?] [? ?]. split; congruence. Qed.
Lemma agrees_same r r' : same_status r r' -> status_agrees r -> status_agrees r'.
Proof. intros [E1 E2]. rewrite !agrees_alt. by rewrite E1, E2. Qed.

(** ** The step *)

Lemma snapshot_agrees (prior : option LifecycleState) signal :
  valid_prior prior -> (forall s, prior = Some s -> observed (status s)) ->
  valid (next (snapshot_transition prior signal))
  /\ observed (status (next (snapshot_transition prior signal))).
Proof.
  intros Hv Ho. unfold snapshot_transition.
  set (p := unwrap_or prior {| status := Idle; phase := Phase.Idle; compacting := false |}).
  assert (Hp : valid p /\ observed (status p)).
  { destruct prior as [s|]; [split; [exact Hv|by apply Ho]|].
    split; [split; [done|discriminate]|by split]. }
  destruct Hp as [Hpv Hpo]. clearbody p. clear Hv Ho. cbn [next status phase compacting].
  set (st := match signal with TurnStarted _ => Running | _ => _ end).
  assert (Hst : observed st).
  { unfold st. destruct signal, (status p); try done; by split. }
  split; [|exact Hst]. unfold valid. cbn [status phase]. clearbody st.
  case_bool_decide as E1; [by rewrite E1|]. case_bool_decide; naive_solver.
Qed.

Lemma transition_agrees (prior : option Row) signal keepalive snapshot :
  (forall p, prior = Some p -> status_agrees p) ->
  let t := transition (option_map core prior) signal keepalive snapshot in
  valid (next t) /\ observed (status (next t)).
Proof.
  intros Hp. cbv zeta. unfold transition. set (l := option_map lifecycle (option_map core prior)).
  assert (Hv : valid_prior l).
  { unfold l. destruct prior as [p|]; [|done]. by apply (Hp p). }
  assert (Ho : forall s, l = Some s -> observed (status s)).
  { unfold l. destruct prior as [p|]; [|done]. intros s [= <-]. by apply (Hp p). }
  destruct snapshot; [by apply snapshot_agrees|].
  assert (Hstep : forall key ids, valid (next (step l key ids signal))
            /\ observed (status (next (step l key ids signal)))).
  { intros key ids. split; [by apply step_valid|by apply step_observed]. }
  destruct prior as [p|]; [|apply Hstep].
  cbn [option_map]. repeat case_match; try apply Hstep; cbn [next].
  all: apply (Hp p eq_refl).
Qed.

(** A session that ends without a snapshot leaves no running row. *)
Lemma ended_rests (prior : option AgentState) keepalive :
  phase (next (transition prior Ended keepalive false)) = Phase.Idle
  /\ status (next (transition prior Ended keepalive false)) <> Running.
Proof.
  unfold transition.
  assert (Hs : forall l key ids, phase (next (step l key ids Ended)) = Phase.Idle
    /\ status (next (step l key ids Ended)) <> Running).
  { intros l key ids. by destruct l as [[[] ph co]|]. }
  destruct prior; apply Hs.
Qed.

Lemma carried_status state prior t edge : same_status prior (carry_across_ping state prior t edge).
Proof. by destruct edge. Qed.

Lemma fold_lifecycle_agrees state prior t signal p q snapshot :
  (forall pr, prior = Some pr -> status_agrees pr) -> status_agrees (fold_lifecycle state prior t signal p q snapshot).2.
Proof.
  intros Hp. unfold fold_lifecycle.
  pose proof (transition_agrees prior signal (is_some_and p prompt_is_keepalive_only) snapshot Hp) as [Hv Ho].
  set (tr := transition _ _ _ _) in *. clearbody tr.
  assert (Hset : forall s : Row, status_agrees (s <| core := core s <| agent_status := status (next tr) |>
                                                              <| agent_phase := phase (next tr) |> |>)).
  { intros s. by split. }
  assert (Hkeep : forall s pr, status_agrees s -> status_agrees (keep_snapshot_clocks s pr)) by (by intros s []).
  assert (Hopen : forall s : Row, status_agrees s -> status_agrees (s <| core := core s <| turn_started_at := Some t |> |>))
    by done.
  generalize (turn_ids_after (match prior with Some prior => turn_ids prior | None => no_turn_ids end)
    signal (opened_turn tr)). intros ids.
  assert (Hping : forall pr e, prior = Some pr -> status_agrees (carry_across_ping state pr t e)).
  { intros pr e E. eapply agrees_same; [apply carried_status|by apply Hp]. }
  destruct (ping tr) as [e|], prior as [pr|]; try (by apply Hping).
  all: destruct snapshot; [|apply (Hset state)]; cbn [snd].
  all: destruct (opened_turn tr); [|apply Hkeep, Hset].
  all: apply Hopen, Hkeep, Hset.
Qed.

Lemma fold_lifecycle_ended state prior t p q :
  agent_phase (fold_lifecycle state prior t Ended p q false).2 = Phase.Idle.
Proof.
  unfold fold_lifecycle.
  pose proof (ended_rests (option_map core prior) (is_some_and p prompt_is_keepalive_only)) as [Hph _].
  assert (Hping : ping (transition (option_map core prior) Ended (is_some_and p prompt_is_keepalive_only) false) = None).
  { unfold transition. by destruct (option_map core prior). }
  rewrite Hping. set (tr := transition _ _ _ _) in *. clearbody tr.
  generalize (turn_ids_after (match prior with Some prior => turn_ids prior | None => no_turn_ids end)
    Ended (opened_turn tr)). intros ids. exact Hph.
Qed.

(** ** The rows of a fold *)

(** A snapshot reports a running or an idle session, never the end of one. *)
Definition live_snapshot (obs : Obs.AgentLifecycleObservation) : bool :=
  negb (bool_decide (Obs.state_snapshot obs = Some true)
        && match Obs.signal obs with Ended => true | _ => false end).

Lemma signal_row_agrees kind id t event_name obs prior :
  (forall pr, prior = Some pr -> status_agrees pr) -> live_snapshot obs = true ->
  status_agrees (signal_row kind id t event_name obs prior).2.
Proof.
  intros Hp Hl. unfold signal_row.
  generalize (fold_launch_params (carried_base kind id prior t) (Obs.launch obs)). intros base.
  set (seeded := base <| core := core base <| resumed_at := _ |> |>). clearbody seeded.
  pose proof (fold_lifecycle_agrees seeded prior t (Obs.signal obs) (Obs.prompt obs) (Obs.ask_queue obs)
    (bool_decide (Obs.state_snapshot obs = Some true)) Hp) as Hf.
  assert (He : Obs.signal obs = Ended -> agent_phase (fold_lifecycle seeded prior t (Obs.signal obs) (Obs.prompt obs)
    (Obs.ask_queue obs) (bool_decide (Obs.state_snapshot obs = Some true))).2 = Phase.Idle).
  { intros E. unfold live_snapshot in Hl. rewrite E in Hl |- *. rewrite andb_true_r in Hl.
    apply negb_true_iff in Hl. rewrite Hl. apply fold_lifecycle_ended. }
  destruct (fold_lifecycle _ _ _ _ _ _ _) as [retires s]. cbn [snd] in Hf, He |- *.
  destruct (match Obs.signal obs with Ended => true | _ => false end
            && Instance_.reaped_end_rests_at_idle event_name
                 (option_map (fun prior : Row => agent_status prior) prior)) eqn:Er.
  - apply andb_prop in Er as [Er _]. apply resting_agrees; [|discriminate|by split].
    apply He. by destruct (Obs.signal obs).
  - eapply agrees_same; [|exact Hf]. done.
Qed.

Lemma observe_prompt_status r p w : same_status r (observe_prompt r p w).
Proof. unfold observe_prompt. by destruct (_ && _). Qed.
Lemma trim_status r : same_status r (trim_ended_text r).
Proof. unfold trim_ended_text. by destruct (is_none _). Qed.
Lemma measure_row_status window kind obs prior b s : same_status s (measure_row window kind obs prior (b, s)).
Proof. unfold measure_row. by destruct (usage_projection _ _ _ _ _) as [[us re] un]. Qed.
Lemma label_row_status obs s : same_status s (label_row obs s).
Proof.
  unfold label_row. destruct (Obs.prompt obs) as [p|]; [|done].
  destruct (ping_turn s); [done|]. transitivity (observe_prompt s p (prompt_is_wake_only p)); [|done].
  apply observe_prompt_status.
Qed.
Lemma place_row_status id t event_name obs prior event_parent event_task card s :
  same_status s (place_row id t event_name obs prior event_parent event_task card s).
Proof. unfold place_row. by destruct (worktree_projection _ _ _ _). Qed.

Lemma assembled_agrees window kind id t event_name obs prior event_parent event_task card :
  (forall pr, prior = Some pr -> status_agrees pr) -> live_snapshot obs = true ->
  status_agrees (assemble_agent_state window kind id t event_name obs prior event_parent event_task card).
Proof.
  intros Hp Hl. unfold assemble_agent_state.
  pose proof (signal_row_agrees kind id t event_name obs prior Hp Hl) as Hs.
  destruct (signal_row _ _ _ _ _ _) as [b s]. cbn [snd] in Hs.
  eapply agrees_same; [|exact Hs].
  etransitivity; [apply (measure_row_status window kind obs prior b)|].
  etransitivity; [apply (place_row_status id t event_name obs prior event_parent event_task card)|].
  etransitivity; [apply (label_row_status obs)|]. apply (trim_status (shell_row obs _)).
Qed.

Lemma rebind_status r id : same_status r (rebind r id).
Proof. unfold rebind, set_launch_id. by destruct (bool_decide _). Qed.

Lemma inherit_registration_status m s : same_status s (inherit_compaction_registration m s).
Proof.
  unfold inherit_compaction_registration. destruct (compacted_from s) as [from|]; [|done].
  destruct (m !! (agent_kind s, from)) as [p|]; [|done].
  destruct (registered_at p) as [t|]; [|done].
  set (s1 := s <| last_prompt_at := _ |>). assert (H1 : same_status s s1) by done. clearbody s1.
  destruct (is_some_and (registered_at s1) _); [|done]. by transitivity s1.
Qed.
Lemma inherit_launch_status m index s : same_status s (inherit_launch_identity m index s).
Proof.
  unfold inherit_launch_identity. destruct (_ || _ || _ || _); [done|].
  by destruct (predecessor index m s).
Qed.
Lemma first_sight_status m kind obs prior s : same_status s (first_sight m kind obs prior s).
Proof. unfold first_sight. by destruct prior, (Obs.signal obs). Qed.

Lemma lifecycle_row_agrees window st kind id t event_name obs prior card :
  (forall pr, prior = Some pr -> status_agrees pr) -> live_snapshot obs = true ->
  status_agrees (lifecycle_row window st kind id t event_name obs prior card).
Proof.
  intros Hp Hl. unfold lifecycle_row. cbv zeta.
  eapply agrees_same; [|by apply (assembled_agrees window kind id t event_name obs prior)].
  etransitivity; [apply first_sight_status|].
  etransitivity; [apply inherit_registration_status|apply inherit_launch_status].
Qed.

Lemma launched_agrees kind t payload prior card :
  status_agrees (assemble_launch_state kind t payload prior card).
Proof.
  unfold assemble_launch_state. cbv zeta.
  generalize (launch_placement payload prior (launch_settings kind t payload prior)). intros s.
  assert (Ho : status_agrees (launch_outcome t payload prior card s)).
  { unfold launch_outcome, launch_status. apply agrees_alt.
    destruct (Launch.state payload), (Launch.prompt payload); cbn; by split. }
  revert Ho. generalize (launch_outcome t payload prior card s). intros s' Ho.
  destruct (is_some_and prior _); [|done]. by eapply agrees_same; [|exact Ho].
Qed.

Lemma attached_status payload r :
  same_status r (attach_place payload (attach_settings payload
    (match Attach.launch_id payload with Some id => rebind r id | None => r end))).
Proof.
  transitivity (match Attach.launch_id payload with Some id => rebind r id | None => r end).
  { destruct (Attach.launch_id payload); [apply rebind_status|done]. }
  generalize (match Attach.launch_id payload with Some id => rebind r id | None => r end). intros s.
  transitivity (attach_settings payload s); [done|]. generalize (attach_settings payload s).
  intros s'. unfold attach_place. by destruct (same_agent_instance _ _).
Qed.
Lemma stamp_launch_status existing provisional : same_status existing (stamp_launch existing provisional).
Proof.
  unfold stamp_launch. destruct (launch_id provisional) as [id|]; [|done].
  transitivity (rebind existing id); [apply rebind_status|]. by generalize (rebind existing id).
Qed.
Lemma stamp_row_status payload t r : same_status r (stamp_row r payload t).
Proof.
  unfold stamp_row.
  set (r1 := match Msg.soft_compact payload with Some _ => _ | None => r end).
  assert (H1 : same_status r r1).
  { unfold r1. destruct (Msg.soft_compact payload) as [[]|]; [..|done].
    all: by destruct (Msg.status payload). }
  clearbody r1. destruct (negb _); [done|]. transitivity r1; [done|]. by case_bool_decide.
Qed.

Section Agreement.
Context (default_window : text -> option N) (known_kinds : list text) (hash_u64 : text -> N -> N).
Abbreviation reduce_event := (reduce_event default_window known_kinds hash_u64).

Lemma agrees_update m key (r r' : Row) :
  all_agree m -> m !! key = Some r -> same_status r r' -> all_agree (<[key := r']> m).
Proof. intros H Hr Hs. apply map_Forall_insert_2; [|done]. eapply agrees_same; [done|by apply (H key)]. Qed.

Lemma agrees_alter m key (f : Row -> Row) :
  all_agree m -> (forall r, same_status r (f r)) -> all_agree (alter f key m).
Proof.
  intros H Hf k r. destruct (decide (key = k)) as [<-|Hne].
  - rewrite lookup_alter_eq. destruct (m !! key) as [r0|] eqn:E; [|done]. intros [= <-].
    eapply agrees_same; [apply Hf|by apply (H key)].
  - rewrite lookup_alter_ne by done. apply H.
Qed.

(** A state and a row it hands over. *)
Definition agrees_pair (r : option Row * ReducerState) : Prop :=
  all_agree (rows r.2) /\ forall p, r.1 = Some p -> status_agrees p.

Lemma agrees_retire st key : all_agree (rows st) -> agrees_pair (retire_provisional st key).
Proof. intros H. split; [by apply map_Forall_delete|]. intros p Hp. by apply (H key). Qed.

Lemma agrees_adopt st kind key obs : all_agree (rows st) -> agrees_pair (adopt_provisional st kind key obs).
Proof.
  intros H. unfold adopt_provisional.
  assert (Hp : forall st, all_agree (rows st) -> agrees_pair
    (match (let! pane_id := Obs.pane_id obs else None in
            adoptable_owner_for_pane (rows st) kind pane_id key) with
     | Some owner => retire_provisional st owner
     | None => (None, st)
     end)).
  { intros st' H'. destruct (Obs.pane_id obs) as [p|]; [|done].
    destruct (adoptable_owner_for_pane _ _ _ _); [by apply agrees_retire|done]. }
  destruct (Obs.agent_name obs) as [n|]; [|by apply Hp].
  destruct (adoptable_owner_for_name _ _ _ _ _) as [owner|]; [|by apply Hp].
  pose proof (agrees_retire st owner H) as Hr.
  destruct (retire_provisional st owner) as [[p|] st']; [exact Hr|apply Hp, Hr].
Qed.

Lemma agrees_release st kind key obs :
  all_agree (rows st) -> all_agree (rows (release_stamped_provisional_for_existing st kind key obs)).
Proof.
  intros H. unfold release_stamped_provisional_for_existing.
  destruct (is_some_and (rows st !! key) _); [done|].
  destruct (is_none_or (rows st !! key) _); [done|].
  destruct (Obs.pane_id obs) as [p|]; [|done].
  destruct (adoptable_owner_for_pane _ _ _ _) as [owner|]; [|done].
  pose proof (agrees_retire st owner H) as [Hr _].
  destruct (retire_provisional st owner) as [[p'|] st']; [|done]. cbn [snd] in Hr.
  destruct (rows st' !! key) as [existing|] eqn:E; [|done].
  eapply agrees_update; [exact Hr|exact E|apply stamp_launch_status].
Qed.

Lemma agrees_provisional st kind key obs :
  all_agree (rows st) -> agrees_pair (provisional_prior st kind key obs).
Proof.
  intros H. unfold provisional_prior. destruct (is_some (Obs.parent_agent_id obs)); [done|].
  destruct (is_some (rows st !! key)); [|by apply agrees_adopt]. split; [by apply agrees_release|done].
Qed.

Lemma agrees_lifecycle st event event_name obs :
  live_snapshot obs = true -> all_agree (rows st) ->
  all_agree (rows (reduce_lifecycle_event default_window known_kinds hash_u64 st event event_name obs)).
Proof.
  intros Hl H. unfold reduce_lifecycle_event. destruct (Obs.agent_id obs) as [id|]; [|done].
  cbv zeta. set (key := (source event, id)).
  match goal with |- all_agree (rows (if is_side_session (identity ?s) id then _ else _)) =>
    set (st1 := s) end.
  assert (H1 : all_agree (rows st1))
    by (unfold st1; case_bool_decide; [by apply map_Forall_delete|done]).
  clearbody st1. destruct (is_side_session (identity st1) id); [done|].
  pose proof (agrees_provisional st1 (source event) key obs H1) as [H2 Hp].
  destruct (provisional_prior st1 (source event) key obs) as [p st2]. cbn [fst snd] in H2, Hp.
  destruct (quarantined _ _ _ _ _); [done|].
  destruct (assign _ _ _ _ _ _ _) as [card a].
  apply map_Forall_insert_2; [|done]. apply lifecycle_row_agrees; [|exact Hl].
  intros pr. destruct (rows st2 !! key) as [r|] eqn:Er; cbn [or_else]; [|apply Hp].
  intros [= <-]. by apply (H2 key).
Qed.

(** The events of a log whose snapshots end no session. *)
Definition live_snapshots (event : FoldEvent) : bool :=
  match event_kind event with AgentLifecycle _ obs => live_snapshot obs | _ => true end.

Lemma agrees_event st event :
  live_snapshots event = true -> all_agree (rows st) -> all_agree (rows (reduce_event st event)).
Proof.
  unfold live_snapshots. intros Hl H. unfold Reducer.reduce_event.
  destruct (event_kind event) as [event_name obs|payload|id warnings|id wf|payload|payload| |].
  - by apply agrees_lifecycle.
  - unfold reduce_agent_attach. destruct (_ && _); [done|].
    apply map_Forall_insert_2; [|done]. eapply agrees_same; [apply attached_status|].
    destruct (rows st !! _) as [r|] eqn:Er; [by eapply H|]. by apply resting_agrees.
  - destruct (rows st !! (source event, id)) as [r|] eqn:Er; [|done]. by eapply agrees_update.
  - apply agrees_alter; [done|]. intros r. by case_bool_decide.
  - unfold reduce_agent_launch. destruct (PetNames.valid_agent_name _ _); [|done]. simpl.
    destruct (launch_consumed _ _); [done|].
    destruct (is_provisional _ && _); [done|]. destruct (_ && _ && _); [done|].
    destruct (assign_launch _ _ _ _ _ _ _) as [card a].
    apply map_Forall_insert_2; [apply launched_agrees|done].
  - simpl. unfold stamp_message. destruct (message_agent_key (rows_of (rows st)) payload) as [key|]; [|done].
    apply agrees_alter; [done|]. intros r. apply stamp_row_status.
  - intros k r'. simpl. unfold unstamp_for_rebirth. rewrite lookup_fmap.
    destruct (rows st !! k) as [r|] eqn:Er; [|done]. intros [= <-]. exact (H k r Er).
  - done.
Qed.

(** C23: in every state the fold of a log reaches, from no rows or from rows an
    earlier fold left, whatever the order of its events -- lifecycle signals,
    state snapshots, cache pings, launches, attaches, rebirths -- the turn
    phase of every row is non-idle exactly while the row runs, and its status
    is one a hook can report, never a projection ([Paused], [Sleeping]).  The
    one condition is that no state snapshot reports the end of a session
    ([live_snapshots]): the adapter that takes snapshots reports a start of a
    session or of a turn with them. *)
Theorem folded_status_agrees seed_rows state_ events key (r : Row)
    (Hseed : all_agree seed_rows) (Hlive : Forall (fun e => live_snapshots e = true) events)
    (Hr : (reduce default_window known_kinds hash_u64 seed_rows state_ events).1 !! key = Some r) :
  (agent_phase r <> Phase.Idle <-> agent_status r = Running)
  /\ agent_status r <> Paused /\ agent_status r <> Sleeping.
Proof.
  apply agrees_alt. revert key r Hr. unfold reduce. cbn [fst].
  change (all_agree (rows (foldl reduce_event (start known_kinds seed_rows state_) events))).
  assert (H0 : all_agree (rows (start known_kinds seed_rows state_))) by exact Hseed.
  revert H0. generalize (start known_kinds seed_rows state_).
  induction Hlive as [|e events He _ IH]; intros st Hst; [done|]. simpl. by apply IH, agrees_event.
Qed.
End Agreement.

Section Witness.
Import ReducerLaws.Sample.

(** A launch, its adoption, a second card, a turn and a rebirth. *)
Lemma folded_status_agrees_witness :
  exists r : Row,
    (reduce window kinds hash ∅ no_identity (prefix ++ delta)).1 !! (str "claude", str "s1") = Some r
    /\ agent_status r = Running /\ agent_phase r <> Phase.Idle.
Proof.
  assert (Hr : exists r : Row, (reduce window kinds hash ∅ no_identity (prefix ++ delta)).1
                                 !! (str "claude", str "s1") = Some r /\ agent_status r = Running).
  { vm_compute. eexists. split; reflexivity. }
  destruct Hr as (r & H1 & H2). exists r. split; [exact H1|]. split; [exact H2|].
  apply (folded_status_agrees window kinds hash ∅ no_identity (prefix ++ delta) (str "claude", str "s1") r);
    [intros k x Hx; by rewrite lookup_empty in Hx|repeat constructor|exact H1|exact H2].
Defined.
End Witness.
