(* ===== verification/Fold.v ===== *)
(** * The resumable fold of the event log ([store/snapshot/fold.rs])

    A reader folds the log into rows and persists them with the extent they
    reflect ([RollupCache]); the next fold resumes from there.  What rotation
    drops from the log survives in the carryover, which lies beneath the rows
    of the active log ([AgentRollup]).  [RollupCursor] is a reader's fold in
    memory.

    [Files] is the part of a workspace a fold reads.  Parsing of the JSON files
    is left out: a file holds a value, is missing, or does not parse.  The
    memories of parsed files and of the reborn carryover repeat what a parse or
    a computation gives, and are left out.  The decoding of an envelope into an
    event and the liveness of a process are parameters. *)

From S2P Require Import Prelude EventLog.
From S2P Require Import Agents Message Prompt Card CardIdentity Reducer.
From S2P Require Import Lifecycle.
Import Agents.Placement Agents.Agent CardIdentity.Identity.

(** ** Outcomes of resume messages *)

Definition RESUME_OUTCOME_RETENTION_SECS : Z := 7 * 24 * 60 * 60.

Module Outcome.
Record ResumeOutcome := {
  message_id : text;
  kind : text;
  agent_id : text;
  agent_name : option text;
  status : MessageStatus;
  enqueued_at : Z;
  updated_at : Z
}.
End Outcome.

Abbreviation ResumeOutcome := Outcome.ResumeOutcome.
Abbreviation OutcomeKey := (AgentKey * text)%type.

Definition outcome_key (outcome : ResumeOutcome) : OutcomeKey :=
  (Outcome.kind outcome, Outcome.agent_id outcome, Outcome.message_id outcome).

Definition resume_outcome_for_event (event : FoldEvent) : option ResumeOutcome :=
  match event_kind event with
  | MessageEvent payload =>
      if negb (bool_decide (Msg.gate payload = Resume))
         || negb (bool_decide (Msg.body payload = Message.Prompt))
         || negb (is_terminal (Msg.status payload))
      then None
      else
        Some {| Outcome.message_id := Msg.message_id payload; Outcome.kind := Msg.kind payload;
                Outcome.agent_id := Msg.agent_id payload;
                Outcome.agent_name := Msg.agent_name payload;
                Outcome.status := Msg.status payload;
                Outcome.enqueued_at := unwrap_or (Msg.enqueued_at payload) (timestamp event);
                Outcome.updated_at := timestamp event |}
  | _ => None
  end.

Definition resume_outcome_cmp (left right : ResumeOutcome) : comparison :=
  then_with (Z.compare (Outcome.enqueued_at left) (Outcome.enqueued_at right))
    (then_with (Z.compare (Outcome.updated_at left) (Outcome.updated_at right))
       (text_cmp (Outcome.message_id left) (Outcome.message_id right))).

Abbreviation Outcomes := (gmap OutcomeKey ResumeOutcome).

Definition upsert_resume_outcome (m : Outcomes) (outcome : ResumeOutcome) : Outcomes :=
  let key := outcome_key outcome in
  match m !! key with
  | Some existing =>
      match resume_outcome_cmp existing outcome with
      | Lt => <[key := outcome]> m
      | _ => m
      end
  | None => <[key := outcome]> m
  end.

Definition retained_outcome (now : Z) (outcome : ResumeOutcome) : bool :=
  (as_secs (now - Outcome.updated_at outcome) <=? RESUME_OUTCOME_RETENTION_SECS)%Z.
Definition prune_resume_outcomes (m : Outcomes) (now : Z) : Outcomes :=
  filter (fun '(_, outcome) => retained_outcome now outcome = true) m.

Definition reduce_resume_outcomes_seeded (seed : Outcomes) (events : list FoldEvent) (now : Z)
  : Outcomes :=
  let m := foldl (fun m event => let! outcome := resume_outcome_for_event event else m in
                                 upsert_resume_outcome m outcome) seed events in
  prune_resume_outcomes m now.

(** [BTreeMap::into_values]. *)
Definition outcome_key_leb (a b : OutcomeKey) : bool :=
  (key_leb a.1 b.1 && negb (bool_decide (a.1 = b.1)))
  || (bool_decide (a.1 = b.1) && text_leb a.2 b.2).
Definition outcomes_of (m : Outcomes) : list ResumeOutcome :=
  (sort_by fst outcome_key_leb (map_to_list m)).*2.

Definition merge_resume_outcomes (carryover live : list ResumeOutcome) (now : Z)
  : list ResumeOutcome :=
  outcomes_of
    (prune_resume_outcomes (foldl upsert_resume_outcome ∅ (carryover ++ live)) now).

(** ** The carryover *)

Record EventCarryover := {
  raw_rows : list Row;
  raw_identity : AgentIdentityState;
  raw_outcomes : list ResumeOutcome
}.
Definition no_carryover : EventCarryover :=
  {| raw_rows := []; raw_identity := no_identity; raw_outcomes := [] |}.

Record FoldCarryover := {
  carried : list Row;
  carried_root : option text;
  carried_identity : AgentIdentityState;
  carried_outcomes : list ResumeOutcome
}.
Definition empty_carryover : FoldCarryover :=
  {| carried := []; carried_root := None; carried_identity := no_identity;
     carried_outcomes := [] |}.

(** [AgentState::is_root_lane]. *)
Definition is_root_lane (channel worktree_path project_root : option text) : bool :=
  is_none_or channel is_empty
  && is_some_and project_root (fun root => bool_decide (worktree_path = Some root)).

(** [stamp_root_lane], and its method on the carryover. *)
Definition stamp_root_lane (project_root : option text) (agent : Row) : Row :=
  agent <| core := core agent <| root_lane :=
             is_root_lane (channel_stamp agent) (lane_path agent) project_root |> |>.
Definition stamp_root_lanes (self : FoldCarryover) (project_root : option text) : FoldCarryover :=
  {| carried := map (stamp_root_lane project_root) (carried self); carried_root := project_root;
     carried_identity := carried_identity self; carried_outcomes := carried_outcomes self |}.

(** A legacy row's labels, and the command text of an ended one. *)
Definition normalize_row (agent : Row) : Row :=
  let before := prompt agent in
  let agent := normalize_prompt_labels agent in
  let agent :=
    if bool_decide (prompt agent = before) then agent
    else agent <| prompt_wake_only :=
                    prompt_wake_only agent || is_some_and before prompt_is_wake_only |> in
  trim_ended_text agent.

Definition get (self : FoldCarryover) (key : AgentKey) : option Row :=
  List.find (fun agent => bool_decide (row_key agent = key)) (carried self).

Definition unstamped_for_rebirth (self : FoldCarryover) : FoldCarryover :=
  {| carried := map unstamp (carried self); carried_root := carried_root self;
     carried_identity := carried_identity self; carried_outcomes := carried_outcomes self |}.

(** Rows keyed, the last of a key winning. *)
Definition keyed_rows (agents : list Row) : gmap AgentKey Row :=
  list_to_map (rev (map (fun agent => (row_key agent, agent)) agents)).

(** ** The rollup *)

Record AgentRollup := { base : FoldCarryover; live : list Row }.

Definition layered (base : FoldCarryover) (raw_agents : list Row) : AgentRollup :=
  {| base := base;
     live := List.filter (fun live =>
               is_none_or (get base (row_key live)) (fun carried =>
                 (last_seen carried <=? last_seen live)%Z)) raw_agents |}.

Definition key_cmp (a b : AgentKey) : comparison :=
  then_with (text_cmp a.1 b.1) (text_cmp a.2 b.2).

Fixpoint merge_rows (base : list Row) : list Row -> list Row :=
  match base with
  | [] => fun live => live
  | carried :: base' =>
      fix merge_live (live : list Row) : list Row :=
        match live with
        | [] => carried :: base'
        | fresh :: live' =>
            match key_cmp (row_key carried) (row_key fresh) with
            | Lt => carried :: merge_rows base' live
            | Gt => fresh :: merge_live live'
            | Eq => fresh :: merge_rows base' live'
            end
        end
  end.

Definition iter (self : AgentRollup) : list Row := merge_rows (carried (base self)) (live self).
Definition rollup_len (self : AgentRollup) : nat := length (iter self).
Definition rollup_find (self : AgentRollup) (key : AgentKey) : option Row :=
  List.find (fun agent : Row => bool_decide (agent_kind agent = key.1)
                          && bool_decide (agent_id agent = key.2)) (iter self).
Definition rollup_is_empty (self : AgentRollup) : bool :=
  is_empty (carried (base self)) && is_empty (live self).
Definition from_rows (rows : list Row) : AgentRollup := {| base := empty_carryover; live := rows |}.

(** ** The persisted fold and the files *)

Definition ROLLUP_CACHE_VERSION : N := 58.

(** [LogFileId]: device and inode. *)
Abbreviation LogFileId := (N * N)%type.

Record RollupCache := {
  version : N;
  extent : LogExtent;
  file_id : option LogFileId;
  raw_agents : list Row;
  resume_outcomes : list ResumeOutcome;
  agent_identity : AgentIdentityState;
  saw_session_rebirth : bool
}.

Inductive FileOf (A : Type) := Missing | Corrupt | Holds (value : A).
Arguments Missing {A}.
Arguments Corrupt {A}.
Arguments Holds {A} value.

Inductive SnapshotErr := LogFailed (err : EventLogErr) | Json.

(** [LogHead]. *)
Record LogHead := { head_generation : N; head_len : N; head_id : option LogFileId }.

Definition accepts (self : LogHead) (cache : RollupCache) : bool :=
  bool_decide (generation (extent cache) = head_generation self)
  && bool_decide (file_id cache = head_id self)
  && (offset (extent cache) <=? head_len self)%N.

Record Files := {
  events_log : file;
  events_log_id : option LogFileId;
  log_generation : FileOf N;
  rollup_cache : FileOf RollupCache;
  agents_carryover : FileOf EventCarryover;
  carryover_stamp : N;
  project_root : option text
}.
#[export] Instance Files_eta : Eta Files := fun f =>
  {| events_log := events_log f; events_log_id := events_log_id f;
     log_generation := log_generation f; rollup_cache := rollup_cache f;
     agents_carryover := agents_carryover f; carryover_stamp := carryover_stamp f;
     project_root := project_root f |}.

Definition lifecycle_log_generation (files : Files) : N :=
  match log_generation files with Holds generation => generation | _ => 0 end.
Definition advance_log_generation (files : Files) : Files :=
  files <| log_generation :=
             Holds (N.min U64_MAX (lifecycle_log_generation files + 1)) |>.

Definition new_head (files : Files) : LogHead :=
  {| head_generation := lifecycle_log_generation files;
     head_len := u64_of_len (contents (events_log files));
     head_id := match events_log files with Some _ => events_log_id files | None => None end |}.

Definition read_carryover (files : Files) : result SnapshotErr EventCarryover :=
  match agents_carryover files with
  | Holds carryover => Ok carryover
  | Missing => Ok no_carryover
  | Corrupt => Err Json
  end.

Definition read_rollup_cache (files : Files) : option RollupCache :=
  match rollup_cache files with
  | Holds cache => if bool_decide (version cache = ROLLUP_CACHE_VERSION) then Some cache else None
  | _ => None
  end.

Definition write_rollup_cache (files : Files) (cache : RollupCache) : Files :=
  files <| rollup_cache := Holds cache |>.
(** The file is replaced by a rename, so it has another stamp. *)
Definition write_carryover (files : Files) (carryover : EventCarryover) (stamp : N) : Files :=
  files <| agents_carryover := Holds carryover |> <| carryover_stamp := stamp |>.

(** ** Folding a delta *)

Record FoldDeltaSeed := {
  seed_agents : gmap AgentKey Row;
  seed_identity : AgentIdentityState;
  seed_outcomes : Outcomes;
  seed_saw_rebirth : bool
}.

Record FoldedDelta := {
  folded_raw : list Row;
  folded_identity : AgentIdentityState;
  folded_saw_rebirth : bool;
  merged : AgentRollup;
  folded_outcomes : list ResumeOutcome;
  merged_outcomes : list ResumeOutcome
}.

Definition is_rebirth (event : FoldEvent) : bool :=
  match event_kind event with SessionRebirth => true | _ => false end.

Definition agent_event_key (event : FoldEvent) : option AgentKey :=
  let! agent_id :=
    match event_kind event with
    | AgentLifecycle _ observation => Obs.agent_id observation
    | AgentLaunch payload => Some (Launch.agent_id payload)
    | AgentAttach payload => Some (Attach.agent_id payload)
    | AgentLaunchWarnings agent_id _ => Some agent_id
    | AgentWorkflowCleared agent_id _ => Some agent_id
    | _ => None
    end else None in
  Some (source event, agent_id).

(** The rows of the log take in the carried rows an event is about. *)
Definition hydrate_key (carryover : FoldCarryover) (agents : gmap AgentKey Row) (key : AgentKey)
  : gmap AgentKey Row :=
  if is_some (agents !! key) then agents
  else match get carryover key with Some row => <[key := row]> agents | None => agents end.

Definition hydrate_event (carryover : FoldCarryover) (agents : gmap AgentKey Row)
    (event : FoldEvent) : gmap AgentKey Row :=
  let key :=
    match event_kind event with
    | MessageEvent payload => message_agent_key (rows_of agents ++ carried carryover) payload
    | _ => agent_event_key event
    end in
  let! key := key else agents in
  let predecessor :=
    match event_kind event with
    | AgentLifecycle _ observation =>
        let! id := Obs.compacted_from observation else None in Some (key.1, id)
    | _ => None
    end in
  let agents := hydrate_key carryover agents key in
  match predecessor with
  | Some predecessor => hydrate_key carryover agents predecessor
  | None => agents
  end.

(** A rebirth takes in every carried row that has not ended. *)
Definition hydrate_rebirth (carryover : FoldCarryover) (agents : gmap AgentKey Row)
  : gmap AgentKey Row :=
  foldl (fun agents (carried : Row) =>
    if is_none (ended_at carried) && is_none (agents !! row_key carried)
    then <[row_key carried := carried]> agents else agents) agents (carried carryover).

Section Fold.
Context (default_window : text -> option N) (known_kinds : list text) (hash_u64 : text -> N -> N).

Abbreviation backfill := (backfill_agent_identities known_kinds hash_u64).
Abbreviation reduce := (reduce default_window known_kinds hash_u64).

Definition from_raw (raw : EventCarryover) : FoldCarryover :=
  let '(agents, _) := backfill (map normalize_row (raw_rows raw)) (raw_identity raw) in
  {| carried := rows_of (keyed_rows agents); carried_root := None;
     carried_identity := raw_identity raw; carried_outcomes := raw_outcomes raw |}.

(** One side of the rebirth. *)
Definition fold_part (carryover : FoldCarryover)
    (folded : gmap AgentKey Row * AgentIdentityState) (delta : list FoldEvent)
  : gmap AgentKey Row * AgentIdentityState :=
  let '(agents, identity) := folded in
  let agents :=
    if is_some_and (head delta) is_rebirth then hydrate_rebirth carryover agents else agents in
  reduce (foldl (hydrate_event carryover) agents delta) identity delta.

(** The events before the first rebirth, if there are any, and the rest. *)
Definition rebirth_parts (events : list FoldEvent) : list (list FoldEvent) :=
  let at_ := unwrap_or (position is_rebirth events) 0%nat in
  let before := take at_ events in
  let after := drop at_ events in
  if is_empty before then [after] else [before; after].

(** A row the reducer gave no ordinal gets back what it had before the
    backfill. *)
Definition unfilled (saw_rebirth : bool) (agent : Row) : bool :=
  saw_rebirth && is_none (kind_ordinal agent).
Definition restore (saw_rebirth : bool) (reduced filled : Row) : Row :=
  if unfilled saw_rebirth reduced
  then filled <| core := core filled <| name := name reduced |> |>
              <| name_explicit := name_explicit reduced |> <| kind_ordinal := None |>
  else filled.

Definition fold_delta (seed : FoldDeltaSeed) (carryover : FoldCarryover) (events : list FoldEvent)
    (now : Z) : FoldedDelta :=
  let rebirth_precedes_delta := seed_saw_rebirth seed in
  let saw := seed_saw_rebirth seed || existsb is_rebirth events in
  let carryover :=
    if rebirth_precedes_delta then unstamped_for_rebirth carryover else carryover in
  let '(m, identity) :=
    foldl (fold_part carryover) (seed_agents seed, seed_identity seed) (rebirth_parts events) in
  let outcomes :=
    outcomes_of (reduce_resume_outcomes_seeded (seed_outcomes seed) events now) in
  let reduced := rows_of m in
  let merged_outcomes := merge_resume_outcomes (carried_outcomes carryover) outcomes now in
  let carryover :=
    if saw && negb rebirth_precedes_delta then unstamped_for_rebirth carryover else carryover in
  let '(filled, filled_identity) :=
    if saw then backfill reduced identity else (reduced, identity) in
  let filled := map (stamp_root_lane (carried_root carryover)) filled in
  {| folded_raw := zip_with (restore saw) reduced filled;
     folded_identity := if existsb (unfilled saw) reduced then identity else filled_identity;
     folded_saw_rebirth := saw;
     merged := layered carryover filled;
     folded_outcomes := outcomes;
     merged_outcomes := merged_outcomes |}.

(** ** Catching up with the log *)

Context {A : Type} `{EventLog.Json A} `{Crc32} (decode : A -> FoldEvent).

Definition workspace_carryover (files : Files) : result SnapshotErr FoldCarryover :=
  let? raw := read_carryover files in
  Ok (stamp_root_lanes (from_raw raw) (project_root files)).

Definition base_seed (cache : RollupCache) : FoldDeltaSeed :=
  {| seed_agents := keyed_rows (raw_agents cache);
     seed_identity := agent_identity cache;
     seed_outcomes :=
       list_to_map (rev (map (fun outcome => (outcome_key outcome, outcome))
                          (resume_outcomes cache)));
     seed_saw_rebirth := saw_session_rebirth cache |}.
Definition cold_seed (carryover : FoldCarryover) : FoldDeltaSeed :=
  {| seed_agents := ∅; seed_identity := carried_identity carryover; seed_outcomes := ∅;
     seed_saw_rebirth := false |}.

Abbreviation Folded := (RollupCache * AgentRollup * list ResumeOutcome)%type.

Definition catch_up_from (base : option RollupCache) (files : Files) (carryover : FoldCarryover)
    (log : LogHead) (now : Z) : result SnapshotErr Folded :=
  let '(seed, start) :=
    match base with
    | Some cache => (base_seed cache, offset (extent cache))
    | None => (cold_seed carryover, 0%N)
    end in
  match Log.read_from_offset (A:=A) (events_log files) start with
  | Err err => Err (LogFailed err)
  | Ok (delta, end_) =>
      let folded := fold_delta seed carryover (map decode delta) now in
      Ok ({| version := ROLLUP_CACHE_VERSION;
             extent := {| generation := head_generation log; offset := end_ |};
             file_id := head_id log; raw_agents := folded_raw folded;
             resume_outcomes := folded_outcomes folded;
             agent_identity := folded_identity folded;
             saw_session_rebirth := folded_saw_rebirth folded |},
          merged folded, merged_outcomes folded)
  end.

Definition accepted_base (files : Files) (log : LogHead) : option RollupCache :=
  ofilter (read_rollup_cache files) (accepts log).

Definition catch_up_rollup_layered (files : Files) (now : Z) : result SnapshotErr Folded :=
  let log := new_head files in
  let? carryover := workspace_carryover files in
  catch_up_from (accepted_base files log) files carryover log now.

(** [catch_up_with_pending]: the staged events of a hook over what is read. *)
Definition fold_pending (folded : Folded) (pending : list FoldEvent)
  : RollupCache * AgentIdentityState * AgentRollup * list ResumeOutcome :=
  let '(cache, agents, outcomes) := folded in
  if is_empty pending then (cache, agent_identity cache, agents, outcomes)
  else
    let '(m, identity) := reduce (keyed_rows (iter agents)) (agent_identity cache) pending in
    (cache, identity, from_rows (rows_of m), outcomes).

(** *** A reader's fold in memory *)

Record CursorState := {
  held_cache : RollupCache;
  held_merged : AgentRollup;
  held_outcomes : list ResumeOutcome;
  held_stamp : N
}.

Definition hold (folded : Folded) (stamp : N) : CursorState :=
  let '(cache, merged, outcomes) := folded in
  {| held_cache := cache; held_merged := merged; held_outcomes := outcomes; held_stamp := stamp |}.

(** [RollupCursor::fold_shared]: the cursor after it and the result. *)
Definition fold_shared (self : option CursorState) (files : Files) (now : Z)
  : option CursorState * result SnapshotErr Folded :=
  let log := new_head files in
  let stamp := carryover_stamp files in
  let reload :=
    match catch_up_rollup_layered files now with
    | Ok folded => (Some (hold folded stamp), Ok folded)
    | Err err => (None, Err err)
    end in
  match self with
  | None => reload
  | Some held =>
      let current := accepts log (held_cache held) in
      let at_ := offset (extent (held_cache held)) in
      if current && (at_ =? head_len log)%N && (held_stamp held =? stamp)%N
      then (Some held, Ok (held_cache held, held_merged held, held_outcomes held))
      else if current && (at_ <? head_len log)%N then
        match (let? carryover := workspace_carryover files in
               catch_up_from (Some (held_cache held)) files carryover log now) with
        | Ok folded => (Some (hold folded stamp), Ok folded)
        | Err _ => reload
        end
      else reload
  end.

(** ** Rotation and pruning *)

Context (owner_is_live : RuntimeOwner -> bool).

Definition DEFAULT_RETENTION : Z := 14 * 86400 * SECOND.

Definition retain_carryover_agents (agents : list Row) (older_than now : Z) : list Row :=
  let cutoff := (now - older_than)%Z in
  List.filter (fun agent : Row => (cutoff <=? last_seen agent)%Z
                                  || is_some_and (runtime_owner agent) owner_is_live) agents.

(** How many rows are carried, and the files after the carryover is written. *)
Definition stage_carryover_for_rotation (files : Files) (min_bytes : N) (now : Z) (stamp : N)
  : result SnapshotErr (nat * Files) :=
  let log := new_head files in
  let current_bytes := head_len log in
  if (current_bytes =? 0)%N || (current_bytes <? min_bytes)%N then
    let? raw := read_carryover files in Ok (length (raw_rows raw), files)
  else
    let? carryover := workspace_carryover files in
    let? (cache, agents, outcomes) :=
      catch_up_from (accepted_base files log) files carryover log now in
    let agents := retain_carryover_agents (iter agents) DEFAULT_RETENTION now in
    let identity := without_consumed_launches (with_agent_ordinals (agent_identity cache) agents) in
    Ok (length agents,
        write_carryover files
          {| raw_rows := agents; raw_identity := identity; raw_outcomes := outcomes |} stamp).

Definition prune_carryover (files : Files) (older_than now : Z) (stamp : N)
  : result SnapshotErr (nat * Files) :=
  let? carryover := read_carryover files in
  let agents := retain_carryover_agents (raw_rows carryover) older_than now in
  let removed := (length (raw_rows carryover) - length agents)%nat in
  Ok (removed,
      if (0 <? removed)%nat
      then write_carryover files
             {| raw_rows := agents; raw_identity := raw_identity carryover;
                raw_outcomes := raw_outcomes carryover |} stamp
      else files).
End Fold.
