(* ===== verification/FoldFacts.v ===== *)
(** * Facts of the rollup and of the resume outcomes

    Merging the carried rows with the live ones, and folding outcomes: each key
    keeps its greatest outcome, whatever the order and however the events are
    cut into deltas. *)

From S2P Require Import Prelude EventLog.
From S2P Require Import Agents Message Prompt Card CardIdentity CardIdentityFacts Reducer ReducerFacts Fold.
From S2P Require Import Lifecycle.
Import Agents.Placement Agents.Agent Agents.AgentFacts CardIdentity.Identity.

(** ** Rows in the order of their keys *)

Lemma key_cmp_lt a b :
  key_cmp a b = Lt <-> text_cmp a.1 b.1 = Lt \/ (a.1 = b.1 /\ text_cmp a.2 b.2 = Lt).
Proof.
  unfold key_cmp, then_with. destruct (text_cmp a.1 b.1) eqn:E.
  - apply text_cmp_eq in E. naive_solver.
  - naive_solver.
  - split; [done|]. intros [?|[E' _]]; [done|]. apply text_cmp_eq in E'. congruence.
Qed.

Lemma key_cmp_eq a b : key_cmp a b = Eq <-> a = b.
Proof.
  destruct a as [a1 a2], b as [b1 b2]. unfold key_cmp. simpl. split.
  - intros [E1 E2]%then_with_eq. apply text_cmp_eq in E1, E2. congruence.
  - intros [= -> ->]. by rewrite !text_cmp_refl.
Qed.

Lemma key_cmp_opp a b : key_cmp b a = CompOpp (key_cmp a b).
Proof. unfold key_cmp. rewrite then_with_opp. by rewrite <- !text_cmp_antisym. Qed.

Lemma key_cmp_trans a b c : key_cmp a b = Lt -> key_cmp b c = Lt -> key_cmp a c = Lt.
Proof.
  rewrite !key_cmp_lt. intros [H1|[E1 H1]] [H2|[E2 H2]].
  - left. by eapply text_cmp_lt_trans.
  - left. by rewrite <- E2.
  - left. by rewrite E1.
  - right. split; [congruence|]. by eapply text_cmp_lt_trans.
Qed.

Lemma key_cmp_leb a b : key_leb a b = true <-> key_cmp a b = Lt \/ a = b.
Proof.
  rewrite key_leb_cases, key_cmp_lt, text_ltb_cmp, text_leb_ltb, negb_true_iff.
  destruct a as [a1 a2], b as [b1 b2]; simpl. split.
  - intros [H|[-> H]]; [left; by left|].
    destruct (decide (a2 = b2)) as [->|Hne]; [by right|].
    left; right. split; [done|]. destruct (text_ltb_total _ _ Hne); [by apply text_ltb_cmp|congruence].
  - intros [[H|[-> H]]|[= -> ->]]; [by left| |].
    + right. split; [done|]. rewrite <- text_ltb_cmp in H.
      destruct (text_ltb b2 a2) eqn:E; [|done].
      pose proof (text_ltb_trans _ _ _ H E) as T. by rewrite text_ltb_irrefl in T.
    + right. split; [done|]. apply text_ltb_irrefl.
Qed.

(** Rows sorted by distinct keys, as a [BTreeMap] lists them. *)
Definition in_order (l : list Row) : Prop :=
  StronglySorted (fun x y => key_cmp (row_key x) (row_key y) = Lt) l.

Lemma in_order_filter f l : in_order l -> in_order (List.filter f l).
Proof. apply StronglySorted_filter. Qed.

Lemma in_order_head x l y : in_order (x :: l) -> y ∈ x :: l ->
  y = x \/ key_cmp (row_key x) (row_key y) = Lt.
Proof.
  intros H [->|Hy]%elem_of_cons; [by left|right].
  inversion H as [|? ? ? Hf]; subst. by eapply Forall_forall in Hf.
Qed.

Lemma in_order_unique l x y : in_order l -> x ∈ l -> y ∈ l -> row_key x = row_key y -> x = y.
Proof.
  induction 1 as [|z l Hs IH Hz]; [by intros ?%elem_of_nil|].
  intros Hx Hy E. assert (Hzl : in_order (z :: l)) by (by constructor).
  destruct (in_order_head _ _ _ Hzl Hx) as [->|Lx], (in_order_head _ _ _ Hzl Hy) as [->|Ly].
  - done.
  - rewrite E in Ly. by rewrite (proj2 (key_cmp_eq _ _) eq_refl) in Ly.
  - rewrite <- E in Lx. by rewrite (proj2 (key_cmp_eq _ _) eq_refl) in Lx.
  - apply elem_of_cons in Hx as [->|Hx]; [by rewrite (proj2 (key_cmp_eq _ _) eq_refl) in Lx|].
    apply elem_of_cons in Hy as [->|Hy]; [by rewrite (proj2 (key_cmp_eq _ _) eq_refl) in Ly|].
    by apply IH.
Qed.

Definition find_row (l : list Row) (key : AgentKey) : option Row :=
  List.find (fun agent => bool_decide (row_key agent = key)) l.

Lemma find_row_Some l key r : in_order l -> find_row l key = Some r <-> r ∈ l /\ row_key r = key.
Proof.
  intros Hl. unfold find_row. split.
  - intros [H1 H2]%find_some. apply bool_decide_eq_true in H2. by apply list_elem_of_In in H1.
  - intros [H1 H2]. destruct (List.find _ l) as [r'|] eqn:E.
    + apply find_some in E as [E1 E2]. apply bool_decide_eq_true in E2. apply list_elem_of_In in E1.
      f_equal. apply (in_order_unique l); [done..|congruence].
    + exfalso. pose proof (find_none _ _ E r) as Hn. simpl in Hn.
      rewrite bool_decide_true in Hn by done. apply list_elem_of_In in H1. by specialize (Hn H1).
Qed.

(** ** The merge *)

Lemma key_apart a b : key_cmp a b = Lt -> a <> b.
Proof. intros H ->. by rewrite (proj2 (key_cmp_eq _ _) eq_refl) in H. Qed.

Lemma above_head a x l y :
  in_order (x :: l) -> key_cmp a (row_key x) = Lt -> y ∈ x :: l -> key_cmp a (row_key y) = Lt.
Proof. intros H Hx [->|L]%(in_order_head _ _ _ H); [done|by eapply key_cmp_trans]. Qed.

Lemma above_tail x l y : in_order (x :: l) -> y ∈ l -> key_cmp (row_key x) (row_key y) = Lt.
Proof. intros H Hy. inversion H as [|? ? ? Hf]; subst. by eapply Forall_forall in Hf. Qed.

Lemma elem_of_merge b l x :
  in_order b -> in_order l ->
  x ∈ merge_rows b l <-> x ∈ l \/ (x ∈ b /\ forall y, y ∈ l -> row_key y <> row_key x).
Proof.
  intros Hb. revert l. induction b as [|c b IHb]; intros l Hl.
  { simpl. split; [by left|]. intros [?|[?%elem_of_nil _]]; done. }
  assert (Hb' : in_order b) by (by inversion Hb).
  induction l as [|f l IHl]; simpl.
  { split; [|intros [?%elem_of_nil|[? _]]; done]. intros Hx. right. split; [done|].
    by intros y ?%elem_of_nil. }
  assert (Hl' : in_order l) by (by inversion Hl).
  destruct (key_cmp (row_key c) (row_key f)) eqn:E.
  - apply key_cmp_eq in E. rewrite elem_of_cons, IHb by done. rewrite !elem_of_cons. split.
    + intros [->|[Hx|[Hx Hn]]]; [left; by left|left; by right|].
      right. split; [by right|]. intros y [->|Hy]%elem_of_cons; [|by apply Hn].
      rewrite <- E. by apply key_apart, (above_tail _ b).
    + intros [[->|Hx]|[[->|Hx] Hn]]; [by left|right; by left| |].
      * exfalso. apply (Hn f); [constructor|done].
      * right; right. split; [done|]. intros y Hy. apply Hn. by constructor.
  - rewrite elem_of_cons, IHb, !elem_of_cons by done. split.
    + intros [->|[Hx|[Hx Hn]]]; [|by left|right; split; [by right|done]].
      right. split; [by left|]. intros y Hy. by apply not_eq_sym, key_apart, (above_head _ f l).
    + intros [Hx|[[->|Hx] Hn]]; [right; by left|by left|right; by right].
  - assert (Hfc : key_cmp (row_key f) (row_key c) = Lt) by (by rewrite key_cmp_opp, E).
    specialize (IHl Hl'). rewrite elem_of_cons. change (x = f \/ x ∈ merge_rows (c :: b) l <->
      x ∈ f :: l \/ x ∈ c :: b /\ forall y, y ∈ f :: l -> row_key y <> row_key x).
    rewrite IHl, (elem_of_cons l). split.
    + intros [->|[Hx|[Hx Hn]]]; [left; by left|left; by right|].
      right. split; [done|]. intros y [->|Hy]%elem_of_cons; [|by apply Hn].
      by apply key_apart, (above_head _ c b).
    + intros [[->|Hx]|[Hx Hn]]; [by left|right; by left|].
      right; right. split; [done|]. intros y Hy. apply Hn. by constructor.
Qed.

Lemma merge_in_order b l : in_order b -> in_order l -> in_order (merge_rows b l).
Proof.
  intros Hb. revert l. induction b as [|c b IHb]; intros l Hl; [done|].
  assert (Hb' : in_order b) by (by inversion Hb).
  induction l as [|f l IHl]; simpl; [done|].
  assert (Hl' : in_order l) by (by inversion Hl).
  destruct (key_cmp (row_key c) (row_key f)) eqn:E.
  - apply key_cmp_eq in E. constructor; [by apply IHb|]. apply Forall_forall.
    intros y [Hy|[Hy _]]%elem_of_merge; [by apply (above_tail _ l)| |done|done].
    rewrite <- E. by apply (above_tail _ b).
  - constructor; [by apply IHb|]. apply Forall_forall.
    intros y [Hy|[Hy _]]%elem_of_merge; [by apply (above_head _ f l)|by apply (above_tail _ b)|done|done].
  - assert (Hfc : key_cmp (row_key f) (row_key c) = Lt) by (by rewrite key_cmp_opp, E).
    constructor; [by apply IHl|]. apply Forall_forall. intros y Hy.
    change (y ∈ merge_rows (c :: b) l) in Hy.
    apply elem_of_merge in Hy as [Hy|[Hy _]]; [by apply (above_tail _ l)|by apply (above_head _ c b)|done|done].
Qed.

(** What the rows say of a key, when the live ones are a part of the raw ones. *)
Lemma merge_find b l key :
  in_order b -> in_order l ->
  find_row (merge_rows b l) key = or_else (find_row l key) (find_row b key).
Proof.
  intros Hb Hl. apply option_eq. intros r.
  rewrite find_row_Some, elem_of_merge by (done || by apply merge_in_order).
  destruct (find_row l key) as [f|] eqn:Ef; simpl.
  - apply find_row_Some in Ef as [Hf1 Hf2]; [|done]. split.
    + intros [[H|[_ H]] E]; [|by destruct (H f); congruence].
      f_equal. apply (in_order_unique l); [done..|congruence].
    + intros [= <-]. split; [by left|done].
  - rewrite find_row_Some by done. split.
    + intros [[H|[H _]] E]; [|done]. assert (find_row l key = Some r) by (by apply find_row_Some). congruence.
    + intros [H E]. split; [|done]. right. split; [done|]. intros y Hy Ey.
      assert (find_row l key = Some y) by (apply find_row_Some; [done|split; congruence]). congruence.
Qed.

Lemma filter_find f l key :
  in_order l -> find_row (List.filter f l) key = ofilter (find_row l key) f.
Proof.
  intros Hl. apply option_eq. intros r. rewrite find_row_Some by (by apply in_order_filter).
  rewrite elem_of_filter_bool, ofilter_Some, find_row_Some by done. tauto.
Qed.

(** C27: The rollup lays the rows of the log over the carried rows: it lists each
    agent once in the order of kinds and ids, and gives for a key the row of the
    log unless the carried row was seen later, and the carried row when the log
    has none. *)
Theorem rollup_is_newest (base_ : FoldCarryover) (raw_agents_ : list Row) :
  in_order (carried base_) -> in_order raw_agents_ ->
  in_order (iter (layered base_ raw_agents_))
  /\ forall key, rollup_find (layered base_ raw_agents_) key =
     match find_row raw_agents_ key, find_row (carried base_) key with
     | Some live, Some carried =>
         Some (if (last_seen carried <=? last_seen live)%Z then live else carried)
     | Some live, None => Some live
     | None, carried => carried
     end.
Proof.
  intros Hb Hr. assert (Hl : in_order (live (layered base_ raw_agents_))) by (by apply in_order_filter).
  split; [by apply merge_in_order|]. intros key.
  transitivity (find_row (iter (layered base_ raw_agents_)) key).
  { unfold rollup_find, find_row. induction (iter _) as [|r l' IH]; [done|]. cbn [List.find].
    rewrite <- IH. unfold row_key. destruct key as [k i]. simpl. rewrite <- bool_decide_and.
    by rewrite (bool_decide_ext (_ /\ _) ((agent_kind r, agent_id r) = (k, i))) by naive_solver. }
  unfold iter. rewrite merge_find by done. simpl. rewrite filter_find by done.
  destruct (find_row raw_agents_ key) as [l|] eqn:El; simpl; [|done].
  apply find_row_Some in El as [_ El]; [|done]. unfold get. rewrite El.
  fold (find_row (carried base_) key). destruct (find_row (carried base_) key) as [c|]; [|done].
  simpl. by destruct (last_seen c <=? last_seen l)%Z.
Qed.

(** ** Resume outcomes *)

(** What [upsert_resume_outcome] does to one key. *)
Definition best (o : option ResumeOutcome) (outcome : ResumeOutcome) : option ResumeOutcome :=
  match o with
  | Some existing =>
      match resume_outcome_cmp existing outcome with Lt => Some outcome | _ => Some existing end
  | None => Some outcome
  end.

Definition about (key : OutcomeKey) (outcome : ResumeOutcome) : bool :=
  bool_decide (outcome_key outcome = key).

Lemma upsert_lookup m outcome key :
  upsert_resume_outcome m outcome !! key
  = if about key outcome then best (m !! key) outcome else m !! key.
Proof.
  unfold upsert_resume_outcome, about. case_bool_decide as E.
  - subst key. destruct (m !! outcome_key outcome) as [e|] eqn:Em; simpl.
    + by destruct (resume_outcome_cmp e outcome); rewrite ?lookup_insert_eq.
    + by rewrite lookup_insert_eq.
  - destruct (m !! outcome_key outcome) as [e|]; [destruct (resume_outcome_cmp e outcome); [done| |done]|].
    all: by rewrite lookup_insert_ne.
Qed.

Lemma upserts_lookup l : forall m key,
  foldl upsert_resume_outcome m l !! key = foldl best (m !! key) (List.filter (about key) l).
Proof.
  induction l as [|o l IH]; intros m key; [done|]. simpl. rewrite IH, upsert_lookup.
  by destruct (about key o).
Qed.

Lemma events_upserted events : forall m,
  foldl (fun m event => match resume_outcome_for_event event with
                        | Some outcome => upsert_resume_outcome m outcome | None => m end) m events
  = foldl upsert_resume_outcome m (omap resume_outcome_for_event events).
Proof.
  induction events as [|e events IH]; intros m; [done|]. simpl. rewrite IH.
  by destruct (resume_outcome_for_event e).
Qed.

Lemma prune_lookup m now key :
  prune_resume_outcomes m now !! key = ofilter (m !! key) (retained_outcome now).
Proof.
  apply option_eq. intros o. unfold prune_resume_outcomes.
  by rewrite map_lookup_filter_Some, ofilter_Some.
Qed.

Lemma retained_mono now now' (outcome : ResumeOutcome) :
  (now <= now')%Z -> retained_outcome now' outcome = true -> retained_outcome now outcome = true.
Proof.
  unfold retained_outcome, as_secs, SECOND. intros Hn. rewrite !Z.leb_le.
  pose proof (Z.quot_le_mono (now - Outcome.updated_at outcome) (now' - Outcome.updated_at outcome)
                1000000000). lia.
Qed.

Lemma retained_newer now (a b : ResumeOutcome) :
  (Outcome.updated_at a <= Outcome.updated_at b)%Z ->
  retained_outcome now a = true -> retained_outcome now b = true.
Proof.
  unfold retained_outcome, as_secs, SECOND. intros Hn. rewrite !Z.leb_le.
  pose proof (Z.quot_le_mono (now - Outcome.updated_at b) (now - Outcome.updated_at a) 1000000000). lia.
Qed.

(** The records of one message agree on when it was queued. *)
Definition coherent (l : list ResumeOutcome) : Prop :=
  forall a b, a ∈ l -> b ∈ l -> outcome_key a = outcome_key b ->
  Outcome.enqueued_at a = Outcome.enqueued_at b.

Lemma then_with_Eq c : then_with c Eq = c.
Proof. by destruct c. Qed.

Lemma key_message a b :
  outcome_key a = outcome_key b -> Outcome.message_id a = Outcome.message_id b.
Proof. by intros [= _ _ E]. Qed.

Lemma coherent_cmp l a b : coherent l -> a ∈ l -> b ∈ l -> outcome_key a = outcome_key b ->
  resume_outcome_cmp a b = Z.compare (Outcome.updated_at a) (Outcome.updated_at b).
Proof.
  intros Hc Ha Hb E. unfold resume_outcome_cmp. rewrite (Hc a b Ha Hb E), Z.compare_refl. simpl.
  rewrite (key_message _ _ E), text_cmp_refl. by apply then_with_Eq.
Qed.

Lemma best_elem l : forall o x, foldl best o l = Some x -> o = Some x \/ x ∈ l.
Proof.
  induction l as [|y l IH]; intros o x; simpl; [by left|].
  intros [H|H]%IH; [|right; by constructor].
  destruct o as [e|]; simpl in H; [destruct (resume_outcome_cmp e y)|]; simplify_eq; auto.
  all: right; by constructor.
Qed.

(** An outcome that is no longer retained is missed by nobody: what is folded
    later replaces it or is no newer. *)
Lemma forgotten_best now (e : ResumeOutcome) l : forall o : option ResumeOutcome,
  coherent (e :: l) -> (forall y, y ∈ l -> outcome_key y = outcome_key e) ->
  match o with
  | Some w => outcome_key w = outcome_key e /\ Outcome.enqueued_at w = Outcome.enqueued_at e
              /\ (Outcome.updated_at w <= Outcome.updated_at e)%Z
  | None => True
  end ->
  retained_outcome now e = false ->
  ofilter (foldl best o l) (retained_outcome now)
  = ofilter (foldl best (Some e) l) (retained_outcome now).
Proof.
  induction l as [|y l IH]; intros o Hc Hk Ho He.
  { simpl. rewrite He. destruct o as [w|]; [|done]. simpl. destruct (retained_outcome now w) eqn:E; [|done].
    eapply retained_newer in E; [|apply Ho]. congruence. }
  assert (Hc' : coherent (e :: l)) by (intros a b Ha Hb; apply Hc; set_solver).
  assert (Hk' : forall z, z ∈ l -> outcome_key z = outcome_key e) by (intros z Hz; apply Hk; set_solver).
  assert (Hy : resume_outcome_cmp e y = Z.compare (Outcome.updated_at e) (Outcome.updated_at y)).
  { apply (coherent_cmp (e :: y :: l)); [done|set_solver..|]. symmetry. apply Hk. set_solver. }
  assert (Eqd : Outcome.enqueued_at y = Outcome.enqueued_at e) by (apply Hc; [set_solver..|apply Hk; set_solver]).
  assert (Ek : outcome_key y = outcome_key e) by (apply Hk; set_solver).
  cbn [foldl]. change (best (Some e) y) with
    (match resume_outcome_cmp e y with Lt => Some y | _ => Some e end). rewrite Hy.
  assert (Hw : forall w, o = Some w -> resume_outcome_cmp w y
            = Z.compare (Outcome.updated_at w) (Outcome.updated_at y)).
  { intros w ->. destruct Ho as (Hw1 & Hw2 & _). unfold resume_outcome_cmp.
    rewrite Hw2, Eqd, Z.compare_refl. simpl.
    rewrite (key_message w y), text_cmp_refl by congruence. by apply then_with_Eq. }
  assert (Hstep : (Outcome.updated_at y <= Outcome.updated_at e)%Z ->
            match best o y with
            | Some w => outcome_key w = outcome_key e
                        /\ Outcome.enqueued_at w = Outcome.enqueued_at e
                        /\ (Outcome.updated_at w <= Outcome.updated_at e)%Z
            | None => True
            end).
  { intros Hle. destruct o as [w|]; simpl; [|done]. by destruct (resume_outcome_cmp w y). }
  destruct (Z.compare_spec (Outcome.updated_at e) (Outcome.updated_at y)) as [E|E|E].
  - apply IH; [done|done|apply Hstep; lia|done].
  - f_equal. f_equal. destruct o as [w|]; simpl; [|done]. destruct Ho as (_ & _ & Ho).
    rewrite (Hw w eq_refl). by rewrite (proj2 (Z.compare_lt_iff _ _)) by lia.
  - apply IH; [done|done|apply Hstep; lia|done].
Qed.

(** Outcomes folded in two parts are the outcomes folded at once. *)
Lemma outcomes_resumed (e1 e2 : list FoldEvent) (now1 now2 : Z) :
  (now1 <= now2)%Z -> coherent (omap resume_outcome_for_event (e1 ++ e2)) ->
  reduce_resume_outcomes_seeded (reduce_resume_outcomes_seeded ∅ e1 now1) e2 now2
  = reduce_resume_outcomes_seeded ∅ (e1 ++ e2) now2.
Proof.
  intros Hn Hc. apply map_eq. intros key. unfold reduce_resume_outcomes_seeded.
  rewrite !events_upserted, !prune_lookup, !upserts_lookup, prune_lookup, upserts_lookup, lookup_empty.
  rewrite omap_app in Hc |- *. rewrite List.filter_app, foldl_app.
  set (l1 := List.filter (about key) (omap resume_outcome_for_event e1)).
  set (l2 := List.filter (about key) (omap resume_outcome_for_event e2)).
  destruct (foldl best None l1) as [e|] eqn:E1; [|done]. simpl.
  destruct (retained_outcome now1 e) eqn:Er; [done|].
  apply best_elem in E1 as [|He]; [done|].
  assert (Hin : forall i x, x ∈ List.filter (about key) i -> x ∈ i /\ outcome_key x = key).
  { intros i x [H1 H2]%elem_of_filter_bool. by apply bool_decide_eq_true in H1. }
  apply Hin in He as [He Ke].
  assert (Hsub : forall x, x ∈ e :: l2 -> x ∈ omap resume_outcome_for_event e1
                                               ++ omap resume_outcome_for_event e2).
  { intros x [->|Hx]%elem_of_cons; apply elem_of_app; [by left|right]. by apply Hin in Hx as [Hx _]. }
  apply forgotten_best; [..|done|].
  - intros a b Ha Hb. by apply Hc; apply Hsub.
  - intros y Hy. apply Hin in Hy as [_ Hy]. congruence.
  - destruct (retained_outcome now2 e) eqn:E2; [|done]. eapply retained_mono in E2; [|done]. congruence.
Qed.

(** ** What is persisted reads back *)

Lemma reload {K V} `{Countable K} (f : V -> K) (m : gmap K V) (l : list (K * V)) :
  l ≡ₚ map_to_list m -> (forall k v, m !! k = Some v -> f v = k) ->
  list_to_map (rev (map (fun v => (f v, v)) l.*2)) = m.
Proof.
  intros Hp Hk.
  assert (El : map (fun v => (f v, v)) l.*2 = l).
  { assert (Hl : forall e, e ∈ l -> m !! e.1 = Some e.2).
    { intros [k v]. rewrite Hp. by intros ?%elem_of_map_to_list. }
    clear Hp. induction l as [|[k v] l IH]; [done|]. cbn. f_equal.
    - f_equal. apply Hk. apply (Hl (k, v)). constructor.
    - apply IH. intros e He. apply Hl. by constructor. }
  rewrite El. transitivity (list_to_map (map_to_list m) : gmap K V); [|apply list_to_map_to_list].
  apply list_to_map_proper.
  - rewrite <- Permutation_rev, Hp. apply NoDup_fst_map_to_list.
  - by rewrite <- Permutation_rev.
Qed.

Lemma keyed_rows_of m : keyed m -> keyed_rows (rows_of m) = m.
Proof. intros Hk. apply reload; [apply ordered_perm|apply Hk]. Qed.

Definition keyed_outcomes (m : Outcomes) : Prop := forall k o, m !! k = Some o -> outcome_key o = k.

Lemma outcomes_reloaded m : keyed_outcomes m ->
  list_to_map (rev (map (fun outcome => (outcome_key outcome, outcome)) (outcomes_of m))) = m.
Proof. intros Hk. apply reload; [apply sort_by_Permutation|apply Hk]. Qed.

Lemma reduced_keyed m events now :
  keyed_outcomes m -> keyed_outcomes (reduce_resume_outcomes_seeded m events now).
Proof.
  intros Hm k o. unfold reduce_resume_outcomes_seeded.
  rewrite prune_lookup, events_upserted, upserts_lookup. intros [H _]%ofilter_Some.
  apply best_elem in H as [H|H]; [by apply Hm|].
  apply elem_of_filter_bool in H as [H _]. by apply bool_decide_eq_true in H.
Qed.

Lemma rows_in_order m : keyed m -> in_order (rows_of m).
Proof.
  intros Hk.
  assert (H : forall l : list (AgentKey * Row),
    StronglySorted (fun a b => key_leb a.1 b.1 = true) l -> NoDup l.*1 ->
    (forall e, e ∈ l -> row_key e.2 = e.1) -> in_order l.*2).
  { induction 1 as [|e l Hs IH He]; intros Hn Hr; [constructor|].
    cbn in *. apply NoDup_cons in Hn as [Hn1 Hn]. constructor.
    - apply IH; [done|]. intros e' He'. apply Hr. by constructor.
    - apply Forall_forall. intros r (e' & -> & He')%list_elem_of_fmap.
      rewrite (Hr e) by constructor. rewrite (Hr e') by (by constructor). eapply Forall_forall in He; [|exact He'].
      apply key_cmp_leb in He as [He|He]; [done|]. exfalso. apply Hn1. rewrite He.
      by apply list_elem_of_fmap_2. }
  apply H; [apply ordered_sorted|apply ordered_NoDup|].
  intros [k r] Hr%elem_of_ordered. by apply Hk.
Qed.

(** Two carried rows, one of them seen again by the log, and a new row. *)
Lemma rollup_is_newest_witness :
  let row id (t : Z) := seed (str "claude") id Idle t in
  let base_ := {| carried := [row (str "s1") 10%Z; row (str "s3") 90%Z]; carried_root := None;
                  carried_identity := no_identity; carried_outcomes := [] |} in
  let raw := [row (str "s1") 20%Z; row (str "s2") 30%Z; row (str "s3") 40%Z] in
  in_order (carried base_) /\ in_order raw
  /\ rollup_find (layered base_ raw) (str "claude", str "s1") = Some (row (str "s1") 20%Z)
  /\ rollup_find (layered base_ raw) (str "claude", str "s3") = Some (row (str "s3") 90%Z).
Proof.
  intros row base_ raw.
  assert (H1 : in_order (carried base_)) by (repeat constructor; vm_compute; reflexivity).
  assert (H2 : in_order raw) by (repeat constructor; vm_compute; reflexivity).
  split; [exact H1|]. split; [exact H2|].
  destruct (rollup_is_newest base_ raw H1 H2) as [_ Hfind].
  split; rewrite Hfind; vm_compute; reflexivity.
Defined.
