(* ===== verification/FoldLanes.v ===== *)
(** * The reducer does not read the root lane

    A fold stamps the rows it persists with whether they run in the lane of the
    project root ([stamp_root_lane]).  [unlane] takes the stamp away: every
    event does to the unstamped rows what it does to the stamped ones, so a
    stamp of an earlier fold changes nothing a later fold computes. *)

From S2P Require Import Prelude EventLog.
From S2P Require Import Agents Message Prompt Card CardIdentity CardIdentityFacts Reducer ReducerFacts ReducerResume ReducerLaws Fold FoldFacts.
From S2P Require Import Lifecycle.
Import Agents.Placement Agents.Agent CardIdentity.Identity.

Definition unlane (r : Row) : Row := r <| core := core r <| root_lane := false |> |>.

Lemma unlane_free (r : Row) : root_lane r = false -> unlane r = r.
Proof. destruct r as [c]. destruct c. by intros [= ->]. Qed.

Lemma unlane_stamped root r : unlane (stamp_root_lane root r) = unlane r.
Proof. done. Qed.

Lemma stamp_unlaned root r : stamp_root_lane root (unlane r) = stamp_root_lane root r.
Proof. done. Qed.

Lemma unlane_key (r : Row) : row_key (unlane r) = row_key r.
Proof. done. Qed.

(** ** Lists and choices *)

Lemma ordered_fmap {A B} (f : A -> B) (m : gmap AgentKey A) :
  ordered (f <$> m) = map (fun e => (e.1, f e.2)) (ordered m).
Proof.
  apply (sorted_unique fst).
  - apply ordered_sorted.
  - apply (StronglySorted_map (fun e => (e.1, f e.2))
             (fun x y => key_leb x.1 y.1 = true)). apply ordered_sorted.
  - intros [k x] [k' y] Hx%elem_of_ordered Hy%elem_of_ordered E. simpl in E. subst k'. congruence.
  - rewrite ordered_perm, map_to_list_fmap, ordered_perm. apply reflexive_eq.
    apply list_fmap_ext. by intros i [k x].
Qed.

Lemma rows_of_fmap (f : Row -> Row) (m : gmap AgentKey Row) : rows_of (f <$> m) = map f (rows_of m).
Proof.
  unfold rows_of. rewrite ordered_fmap. induction (ordered m) as [|e l IH]; [done|].
  cbn. f_equal. exact IH.
Qed.

Lemma filter_map_comm {A B} (f : A -> B) (p : B -> bool) (q : A -> bool) l :
  (forall x, p (f x) = q x) -> List.filter p (map f l) = map f (List.filter q l).
Proof. intros H. induction l as [|x l IH]; [done|]. simpl. rewrite H, IH. by destruct (q x). Qed.

Lemma find_map_comm {A B} (f : A -> B) (p : B -> bool) (q : A -> bool) l :
  (forall x, p (f x) = q x) -> List.find p (map f l) = option_map f (List.find q l).
Proof. intros H. induction l as [|x l IH]; [done|]. simpl. rewrite H, IH. by destruct (q x). Qed.

Lemma max_by_map {A B K} (f : A -> B) (key : B -> K) (key' : A -> K) ltb l :
  (forall x, key (f x) = key' x) -> max_by key ltb (map f l) = option_map f (max_by key' ltb l).
Proof.
  intros H. induction l as [|x l IH]; [done|]. simpl. rewrite IH.
  destruct (max_by key' ltb l) as [y|]; [|done]. simpl. rewrite !H. by destruct (ltb _ _).
Qed.

Lemma min_by_map {A B K} (f : A -> B) (key : B -> K) (key' : A -> K) ltb l :
  (forall x, key (f x) = key' x) -> min_by key ltb (map f l) = option_map f (min_by key' ltb l).
Proof.
  intros H. induction l as [|x l IH]; [done|]. simpl. rewrite IH.
  destruct (min_by key' ltb l) as [y|]; [|done]. simpl. rewrite !H. by destruct (ltb _ _).
Qed.

Lemma alter_fmap_comm (f g : Row -> Row) (k : AgentKey) (m : gmap AgentKey Row) :
  (forall r, f (g r) = g (f r)) -> alter f k (g <$> m) = g <$> alter f k m.
Proof.
  intros H. apply map_eq. intros k'. destruct (decide (k = k')) as [<-|Hne].
  - rewrite lookup_alter_eq, !lookup_fmap, lookup_alter_eq. destruct (m !! k); [|done].
    simpl. by rewrite H.
  - by rewrite lookup_alter_ne, !lookup_fmap, lookup_alter_ne.
Qed.

Abbreviation unlaned := (fmap unlane : gmap AgentKey Row -> gmap AgentKey Row).

(** ** One row *)

Lemma carried_base_blind kind id prior t :
  carried_base kind id (option_map unlane prior) t = carried_base kind id prior t.
Proof. by destruct prior. Qed.

Lemma transition_blind prior signal keepalive snapshot :
  transition (option_map core (option_map unlane prior)) signal keepalive snapshot
  = transition (option_map core prior) signal keepalive snapshot.
Proof. by destruct prior. Qed.

Lemma fold_lifecycle_blind state prior t signal p q snapshot :
  fold_lifecycle state (option_map unlane prior) t signal p q snapshot
  = fold_lifecycle state prior t signal p q snapshot.
Proof. unfold fold_lifecycle. rewrite transition_blind. by destruct prior. Qed.

Section Blind.
Context (default_window : text -> option N) (known_kinds : list text) (hash_u64 : text -> N -> N).

Lemma signal_row_blind kind id t event_name obs prior :
  signal_row kind id t event_name obs (option_map unlane prior)
  = signal_row kind id t event_name obs prior.
Proof.
  unfold signal_row. cbv zeta. rewrite carried_base_blind, fold_lifecycle_blind.
  destruct (fold_lifecycle _ _ _ _ _ _ _) as [b s]. by destruct prior.
Qed.

Lemma assemble_blind kind id t event_name obs prior parent task card :
  assemble_agent_state default_window kind id t event_name obs (option_map unlane prior) parent task card
  = assemble_agent_state default_window kind id t event_name obs prior parent task card.
Proof.
  unfold assemble_agent_state. rewrite signal_row_blind.
  destruct (signal_row kind id t event_name obs prior) as [b s].
  assert (E : measure_row default_window kind obs (option_map unlane prior) (b, s)
              = measure_row default_window kind obs prior (b, s)) by (by destruct prior).
  rewrite E. generalize (measure_row default_window kind obs prior (b, s)). intros s'.
  assert (E' : place_row id t event_name obs (option_map unlane prior) parent task card s'
               = place_row id t event_name obs prior parent task card s') by (by destruct prior).
  by rewrite E'.
Qed.

Lemma assemble_launch_blind kind t payload prior card :
  assemble_launch_state kind t payload (option_map unlane prior) card
  = assemble_launch_state kind t payload prior card.
Proof.
  unfold assemble_launch_state, launch_settings. cbv zeta. rewrite carried_base_blind.
  match goal with |- context [launch_placement payload (option_map unlane prior) ?s] =>
    assert (E : launch_placement payload (option_map unlane prior) s = launch_placement payload prior s)
      by (by destruct prior) end.
  rewrite E. match goal with |- context [launch_placement payload prior ?s] =>
    generalize (launch_placement payload prior s) end.
  intros s. by destruct prior.
Qed.

(** *** The row of an event carries no stamp *)

Definition keeps_lane (r r' : Row) : Prop := root_lane r' = root_lane r.

#[local] Instance keeps_lane_preorder : PreOrder keeps_lane.
Proof. split; [by intros r|]. intros a b c. unfold keeps_lane. congruence. Qed.

Lemma fold_lifecycle_lane state prior t signal p q snapshot :
  keeps_lane state (fold_lifecycle state prior t signal p q snapshot).2.
Proof.
  unfold fold_lifecycle.
  set (tr := transition _ _ _ _). generalize (turn_ids_after
    (match prior with Some prior => turn_ids prior | None => no_turn_ids end) signal (opened_turn tr)).
  intros ids. clearbody tr.
  assert (H1 : forall pr e, keeps_lane state (carry_across_ping state pr t e)) by (by intros pr []).
  assert (H2 : forall s pr, keeps_lane s (keep_snapshot_clocks s pr)) by (by intros s []).
  destruct (ping tr) as [e|], prior as [pr|]; try apply H1.
  all: destruct snapshot; [|done]; simpl.
  all: by destruct (opened_turn tr).
Qed.

Lemma observe_prompt_lane r p w : keeps_lane r (observe_prompt r p w).
Proof. unfold observe_prompt. by destruct (_ && _). Qed.

Lemma signal_row_lane kind id t event_name obs prior :
  root_lane (signal_row kind id t event_name obs prior).2 = false.
Proof.
  unfold signal_row.
  assert (H : root_lane (fold_launch_params (carried_base kind id prior t) (Obs.launch obs)) = false)
    by (by destruct prior).
  generalize dependent (fold_launch_params (carried_base kind id prior t) (Obs.launch obs)).
  intros base Hb. set (seeded := base <| core := core base <| resumed_at := _ |> |>).
  assert (Hs : root_lane seeded = false) by exact Hb. clearbody seeded.
  pose proof (fold_lifecycle_lane seeded prior t (Obs.signal obs) (Obs.prompt obs)
                (Obs.ask_queue obs) (bool_decide (Obs.state_snapshot obs = Some true))) as Hf.
  destruct (fold_lifecycle _ _ _ _ _ _ _) as [retires s]. cbn [snd] in Hf.
  transitivity (root_lane s); [done|]. by rewrite Hf.
Qed.

Lemma measure_row_lane kind obs prior b s :
  keeps_lane s (measure_row default_window kind obs prior (b, s)).
Proof. unfold measure_row. by destruct (usage_projection _ _ _ _ _) as [[us re] un]. Qed.

Lemma place_row_lane id t event_name obs prior parent task card s :
  keeps_lane s (place_row id t event_name obs prior parent task card s).
Proof. unfold place_row. by destruct (worktree_projection _ _ _ _). Qed.

Lemma label_row_lane obs s : keeps_lane s (label_row obs s).
Proof.
  unfold label_row. destruct (Obs.prompt obs) as [p|]; [|done].
  destruct (ping_turn s); [done|]. transitivity (observe_prompt s p (prompt_is_wake_only p)); [|done].
  apply observe_prompt_lane.
Qed.

Lemma shell_row_lane obs s : keeps_lane s (shell_row obs s).
Proof. reflexivity. Qed.

Lemma trim_lane r : keeps_lane r (trim_ended_text r).
Proof. unfold trim_ended_text. by destruct (is_none _). Qed.

Lemma assembled_lane kind id t event_name obs prior parent task card :
  root_lane (assemble_agent_state default_window kind id t event_name obs prior parent task card)
  = false.
Proof.
  unfold assemble_agent_state.
  pose proof (signal_row_lane kind id t event_name obs prior) as H1.
  destruct (signal_row _ _ _ _ _ _) as [b s]. cbn [snd] in H1.
  pose proof (measure_row_lane kind obs prior b s) as H2.
  set (s2 := measure_row _ _ _ _ _) in *. clearbody s2.
  pose proof (place_row_lane id t event_name obs prior parent task card s2) as H3.
  set (s3 := place_row _ _ _ _ _ _ _ _ _) in *. clearbody s3.
  assert (H4 : keeps_lane s3 (trim_ended_text (shell_row obs (label_row obs s3)))).
  { transitivity (label_row obs s3); [apply label_row_lane|].
    transitivity (shell_row obs (label_row obs s3)); [apply shell_row_lane|apply trim_lane]. }
  transitivity (root_lane s3); [exact H4|]. transitivity (root_lane s2); [exact H3|].
  transitivity (root_lane s); [exact H2|exact H1].
Qed.

Lemma set_launch_id_lane a id : root_lane (set_launch_id a id) = root_lane a.
Proof. unfold set_launch_id. by case_bool_decide. Qed.

Lemma rebind_lane r id : keeps_lane r (rebind r id).
Proof. apply set_launch_id_lane. Qed.

Lemma launch_settings_lane kind t payload prior :
  root_lane (launch_settings kind t payload prior) = false.
Proof.
  unfold launch_settings. cbv zeta.
  set (s1 := carried_base _ _ _ _ <| system_prompt_digest := _ |>).
  assert (H1 : root_lane s1 = false) by (by destruct prior). clearbody s1.
  set (s2 := match Launch.launch_id payload with Some _ => _ | None => s1 end).
  assert (H2 : keeps_lane s1 s2)
    by (unfold s2; destruct (Launch.launch_id payload); [apply rebind_lane|done]).
  clearbody s2. transitivity (root_lane s2); [done|]. by rewrite H2.
Qed.

Lemma launch_placement_lane payload prior s : keeps_lane s (launch_placement payload prior s).
Proof.
  unfold launch_placement.
  set (s1 := match prior with Some _ => _ | None => s end).
  assert (H1 : keeps_lane s s1) by (unfold s1; destruct prior; [by case_bool_decide|done]).
  transitivity s1; [done|]. clearbody s1.
  set (s2 := s1 <| core := _ |> <| pane := _ |> <| runtime_owner := _ |>).
  transitivity s2; [done|]. destruct (Launch.prompt payload) as [p|]; [|done].
  apply observe_prompt_lane.
Qed.

Lemma launch_outcome_lane t payload prior card s : keeps_lane s (launch_outcome t payload prior card s).
Proof. unfold launch_outcome. by destruct (launch_status payload). Qed.

Lemma launched_lane kind t payload prior card :
  root_lane (assemble_launch_state kind t payload prior card) = false.
Proof.
  unfold assemble_launch_state. cbv zeta.
  pose proof (launch_settings_lane kind t payload prior) as H1.
  set (s1 := launch_settings _ _ _ _) in *. clearbody s1.
  pose proof (launch_placement_lane payload prior s1) as H2.
  set (s2 := launch_placement _ _ _) in *. clearbody s2.
  pose proof (launch_outcome_lane t payload prior card s2) as H3.
  set (s3 := launch_outcome _ _ _ _ _) in *. clearbody s3.
  assert (H4 : root_lane s3 = false) by (rewrite H3, H2; exact H1).
  by destruct (is_some_and prior _).
Qed.

(** *** Inheritance *)

Lemma predecessor_blind (index : LaunchIdentityIndex) (m : gmap AgentKey Row) (s : Row) :
  predecessor index (unlaned m) s = option_map unlane (predecessor index m s).
Proof.
  unfold predecessor. destruct (launch_instance_key s) as [i|]; [|done].
  destruct (by_instance index !! i) as [ks|]; [|done].
  assert (E : omap (fun k => unlaned m !! k) (sort_by id key_leb (elements ks))
              = map unlane (omap (fun k => m !! k) (sort_by id key_leb (elements ks)))).
  { induction (sort_by id key_leb (elements ks)) as [|k l IH]; [done|]. cbn.
    rewrite lookup_fmap. destruct (m !! k); cbn; [f_equal|]; exact IH. }
  rewrite E, (filter_map_comm unlane _ (precedes s)) by done. by apply min_by_map.
Qed.

Lemma lifecycle_row_blind x y kind id t event_name obs prior card :
  rows y = unlaned (rows x) -> launch_identity y = launch_identity x ->
  let r := lifecycle_row default_window x kind id t event_name obs prior card in
  lifecycle_row default_window y kind id t event_name obs (option_map unlane prior) card = r
  /\ unlane r = r.
Proof.
  intros Hr Hi. unfold lifecycle_row. cbv zeta. rewrite Hr, Hi, assemble_blind.
  pose proof (assembled_lane kind id t event_name obs prior
    (Label.non_empty_string (Obs.parent_agent_id obs)) (Label.non_empty_string (Obs.task obs)) card) as Hl.
  generalize dependent (assemble_agent_state default_window kind id t event_name obs prior
    (Label.non_empty_string (Obs.parent_agent_id obs)) (Label.non_empty_string (Obs.task obs)) card).
  intros s Hl. set (m := rows x).
  assert (E1 : first_sight (unlaned m) kind obs (option_map unlane prior) s = first_sight m kind obs prior s).
  { unfold first_sight. destruct prior; [done|]. simpl. destruct (Obs.signal obs); try done.
    unfold inherit_compaction_marks. cbv zeta. destruct (Obs.compacted_from obs) as [c|]; [|done].
    rewrite lookup_fmap. by destruct (m !! (kind, c)). }
  rewrite E1. assert (H1 : keeps_lane s (first_sight m kind obs prior s)).
  { unfold first_sight. destruct prior; [done|]. by destruct (Obs.signal obs). }
  clear E1. set (s1 := first_sight m kind obs prior s) in *. clearbody s1.
  assert (E2 : inherit_compaction_registration (unlaned m) s1 = inherit_compaction_registration m s1).
  { unfold inherit_compaction_registration. destruct (compacted_from s1); [|done].
    rewrite lookup_fmap. by destruct (m !! _). }
  rewrite E2. assert (H2 : keeps_lane s1 (inherit_compaction_registration m s1)).
  { unfold inherit_compaction_registration. destruct (compacted_from s1); [|done].
    destruct (m !! _) as [p|]; [|done]. destruct (registered_at p); [|done].
    by destruct (is_some_and _ _). }
  clear E2. set (s2 := inherit_compaction_registration m s1) in *. clearbody s2.
  unfold inherit_launch_identity. rewrite predecessor_blind.
  destruct (_ || _); [|destruct (predecessor (launch_identity x) m s2) as [p|]].
  all: (split; [done|]); apply unlane_free; unfold keeps_lane in *; simpl; rewrite H2, H1; exact Hl.
Qed.

(** ** The map and the allocator *)

Lemma replace_blind (index : LaunchIdentityIndex) key r : replace index key (unlane r) = replace index key r.
Proof. done. Qed.

Lemma from_map_blind m : from_map (unlaned m) = from_map m.
Proof.
  unfold from_map. rewrite ordered_fmap. generalize empty_index.
  induction (ordered m) as [|[k r] l IH]; intros index; [done|]. simpl. rewrite replace_blind. apply IH.
Qed.

Lemma start_names_blind m st :
  from_map_and_state known_kinds (unlaned m) st = from_map_and_state known_kinds m st.
Proof.
  unfold from_map_and_state. rewrite ordered_fmap.
  assert (E : filter (fun '(_, owner) => is_some_and (unlaned m !! owner)
                (fun r : Row => negb (is_provider_subagent r)) = true) (s_names st)
            = filter (fun '(_, owner) => is_some_and (m !! owner)
                (fun r : Row => negb (is_provider_subagent r)) = true) (s_names st)).
  { apply map_filter_ext. intros n owner _. rewrite lookup_fmap. by destruct (m !! owner). }
  rewrite E. match goal with |- foldl _ ?a _ = _ => generalize a end.
  induction (ordered m) as [|[k r] l IH]; intros a; [done|]. simpl. apply IH.
Qed.

Lemma owner_for_pane_blind m kind pane key :
  adoptable_owner_for_pane (unlaned m) kind pane key = adoptable_owner_for_pane m kind pane key.
Proof.
  unfold adoptable_owner_for_pane. rewrite ordered_fmap.
  rewrite (filter_map_comm (fun e => (e.1, unlane e.2)) _ (fun '(owner, state) =>
          negb (bool_decide (owner = key)) && bool_decide (owner.1 = kind)
          && is_provisional owner.2
          && is_some_and (Card.pane state) (fun p => bool_decide (pane_id p = pane)))) by (by intros [k r]).
  rewrite (max_by_map _ _ (fun entry : AgentKey * Row => (registered_at entry.2, kind_ordinal entry.2)))
    by done.
  by destruct (max_by _ _ _).
Qed.

Lemma owner_for_name_blind a m kind n key :
  adoptable_owner_for_name a (unlaned m) kind n key = adoptable_owner_for_name a m kind n key.
Proof.
  unfold adoptable_owner_for_name. destruct (names a !! n) as [owner|]; [|done].
  rewrite lookup_fmap. by destruct (m !! owner).
Qed.

Lemma assign_blind a kind id obs prior :
  assign known_kinds hash_u64 a kind id obs (option_map unlane prior)
  = assign known_kinds hash_u64 a kind id obs prior.
Proof. by destruct prior. Qed.

Lemma assign_launch_blind a kind id payload prior :
  assign_launch known_kinds hash_u64 a kind id payload (option_map unlane prior)
  = assign_launch known_kinds hash_u64 a kind id payload prior.
Proof. by destruct prior. Qed.

(** ** The state *)

(** [y] is [x] without the stamps. *)
Definition unstamped (x y : ReducerState) : Prop :=
  rows y = unlaned (rows x) /\ identity y = identity x /\ launch_identity y = launch_identity x.

Lemma unstamped_insert x y key r : unstamped x y ->
  unstamped (insert_row x key r) (insert_row y key (unlane r)).
Proof.
  intros (E1 & E2 & E3). unfold unstamped, insert_row. simpl.
  by rewrite E1, E2, E3, fmap_insert, replace_blind.
Qed.

Lemma unstamped_drop x y key : unstamped x y -> unstamped (drop_row x key) (drop_row y key).
Proof. intros (E1 & E2 & E3). unfold unstamped, drop_row. simpl. by rewrite E1, E2, E3, fmap_delete. Qed.

Lemma unstamped_lookup x y key : unstamped x y -> rows y !! key = option_map unlane (rows x !! key).
Proof. intros (E & _). by rewrite E, lookup_fmap. Qed.

Definition unstamped_prior (x y : option Row * ReducerState) : Prop :=
  y.1 = option_map unlane x.1 /\ unstamped x.2 y.2.

Lemma unstamped_retire x y key : unstamped x y ->
  unstamped_prior (retire_provisional x key) (retire_provisional y key).
Proof.
  intros H. split; [by apply unstamped_lookup|].
  destruct (unstamped_drop x y key H) as (E1 & E2 & E3). unfold unstamped, retire_provisional. simpl in *.
  by rewrite E1, E2, E3.
Qed.

Lemma unstamped_adopt x y kind key obs : unstamped x y ->
  unstamped_prior (adopt_provisional x kind key obs) (adopt_provisional y kind key obs).
Proof.
  intros H. unfold adopt_provisional.
  assert (Hp : forall x y, unstamped x y -> unstamped_prior
    (match (let! pane_id := Obs.pane_id obs else None in
            adoptable_owner_for_pane (rows x) kind pane_id key) with
     | Some owner => retire_provisional x owner | None => (None, x) end)
    (match (let! pane_id := Obs.pane_id obs else None in
            adoptable_owner_for_pane (rows y) kind pane_id key) with
     | Some owner => retire_provisional y owner | None => (None, y) end)).
  { intros x' y' H'. destruct (Obs.pane_id obs) as [p|]; [|by split].
    rewrite (proj1 H'), owner_for_pane_blind.
    destruct (adoptable_owner_for_pane _ _ _ _); [by apply unstamped_retire|by split]. }
  destruct (Obs.agent_name obs) as [n|]; [|by apply Hp].
  assert (En : adoptable_owner_for_name (identity y) (rows y) kind n key
               = adoptable_owner_for_name (identity x) (rows x) kind n key)
    by (by rewrite (proj1 H), (proj1 (proj2 H)), owner_for_name_blind).
  rewrite En. clear En.
  destruct (adoptable_owner_for_name _ _ _ _ _) as [owner|]; [|by apply Hp].
  pose proof (unstamped_retire x y owner H) as [E Hr].
  destruct (retire_provisional x owner) as [[p|] x'], (retire_provisional y owner) as [[q|] y'];
    simpl in E; try done. by apply Hp.
Qed.

Lemma unstamped_release x y kind key obs : unstamped x y ->
  unstamped (release_stamped_provisional_for_existing x kind key obs)
            (release_stamped_provisional_for_existing y kind key obs).
Proof.
  intros H. unfold release_stamped_provisional_for_existing.
  rewrite (unstamped_lookup x y key H).
  destruct (rows x !! key) as [r|]; [|exact H]. cbn [option_map is_some_and is_none_or].
  change (is_provider_subagent (unlane r)) with (is_provider_subagent r).
  change (pane (unlane r)) with (pane r). change (ended_at (unlane r)) with (ended_at r).
  destruct (is_provider_subagent r); [exact H|].
  destruct (is_some (pane r) && is_none (ended_at r)); [exact H|].
  destruct (Obs.pane_id obs) as [p|]; [|exact H].
  rewrite (proj1 H), owner_for_pane_blind.
  destruct (adoptable_owner_for_pane _ _ _ _) as [owner|]; [|exact H].
  pose proof (unstamped_retire x y owner H) as [E Hr].
  destruct (retire_provisional x owner) as [[p'|] x'], (retire_provisional y owner) as [[q|] y'];
    cbn in E, Hr; try done.
  injection E as ->. rewrite (unstamped_lookup x' y' key Hr).
  destruct (rows x' !! key) as [e|]; [|exact Hr]. cbn [option_map]. assert (Es : stamp_launch (unlane e) (unlane p') = unlane (stamp_launch e p')).
  { unfold stamp_launch. change (launch_id (unlane p')) with (launch_id p').
    destruct (launch_id p') as [id|]; [|done].
    unfold rebind, set_launch_id. change (launch_id (unlane e)) with (launch_id e). by case_bool_decide. }
  rewrite Es. by apply unstamped_insert.
Qed.

Lemma unstamped_provisional x y kind key obs : unstamped x y ->
  unstamped_prior (provisional_prior x kind key obs) (provisional_prior y kind key obs).
Proof.
  intros H. unfold provisional_prior. destruct (is_some (Obs.parent_agent_id obs)); [by split|].
  rewrite (unstamped_lookup x y key H). destruct (rows x !! key); simpl.
  - split; [done|by apply unstamped_release].
  - by apply unstamped_adopt.
Qed.

(** ** The events *)

Abbreviation reduce_event := (reduce_event default_window known_kinds hash_u64).

Lemma unstamped_lifecycle x y event event_name obs : unstamped x y ->
  unstamped (reduce_lifecycle_event default_window known_kinds hash_u64 x event event_name obs)
            (reduce_lifecycle_event default_window known_kinds hash_u64 y event event_name obs).
Proof.
  intros H. unfold reduce_lifecycle_event. destruct (Obs.agent_id obs) as [id|]; [|exact H].
  cbv zeta. set (key := (source event, id)).
  match goal with |- unstamped (if is_side_session (identity ?s) id then _ else _)
                               (if is_side_session (identity ?t) id then _ else _) =>
    set (x1 := s); set (y1 := t) end.
  assert (H1 : unstamped x1 y1).
  { unfold x1, y1. case_bool_decide; [|exact H].
    apply (unstamped_drop
      {| rows := rows x; identity := mark_side_session (identity x) id; launch_identity := launch_identity x |}
      {| rows := rows y; identity := mark_side_session (identity y) id; launch_identity := launch_identity y |}).
    destruct H as (E1 & E2 & E3). split; [exact E1|]. cbn. by rewrite E2. }
  clearbody x1 y1. rewrite (proj1 (proj2 H1)).
  destruct (is_side_session (identity x1) id); [exact H1|].
  destruct (unstamped_provisional x1 y1 (source event) key obs H1) as [Ep H2].
  destruct (provisional_prior x1 (source event) key obs) as [p x2].
  destruct (provisional_prior y1 (source event) key obs) as [q y2]. cbn [fst snd] in Ep, H2. subst q.
  rewrite (unstamped_lookup x2 y2 key H2).
  assert (Eo : or_else (option_map unlane (rows x2 !! key)) (option_map unlane p)
               = option_map unlane (or_else (rows x2 !! key) p)) by (by destruct (rows x2 !! key)).
  rewrite Eo. set (prior := or_else (rows x2 !! key) p).
  assert (Eq : quarantined (Obs.signal obs) (option_map unlane prior) (is_some (Obs.compacted_from obs))
                 (Label.non_empty_string (Obs.parent_agent_id obs)) (Label.non_empty_string (Obs.task obs))
               = quarantined (Obs.signal obs) prior (is_some (Obs.compacted_from obs))
                 (Label.non_empty_string (Obs.parent_agent_id obs)) (Label.non_empty_string (Obs.task obs)))
    by (by destruct prior).
  match goal with |- unstamped (if ?c then _ else _) (if ?d then _ else _) =>
    replace d with c by exact (eq_sym Eq); destruct c; [exact H2|] end.
  rewrite assign_blind, (proj1 (proj2 H2)).
  destruct (assign known_kinds hash_u64 (identity x2) (source event) id obs prior) as [card a].
  destruct (lifecycle_row_blind x2 y2 (source event) id (timestamp event) event_name obs prior card)
    as [Er Eu]; [apply H2|apply H2|].
  rewrite Er. clear Er. revert Eu.
  generalize (lifecycle_row default_window x2 (source event) id (timestamp event) event_name obs prior card).
  intros r Eu. pose proof (unstamped_insert
    {| rows := rows x2; identity := a; launch_identity := launch_identity x2 |}
    {| rows := rows y2; identity := a; launch_identity := launch_identity y2 |} key r) as Hi.
  rewrite Eu in Hi. apply Hi. split; [apply H2|]. split; [done|apply H2].
Qed.

Lemma attach_blind payload r :
  attach_place payload (attach_settings payload
    (match Attach.launch_id payload with Some id => rebind (unlane r) id | None => unlane r end))
  = unlane (attach_place payload (attach_settings payload
    (match Attach.launch_id payload with Some id => rebind r id | None => r end))).
Proof.
  set (s := match Attach.launch_id payload with Some id => rebind r id | None => r end).
  assert (E : match Attach.launch_id payload with Some id => rebind (unlane r) id | None => unlane r end
              = unlane s).
  { unfold s. destruct (Attach.launch_id payload) as [id|]; [|done].
    unfold rebind, set_launch_id. change (launch_id (unlane r)) with (launch_id r). by case_bool_decide. }
  rewrite E. clearbody s.
  assert (Es : attach_settings payload (unlane s) = unlane (attach_settings payload s)) by done.
  rewrite Es. generalize (attach_settings payload s). intros s'. unfold attach_place. cbv zeta.
  match goal with |- (if same_agent_instance (unlane s') ?a then _ else _) = _ =>
    change (same_agent_instance (unlane s') a) with (same_agent_instance s' a) end.
  match goal with |- (if ?a then _ else _) = unlane (if ?b then _ else _) =>
    change a with b; by destruct b end.
Qed.

Lemma unstamped_alter x y key (f : Row -> Row) : unstamped x y ->
  (forall r, f (unlane r) = unlane (f r)) ->
  unstamped {| rows := alter f key (rows x); identity := identity x; launch_identity := launch_identity x |}
            {| rows := alter f key (rows y); identity := identity y; launch_identity := launch_identity y |}.
Proof.
  intros (E1 & E2 & E3) Hf. split; [|done]. cbn. rewrite E1. by apply alter_fmap_comm.
Qed.

Lemma message_key_blind (l : list Row) payload :
  message_agent_key (map unlane l) payload = message_agent_key l payload.
Proof.
  unfold message_agent_key. destruct (_ && _); [done|].
  rewrite (find_map_comm unlane _ (fun agent : Row => bool_decide (agent_kind agent = Msg.kind payload)
             && bool_decide (agent_id agent = Msg.agent_id payload))) by done.
  destruct (List.find _ l) as [r|]; [done|]. simpl.
  destruct (Msg.agent_name payload) as [n|]; [|done].
  rewrite (find_map_comm unlane _ (fun agent : Row => bool_decide (agent_kind agent = Msg.kind payload)
             && bool_decide (name agent = Some n))) by done.
  by destruct (List.find _ l).
Qed.

Lemma stamp_row_blind payload t r : stamp_row (unlane r) payload t = unlane (stamp_row r payload t).
Proof.
  unfold stamp_row.
  set (r1 := match Msg.soft_compact payload with Some _ => _ | None => r end).
  match goal with |- context [if _ then ?r2 else _] => assert (E : r2 = unlane r1) end.
  { unfold r1. destruct (Msg.soft_compact payload) as [[]|]; [..|done].
    all: by destruct (Msg.status payload). }
  rewrite E. clear E. clearbody r1. destruct (negb _); [done|]. by case_bool_decide.
Qed.

(** Every event does the same to rows with and without their stamps. *)
Lemma unstamped_event x y event : unstamped x y ->
  unstamped (reduce_event x event) (reduce_event y event).
Proof.
  intros H. unfold Reducer.reduce_event.
  destruct (event_kind event) as [event_name obs|payload|id warnings|id wf|payload|payload| |].
  - by apply unstamped_lifecycle.
  - unfold reduce_agent_attach. cbv zeta. set (key := (source event, Attach.agent_id payload)).
    rewrite (unstamped_lookup x y key H).
    assert (En : is_none (option_map unlane (rows x !! key)) = is_none (rows x !! key))
      by (by destruct (rows x !! key)).
    rewrite En. destruct (_ && _); [exact H|].
    set (new := seed (source event) (Attach.agent_id payload) Idle (timestamp event)).
    assert (Eu : unwrap_or (option_map unlane (rows x !! key)) new = unlane (unwrap_or (rows x !! key) new))
      by (by destruct (rows x !! key)).
    rewrite Eu, attach_blind. by apply unstamped_insert.
  - rewrite (unstamped_lookup x y _ H). destruct (rows x !! (source event, id)) as [r|]; [|exact H].
    cbn [option_map].
    assert (Ew : (unlane r) <| launch_warnings := warnings |> = unlane (r <| launch_warnings := warnings |>))
      by (destruct r as [[]]; reflexivity).
    rewrite Ew. by apply unstamped_insert.
  - apply (unstamped_alter x y); [done|]. intros r.
    change (workflow (unlane r)) with (workflow r). by case_bool_decide.
  - unfold reduce_agent_launch. cbv zeta. rewrite (proj1 (proj2 H)).
    set (key := (source event, Launch.agent_id payload)).
    destruct (negb _); [exact H|]. destruct (launch_consumed _ _); [exact H|].
    assert (Eo : is_some_and (owner_for_name (identity x) (Launch.agent_name payload)) (fun owner =>
                   bool_decide (owner.1 = source event) && negb (bool_decide (owner = key))
                   && is_some (rows y !! owner))
               = is_some_and (owner_for_name (identity x) (Launch.agent_name payload)) (fun owner =>
                   bool_decide (owner.1 = source event) && negb (bool_decide (owner = key))
                   && is_some (rows x !! owner))).
    { destruct (owner_for_name _ _) as [o|]; [|done]. cbn. rewrite (unstamped_lookup x y o H).
      by destruct (rows x !! o). }
    rewrite Eo. destruct (is_provisional _ && _).
    { split; [apply H|]. cbn. split; [done|apply H]. }
    rewrite (unstamped_lookup x y key H).
    assert (En : is_none (option_map unlane (rows x !! key)) = is_none (rows x !! key))
      by (by destruct (rows x !! key)).
    rewrite En. destruct (_ && _ && _); [exact H|].
    rewrite assign_launch_blind. destruct (assign_launch _ _ _ _ _ _ _) as [card a].
    rewrite assemble_launch_blind.
    rewrite <- (unlane_free (assemble_launch_state (source event) (timestamp event) payload
                  (rows x !! key) card)) at 2 by apply launched_lane.
    apply (unstamped_insert
      {| rows := rows x; identity := a; launch_identity := launch_identity x |}
      {| rows := rows y; identity := a; launch_identity := launch_identity y |}).
    split; [apply H|]. split; [done|apply H].
  - unfold stamp_message. rewrite (proj1 H), rows_of_fmap, message_key_blind.
    destruct (message_agent_key (rows_of (rows x)) payload) as [key|]; [|by split; [|apply H]].
    rewrite <- (proj1 H). apply (unstamped_alter x y); [done|]. intros r. apply stamp_row_blind.
  - unfold unstamp_for_rebirth. rewrite (proj1 H), (proj1 (proj2 H)).
    assert (E : unstamp <$> unlaned (rows x) = unlaned (unstamp <$> rows x))
      by (by rewrite <- !map_fmap_compose).
    rewrite E, from_map_blind. by split.
  - exact H.
Qed.

Lemma unstamped_start m st : unstamped (start known_kinds m st) (start known_kinds (unlaned m) st).
Proof.
  split; [done|]. cbn. split; [apply start_names_blind|apply from_map_blind].
Qed.

(** What a fold computes does not depend on the stamps of its seed. *)
Lemma reduce_unlaned m st events :
  let '(m', st') := reduce default_window known_kinds hash_u64 m st events in
  reduce default_window known_kinds hash_u64 (unlaned m) st events = (unlaned m', st').
Proof.
  unfold reduce.
  assert (H : forall x y, unstamped x y -> unstamped (foldl reduce_event x events) (foldl reduce_event y events)).
  { induction events as [|e events IH]; intros x y Hxy; [done|]. simpl. by apply IH, unstamped_event. }
  destruct (H _ _ (unstamped_start m st)) as (E1 & E2 & _). by rewrite E1, E2.
Qed.
End Blind.
