(* ===== verification/FoldBackfill.v ===== *)
(** * What a fold persists of its backfill

    After a rebirth a fold fills in the names and ordinals of the rows that lost
    them, for its reader only: what it persists are the rows as the reducer left
    them, with their lane, and the identity state the reducer left. *)

From S2P Require Import Prelude EventLog.
From S2P Require Import Agents Message Prompt Card CardIdentity CardIdentityFacts Reducer ReducerFacts ReducerResume ReducerLaws ReducerNames Fold FoldFacts FoldLanes.
From S2P Require Import Lifecycle.
Import Agents.Placement Agents.Agent CardIdentity.Identity.

Section Backfill.
Context (known_kinds : list text) (hash_u64 : text -> N -> N).

Abbreviation has_card := (has_card_identity known_kinds).
Abbreviation backfill := (backfill_agent_identities known_kinds hash_u64).
Abbreviation named := (named known_kinds).

(** ** The rows *)

Definition filled_in (r : Row) (n : text) (explicit : bool) (o : N) : Row :=
  r <| core := core r <| name := Some n |> |> <| name_explicit := explicit |> <| kind_ordinal := Some o |>.

Definition backfilled (r r' : Row) : Prop :=
  r' = r \/ (has_card r = false /\ exists n explicit o, r' = filled_in r n explicit o).

Lemma filled_twice (r : Row) n b o n' b' o' : filled_in (filled_in r n b o) n' b' o' = filled_in r n' b' o'.
Proof. done. Qed.

Lemma backfill_loop_rows order : forall l agents index a,
  Forall2 backfilled l agents ->
  Forall2 backfilled l (backfill_loop known_kinds hash_u64 order agents index a).1.
Proof.
  induction order as [|[key i] order IH]; intros l agents index a H; [done|].
  cbn [backfill_loop]. destruct (agents !! i) as [r|] eqn:Er; [|by apply IH].
  destruct (has_card r) eqn:Ec; [by apply IH|].
  destruct (assign_existing _ _ _ _ _ _) as [card a'].
  apply IH. destruct (Forall2_lookup_r _ _ _ _ _ H Er) as (r0 & E0 & Hr).
  rewrite <- (list_insert_id l i r0) by done. apply Forall2_insert; [done|]. right.
  destruct Hr as [->|(Hc & n & b & o & ->)].
  - split; [done|]. by eexists _, _, _.
  - split; [done|]. by eexists _, _, _.
Qed.

Lemma backfill_rows l st : Forall2 backfilled l (backfill l st).1.
Proof.
  unfold backfill_agent_identities. cbv zeta.
  match goal with |- context [backfill_loop _ _ ?o l ?i ?a] =>
    pose proof (backfill_loop_rows o l l i a) as H; destruct (backfill_loop _ _ o l i a) end.
  apply H. apply Forall_Forall2_diag, Forall_forall. intros r _. by left.
Qed.

(** What is persisted of a backfilled row. *)
Lemma restore_stamped root (r r' : Row) : named r -> backfilled r r' ->
  restore true r (stamp_root_lane root r') = stamp_root_lane root r.
Proof.
  intros Hn H. unfold restore, unfilled. simpl.
  destruct (kind_ordinal r) as [o|] eqn:Eo; simpl.
  - destruct H as [->|(Hc & _)]; [done|]. unfold has_card_identity in Hc. rewrite Eo in Hc.
    rewrite Hn in Hc by by rewrite Eo. done.
  - transitivity (stamp_root_lane root r <| kind_ordinal := None |>).
    + by destruct H as [->|(_ & n & b & o & ->)].
    + destruct r as [c]. cbn in Eo. by rewrite <- Eo.
Qed.

Lemma restored_rows root l l' : Forall named l -> Forall2 backfilled l l' ->
  zip_with (restore true) l (map (stamp_root_lane root) l') = map (stamp_root_lane root) l.
Proof.
  intros Hl. induction 1 as [|r r' l l' Hr H IH]; [done|]. inversion Hl; subst. cbn. f_equal.
  - by apply restore_stamped.
  - by apply IH.
Qed.

Lemma unrestored_rows l l' : length l = length l' -> zip_with (restore false) l l' = l'.
Proof.
  revert l'. induction l as [|r l IH]; intros [|r' l'] H; try done. cbn. f_equal. apply IH.
  by injection H.
Qed.

Lemma backfill_loop_settled order : forall l index a,
  Forall (fun r => has_card r = true) l ->
  backfill_loop known_kinds hash_u64 order l index a = (l, a).
Proof.
  induction order as [|[key i] order IH]; intros l index a H; [done|].
  cbn [backfill_loop]. destruct (l !! i) as [r|] eqn:Er; [|by apply IH].
  rewrite (Forall_lookup_1 _ _ _ _ H Er). by apply IH.
Qed.

(** ** The stamps *)

Lemma keyed_rows_unlane l : keyed_rows (map unlane l) = unlane <$> keyed_rows l.
Proof.
  unfold keyed_rows. rewrite <- list_to_map_fmap. f_equal.
  rewrite map_map, <- !map_rev. unfold fmap, list_fmap. generalize (rev l). intros l'.
  induction l' as [|r l' IH]; [done|]. cbn. f_equal. exact IH.
Qed.

Lemma backfill_loop_unlane order : forall l index a,
  backfill_loop known_kinds hash_u64 order (map unlane l) index a
  = let '(l', a') := backfill_loop known_kinds hash_u64 order l index a in (map unlane l', a').
Proof.
  induction order as [|[key i] order IH]; intros l index a; [done|].
  cbn [backfill_loop].
  assert (El : forall j, map unlane l !! j = option_map unlane (l !! j))
    by (intros j; apply list_lookup_fmap).
  rewrite El. destruct (l !! i) as [r|] eqn:Er; [|apply IH]. cbn [option_map].
  change (has_card (unlane r)) with (has_card r). destruct (has_card r); [apply IH|].
  assert (Ep : (let! prior := index !! key else None in map unlane l !! prior)
             = option_map unlane (let! prior := index !! key else None in l !! prior))
    by (destruct (index !! key); [apply El|done]).
  rewrite Ep. clear Ep.
  assert (Ea : forall p, assign_existing known_kinds hash_u64 a key.1 key.2 (option_map unlane p)
             = assign_existing known_kinds hash_u64 a key.1 key.2 p) by (by intros []).
  rewrite Ea. destruct (assign_existing _ _ _ _ _ _) as [card a'].
  match goal with |- context [<[i := ?x]> (map unlane l)] =>
    match goal with |- context [<[i := ?y]> l] => assert (Ei : <[i := x]> (map unlane l) = map unlane (<[i := y]> l)) end end.
  { symmetry. apply (list_fmap_insert unlane). }
  rewrite Ei. apply IH.
Qed.

Lemma backfill_unlane l st :
  backfill (map unlane l) st = let '(l', st') := backfill l st in (map unlane l', st').
Proof.
  unfold backfill_agent_identities. cbv zeta.
  fold (keyed_rows (map unlane l)) (keyed_rows l).
  rewrite keyed_rows_unlane, start_names_blind.
  assert (Ei : imap (fun index agent => (row_key agent, index)) (map unlane l)
             = imap (fun index (agent : Row) => (row_key agent, index)) l)
    by (etransitivity; [apply (imap_fmap (fun i (r : Row) => (row_key r, i)) unlane)|done]).
  rewrite Ei, backfill_loop_unlane. by destruct (backfill_loop _ _ _ _ _ _).
Qed.
End Backfill.
