(* ===== verification/FoldLaws.v ===== *)
(** * The warm fold is the cold fold

    The keystone of the rollup: resuming from a persisted fold of a prefix of
    the log, whatever the rows it published, gives what folding the whole log
    gives.  Then the readers of a workspace: whatever they persist, hold in
    memory or lose, every one of them answers with the fold of the log. *)

From S2P Require Import Prelude EventLog.
From S2P Require Import Agents Message Prompt Card CardIdentity CardIdentityFacts Reducer ReducerFacts ReducerResume ReducerLaws ReducerNames Fold FoldFacts FoldLanes FoldBackfill.
From S2P Require Import Lifecycle.
Import Agents.Placement Agents.Agent CardIdentity.Identity.

Section Laws.
Context (default_window : text -> option N) (known_kinds : list text) (hash_u64 : text -> N -> N).

Abbreviation reduce := (reduce default_window known_kinds hash_u64).
Abbreviation run := (foldl (reduce_event default_window known_kinds hash_u64)).
Abbreviation start := (start known_kinds).
Abbreviation tidy := (tidy default_window known_kinds hash_u64).
Abbreviation backfill := (backfill_agent_identities known_kinds hash_u64).
Abbreviation fold_part := (fold_part default_window known_kinds hash_u64).
Abbreviation fold_delta := (fold_delta default_window known_kinds hash_u64).

(** ** Nothing carried *)

Section Uncarried.
Context (carryover : FoldCarryover) (Hcarried : carried carryover = []).

Lemma hydrate_key_none m key : hydrate_key carryover m key = m.
Proof using Hcarried. unfold hydrate_key, get. rewrite Hcarried. by destruct (is_some _). Qed.

Lemma hydrate_event_none m event : hydrate_event carryover m event = m.
Proof using Hcarried.
  unfold hydrate_event. cbv zeta.
  match goal with |- match ?o with Some _ => _ | None => _ end = _ => destruct o as [key|]; [|done] end.
  rewrite hydrate_key_none.
  match goal with |- match ?o with Some _ => _ | None => _ end = _ => destruct o; [|done] end.
  apply hydrate_key_none.
Qed.

Lemma fold_part_none m st part : fold_part carryover (m, st) part = reduce m st part.
Proof using Hcarried.
  unfold Fold.fold_part.
  assert (E : (if is_some_and (head part) is_rebirth then hydrate_rebirth carryover m else m) = m).
  { unfold hydrate_rebirth. rewrite Hcarried. by destruct (is_some_and _ _). }
  rewrite E. f_equal.
  assert (H : forall l n, foldl (hydrate_event carryover) n l = n)
    by (induction l as [|e l IH]; intros n; [done|]; simpl; rewrite hydrate_event_none; apply IH).
  apply H.
Qed.

Lemma unstamped_none : unstamped_for_rebirth carryover = carryover.
Proof using Hcarried. destruct carryover as [c r i o]. cbn in Hcarried. by subst c. Qed.

(** What a fold makes of the reduced rows. *)
Definition publish (saw : bool) (m : gmap AgentKey Row) (identity : AgentIdentityState)
    (outcomes : list ResumeOutcome) (now : Z) : FoldedDelta :=
  let reduced := rows_of m in
  let '(filled, filled_identity) := if saw then backfill reduced identity else (reduced, identity) in
  let filled := map (stamp_root_lane (carried_root carryover)) filled in
  {| folded_raw := zip_with (restore saw) reduced filled;
     folded_identity := if existsb (unfilled saw) reduced then identity else filled_identity;
     folded_saw_rebirth := saw; merged := layered carryover filled; folded_outcomes := outcomes;
     merged_outcomes := merge_resume_outcomes (carried_outcomes carryover) outcomes now |}.

Lemma fold_delta_published seed events now :
  fold_delta seed carryover events now
  = let '(m, st) := foldl (fold_part carryover) (seed_agents seed, seed_identity seed)
                      (rebirth_parts events) in
    publish (seed_saw_rebirth seed || existsb is_rebirth events) m st
      (outcomes_of (reduce_resume_outcomes_seeded (seed_outcomes seed) events now)) now.
Proof using Hcarried.
  unfold Fold.fold_delta. cbv zeta. rewrite unstamped_none.
  assert (E : (if seed_saw_rebirth seed then carryover else carryover) = carryover)
    by (by destruct (seed_saw_rebirth seed)).
  rewrite E. destruct (foldl _ _ _) as [m st]. rewrite unstamped_none.
  assert (E' : (if (seed_saw_rebirth seed || existsb is_rebirth events) && negb (seed_saw_rebirth seed)
                then carryover else carryover) = carryover) by (by destruct (_ && _)).
  by rewrite E'.
Qed.

(** The stamps of the rows do not show in what is published of them. *)
Lemma publish_unlaned saw m m' st outcomes now : unlaned m = unlaned m' ->
  publish saw m st outcomes now = publish saw m' st outcomes now.
Proof.
  intros H.
  assert (Hu : forall m, publish saw (unlaned m) st outcomes now = publish saw m st outcomes now).
  { intros m0. unfold publish. rewrite rows_of_fmap. cbv zeta.
    assert (Eb : (if saw then backfill (map unlane (rows_of m0)) st else (map unlane (rows_of m0), st))
               = let '(l, s) := if saw then backfill (rows_of m0) st else (rows_of m0, st) in
                 (map unlane l, s)) by (destruct saw; [apply backfill_unlane|done]).
    rewrite Eb. clear Eb.
    destruct (if saw then backfill (rows_of m0) st else (rows_of m0, st)) as [l s].
    cbv beta iota zeta. rewrite map_map. change (fun x => stamp_root_lane (carried_root carryover) (unlane x))
      with (stamp_root_lane (carried_root carryover)).
    assert (Ee : existsb (unfilled saw) (map unlane (rows_of m0)) = existsb (unfilled saw) (rows_of m0)).
    { induction (rows_of m0) as [|r l' IH]; [done|]. cbn. by rewrite IH. }
    assert (Ez : forall f, zip_with (restore saw) (map unlane (rows_of m0)) f
                         = zip_with (restore saw) (rows_of m0) f).
    { clear Ee. induction (rows_of m0) as [|r l' IH]; intros [|f fs]; try done. cbn. f_equal. apply IH. }
    by rewrite Ee, Ez. }
  by rewrite <- Hu, H, Hu.
Qed.

(** ** The rows of a running fold *)

(** [(m, st)] is the persisted form of the fold [x], but for the stamps. *)
Definition persisted (x : ReducerState) (folded : gmap AgentKey Row * AgentIdentityState) : Prop :=
  unlaned folded.1 = unlaned (rows x) /\ folded.2 = state (identity x).

Definition resumes (limit : N) (x : ReducerState) (folded : gmap AgentKey Row * AgentIdentityState)
  : Prop :=
  exists m, unlaned folded.1 = unlaned m /\ alike known_kinds limit x (start m folded.2).

Lemma persisted_resumes limit x folded :
  alike known_kinds limit x x -> persisted x folded -> resumes limit x folded.
Proof.
  intros Ha [E1 E2]. exists (rows x). split; [exact E1|]. rewrite E2. by eapply restart_alike.
Qed.

Lemma part_run stamped limit x m st part :
  resumes limit x (m, st) -> (stamped <= limit)%N -> (1 <= limit)%N ->
  (limit + N.of_nat (length part) <= U32_MAX)%N ->
  stamps_within stamped part = true -> tidy x part = true ->
  persisted (run x part) (fold_part carryover (m, st) part)
  /\ alike known_kinds (limit + N.of_nat (length part)) (run x part) (run x part).
Proof using Hcarried.
  intros (m0 & Em & Ha) Hs Hp Hr Hw Ht. rewrite fold_part_none.
  pose proof (run_alike default_window known_kinds hash_u64 stamped part limit x (start m0 st)
    Hs Hp Hr Hw Ht Ha) as Hrun.
  split; [|by eapply alike_refl].
  pose proof (alike_result known_kinds _ _ _ Hrun : _ = reduce m0 st part) as E.
  pose proof (reduce_unlaned default_window known_kinds hash_u64 m st part) as E1.
  pose proof (reduce_unlaned default_window known_kinds hash_u64 m0 st part) as E2.
  cbn [fst snd] in Em. rewrite <- Em, <- E in E2. cbv beta iota in E2.
  destruct (reduce m st part) as [m1 st1]. rewrite E1 in E2.
  split; [exact (f_equal fst E2)|exact (f_equal snd E2)].
Qed.

Lemma rebirth_parts_cases events : rebirth_parts events = [events]
  \/ exists before after, rebirth_parts events = [before; after] /\ events = before ++ after.
Proof.
  unfold rebirth_parts. cbv zeta. generalize (unwrap_or (position is_rebirth events) 0%nat). intros n.
  destruct (take n events) as [|e before] eqn:E.
  - left. simpl. rewrite <- (take_drop n events) at 2. by rewrite E.
  - right. exists (e :: before), (drop n events). split; [done|]. rewrite <- E. symmetry. apply take_drop.
Qed.

Lemma parts_run stamped limit x folded events :
  resumes limit x folded -> (stamped <= limit)%N -> (1 <= limit)%N ->
  (limit + N.of_nat (length events) <= U32_MAX)%N ->
  stamps_within stamped events = true -> tidy x events = true ->
  persisted (run x events) (foldl (fold_part carryover) folded (rebirth_parts events))
  /\ alike known_kinds (limit + N.of_nat (length events)) (run x events) (run x events).
Proof using Hcarried.
  destruct folded as [m st]. intros H Hs Hp Hr Hw Ht.
  destruct (rebirth_parts_cases events) as [->|(before & after & -> & ->)].
  { exact (part_run stamped limit x m st events H Hs Hp Hr Hw Ht). }
  unfold stamps_within in Hw. rewrite forallb_app in Hw. apply andb_prop in Hw as [Hw1 Hw2].
  rewrite tidy_app in Ht. apply andb_prop in Ht as [Ht1 Ht2]. rewrite length_app in *.
  destruct (part_run stamped limit x m st before H Hs Hp) as [H1 Ha1]; [lia|done..|].
  pose proof (persisted_resumes _ _ _ Ha1 H1) as Hn. cbn [foldl].
  destruct (fold_part carryover (m, st) before) as [m1 st1].
  rewrite foldl_app.
  destruct (part_run stamped (limit + N.of_nat (length before)) (run x before) m1 st1 after Hn)
    as [H2 Ha2]; [lia..|done|done|]. split; [exact H2|].
  by rewrite Nat2N.inj_add, N.add_assoc.
Qed.

(** ** What is persisted reads back as the fold *)

Lemma published_raw limit x saw outcomes now :
  alike known_kinds limit x x -> all_named known_kinds (rows x) ->
  let folded := publish saw (rows x) (state (identity x)) outcomes now in
  folded_raw folded = map (stamp_root_lane (carried_root carryover)) (rows_of (rows x))
  /\ folded_identity folded = state (identity x).
Proof using default_window.
  intros Ha Hn. set (st := state (identity x)). set (l := rows_of (rows x)).
  assert (Hnl : Forall (named known_kinds) l).
  { apply Forall_forall. intros r (k & Hr)%elem_of_rows. by apply (Hn k). }
  unfold publish. fold l st. cbv zeta. destruct saw.
  - pose proof (backfill_rows known_kinds hash_u64 l st) as Hb.
    assert (Hs : existsb (unfilled true) l = false -> (backfill l st).2 = st).
    { intros He. unfold backfill_agent_identities. cbv zeta.
      rewrite backfill_loop_settled.
      - fold (keyed_rows l). unfold l. rewrite keyed_rows_of by apply Ha.
        symmetry. exact (f_equal snd (alike_result _ _ _ _ (restart_alike known_kinds limit x x Ha))).
      - apply Forall_forall. intros r Hr.
        assert (Hu : unfilled true r = false).
        { destruct (unfilled true r) eqn:E; [|done]. rewrite <- He. symmetry. apply existsb_exists.
          exists r. split; [by apply list_elem_of_In|done]. }
        unfold unfilled in Hu. simpl in Hu. destruct (kind_ordinal r) as [o|] eqn:Eo; [|done].
        unfold has_card_identity. rewrite Eo, andb_true_r. eapply Forall_forall in Hnl; [|exact Hr].
        apply Hnl. by rewrite Eo. }
    destruct (backfill l st) as [filled st']. cbn [fst snd] in Hb, Hs. cbn [folded_raw folded_identity].
    split; [by apply (restored_rows known_kinds)|]. destruct (existsb _ _); [done|by apply Hs].
  - cbn [folded_raw folded_identity]. split.
    + apply unrestored_rows. by rewrite length_map.
    + assert (E : existsb (unfilled false) l = false) by (clear; induction l; done). by rewrite E.
Qed.

(** A log whose records of one message agree on when it was queued. *)
Record orderly (limit : N) (st : AgentIdentityState) (events : list FoldEvent) : Prop := {
  orderly_cold : cold_log default_window known_kinds hash_u64 limit st events;
  orderly_outcomes : coherent (omap resume_outcome_for_event events)
}.

Lemma orderly_prefix limit st e1 e2 : orderly limit st (e1 ++ e2) -> orderly limit st e1.
Proof.
  intros [[Hn Hs [Hp Hr] Ht] Ho]. unfold stamps_within in Hs. rewrite forallb_app in Hs.
  apply andb_prop in Hs as [Hs _]. rewrite tidy_app in Ht. apply andb_prop in Ht as [Ht _].
  rewrite length_app in Hr. split; [split; [done|done|lia|done]|].
  intros a b Ha Hb. rewrite omap_app in Ho. apply Ho; apply elem_of_app; by left.
Qed.

(** The seed a later fold reads off a published one. *)
Definition seed_of (folded : FoldedDelta) : FoldDeltaSeed :=
  {| seed_agents := keyed_rows (folded_raw folded); seed_identity := folded_identity folded;
     seed_outcomes := list_to_map (rev (map (fun outcome => (outcome_key outcome, outcome))
                        (folded_outcomes folded)));
     seed_saw_rebirth := folded_saw_rebirth folded |}.

Lemma warm_published stamped limit x seed events now :
  resumes limit x (seed_agents seed, seed_identity seed) ->
  (stamped <= limit)%N -> (1 <= limit)%N -> (limit + N.of_nat (length events) <= U32_MAX)%N ->
  stamps_within stamped events = true -> tidy x events = true ->
  fold_delta seed carryover events now
  = publish (seed_saw_rebirth seed || existsb is_rebirth events) (rows (run x events))
      (state (identity (run x events)))
      (outcomes_of (reduce_resume_outcomes_seeded (seed_outcomes seed) events now)) now
  /\ alike known_kinds (limit + N.of_nat (length events)) (run x events) (run x events).
Proof using Hcarried.
  intros H Hs Hp Hr Hw Ht. destruct (parts_run stamped limit x _ events H Hs Hp Hr Hw Ht) as [[E1 E2] Ha].
  split; [|done]. rewrite fold_delta_published.
  destruct (foldl (fold_part carryover) _ _) as [m s]. cbn [fst snd] in E1, E2. rewrite E2.
  by apply publish_unlaned.
Qed.

Abbreviation cold_state := (start ∅ (carried_identity carryover)).

Lemma cold_published limit events now :
  cold_log default_window known_kinds hash_u64 limit (carried_identity carryover) events ->
  fold_delta (cold_seed carryover) carryover events now
  = publish (existsb is_rebirth events) (rows (run cold_state events))
      (state (identity (run cold_state events)))
      (outcomes_of (reduce_resume_outcomes_seeded ∅ events now)) now
  /\ alike known_kinds (limit + N.of_nat (length events))
       (run cold_state events) (run cold_state events).
Proof using Hcarried.
  intros H. pose proof H as [Hn Hs [Hp Hr] Ht].
  apply (warm_published limit limit cold_state (cold_seed carryover)); try done.
  exists ∅. split; [done|]. by apply cold_alike.
Qed.

Lemma seed_published limit x saw outcomes now :
  alike known_kinds limit x x -> all_named known_kinds (rows x) -> keyed_outcomes outcomes ->
  let seed := seed_of (publish saw (rows x) (state (identity x)) (outcomes_of outcomes) now) in
  resumes limit x (seed_agents seed, seed_identity seed)
  /\ seed_saw_rebirth seed = saw /\ seed_outcomes seed = outcomes.
Proof using default_window.
  intros Ha Hn Ho seed.
  destruct (published_raw limit x saw (outcomes_of outcomes) now Ha Hn) as [Eraw Eid].
  split.
  - apply persisted_resumes; [done|]. split; [|exact Eid].
    unfold seed, seed_of. cbn [fst seed_agents]. rewrite Eraw, <- keyed_rows_unlane, map_map.
    change (fun r => unlane (stamp_root_lane (carried_root carryover) r)) with unlane.
    rewrite keyed_rows_unlane, keyed_rows_of; [done|apply Ha].
  - unfold seed, seed_of, publish. cbv zeta.
    destruct (if saw then _ else _) as [f s]. split; [done|]. by apply outcomes_reloaded.
Qed.

Lemma fold_resumed limit e1 e2 now1 now2 :
  plain_kinds known_kinds = true -> orderly limit (carried_identity carryover) (e1 ++ e2) ->
  (now1 <= now2)%Z ->
  fold_delta (seed_of (fold_delta (cold_seed carryover) carryover e1 now1)) carryover e2 now2
  = fold_delta (cold_seed carryover) carryover (e1 ++ e2) now2.
Proof using Hcarried.
  intros Hk [Hcold Hout] Hnow.
  destruct (cold_published limit _ now2 Hcold) as [-> _].
  pose proof Hcold as [Hn Hstamps [Hp Hroom] Htidy].
  unfold stamps_within in Hstamps. rewrite forallb_app in Hstamps. apply andb_prop in Hstamps as [Hs1 Hs2].
  rewrite tidy_app in Htidy. apply andb_prop in Htidy as [Ht1 Ht2]. rewrite length_app in Hroom.
  assert (Hprefix : cold_log default_window known_kinds hash_u64 limit (carried_identity carryover) e1)
    by (split; [done|done|lia|done]).
  destruct (cold_published limit _ now1 Hprefix) as [-> Ha1].
  set (x1 := run cold_state e1) in *.
  assert (Hnamed : all_named known_kinds (rows x1))
    by (apply (named_run default_window known_kinds hash_u64 Hk); apply (map_Forall_empty (M:=gmap AgentKey))).
  destruct (seed_published _ x1 (existsb is_rebirth e1) (reduce_resume_outcomes_seeded ∅ e1 now1) now1
              Ha1 Hnamed) as (Hseed & Hsaw & Houts).
  { apply reduced_keyed. intros k o H. by rewrite lookup_empty in H. }
  destruct (warm_published limit _ x1 _ e2 now2 Hseed) as [-> _]; [lia..|done|done|].
  rewrite Hsaw, Houts, <- existsb_app, outcomes_resumed by done. by rewrite foldl_app.
Qed.
End Uncarried.
End Laws.
