(* ===== verification/FoldReaders.v ===== *)
(** * The readers of a rollup

    [Readers.step] lets a workspace's log grow, be replaced, and its readers
    publish, lose and hold folds in any order; whatever happened before, every
    reader answers with the fold of the log it finds. *)

From S2P Require Import Prelude EventLog.
From S2P Require Import Agents Message Prompt Card CardIdentity CardIdentityFacts Reducer ReducerFacts ReducerResume ReducerLaws ReducerNames Fold FoldFacts FoldLanes FoldBackfill FoldLaws.
From S2P Require Import Lifecycle.
Import Agents.Placement Agents.Agent CardIdentity.Identity.

Section Readers.
Context (default_window : text -> option N) (known_kinds : list text) (hash_u64 : text -> N -> N).
Context {A : Type} `{EventLog.Json A} `{Crc32} (decode : A -> FoldEvent).

Abbreviation catch_up_from := (catch_up_from default_window known_kinds hash_u64 decode).
Abbreviation orderly := (orderly default_window known_kinds hash_u64).

(** ** Reading on *)

Lemma read_contents (f : file) (start : N) :
  (u64_of_len (contents f) <= U64_MAX)%N -> (start <= u64_of_len (contents f))%N ->
  Log.read_from_offset (A:=A) f start = Log.read_from_offset (Some (contents f)) start.
Proof. intros Hl Hs. by rewrite !LogFacts.read_from_scan. Qed.

(** The fold of the whole log. *)
Definition cold (files : Files) (carryover : FoldCarryover) (log : LogHead) (now : Z) :=
  catch_up_from None files carryover log now.

Lemma cold_Ok files carryover log now cache rollup outcomes :
  cold files carryover log now = Ok (cache, rollup, outcomes) ->
  exists events, Log.read_from_offset (A:=A) (events_log files) 0
    = Ok (events, offset (extent cache))
  /\ generation (extent cache) = head_generation log /\ file_id cache = head_id log
  /\ base_seed cache
     = seed_of (fold_delta default_window known_kinds hash_u64 (cold_seed carryover) carryover
                  (map decode events) now).
Proof.
  unfold cold, Fold.catch_up_from. cbv zeta.
  destruct (Log.read_from_offset _ _) as [[events e]|err]; [|done].
  intros [= <- <- <-]. by exists events.
Qed.

(** C6: Resuming is folding anew: a fold that continues from a persisted cache of
    an earlier part of the log reports exactly what a fold of the whole log
    reports — the cache to persist next, the merged rows and the outcomes, or
    the error —, rebirths and the rows' lane stamps included.  This holds when
    the workspace carries no rows over from a rotated log, no registered kind
    has a dash or is an adjective of the name generator ([plain_kinds]), and the
    whole log is orderly ([orderly]): its events are tidy (a child's lineage
    takes effect, and no launch of an adopted placeholder returns once no card
    carries its name), its ordinals stay within [u32], and the records of one
    message agree on when it was queued.  [adopted_launch_returns] shows that
    tidiness is needed. *)
Theorem warm_fold_is_cold_fold (limit : N) (files files' : Files) (carryover : FoldCarryover)
    (log log' : LogHead) (now now' : Z) (appended : bytes)
    (cache : RollupCache) (rollup : AgentRollup) (outcomes : list ResumeOutcome) :
  plain_kinds known_kinds = true -> carried carryover = [] ->
  contents (events_log files') = contents (events_log files) ++ appended ->
  (u64_of_len (contents (events_log files')) <= U64_MAX)%N -> (now <= now')%Z ->
  (forall events e, Log.read_from_offset (A:=A) (events_log files') 0 = Ok (events, e) ->
    orderly limit (carried_identity carryover) (map decode events)) ->
  catch_up_from None files carryover log now = Ok (cache, rollup, outcomes) ->
  catch_up_from (Some cache) files' carryover log' now' = catch_up_from None files' carryover log' now'.
Proof.
  intros Hk Hc Happ Hlen Hnow Ho Hcold.
  destruct (cold_Ok _ _ _ _ _ _ _ Hcold) as (events & Hread & _ & _ & Hseed).
  unfold Fold.catch_up_from. cbv zeta. rewrite Hseed.
  assert (Hlen1 : (u64_of_len (contents (events_log files)) <= U64_MAX)%N).
  { rewrite Happ in Hlen. unfold u64_of_len in *. rewrite length_app in Hlen. lia. }
  rewrite read_contents in Hread by (done || lia).
  destruct (LogFacts.incremental_read (contents (events_log files)) appended 0 events
              (offset (extent cache))) as [[_ He] Hall]; [by rewrite <- Happ|lia|done|].
  assert (He' : (offset (extent cache) <= u64_of_len (contents (events_log files')))%N).
  { rewrite Happ. unfold u64_of_len in *. rewrite length_app. lia. }
  rewrite <- Happ, <- !read_contents in Hall by (done || lia).
  rewrite Hall. rewrite Hall in Ho.
  destruct (Log.read_from_offset (events_log files') (offset (extent cache))) as [[delta e']|err]; [|done].
  specialize (Ho _ _ eq_refl). rewrite map_app in Ho |- *.
  by rewrite (fold_resumed default_window known_kinds hash_u64 carryover Hc limit).
Qed.

(** ** The workspace and its readers *)

Context (limit : N).

(** A reader's cursor beside the files it reads. *)
Record World := { files : Files; cursor : option CursorState; clock : Z }.

Abbreviation fold_shared := (fold_shared default_window known_kinds hash_u64 decode).
Abbreviation catch_up_rollup_layered :=
  (catch_up_rollup_layered default_window known_kinds hash_u64 decode).
Abbreviation workspace_carryover := (workspace_carryover known_kinds hash_u64).

(** No rows are carried, and the log is orderly. *)
Definition sound (f : Files) : Prop :=
  (exists raw, read_carryover f = Ok raw /\ raw_rows raw = [])
  /\ (u64_of_len (contents (events_log f)) <= U64_MAX)%N
  /\ forall carryover events e, workspace_carryover f = Ok carryover ->
     Log.read_from_offset (A:=A) (events_log f) 0 = Ok (events, e) ->
     orderly limit (carried_identity carryover) (map decode events).

Inductive step : World -> World -> Prop :=
| Append w appended f :
    f = files w <| events_log := Some (contents (events_log (files w)) ++ appended) |> ->
    sound f -> step w {| files := f; cursor := cursor w; clock := clock w |}
| Replace w log id carryover stamp f :
    (* [commit_boundary]: another log, another carryover, the next generation. *)
    (lifecycle_log_generation (files w) < U64_MAX)%N ->
    f = advance_log_generation
          (write_carryover (files w <| events_log := log |> <| events_log_id := id |>) carryover stamp) ->
    sound f -> step w {| files := f; cursor := cursor w; clock := clock w |}
| Fold w :
    (* A reader folds into its cursor. *)
    step w {| files := files w; cursor := (fold_shared (cursor w) (files w) (clock w)).1; clock := clock w |}
| Publish w cache rollup outcomes :
    catch_up_rollup_layered (files w) (clock w) = Ok (cache, rollup, outcomes) ->
    step w {| files := write_rollup_cache (files w) cache; cursor := cursor w; clock := clock w |}
| LoseCache w state :
    (forall cache, state <> Holds cache) ->
    step w {| files := files w <| rollup_cache := state |>; cursor := cursor w; clock := clock w |}
| LoseCursor w : step w {| files := files w; cursor := None; clock := clock w |}
| Tick w later : (clock w <= later)%Z -> step w {| files := files w; cursor := cursor w; clock := later |}.

(** A workspace before its first event. *)
Definition fresh (w : World) : Prop :=
  cursor w = None /\ rollup_cache (files w) = Missing /\ sound (files w).

Inductive reachable : World -> Prop :=
| Reach_fresh w : fresh w -> reachable w
| Reach_step w w' : reachable w -> step w w' -> reachable w'.

(** ** Every stored fold is one of an earlier part of the log *)

Lemma sound_carryover f : sound f -> exists carryover,
  workspace_carryover f = Ok carryover /\ carried carryover = []
  /\ forall events e, Log.read_from_offset (A:=A) (events_log f) 0 = Ok (events, e) ->
     orderly limit (carried_identity carryover) (map decode events).
Proof.
  intros ((raw & Hr & Hrows) & _ & Ho).
  assert (E : exists carryover, workspace_carryover f = Ok carryover /\ carried carryover = []).
  { unfold Fold.workspace_carryover. rewrite Hr. cbn. eexists. split; [done|].
    unfold from_raw. rewrite Hrows. cbn. done. }
  destruct E as (carryover & E & Hc). exists carryover. split; [done|]. split; [done|].
  intros events e. by apply Ho.
Qed.

Abbreviation Folded := (RollupCache * AgentRollup * list ResumeOutcome)%type.

Definition earlier (w : World) (folded : Folded) : Prop :=
  (generation (extent folded.1.1) < lifecycle_log_generation (files w))%N
  \/ exists before log t rest carryover,
       workspace_carryover (files w) = Ok carryover
       /\ contents (events_log (files w)) = contents (events_log before) ++ rest
       /\ head_generation log = lifecycle_log_generation (files w) /\ (t <= clock w)%Z
       /\ cold before carryover log t = Ok folded.

Definition stored (w : World) (cache : RollupCache) : Prop :=
  exists rollup outcomes, earlier w (cache, rollup, outcomes).

Record faithful (w : World) : Prop := {
  faithful_sound : sound (files w);
  faithful_cache cache : rollup_cache (files w) = Holds cache -> stored w cache;
  faithful_cursor held : cursor w = Some held ->
    earlier w (held_cache held, held_merged held, held_outcomes held)
}.

Lemma earlier_generation w folded : earlier w folded ->
  (generation (extent folded.1.1) <= lifecycle_log_generation (files w))%N.
Proof.
  intros [Hlt|(before & log & t & rest & carryover & _ & _ & Hg & _ & Hcold)]; [lia|].
  destruct folded as [[cache rollup] outcomes].
  destruct (cold_Ok _ _ _ _ _ _ _ Hcold) as (_ & _ & E & _). cbn. lia.
Qed.

(** A fold that is accepted resumes to the fold of the log. *)
Lemma earlier_warm w carryover cache :
  plain_kinds known_kinds = true -> sound (files w) -> workspace_carryover (files w) = Ok carryover ->
  stored w cache -> accepts (new_head (files w)) cache = true ->
  catch_up_from (Some cache) (files w) carryover (new_head (files w)) (clock w)
  = cold (files w) carryover (new_head (files w)) (clock w).
Proof.
  intros Hk Hs Hw (rollup & outcomes & Hst) Ha. destruct (sound_carryover _ Hs) as (c' & E & Hc & Ho).
  rewrite Hw in E. injection E as <-.
  unfold accepts in Ha. apply andb_prop in Ha as [[Hg%bool_decide_eq_true Hid]%andb_prop Hlen].
  destruct Hst as [Hlt|(before & log & t & rest & c' & E & Happ & _ & Ht & Hcold)].
  { cbn in Hlt, Hg. lia. }
  rewrite Hw in E. injection E as <-.
  eapply warm_fold_is_cold_fold; [done|done|exact Happ|apply Hs|exact Ht|exact Ho|exact Hcold].
Qed.

Lemma layered_cold w carryover :
  plain_kinds known_kinds = true -> faithful w -> workspace_carryover (files w) = Ok carryover ->
  catch_up_rollup_layered (files w) (clock w)
  = cold (files w) carryover (new_head (files w)) (clock w).
Proof.
  intros Hk [Hs Hc _] Hw. unfold Fold.catch_up_rollup_layered. cbv zeta. rewrite Hw.
  unfold accepted_base, read_rollup_cache.
  destruct (rollup_cache (files w)) as [| |cache] eqn:E; [done|done|].
  case_bool_decide; [|done]. cbn [ofilter]. destruct (accepts _ _) eqn:Ea; [|done].
  by apply earlier_warm; [..|apply Hc|].
Qed.

(** What a reader gets, and what its cursor holds afterwards. *)
Definition answers (w : World) (carryover : FoldCarryover)
    (outcome : option CursorState * result SnapshotErr Folded) : Prop :=
  (exists t, (t <= clock w)%Z /\ outcome.2 = cold (files w) carryover (new_head (files w)) t)
  /\ forall held, outcome.1 = Some held ->
     outcome.2 = Ok (held_cache held, held_merged held, held_outcomes held).

Lemma cold_same f f' carryover log log' t :
  (u64_of_len (contents (events_log f)) <= U64_MAX)%N ->
  contents (events_log f') = contents (events_log f) ->
  head_generation log' = head_generation log -> head_id log' = head_id log ->
  cold f' carryover log' t = cold f carryover log t.
Proof.
  intros Hlen Ec Eg Ei. unfold cold, Fold.catch_up_from. cbv zeta.
  rewrite (read_contents (events_log f)) by (done || lia).
  rewrite (read_contents (events_log f')) by (rewrite Ec; done || lia).
  by rewrite Ec, Eg, Ei.
Qed.

(** A cursor that stands at the end of the log holds its fold. *)
Lemma current_cold w carryover held :
  sound (files w) -> workspace_carryover (files w) = Ok carryover ->
  earlier w (held_cache held, held_merged held, held_outcomes held) ->
  accepts (new_head (files w)) (held_cache held) = true ->
  offset (extent (held_cache held)) = head_len (new_head (files w)) ->
  exists t, (t <= clock w)%Z /\ cold (files w) carryover (new_head (files w)) t
    = Ok (held_cache held, held_merged held, held_outcomes held).
Proof.
  intros Hs Hw He Ha Hend. unfold accepts in Ha.
  apply andb_prop in Ha as [[Hg%bool_decide_eq_true Hid%bool_decide_eq_true]%andb_prop _].
  destruct He as [Hlt|(before & log & t & rest & c' & E & Happ & Hgen & Ht & Hcold)].
  { cbn in Hlt, Hg. lia. }
  rewrite Hw in E. injection E as <-. destruct Hs as (_ & Hlen & _).
  destruct (cold_Ok _ _ _ _ _ _ _ Hcold) as (events & Hread & _ & Hfile & _).
  assert (Hlen1 : (u64_of_len (contents (events_log before)) <= U64_MAX)%N).
  { rewrite Happ in Hlen. unfold u64_of_len in *. rewrite length_app in Hlen. lia. }
  rewrite read_contents in Hread by (done || lia).
  destruct (LogFacts.incremental_read (contents (events_log before)) [] 0 events
              (offset (extent (held_cache held)))) as [[_ Hle] _]; [by rewrite app_nil_r|lia|done|].
  assert (rest = []) as ->.
  { rewrite Hend in Hle. cbn in Hle. rewrite Happ in Hle. unfold u64_of_len in Hle.
    rewrite length_app in Hle. destruct rest; [done|]. cbn in Hle. lia. }
  exists t. split; [done|]. rewrite <- Hcold. rewrite app_nil_r in Happ.
  apply cold_same; [done|done| |].
  - by rewrite Hgen.
  - by rewrite <- Hid, Hfile.
Qed.

Lemma shared_cold w carryover :
  plain_kinds known_kinds = true -> faithful w -> workspace_carryover (files w) = Ok carryover ->
  answers w carryover (fold_shared (cursor w) (files w) (clock w)).
Proof.
  intros Hk Hf Hw.
  assert (Hnow : forall r, r = cold (files w) carryover (new_head (files w)) (clock w) ->
            answers w carryover
              (match r with
               | Ok folded => (Some (hold folded (carryover_stamp (files w))), Ok folded)
               | Err err => (None, Err err)
               end)).
  { intros r Er. destruct r as [[[cache rollup] outcomes]|err].
    - split; [exists (clock w); split; [lia|exact Er]|]. by intros held [= <-].
    - split; [exists (clock w); split; [lia|exact Er]|]. done. }
  pose proof (Hnow _ (layered_cold w carryover Hk Hf Hw)) as Hreload.
  unfold Fold.fold_shared. cbv zeta. destruct (cursor w) as [held|] eqn:Eh; [|exact Hreload].
  pose proof (faithful_cursor _ Hf held Eh) as He.
  destruct (accepts (new_head (files w)) (held_cache held)) eqn:Ea; [|exact Hreload]. cbn [andb].
  destruct (_ =? head_len _)%N eqn:Eend; cbn [andb].
  - apply N.eqb_eq in Eend. rewrite (proj2 (N.ltb_ge _ _)) by lia.
    destruct (_ =? _)%N; [|exact Hreload].
    destruct (current_cold w carryover held) as (t & Ht & Et); [apply Hf|done..|].
    split; [by exists t|]. by intros held' [= <-].
  - destruct (_ <? _)%N; [|exact Hreload]. rewrite Hw.
    rewrite (earlier_warm w carryover (held_cache held)); [|done|apply Hf|done|by eexists _, _|done].
    specialize (Hnow _ eq_refl). destruct (cold _ _ _ _); [exact Hnow|exact Hreload].
Qed.

(** *** Every step keeps the stored folds faithful *)

(** What moves on without touching a stored fold: the clock does not go back,
    the log only grows under its generation, and the carryover stays. *)
Lemma earlier_grows w w' rest folded :
  lifecycle_log_generation (files w') = lifecycle_log_generation (files w) ->
  workspace_carryover (files w') = workspace_carryover (files w) ->
  contents (events_log (files w')) = contents (events_log (files w)) ++ rest ->
  (clock w <= clock w')%Z -> earlier w folded -> earlier w' folded.
Proof.
  intros Eg Ec El Ht [Hlt|(before & log & t & rest' & carryover & E & Happ & Hgen & Hle & Hcold)].
  - left. by rewrite Eg.
  - right. exists before, log, t, (rest' ++ rest), carryover. rewrite Ec, El, Happ, Eg, app_assoc.
    repeat (split; [done||lia|]). done.
Qed.

Lemma earlier_now w carryover t folded :
  workspace_carryover (files w) = Ok carryover -> (t <= clock w)%Z ->
  cold (files w) carryover (new_head (files w)) t = Ok folded -> earlier w folded.
Proof.
  intros Hw Ht Hcold. right. exists (files w), (new_head (files w)), t, [], carryover.
  by rewrite app_nil_r.
Qed.

Lemma step_faithful w w' :
  plain_kinds known_kinds = true -> faithful w -> step w w' -> faithful w'.
Proof.
  intros Hk Hf Hstep. pose proof Hf as [Hs Hcache Hcur].
  assert (Hgrow : forall w' rest, sound (files w') ->
    rollup_cache (files w') = rollup_cache (files w) -> cursor w' = cursor w ->
    lifecycle_log_generation (files w') = lifecycle_log_generation (files w) ->
    workspace_carryover (files w') = workspace_carryover (files w) ->
    contents (events_log (files w')) = contents (events_log (files w)) ++ rest ->
    (clock w <= clock w')%Z -> faithful w').
  { intros w1 rest Hs1 E1 E2 E3 E4 E5 E6. split; [done| |].
    - intros cache. rewrite E1. intros (rollup & outcomes & He)%Hcache. exists rollup, outcomes.
      by eapply earlier_grows.
    - intros held. rewrite E2. intros He%Hcur. by eapply earlier_grows. }
  destruct Hstep as [w appended f -> Hs'|w log id carryover stamp f Hlt -> Hs'|w|w cache rollup outcomes Hp|w st Hst|w|w later Hlater].
  - by apply (Hgrow _ appended).
  - assert (Hold : forall folded, earlier w folded -> earlier {| files :=
        advance_log_generation (write_carryover (files w <| events_log := log |> <| events_log_id := id |>)
                                  carryover stamp); cursor := cursor w; clock := clock w |} folded).
    { intros folded He%earlier_generation. left.
      change (generation (extent folded.1.1) < N.min U64_MAX (lifecycle_log_generation (files w) + 1))%N.
      lia. }
    split; [exact Hs'| |].
    + intros cache (rollup & outcomes & He)%Hcache. exists rollup, outcomes. by apply Hold.
    + intros held He%Hcur. by apply Hold.
  - destruct (sound_carryover _ Hs) as (carryover & Hw & _).
    destruct (shared_cold w carryover Hk Hf Hw) as [(t & Ht & Er) Hheld].
    split; [done|exact Hcache|]. intros held Eh. specialize (Hheld held Eh). rewrite Hheld in Er.
    apply (earlier_now _ carryover t); [done|done|by rewrite Er].
  - destruct (sound_carryover _ Hs) as (carryover & Hw & _).
    rewrite (layered_cold w carryover Hk Hf Hw) in Hp.
    split; [exact Hs| |exact Hcur]. intros cache' [= <-]. exists rollup, outcomes.
    apply (earlier_now {| files := write_rollup_cache (files w) cache; cursor := cursor w; clock := clock w |}
             carryover (clock w)); [exact Hw|reflexivity|exact Hp].
  - split; [exact Hs| |exact Hcur]. intros cache' E. cbn in E. by apply Hst in E.
  - split; [exact Hs|exact Hcache|done].
  - by apply (Hgrow _ []); rewrite ?app_nil_r.
Qed.

Lemma reachable_faithful w : plain_kinds known_kinds = true -> reachable w -> faithful w.
Proof.
  intros Hk. induction 1 as [w (Ec & Er & Hs)|w w' _ IH Hstep].
  - split; [done| |]; [intros cache E; congruence|intros held E; congruence].
  - by eapply step_faithful.
Qed.

(** C5: On a workspace that stays [sound], whatever its readers did before —
    folded, published, lost their cache or their cursor, in any order with
    appends and with replacements of the log —, a fold through the persisted
    cache is the fold of the whole log, and so is what a cursor answers, as of
    now or of when the cursor last folded this very log.  A workspace is sound
    when after every append and every replacement its carryover holds no rows
    (a rotation that carries rows over is outside the theorem), its log is
    orderly (tidy events, ordinals within [u32], one queueing time per message)
    and no longer than [u64]; and no registered kind has a dash or is an
    adjective of the name generator ([plain_kinds]). *)
Theorem every_reader_sees_the_log (w : World) :
  plain_kinds known_kinds = true -> reachable w ->
  exists carryover, workspace_carryover (files w) = Ok carryover
  /\ catch_up_rollup_layered (files w) (clock w)
     = catch_up_from None (files w) carryover (new_head (files w)) (clock w)
  /\ exists t, (t <= clock w)%Z /\ (fold_shared (cursor w) (files w) (clock w)).2
     = catch_up_from None (files w) carryover (new_head (files w)) t.
Proof.
  intros Hk Hw%reachable_faithful; [|done].
  destruct (sound_carryover _ (faithful_sound _ Hw)) as (carryover & Hc & _).
  exists carryover. split; [done|]. split; [by apply layered_cold|]. by apply shared_cold.
Qed.
End Readers.

(** ** A workspace whose log holds a rebirth *)

Module Workspace.
Import EventLog.FrameFacts.Toy ReducerLaws.Sample.

Definition events : list FoldEvent := prefix ++ delta.
(** A record is the number of its event. *)
Definition decode (n : N) : FoldEvent := nth (N.to_nat n) events (at_ 0 Other).

Definition bytes_of (l : list N) : bytes :=
  match Log.encode_batch l with Ok b => b | Err _ => [] end.
Definition written : bytes := bytes_of [0; 1; 2; 3; 4; 5; 6; 7; 8; 9; 10; 11]%N.
Definition appended : bytes := bytes_of [12]%N.

Definition empty : Files :=
  {| events_log := None; events_log_id := Some (1, 2)%N; log_generation := Missing;
     rollup_cache := Missing; agents_carryover := Missing; carryover_stamp := 0;
     project_root := Some (str "/r") |}.
Definition early : Files := empty <| events_log := Some written |>.
Definition late : Files := early <| events_log := Some (written ++ appended) |>.

Lemma read_early : Log.read_from_offset (events_log early) 0
  = Ok ([0; 1; 2; 3; 4; 5; 6; 7; 8; 9; 10; 11]%N, u64_of_len written).
Proof. by vm_compute. Qed.
Lemma read_late : Log.read_from_offset (events_log late) 0
  = Ok ([0; 1; 2; 3; 4; 5; 6; 7; 8; 9; 10; 11; 12]%N, u64_of_len (written ++ appended)).
Proof. by vm_compute. Qed.

Lemma all_orderly : orderly window kinds hash 1 no_identity events.
Proof. split; [exact cold|]. intros a b Ha. apply elem_of_nil in Ha. done. Qed.

Lemma early_orderly : orderly window kinds hash 1 no_identity
  (map decode [0; 1; 2; 3; 4; 5; 6; 7; 8; 9; 10; 11]%N).
Proof. apply (orderly_prefix _ _ _ 1 no_identity _ [decode 12]). exact all_orderly. Qed.
End Workspace.

Section Witnesses.
Import EventLog.FrameFacts.Toy ReducerLaws.Sample Workspace.

Abbreviation catch_up := (Fold.catch_up_from window kinds hash decode).
Definition root : FoldCarryover := stamp_root_lanes empty_carryover (Some (str "/r")).

Lemma late_orderly : forall events e,
  Log.read_from_offset (events_log late) 0 = Ok (events, e) ->
  orderly window kinds hash 1 no_identity (map decode events).
Proof. rewrite read_late. intros events e [= <- _]. exact all_orderly. Qed.

Lemma warm_fold_is_cold_fold_witness :
  match catch_up None early root (new_head early) 100 with
  | Ok (cache, _, _) =>
      saw_session_rebirth cache = true /\ length (raw_agents cache) = 5%nat
      /\ catch_up (Some cache) late root (new_head late) 200
         = catch_up None late root (new_head late) 200
  | Err _ => False
  end.
Proof.
  destruct (catch_up None early root (new_head early) 100) as [[[cache rollup] outcomes]|err] eqn:E.
  - assert (Hc : saw_session_rebirth cache = true /\ length (raw_agents cache) = 5%nat).
    { assert (Hv : match catch_up None early root (new_head early) 100 with
              | Ok (c, _, _) => saw_session_rebirth c && (length (raw_agents c) =? 5)%nat
              | Err _ => false end = true) by (vm_compute; reflexivity).
      rewrite E in Hv. apply andb_prop in Hv as [H1 H2]. split; [exact H1|]. by apply Nat.eqb_eq. }
    destruct Hc as [H1 H2]. split; [exact H1|]. split; [exact H2|].
    exact (warm_fold_is_cold_fold window kinds hash decode 1 early late root (new_head early)
             (new_head late) 100 200 appended cache rollup outcomes
             ltac:(vm_compute; reflexivity) eq_refl eq_refl ltac:(vm_compute; discriminate)
             ltac:(lia) late_orderly E).
  - assert (Hv : match catch_up None early root (new_head early) 100 with
              | Ok _ => true | Err _ => false end = true) by (vm_compute; reflexivity).
    rewrite E in Hv. discriminate Hv.
Defined.

Lemma sample_sound f :
  agents_carryover f = Missing -> (u64_of_len (contents (events_log f)) <= U64_MAX)%N ->
  (forall events e, Log.read_from_offset (events_log f) 0 = Ok (events, e) ->
   orderly window kinds hash 1 no_identity (map decode events)) ->
  sound window kinds hash decode 1 f.
Proof.
  intros Hc Hl Ho. split; [|split; [exact Hl|]].
  - exists no_carryover. unfold read_carryover. by rewrite Hc.
  - intros carryover l e. unfold workspace_carryover, read_carryover. rewrite Hc.
    intros [= <-]. apply Ho.
Qed.

Definition began : World := {| files := empty; cursor := None; clock := 100 |}.
Definition grown : World := {| files := early; cursor := None; clock := 100 |}.

Lemma began_fresh : fresh window kinds hash decode 1 began.
Proof.
  split; [done|]. split; [done|]. apply sample_sound; [done|by vm_compute|].
  intros l e [= <- _]. apply (orderly_prefix _ _ _ 1 no_identity [] events). exact all_orderly.
Qed.

Lemma grown_reachable : reachable window kinds hash decode 1 grown.
Proof.
  eapply Reach_step; [apply Reach_fresh, began_fresh|].
  apply (Append _ _ _ _ _ began written); [done|]. apply sample_sound; [done|by vm_compute|].
  intros l e. cbn [files]. rewrite read_early. intros [= <- _]. exact early_orderly.
Qed.

(** The log grew, a reader published and another folded, and the log grew. *)
Lemma every_reader_sees_the_log_witness :
  exists (w : World) (cache : RollupCache) (held : CursorState),
    contents (events_log (files w)) = written ++ appended
    /\ rollup_cache (files w) = Holds cache /\ cursor w = Some held
    /\ exists carryover, workspace_carryover kinds hash (files w) = Ok carryover
    /\ catch_up_rollup_layered window kinds hash decode (files w) (clock w)
       = catch_up None (files w) carryover (new_head (files w)) (clock w)
    /\ exists t, (t <= clock w)%Z
       /\ (fold_shared window kinds hash decode (cursor w) (files w) (clock w)).2
          = catch_up None (files w) carryover (new_head (files w)) t.
Proof.
  destruct (catch_up_rollup_layered window kinds hash decode early 100) as [[[cache rollup] outcomes]|err] eqn:E.
  2: { assert (Hv : match catch_up_rollup_layered window kinds hash decode early 100 with
              | Ok _ => true | Err _ => false end = true) by (vm_compute; reflexivity).
       rewrite E in Hv. discriminate Hv. }
  set (folded := {| files := early; cursor := (fold_shared window kinds hash decode None early 100).1;
                    clock := 100 |}).
  assert (Hheld : exists held, cursor folded = Some held)
    by (unfold folded, fold_shared; cbv zeta; rewrite E; eexists; reflexivity).
  destruct Hheld as [held Hheld].
  set (published := {| files := write_rollup_cache early cache; cursor := cursor folded; clock := 100 |}).
  set (w := {| files := files published <| events_log := Some (written ++ appended) |>;
               cursor := cursor folded; clock := 100 |}).
  assert (Hw : reachable window kinds hash decode 1 w).
  { eapply Reach_step; [eapply Reach_step; [eapply Reach_step; [exact grown_reachable|]|]|].
    - exact (Fold _ _ _ _ _ grown).
    - apply (Publish _ _ _ _ _ folded cache rollup outcomes). exact E.
    - apply (Append _ _ _ _ _ published appended); [done|].
      apply sample_sound; [done|by vm_compute|exact late_orderly]. }
  exists w, cache, held. split; [reflexivity|]. split; [reflexivity|]. split; [exact Hheld|].
  exact (every_reader_sees_the_log window kinds hash decode 1 w ltac:(vm_compute; reflexivity) Hw).
Defined.
End Witnesses.
