(* ===== verification/Queue.v ===== *)
(** * The message queue ([crates/rimz/src/store/writer/queue.rs])

    The queue transaction and the store operations over the live queue, the
    terminal history, the message events and the wake stamp, with the sender
    notices of [store/message/sender_notice.rs].

    A [MessageStore] is what the operations keep on disk.  A transaction runs
    on a [QueueTxn] and [finish] writes it back.  What an operation reads
    besides the store is a [World]: the clock, the agents of the snapshot, the
    fresh message ids, the pending ingress frames, and whether the history
    file takes the append and the wake stamp can be written (neither failure
    fails a commit).  Operations return [None] where the code panics.  I/O
    errors of the queue file itself abort the operation before any write and
    are not modelled; times are unbounded. *)

From S2P Require Import Prelude Ids Lifecycle Agents.
Import Agent ShortId.
From S2P Require Import Message Prompt.

(** [jiff::Timestamp]'s [Display]. *)
Class TimeDisplay := show_time : Z -> text.

Definition PROVIDER_START_HOLD_WINDOWS : Z := 10.
Definition HISTORY_READ_LIMIT : nat := 500.

(** ** Events ([store/event.rs]) *)

Module Method.
Inductive MessageEventMethod :=
| Queued | Edited | AfterMet | WhenMet | Sent | Delivered | TimedOut | Errored | Canceled
| Abandoned | Expired | Archived.
End Method.
Abbreviation MessageEventMethod := Method.MessageEventMethod.
#[export] Instance MessageEventMethod_eq_dec : EqDecision MessageEventMethod.
Proof. solve_decision. Defined.

Definition method_as_str (m : MessageEventMethod) : text :=
  match m with
  | Method.Queued => str "message.queued" | Method.Edited => str "message.edited"
  | Method.AfterMet => str "message.after_met" | Method.WhenMet => str "message.when_met"
  | Method.Sent => str "message.sent" | Method.Delivered => str "message.delivered"
  | Method.TimedOut => str "message.timed_out" | Method.Errored => str "message.errored"
  | Method.Canceled => str "message.canceled" | Method.Abandoned => str "message.abandoned"
  | Method.Expired => str "message.expired" | Method.Archived => str "message.archived"
  end.
Definition for_terminal_status (s : MessageStatus) : option MessageEventMethod :=
  match s with
  | Status.Queued | Status.Claimed | Status.Sent => None
  | Status.Delivered => Some Method.Delivered
  | Status.TimedOut => Some Method.TimedOut
  | Status.Errored => Some Method.Errored
  | Status.Canceled => Some Method.Canceled
  | Status.Abandoned => Some Method.Abandoned
  | Status.Expired => Some Method.Expired
  | Status.Archived => Some Method.Archived
  end.

(** [EventEnvelope::message_event]: the record, the session, the method, the
    reason. *)
Record MessageEvent := message_event {
  event_record : MessageRecord;
  event_session : text;
  event_method : MessageEventMethod;
  event_reason : option text
}.

(** ** The stores *)

Record MessageStore := {
  messages : list MessageRecord;
  history : list MessageRecord;
  message_events : list MessageEvent;
  message_wake : option Z
}.

Record World := {
  clock : Z;
  finish_clock : Z;
  snapshot_agents : list AgentState;
  fresh_id : nat -> text;
  pending_ingress : list (text * Z);
  history_writable : bool;
  wake_writable : bool;
  store_workspace : text
}.

(** [sort_messages]. *)
Definition sort_messages (l : list MessageRecord) : list MessageRecord :=
  sort_by message_id text_leb l.

(** The history directory keeps a file per week, named after its first day,
    and a row goes to the file of its [updated_at]; [history] is the rows in
    the order they were appended.  The names of the years 0 to 9999 sort as
    the days do. *)
Definition TRANSCRIPT_FILE_DAYS : Z := 7.
Definition bucket_of (at_ : Z) : Z := (as_secs at_ / 86400 / TRANSCRIPT_FILE_DAYS * TRANSCRIPT_FILE_DAYS)%Z.
Definition history_file (s : MessageStore) (bucket : Z) : list MessageRecord :=
  List.filter (fun m => (bucket_of (updated_at m) =? bucket)%Z) (history s).
(** [bucket_files], sorted and reversed: the newest first. *)
Definition history_files (s : MessageStore) : list (list MessageRecord) :=
  map (history_file s)
    (rev (sort_by (fun b => b) Z.leb (remove_dups (map (fun m => bucket_of (updated_at m)) (history s))))).

(** [list_history]: the files from the newest one, each from its last id,
    until [HISTORY_READ_LIMIT] rows are taken; the rows sorted by id. *)
Fixpoint take_history (files : list (list MessageRecord)) (taken_ : list MessageRecord)
  : list MessageRecord :=
  match files with
  | [] => taken_
  | file :: files' =>
      let taken_ := taken_ ++ take (HISTORY_READ_LIMIT - length taken_) (rev (sort_messages file)) in
      if length taken_ =? HISTORY_READ_LIMIT then taken_ else take_history files' taken_
  end.
Definition list_history (s : MessageStore) : list MessageRecord :=
  sort_messages (take_history (history_files s) []).

Definition with_id (id : text) (m : MessageRecord) : bool := bool_decide (message_id m = id).

(** [read_status]: the live queue first, then the history files from the
    newest one, each from its first row. *)
Definition status_in_file (id : text) (file : list MessageRecord) : option MessageStatus :=
  option_map status (List.find (with_id id) file).
Definition retained_status (s : MessageStore) (id : text) : option MessageStatus :=
  or_else (status_in_file id (messages s)) (head (omap (status_in_file id) (history_files s))).

(** ** Records *)

Definition requeue (m : MessageRecord) (now : Z) (error : text) : MessageRecord :=
  m <| status := Status.Queued |> <| pane_id := None |> <| batch_id := None |>
    <| last_error := Some error |> <| updated_at := now |>.

Definition same_submitted_batch (first candidate : MessageRecord) : bool :=
  if decide (message_id first = message_id candidate) then true
  else
    match batch_id first with
    | Some batch_id_ => bool_decide (batch_id candidate = Some batch_id_)
    | None =>
        is_some (last_sent_at first) && is_none (batch_id candidate)
        && bool_decide (last_sent_at candidate = last_sent_at first)
    end.

Record MessageEdit := {
  edit_text : option text;
  edit_gate : option DeliveryGate;
  edit_not_before : option (option Z);
  edit_force : option bool;
  edit_enter : option bool;
  edit_auto_compact : option (option AutoCompact)
}.

(** [MessageEdit::apply]. *)
Definition apply_edit (e : MessageEdit) (record : MessageRecord) : MessageRecord :=
  let record := match edit_text e with Some t => record <| msg_text := t |> | None => record end in
  let record := match edit_gate e with Some g => record <| gate := g |> | None => record end in
  let record :=
    match edit_not_before e with
    | Some nb =>
        let record := record <| not_before := nb |> in
        if is_some nb then record <| typing_hold := None |> else record
    | None => record
    end in
  let record := match edit_force e with Some f => record <| force := f |> | None => record end in
  let record := match edit_enter e with Some f => record <| enter := f |> | None => record end in
  match edit_auto_compact e with
  | Some c => record <| auto_compact := c |> <| compacted_context_tokens := None |>
  | None => record
  end.

Definition changed_fields (e : MessageEdit) : list text :=
  (if is_some (edit_text e) then [str "text"] else [])
  ++ (if is_some (edit_gate e) then [str "gate"] else [])
  ++ (if is_some (edit_not_before e) then [str "schedule"] else [])
  ++ (if is_some (edit_force e) then [str "force"] else [])
  ++ (if is_some (edit_enter e) then [str "enter"] else [])
  ++ (if is_some (edit_auto_compact e) then [str "smart_compact"] else []).

Record DeliverySweepUpdate := {
  sweep_message_id : text;
  after_indices : list nat;
  when_indices : list nat;
  sweep_retry_after : option Z;
  archive_reason : option text
}.

Inductive DeliveryFailureDisposition := Retry | Terminal.
#[export] Instance DeliveryFailureDisposition_eq_dec : EqDecision DeliveryFailureDisposition.
Proof. solve_decision. Defined.

Record ReconcileReport := {
  held_on_ingress : N; requeued : N; timed_out : N; abandoned : N; expired_count : N
}.
#[export] Instance ReconcileReport_eta : Eta ReconcileReport := fun r =>
  {| held_on_ingress := held_on_ingress r; requeued := requeued r; timed_out := timed_out r;
     abandoned := abandoned r; expired_count := expired_count r |}.

Inductive MessageUpdate :=
| Keep
| SilentRewrite
| Rewrite (method : MessageEventMethod) (reason : option text)
| Finalize (status : MessageStatus) (reason : option text).

(** ** The transaction *)

Record QueueTxn := {
  live : list MessageRecord;
  closed_rows : list MessageRecord;
  undelivered : list (MessageRecord * option text * text);
  staged : list MessageEvent;
  live_changed : bool;
  publish : bool
}.
#[export] Instance QueueTxn_eta : Eta QueueTxn := fun t =>
  {| live := live t; closed_rows := closed_rows t; undelivered := undelivered t;
     staged := staged t; live_changed := live_changed t; publish := publish t |}.

Definition normalize_terminal (m : MessageRecord) (st : MessageStatus) (now : Z)
    (reason : option text) : MessageRecord :=
  let m := m <| status := st |> <| updated_at := now |> in
  let m :=
    if bool_decide (st = Status.Archived) || bool_decide (st = Status.Expired)
       || (bool_decide (st = Status.Canceled) && is_some (idle_since m))
    then match reason with Some r => m <| last_error := Some r |> | None => m end
    else m in
  if decide (st = Status.Delivered)
  then m <| delivered_at := Some now |> <| last_error := None |>
  else m.

Definition holds (held live_ : MessageRecord) : bool :=
  bool_decide (message_id held = message_id live_)
  && bool_decide (status live_ = Status.Claimed)
  && bool_decide (attempts held = attempts live_)
  && bool_decide (last_attempt_at held = last_attempt_at live_).

Module Txn.
Definition new (s : MessageStore) : QueueTxn :=
  {| live := sort_messages (messages s); closed_rows := []; undelivered := []; staged := [];
     live_changed := false; publish := false |}.

Definition get (t : QueueTxn) (id : text) : option MessageRecord :=
  List.find (with_id id) (live t).

Fixpoint replace_or_push (m : MessageRecord) (l : list MessageRecord) : list MessageRecord :=
  match l with
  | [] => [m]
  | x :: l' => if with_id (message_id m) x then m :: l' else x :: replace_or_push m l'
  end.
Definition upsert (t : QueueTxn) (m : MessageRecord) : QueueTxn :=
  t <| live := replace_or_push m (live t) |> <| live_changed := true |>.

Definition stage_event (t : QueueTxn) (e : MessageEvent) : QueueTxn :=
  t <| staged := staged t ++ [e] |>.
Definition force_publish (t : QueueTxn) : QueueTxn := t <| publish := true |>.

Definition claim_record (m : MessageRecord) (now : Z) : MessageRecord :=
  m <| status := Status.Claimed |> <| attempts := saturating_add_u32 (attempts m) 1 |>
    <| last_attempt_at := Some now |> <| last_error := None |> <| retry_after := None |>
    <| updated_at := now |>.
Fixpoint claim_loop (l : list MessageRecord) (indices : list nat) (now : Z)
  : option (list MessageRecord * list MessageRecord) :=
  match indices with
  | [] => Some (l, [])
  | index :: indices' =>
      let! m := l !! index else None in
      let m := claim_record m now in
      let! (l, claimed) := claim_loop (<[index := m]> l) indices' now else None in
      Some (l, m :: claimed)
  end.
Definition claim_indices (t : QueueTxn) (indices : list nat) (now : Z)
  : option (list MessageRecord * QueueTxn) :=
  let! (l, claimed) := claim_loop (live t) indices now else None in
  Some (claimed, t <| live := l |> <| live_changed := live_changed t || negb (is_empty claimed) |>).

Definition upsert_claimed (t : QueueTxn) (m : MessageRecord) (now : Z)
  : option (MessageRecord * QueueTxn) :=
  let t := upsert t m in
  let! index := position (with_id (message_id m)) (live t) else None in
  let! (claimed, t) := claim_indices t [index] now else None in
  let! m := last claimed else None in
  Some (m, t).

(** [fresh] is [MessageId::new()]. *)
Definition at_tail (t : QueueTxn) (fresh : text) (m : MessageRecord) : option MessageRecord :=
  let queued := m <| message_id := fresh |> in
  match max_by message_id text_ltb
          (List.filter (fun l => same_card l (message_card_ref m)) (live t)) with
  | Some last_ =>
      if text_leb fresh (message_id last_)
      then option_map (fun id => queued <| message_id := id |>) (successor (message_id last_))
      else Some queued
  | None => Some queued
  end.

Definition close (t : QueueTxn) (m : MessageRecord) (st : MessageStatus) (session : text)
    (reason : option text) (now : Z) : option (MessageRecord * QueueTxn) :=
  let m := normalize_terminal m st now reason in
  let! method := for_terminal_status st else None in
  let t := if wants_undelivered_notice m
           then t <| undelivered := undelivered t ++ [(m, reason, session)] |> else t in
  Some (m, t <| closed_rows := closed_rows t ++ [m] |>
             <| staged := staged t ++ [message_event m session method reason] |>).

Definition terminalize (t : QueueTxn) (m : MessageRecord) (st : MessageStatus) (session : text)
    (reason : option text) (now : Z) : option (MessageRecord * QueueTxn) :=
  let t :=
    match position (with_id (message_id m)) (live t) with
    | Some index => t <| live := delete index (live t) |> <| live_changed := true |>
    | None => t
    end in
  close t m st session reason now.

(** The loop of [apply_all]; the transaction's [live] collects the records
    that stay. *)
Section Apply.
Context {S : Type} (update : S -> MessageRecord -> S * MessageRecord * MessageUpdate)
  (session : text) (now : Z).
Fixpoint apply_loop (s : S) (t : QueueTxn) (updated rest : list MessageRecord)
  : option (S * list MessageRecord * QueueTxn) :=
  match rest with
  | [] => Some (s, updated, t)
  | m :: rest' =>
      let '(s, m, u) := update s m in
      match u with
      | Keep => apply_loop s (t <| live := live t ++ [m] |>) updated rest'
      | SilentRewrite =>
          apply_loop s (t <| live_changed := true |> <| live := live t ++ [m] |>)
            (updated ++ [m]) rest'
      | Rewrite method reason =>
          apply_loop s (stage_event (t <| live_changed := true |>)
                          (message_event m session method reason) <| live := live t ++ [m] |>)
            (updated ++ [m]) rest'
      | Finalize st reason =>
          let! (m, t) := close (t <| live_changed := true |>) m st session reason now else None in
          apply_loop s t (updated ++ [m]) rest'
      end
  end.
Definition apply_all_with (s : S) (t : QueueTxn) : option (S * list MessageRecord * QueueTxn) :=
  apply_loop s (t <| live := [] |>) [] (live t).
End Apply.

(** [apply_all] with a closure that keeps no state of its own. *)
Definition apply_all (t : QueueTxn) (session : text) (now : Z)
    (update : MessageRecord -> MessageRecord * MessageUpdate)
  : option (list MessageRecord * QueueTxn) :=
  let! (_, updated, t) :=
    apply_all_with (fun (_ : unit) m => let '(m, u) := update m in (tt, m, u)) session now tt t
    else None in
  Some (updated, t).

Definition finalize_matching (t : QueueTxn) (w : World) (st : MessageStatus) (session reason : text)
    (select : MessageRecord -> bool) : option (list MessageRecord * QueueTxn) :=
  apply_all t session (clock w) (fun m =>
    if negb (select m) then (m, Keep) else (m, Finalize st (Some reason))).
End Txn.
Import Txn.

(** ** Sender notices ([store/message/sender_notice.rs]) *)

Section Store.
Context `{Env} `{TimeDisplay}.
Implicit Types (w : World) (s : MessageStore) (session : text).

Definition resolve_sender (sender : MessageSender) (agents : list AgentState) : option AgentState :=
  match sender with
  | Sender.Agent kind agent_id name_ _ _ channel_ =>
      let cards :=
        List.filter (fun agent =>
          is_none (ended_at agent) && bool_decide (agent_kind agent = kind)
          && match agent_id with
             | Some id => answers_to agent id
             | None => is_some name_ && bool_decide (name agent = name_)
             end) agents in
      match cards with
      | [] => None
      | [first] => Some first
      | _ =>
          let! channel_ := channel_ else None in
          List.find (fun agent => bool_decide (Agent.channel agent = Some channel_)) cards
      end
  | _ => None
  end.

Definition receiver_label (record : MessageRecord) : text :=
  match address record with
  | Some address => address
  | None =>
      match agent_name record with
      | Some name => str "@" ++ name
      | None => agent_id record
      end
  end.

Definition undelivered_text (record : MessageRecord) (close_reason : option text) : text :=
  let receiver := receiver_label record in
  let status_ :=
    if decide (status record = Status.TimedOut) then str "timed out"
    else message_status_as_str (status record) in
  let reason :=
    match (match status record with
           | Status.Archived | Status.Expired => last_error record
           | _ => close_reason
           end) with
    | Some reason => str "Reason: " ++ reason ++ [10%N]
    | None => []
    end in
  let last_write :=
    match last_sent_at record with
    | Some at_ => str "; last write " ++ show_time at_
    | None => []
    end in
  let preview := map (fun ch => if is_whitespace ch then 32%N else ch) (take 80 (msg_text record)) in
  str "Message " ++ message_id record ++ str " to " ++ receiver ++ str " ended " ++ status_
  ++ str "." ++ [10%N] ++ reason ++ str "Tried: " ++ show_N (attempts record) ++ str " claims; "
  ++ show_N (unconfirmed_sends record) ++ str " unconfirmed writes" ++ last_write ++ str "."
  ++ [10%N] ++ str "Text: " ++ preview ++ [10%N]
  ++ str "The text was not delivered. Check the receiver with `rimz agents show " ++ receiver
  ++ str "` and decide whether to resend.".

Definition compose (id workspace : text) (sender_card : AgentState) (notice : HarnessNotice)
    (text_ : text) now : MessageRecord :=
  Message.new id workspace sender_card text_ Done now
  <| channel := Agent.channel sender_card |> <| sender := Sender.Harness notice |>.

(** ** The commit *)

(** The notices of [commit_queue]; [n] counts the ids drawn. *)
Fixpoint notify w (n : nat) (t : QueueTxn) (rows : list (MessageRecord * option text * text))
  : QueueTxn :=
  match rows with
  | [] => t
  | (record, reason, session_name) :: rows' =>
      match resolve_sender (sender record) (snapshot_agents w) with
      | None => notify w n t rows'
      | Some sender_card =>
          let notice := compose (fresh_id w n) (store_workspace w) sender_card MessageUndelivered
                          (undelivered_text record reason) (clock w) in
          let t := stage_event t (message_event notice session_name Method.Queued None) in
          notify w (S n) (upsert t notice) rows'
      end
  end.

(** [refresh_message_wake]: a stamp that cannot be written stays as it was. *)
Definition refresh_message_wake w (stamp : option Z) (l : list MessageRecord) now : option Z :=
  if wake_writable w then queue_wake_deadline l now else stamp.

Definition finish w s (t : QueueTxn) : MessageStore :=
  let queue := sort_messages (live t) in
  {| messages := if live_changed t then queue else messages s;
     message_wake :=
       if live_changed t then refresh_message_wake w (message_wake s) (live t) (finish_clock w)
       else message_wake s;
     history := if history_writable w then history s ++ closed_rows t else history s;
     message_events := message_events s ++ staged t |}.

Definition commit_queue {T} w s (f : QueueTxn -> option (T * QueueTxn))
  : option (T * MessageStore) :=
  let! (result, t) := f (Txn.new s) else None in
  let t := notify w 0 (t <| undelivered := [] |>) (undelivered t) in
  Some (result, finish w s t).

(** [rearm_message_wake]. *)
Definition rearm_message_wake w s now : MessageStore :=
  {| messages := messages s; history := history s; message_events := message_events s;
     message_wake := refresh_message_wake w (message_wake s) (sort_messages (messages s)) now |}.

(** ** Updates of one record *)

Definition fail_delivery (m : MessageRecord) (disposition : DeliveryFailureDisposition)
    (error : text) now : MessageRecord * MessageUpdate :=
  let m := requeue m now error in
  let m := if decide (disposition = Retry) then m <| last_attempt_at := None |> else m in
  (m,
   if decide (disposition = Terminal) then Finalize Status.Errored (Some error)
   else if (MAX_DELIVERY_ATTEMPTS <=? attempts m)%N then Finalize Status.Abandoned (Some error)
   else SilentRewrite).

Fixpoint stamp_after_conditions (after : list AfterCondition) (indices : list nat) now
  : list AfterCondition * list text :=
  match indices with
  | [] => (after, [])
  | index :: indices' =>
      match after !! index with
      | None => stamp_after_conditions after indices' now
      | Some c =>
          if is_some (after_met_at c) then stamp_after_conditions after indices' now
          else
            let c' := {| after_kind := after_kind c; after_agent_id := after_agent_id c;
                         after_agent_name := after_agent_name c;
                         after_address := after_address c; after_met_at := Some now |} in
            let '(after, stamped) := stamp_after_conditions (<[index := c']> after) indices' now in
            (after, after_address c :: stamped)
      end
  end.
Fixpoint stamp_when_conditions (when : list WhenCondition) (indices : list nat) now
  : list WhenCondition * list text :=
  match indices with
  | [] => (when, [])
  | index :: indices' =>
      match when !! index with
      | None => stamp_when_conditions when indices' now
      | Some c =>
          if is_some (when_met_at c) then stamp_when_conditions when indices' now
          else
            let c' := {| when_kind := when_kind c; when_agent_id := when_agent_id c;
                         when_agent_name := when_agent_name c; when_address := when_address c;
                         when_status := when_status c; dwell_secs := dwell_secs c;
                         when_met_at := Some now |} in
            let '(when, stamped) := stamp_when_conditions (<[index := c']> when) indices' now in
            (when, (when_address c ++ str " " ++ status_as_str (when_status c) ++ str " "
                    ++ format_dwell (dwell_secs c)) :: stamped)
      end
  end.
Definition condition_stamp_reason (after when : list text) : text :=
  join (str "; ")
    ((if is_empty after then [] else [join (str ", ") after ++ str " finished"])
     ++ (if is_empty when then [] else [join (str ", ") when ++ str " reached"])).

Definition apply_sweep_update (m : MessageRecord) (update : DeliverySweepUpdate) now
  : MessageRecord * MessageUpdate :=
  match archive_reason update with
  | Some reason => (m, Finalize Status.Archived (Some reason))
  | None =>
      let '(after_, after_stamped) := stamp_after_conditions (after m) (after_indices update) now in
      let '(when__, when_stamped) := stamp_when_conditions (when_ m) (when_indices update) now in
      let m := m <| after := after_ |> <| when_ := when__ |> in
      let retry_changed :=
        is_some (sweep_retry_after update)
        && negb (bool_decide (retry_after m = sweep_retry_after update)) in
      let m := if retry_changed then m <| retry_after := sweep_retry_after update |> else m in
      if is_empty after_stamped && is_empty when_stamped
      then (m, if retry_changed then SilentRewrite else Keep)
      else (m <| updated_at := now |>,
            Rewrite (if is_empty when_stamped then Method.AfterMet else Method.WhenMet)
              (Some (condition_stamp_reason after_stamped when_stamped)))
  end.

Definition settle_wrap_up (m : MessageRecord) (agents : list AgentState) now
    (report : ReconcileReport) : ReconcileReport * MessageRecord * MessageUpdate :=
  if existsb (fun agent => same_agent_card m agent && holds_open_turn agent) agents
  then (report, m <| retry_after := Some (now + delivery_window (body m))%Z |>, SilentRewrite)
  else
    let last_sent_at := unwrap_or (last_sent_at m) (updated_at m) in
    let ended :=
      existsb (fun agent =>
        same_agent_card m agent
        && is_some_and (turn_ended_at agent) (fun ended_at => (last_sent_at <=? ended_at)%Z)) agents in
    if ended
    then (report, m, Finalize Status.Delivered
                       (Some (str "soft-compaction wrap-up settled after turn end")))
    else (report <| timed_out := (timed_out report + 1)%N |>, m,
          Finalize Status.TimedOut
            (Some (str "soft-compaction wrap-up unconfirmed; not resent"))).

(** The closure of [reconcile_stale_messages]. *)
Definition reconcile_update (agents : list AgentState) (pending_ingress : list (text * Z)) now
    (max_attempts : N) (report : ReconcileReport) (m : MessageRecord)
  : ReconcileReport * MessageRecord * MessageUpdate :=
  if bool_decide (soft_compact m = Some WrapUp) && is_open (status m) then
    let lease_start :=
      if decide (status m = Status.Claimed) then last_attempt_at m else Some (updated_at m) in
    if negb (claim_expired lease_start now) then (report, m, Keep)
    else (report, m, Finalize Status.Canceled
                       (Some (str "soft-compaction wrap-up was not sent; not retried")))
  else if expired m now then
    (report <| expired_count := (expired_count report + 1)%N |>, m,
     Finalize Status.Expired
       (Some (str "expired: automatic command not delivered within "
              ++ format_dwell (Z.to_N (as_secs command_validity)) ++ str " of queueing")))
  else
    match (if awaiting_registration m agents
           then ofilter (register_by m) (fun deadline => (deadline <=? now)%Z) else None) with
    | Some register_by =>
        let address :=
          unwrap_or (address m) (str "@" ++ unwrap_or (agent_name m) (agent_id m)) in
        (report <| expired_count := (expired_count report + 1)%N |>, m,
         Finalize Status.Expired
           (Some (str "expired: " ++ address ++ str " did not register by " ++ show_time register_by)))
    | None =>
        if bool_decide (status m = Status.Claimed) && claim_expired (last_attempt_at m) now then
          let reason := str "claim expired; sender gone" in
          let '(m, update) := fail_delivery m Retry reason now in
          match update with
          | Finalize _ _ => (report <| abandoned := (abandoned report + 1)%N |>, m, update)
          | _ => (report <| requeued := (requeued report + 1)%N |>, m,
                  Rewrite Method.Queued (Some reason))
          end
        else if negb (bool_decide (status m = Status.Sent)) then (report, m, Keep)
        else
          let! deadline := sent_reconcile_deadline m else (report, m, Keep) in
          if (now <? deadline)%Z then (report, m, Keep)
          else if bool_decide (soft_compact m = Some WrapUp)
          then settle_wrap_up m agents now report
          else if existsb (held_by_compaction m) agents
          then (report, m <| retry_after := Some (now + delivery_window (body m))%Z |>, SilentRewrite)
          else
            let last_sent_at := unwrap_or (last_sent_at m) (updated_at m) in
            let window := delivery_window (body m) in
            if existsb (fun '(source, ts) =>
                 bool_decide (source = kind m) && (last_sent_at <=? ts)%Z
                 && (ts <? last_sent_at + window)%Z) pending_ingress
            then (report <| held_on_ingress := (held_on_ingress report + 1)%N |>,
                  m <| retry_after := Some (now + window)%Z |>
                    <| last_error := Some (str "delivery held: hook drain is lagging behind the acknowledgement window") |>,
                  SilentRewrite)
            else if resends_unconfirmed (body m)
                    && existsb (fun agent =>
                         same_agent_card m agent
                         && is_some_and (resumed_at agent) (fun resumed_at =>
                              (resumed_at <=? last_sent_at)%Z
                              && (now <? resumed_at + window * PROVIDER_START_HOLD_WINDOWS)%Z)) agents
            then (report, m <| retry_after := Some (now + window)%Z |>, SilentRewrite)
            else if negb (resends_unconfirmed (body m))
            then (report <| timed_out := (timed_out report + 1)%N |>,
                  m <| last_error := Some (str "delivery unconfirmed; command not resent") |>,
                  Finalize Status.TimedOut (Some (str "reconcile")))
            else if (unconfirmed_sends m <? max_attempts)%N
            then (report <| requeued := (requeued report + 1)%N |>,
                  requeue (m <| unconfirmed_sends := saturating_add_u32 (unconfirmed_sends m) 1 |>
                             <| last_attempt_at := None |> <| retry_after := None |>)
                    now (str "delivery unconfirmed; re-queued"),
                  Rewrite Method.Queued (Some (str "reconcile")))
            else (report <| timed_out := (timed_out report + 1)%N |>,
                  m <| last_error := Some (str "delivery unconfirmed after " ++ show_N max_attempts
                                           ++ str " unconfirmed sends") |>,
                  Finalize Status.TimedOut (Some (str "reconcile")))
    end.
End Store.

(** ** The operations of the store *)

Inductive BlockerUpdate := Set_ (blocker : text) | ClearOwn (recognizes : text -> bool).
Inductive DeliveryAck := TurnStarted (prompt : option text) | Compaction.
Inductive DeliveryAckMatch := PromptCorrelated | OldestSentBatch.
Inductive BoundaryClaim := BoundaryClaimed (m : MessageRecord) | Parked (m : MessageRecord) (blocker : text).
Inductive ResumeAttempt := Started | Joined.
Inductive EditOutcome := Edited (m : MessageRecord) | NotOpen (st : MessageStatus) | NotFound.

(** [str::len] of a string of scalar values: its UTF-8 length. *)
Definition utf8_len (t : text) : N :=
  foldr (fun c n => (n + (if c <? 128 then 1 else if c <? 2048 then 2 else if c <? 65536 then 3 else 4))%N) 0%N t.

Module Store.
Section Ops.
Context `{Env} `{TimeDisplay} (w : World).
Implicit Types (s : MessageStore) (session : text) (now : Z).

Definition queued_event (m : MessageRecord) session : MessageEvent := message_event m session Method.Queued None.

Definition queue_message (m : MessageRecord) session s : option (unit * MessageStore) :=
  commit_queue w s (fun t => Some (tt, stage_event (upsert t m) (queued_event m session))).

Definition queue_message_once (m : MessageRecord) session s : option (unit * MessageStore) :=
  commit_queue w s (fun t =>
    if is_some (retained_status s (message_id m)) then Some (tt, t)
    else Some (tt, stage_event (upsert t m) (queued_event m session))).

(** Runs in the transaction of the lifecycle writer: no notices. *)
Definition rebind_queued_messages (predecessor : AgentState) (successor_ : text) session s
  : option MessageStore :=
  let! (_, t) :=
    apply_all (Txn.new s) session (clock w) (fun m =>
      if negb (bool_decide (status m = Status.Queued)) || negb (same_agent_card m predecessor)
      then (m, Keep)
      else (m <| Message.agent_id := successor_ |> <| agent_name := None |> <| updated_at := clock w |>,
            Rewrite Method.Edited (Some (str "compaction continuation changed session"))))
    else None in
  Some (finish w s t).

Definition queue_resuming_message (m : MessageRecord) session s
  : option (option (MessageRecord * ResumeAttempt) * MessageStore) :=
  commit_queue w s (fun t =>
    let agents := snapshot_agents w in
    if existsb (fun agent => is_none (ended_at agent) && same_agent_card m agent) agents
    then Some (None, t)
    else
      let now := clock w in
      let deadline :=
        min_of (map (fun waiting => ofilter (register_by waiting) (fun deadline => (now <? deadline)%Z))
                  (List.filter (fun waiting =>
                     same_card waiting (message_card_ref m) && awaiting_registration waiting agents)
                     (live t))) in
      let '(stored, attempt) :=
        match deadline with
        | Some deadline => (m <| register_by := Some deadline |>, Joined)
        | None => (m, Started)
        end in
      Some (Some (stored, attempt), stage_event (upsert t stored) (queued_event stored session))).

Definition queue_still_queued_notice (stalled : text) (notice : MessageRecord) session s
  : option (bool * MessageStore) :=
  commit_queue w s (fun t =>
    let now := clock w in
    let! (stamped, t) :=
      apply_all t session now (fun record =>
        if negb (with_id stalled record) || negb (bool_decide (status record = Status.Queued))
           || is_some (queued_notice_at record)
        then (record, Keep)
        else (record <| queued_notice_at := Some now |>, SilentRewrite)) else None in
    if is_empty stamped then Some (false, t)
    else Some (true, stage_event (upsert t notice) (queued_event notice session))).

Definition queue_claimed_message (m : MessageRecord) session now s : option (MessageRecord * MessageStore) :=
  commit_queue w s (fun t =>
    let! (claimed, t) := upsert_claimed t m now else None in
    Some (claimed, stage_event t (queued_event m session))).

Definition queue_tail_message (m : MessageRecord) session s : option (MessageRecord * MessageStore) :=
  commit_queue w s (fun t =>
    let! queued := at_tail t (fresh_id w 0) m else None in
    Some (queued, stage_event (upsert t queued) (queued_event queued session))).

Definition queue_boundary_message (m : MessageRecord) session now s : option (BoundaryClaim * MessageStore) :=
  commit_queue w s (fun t =>
    let blocker :=
      option_map message_id
        (fresh_boundary_blocker
           (List.filter (fun l => negb (with_id (message_id m) l)) (live t))
           (message_card_ref m) now) in
    let! queued := at_tail t (fresh_id w 0) m else None in
    let event := queued_event queued session in
    let t := t <| live := List.filter (fun l => negb (with_id (message_id m) l)) (live t) |> in
    match blocker with
    | Some blocker => Some (Parked queued blocker, stage_event (upsert t queued) event)
    | None =>
        let! (claimed, t) := upsert_claimed t queued now else None in
        Some (BoundaryClaimed claimed, stage_event t event)
    end).

Definition apply_delivery_sweep (updates : list DeliverySweepUpdate) now session s
  : option (unit * MessageStore) :=
  commit_queue w s (fun t =>
    let! (_, t) :=
      apply_all t session now (fun m =>
        if negb (bool_decide (status m = Status.Queued)) then (m, Keep)
        else
          let! update :=
            List.find (fun u => bool_decide (sweep_message_id u = message_id m)) (rev updates)
            else (m, Keep) in
          apply_sweep_update m update now) else None in
    Some (tt, t)).

Definition edit_message (id : text) (edit : MessageEdit) session s
  : option (EditOutcome * MessageStore) :=
  commit_queue w s (fun t =>
    match Txn.get t id with
    | None =>
        Some (match List.find (with_id id) (list_history s) with
              | Some m => NotOpen (status m)
              | None => NotFound
              end, t)
    | Some m =>
        if negb (bool_decide (status m = Status.Queued)) then Some (NotOpen (status m), t)
        else
          let m := apply_edit edit m <| retry_after := None |> <| updated_at := clock w |> in
          Some (Edited m,
                stage_event (upsert t m)
                  (message_event m session Method.Edited
                     (Some (join (str ", ") (changed_fields edit)))))
    end).

(** [messages] carry the pane and the batch of the write. *)
Fixpoint sent_loop (supplied : list MessageRecord) session (t : QueueTxn) : list MessageRecord * QueueTxn :=
  match supplied with
  | [] => ([], t)
  | sup :: supplied' =>
      match ofilter (Txn.get t (message_id sup)) (fun existing => negb (is_terminal (status existing))) with
      | None => sent_loop supplied' session t
      | Some m =>
          let m := m <| pane_id := pane_id sup |> <| batch_id := batch_id sup |>
                     <| status := Status.Sent |> <| last_sent_at := Some (clock w) |>
                     <| updated_at := clock w |> <| last_error := None |>
                     <| typing_hold := None |> in
          let '(sent, t) :=
            sent_loop supplied' session
              (stage_event (upsert t m) (message_event m session Method.Sent None)) in
          (m :: sent, t)
      end
  end.
Definition record_sent_batch (supplied : list MessageRecord) session s
  : option (list MessageRecord * MessageStore) :=
  commit_queue w s (fun t => Some (sent_loop supplied session t)).

Definition claim_delivery_batch (id : text) (agent_status : AgentStatus) now s
  : option (option (list MessageRecord) * MessageStore) :=
  let! (claimed, s) :=
    commit_queue w s (fun t =>
      match delivery_batch_indices (live t) id agent_status now with
      | None => Some (None, t)
      | Some indices =>
          let! (claimed, t) := claim_indices t indices now else None in
          Some (Some claimed, t)
      end) else None in
  match claimed with
  | None => Some (None, s)
  | Some claimed =>
      Some (Some (match claimed with
                  | first :: _ :: _ =>
                      map (fun m => m <| batch_id := Some (message_id first) |>) claimed
                  | _ => claimed
                  end), s)
  end.

Definition claim_message_for_steer (id : text) now s : option (option MessageRecord * MessageStore) :=
  commit_queue w s (fun t =>
    match position (fun m => with_id id m && bool_decide (status m = Status.Queued)) (live t) with
    | None => Some (None, t)
    | Some index =>
        let! m := live t !! index else None in
        if negb (claim_expired (last_attempt_at m) now) then Some (None, t)
        else
          let! (claimed, t) := claim_indices t [index] now else None in
          let! m := last claimed else None in
          Some (Some m, t)
    end).

Definition release_message_claims (held : list MessageRecord) (note : text) session s
  : option (list MessageRecord * MessageStore) :=
  commit_queue w s (fun t =>
    let now := clock w in
    apply_all t session now (fun m =>
      if negb (existsb (fun claim => holds claim m) held) then (m, Keep)
      else (requeue (m <| attempts := saturating_sub (attempts m) 1 |>
                       <| last_attempt_at := None |> <| retry_after := None |>
                       <| auto_compact := None |>) now note,
            Rewrite Method.Queued (Some note)))).

Definition hold_message_claims (held : list MessageRecord) (hold : TypingHold) (compacted : bool)
    session s : option (list MessageRecord * MessageStore) :=
  commit_queue w s (fun t =>
    let now := clock w in
    let note := str "someone is using the receiver's pane; retry at " ++ show_time (until hold) in
    apply_all t session now (fun m =>
      let! claim := List.find (fun claim => holds claim m) held else (m, Keep) in
      let m := requeue m now note in
      let m := m <| pane_id := pane_id claim |> <| attempts := saturating_sub (attempts m) 1 |>
                 <| last_attempt_at := None |> <| retry_after := Some (until hold) |>
                 <| typing_hold :=
                      Some (match typing_hold m with
                            | None => hold
                            | Some previous => with_replay hold (replay previous) (hold_force previous)
                            end) |> in
      let m := if compacted then m <| auto_compact := None |> else m in
      (m, Rewrite Method.Queued (Some note)))).

Definition record_typing_hold_replay (id : text) (r : TypingHoldReplay) (force_ : bool) session s
  : option (unit * MessageStore) :=
  commit_queue w s (fun t =>
    let! m := ofilter (Txn.get t id) (fun m => bool_decide (status m = Status.Queued))
      else Some (tt, t) in
    let! hold := typing_hold m else Some (tt, t) in
    let replayed := with_replay hold (Some r) force_ in
    if decide (replayed = hold) then Some (tt, t)
    else
      let m := m <| typing_hold := Some replayed |> <| updated_at := clock w |> in
      Some (tt, stage_event (upsert t m)
                  (message_event m session Method.Queued
                     (Some (str "live delivery requested while someone is using the receiver's pane"))))).

Definition defer_message_wake (id : text) (until_ : Z) (blocker : BlockerUpdate) s
  : option (unit * MessageStore) :=
  commit_queue w s (fun t =>
    let! m := ofilter (Txn.get t id) (fun m => bool_decide (status m = Status.Queued))
      else Some (tt, t) in
    let m := m <| retry_after := Some until_ |> in
    let m :=
      match blocker with
      | Set_ blocker => m <| last_error := Some blocker |>
      | ClearOwn recognizes =>
          if is_some_and (last_error m) recognizes then m <| last_error := None |> else m
      end in
    Some (tt, upsert t m)).

(** *** Acknowledgements *)

Definition oldest_sent_batch (live_ : list MessageRecord) (card : AgentCardRef) now (b : MessageBody)
  : list text :=
  let pool :=
    List.filter (fun m =>
      bool_decide (status m = Status.Sent) && bool_decide (body m = b) && same_card m card) live_ in
  let mate first m :=
    with_id (message_id first) m
    || (is_some (batch_id first) && bool_decide (batch_id m = batch_id first)) in
  let! oldest :=
    or_else (List.find (fun first =>
               negb (bool_decide (b = Prompt))
               || existsb (fun m => negb (sent_hold_expired m now) && mate first m) pool) pool)
            (head pool)
    else [] in
  map message_id (List.filter (mate oldest) pool).

Definition stray_parts (leading trailing : option text) : list text :=
  let part o side :=
    match o with
    | Some t => if is_empty t then [] else [show_N (utf8_len t) ++ str " stray bytes " ++ side]
    | None => []
    end in
  part leading (str "before") ++ part trailing (str "after").

(** The loop over [confirmable]: the first record whose batch aligns. *)
Fixpoint correlate (prompt : text) (confirmable firsts : list MessageRecord)
  : list text * option text :=
  match firsts with
  | [] => ([], None)
  | first :: firsts' =>
      let batch := List.filter (same_submitted_batch first) confirmable in
      match align_submitted_prompt prompt batch with
      | Some (leading, _, trailing) =>
          let parts := stray_parts leading trailing in
          (map message_id batch,
           if is_empty parts then None
           else Some (str "confirmed inside a mixed submit; " ++ join (str ", ") parts))
      | None => correlate prompt confirmable firsts'
      end
  end.

Definition select_acknowledged (live_ : list MessageRecord) (card : AgentCardRef) (ack : DeliveryAck)
    now : list text * option text * DeliveryAckMatch :=
  let oldest b := (oldest_sent_batch live_ card now b, None, OldestSentBatch) in
  match ack with
  | TurnStarted (Some prompt) =>
      if is_empty (trim prompt) then oldest Prompt
      else
        let confirmable :=
          List.filter (fun m =>
            bool_decide (body m = Prompt) && same_card m card && in_flight m) live_ in
        let '(ids, reason) := correlate prompt confirmable confirmable in
        (ids, reason, PromptCorrelated)
  | TurnStarted None => oldest Prompt
  | Compaction => oldest Command
  end.

(** [confirm_delivered_for_card_with]; its [before_commit] callback observes
    the selected records and cannot change the queue. *)
Definition confirm_delivered_for_card (card : AgentCardRef) (ack : DeliveryAck) session s
  : option (list MessageRecord * MessageStore) :=
  commit_queue w s (fun t =>
    let now := clock w in
    let '(ids, reason, _) := select_acknowledged (live t) card ack now in
    if is_empty ids then Some ([], t)
    else
      apply_all t session now (fun m =>
        if negb (bool_decide (message_id m ∈ ids)) then (m, Keep)
        else (m, Finalize Status.Delivered reason))).

Definition mark_message_timed_out (id : text) session (reason : option text) s
  : option (option MessageRecord * MessageStore) :=
  commit_queue w s (fun t =>
    let! m := ofilter (Txn.get t id) (fun m => bool_decide (status m = Status.Sent))
      else Some (None, t) in
    let reason := unwrap_or reason (str "delivery window elapsed") in
    let! (m, t) :=
      terminalize t (m <| last_error := Some reason |>) Status.TimedOut session (Some reason) (clock w)
      else None in
    Some (Some m, t)).

Definition reconcile_stale_messages session now (max_attempts : N) s
  : option (ReconcileReport * MessageStore) :=
  commit_queue w s (fun t =>
    let stale_sent :=
      existsb (fun m =>
        bool_decide (status m = Status.Sent)
        && is_some_and (sent_reconcile_deadline m) (fun deadline => (deadline <=? now)%Z)) (live t) in
    let registration_due :=
      existsb (fun m =>
        bool_decide (status m = Status.Queued)
        && is_some_and (register_by m) (fun deadline => (deadline <=? now)%Z)) (live t) in
    let agents := if stale_sent || registration_due then snapshot_agents w else [] in
    let pending := if stale_sent then pending_ingress w else [] in
    let! (report, updated, t) :=
      apply_all_with (reconcile_update agents pending now max_attempts) session now
        {| held_on_ingress := 0; requeued := 0; timed_out := 0; abandoned := 0; expired_count := 0 |} t
      else None in
    Some (report, if is_empty updated then t else force_publish t)).

(** *** Failures *)

Definition record_send_error (held : MessageRecord) (error : text) session s
  : option (option MessageRecord * MessageStore) :=
  commit_queue w s (fun t =>
    let! existing := ofilter (Txn.get t (message_id held)) (holds held) else Some (None, t) in
    let m := existing <| pane_id := pane_id held |> <| last_error := Some error |> in
    let! (errored, t) := terminalize t m Status.Errored session (Some error) (clock w) else None in
    Some (Some errored, t)).

Definition record_message_delivery_failures (held : list MessageRecord)
    (disposition : DeliveryFailureDisposition) (error : text) session s
  : option (bool * MessageStore) :=
  commit_queue w s (fun t =>
    let! first := head held else Some (false, t) in
    let! (head_sent, _, t) :=
      apply_all_with (fun head_sent m =>
        let head_sent :=
          if with_id (message_id first) m then bool_decide (status m = Status.Sent) else head_sent in
        if negb (existsb (fun claim => holds claim m) held) then (head_sent, m, Keep)
        else let '(m, u) := fail_delivery m disposition error (clock w) in (head_sent, m, u))
        session (clock w) false t else None in
    Some (head_sent, t)).

Definition record_unheld_delivery_miss (id : text) (disposition : DeliveryFailureDisposition)
    (error : text) session s : option (bool * MessageStore) :=
  commit_queue w s (fun t =>
    let! (head_sent, _, t) :=
      apply_all_with (fun head_sent m =>
        if negb (with_id id m) then (head_sent, m, Keep)
        else
          let head_sent := bool_decide (status m = Status.Sent) in
          if negb (bool_decide (status m = Status.Queued)) then (head_sent, m, Keep)
          else if bool_decide (soft_compact m = Some WrapUp) && bool_decide (disposition = Terminal)
          then (head_sent, m <| last_error := Some error |>, Finalize Status.Canceled (Some error))
          else let '(m, u) := fail_delivery m disposition error (clock w) in (head_sent, m, u))
        session (clock w) false t else None in
    Some (head_sent, t)).

(** *** Withdrawals *)

Definition cancel_where (may : MessageStatus -> bool) (id : text) session (reason : text) s
  : option (bool * MessageStore) :=
  commit_queue w s (fun t =>
    let! m := ofilter (Txn.get t id) (fun m => may (status m)) else Some (false, t) in
    let! (_, t) := terminalize t m Status.Canceled session (Some reason) (clock w) else None in
    Some (true, t)).
Definition cancel_message := cancel_where is_open.
Definition retire_message := cancel_where (fun st => negb (is_terminal st)).

Definition clear_messages_matching (select : MessageRecord -> bool) session s
  : option (list MessageRecord * MessageStore) :=
  commit_queue w s (fun t =>
    finalize_matching t w Status.Canceled session (str "clear")
      (fun m => is_open (status m) && select m)).
Definition clear_messages_for (card : AgentCardRef) :=
  clear_messages_matching (fun m => same_card m card).
Definition clear_channel_messages (channel_ : text) :=
  clear_messages_matching (fun m => bool_decide (channel m = Some channel_)).

Definition archive_orphan_messages session s : option (nat * MessageStore) :=
  let live_agents := snapshot_agents w in
  let! (archived, s) :=
    commit_queue w s (fun t =>
      let! (archived, t) :=
        apply_all t session (clock w) (fun m =>
          if negb (is_open (status m)) then (m, Keep)
          else
            let reason :=
              if negb (existsb (same_agent_card m) live_agents) then Some (str "receiver ended")
              else if bool_decide (status m = Status.Queued) then
                option_map expiry_reason
                  (List.find (fun c =>
                     negb (existsb (fun agent => matches (when_card_ref c) (card_ref agent)) live_agents))
                     (List.filter (fun c => is_none (when_met_at c)) (when_ m)))
              else None in
            let! reason := reason else (m, Keep) in
            (m, Finalize Status.Archived (Some reason))) else None in
      Some (archived, if is_empty archived then t else force_publish t)) else None in
  Some (length archived, s).

Definition archive_matching (reason : text) session (select : MessageRecord -> bool) s
  : option (nat * MessageStore) :=
  let! (archived, s) :=
    commit_queue w s (fun t =>
      finalize_matching t w Status.Archived session reason
        (fun m => is_open (status m) && select m)) else None in
  Some (length archived, s).
Definition archive_messages_for_card (card : AgentCardRef) (enqueued_through : option Z)
    (reason : text) session :=
  archive_matching reason session (fun m =>
    same_card m card && is_none_or enqueued_through (fun end_ => (enqueued_at m <=? end_)%Z)).
Definition archive_channel_messages (channel_ : text) (reason : text) session :=
  archive_matching reason session (fun m => bool_decide (channel m = Some channel_)).

Definition archive_messages_watching_card (card : AgentCardRef) (enqueued_through : option Z)
    session s : option (nat * MessageStore) :=
  let! (archived, s) :=
    commit_queue w s (fun t =>
      apply_all t session (clock w) (fun m =>
        if negb (bool_decide (status m = Status.Queued))
           || is_some_and enqueued_through (fun end_ => (end_ <? enqueued_at m)%Z)
        then (m, Keep)
        else
          let! condition :=
            List.find (fun c => is_none (when_met_at c) && matches (when_card_ref c) card) (when_ m)
            else (m, Keep) in
          (m, Finalize Status.Archived (Some (expiry_reason condition))))) else None in
  Some (length archived, s).

Definition message_claims_held (held : list MessageRecord) s : bool :=
  forallb (fun claim => existsb (holds claim) (sort_messages (messages s))) held.
Definition list_pending_messages s : list MessageRecord :=
  List.filter (fun m => bool_decide (status m = Status.Queued)) (sort_messages (messages s)).
End Ops.
End Store.

(** ** Operations as data *)

Inductive QueueOp :=
| QueueMessage (m : MessageRecord) (session : text)
| QueueMessageOnce (m : MessageRecord) (session : text)
| RebindQueued (predecessor : AgentState) (successor_ : text) (session : text)
| QueueResuming (m : MessageRecord) (session : text)
| QueueStillQueuedNotice (stalled : text) (notice : MessageRecord) (session : text)
| QueueClaimed (m : MessageRecord) (session : text) (now : Z)
| QueueTail (m : MessageRecord) (session : text)
| QueueBoundary (m : MessageRecord) (session : text) (now : Z)
| DeliverySweep (updates : list DeliverySweepUpdate) (now : Z) (session : text)
| EditMessage (id : text) (edit : MessageEdit) (session : text)
| RecordSentBatch (supplied : list MessageRecord) (session : text)
| ClaimDeliveryBatch (id : text) (agent_status : AgentStatus) (now : Z)
| ClaimForSteer (id : text) (now : Z)
| ReleaseClaims (held : list MessageRecord) (note session : text)
| HoldClaims (held : list MessageRecord) (hold : TypingHold) (compacted : bool) (session : text)
| TypingHoldReplayed (id : text) (r : TypingHoldReplay) (force_ : bool) (session : text)
| DeferWake (id : text) (until_ : Z) (blocker : BlockerUpdate)
| ConfirmDelivered (card : AgentCardRef) (ack : DeliveryAck) (session : text)
| MarkTimedOut (id session : text) (reason : option text)
| ReconcileStale (session : text) (now : Z) (max_attempts : N)
| SendError (held : MessageRecord) (error session : text)
| DeliveryFailures (held : list MessageRecord) (disposition : DeliveryFailureDisposition) (error session : text)
| UnheldDeliveryMiss (id : text) (disposition : DeliveryFailureDisposition) (error session : text)
| CancelMessage (id session reason : text)
| RetireMessage (id session reason : text)
| ClearMatching (select : MessageRecord -> bool) (session : text)
| ArchiveOrphans (session : text)
| ArchiveMatching (reason session : text) (select : MessageRecord -> bool)
| ArchiveWatching (card : AgentCardRef) (enqueued_through : option Z) (session : text)
| RearmWake (now : Z).

Definition run `{Env} `{TimeDisplay} (w : World) (op : QueueOp) (s : MessageStore) : option MessageStore :=
  match op with
  | QueueMessage m session => option_map snd (Store.queue_message w m session s)
  | QueueMessageOnce m session => option_map snd (Store.queue_message_once w m session s)
  | RebindQueued predecessor successor_ session =>
      Store.rebind_queued_messages w predecessor successor_ session s
  | QueueResuming m session => option_map snd (Store.queue_resuming_message w m session s)
  | QueueStillQueuedNotice stalled notice session =>
      option_map snd (Store.queue_still_queued_notice w stalled notice session s)
  | QueueClaimed m session now => option_map snd (Store.queue_claimed_message w m session now s)
  | QueueTail m session => option_map snd (Store.queue_tail_message w m session s)
  | QueueBoundary m session now => option_map snd (Store.queue_boundary_message w m session now s)
  | DeliverySweep updates now session => option_map snd (Store.apply_delivery_sweep w updates now session s)
  | EditMessage id edit session => option_map snd (Store.edit_message w id edit session s)
  | RecordSentBatch supplied session => option_map snd (Store.record_sent_batch w supplied session s)
  | ClaimDeliveryBatch id st now => option_map snd (Store.claim_delivery_batch w id st now s)
  | ClaimForSteer id now => option_map snd (Store.claim_message_for_steer w id now s)
  | ReleaseClaims held note session => option_map snd (Store.release_message_claims w held note session s)
  | HoldClaims held hold compacted session =>
      option_map snd (Store.hold_message_claims w held hold compacted session s)
  | TypingHoldReplayed id r force_ session =>
      option_map snd (Store.record_typing_hold_replay w id r force_ session s)
  | DeferWake id until_ blocker => option_map snd (Store.defer_message_wake w id until_ blocker s)
  | ConfirmDelivered card ack session =>
      option_map snd (Store.confirm_delivered_for_card w card ack session s)
  | MarkTimedOut id session reason => option_map snd (Store.mark_message_timed_out w id session reason s)
  | ReconcileStale session now max_attempts =>
      option_map snd (Store.reconcile_stale_messages w session now max_attempts s)
  | SendError held error session => option_map snd (Store.record_send_error w held error session s)
  | DeliveryFailures held disposition error session =>
      option_map snd (Store.record_message_delivery_failures w held disposition error session s)
  | UnheldDeliveryMiss id disposition error session =>
      option_map snd (Store.record_unheld_delivery_miss w id disposition error session s)
  | CancelMessage id session reason => option_map snd (Store.cancel_message w id session reason s)
  | RetireMessage id session reason => option_map snd (Store.retire_message w id session reason s)
  | ClearMatching select session => option_map snd (Store.clear_messages_matching w select session s)
  | ArchiveOrphans session => option_map snd (Store.archive_orphan_messages w session s)
  | ArchiveMatching reason session select =>
      option_map snd (Store.archive_matching w reason session select s)
  | ArchiveWatching card enqueued_through session =>
      option_map snd (Store.archive_messages_watching_card w card enqueued_through session s)
  | RearmWake now => Some (rearm_message_wake w s now)
  end.

(** The record an operation takes in, the ids it may insert (the tail
    operations compute theirs), and the id it may refile. *)
Definition taken (op : QueueOp) : option MessageRecord :=
  match op with
  | QueueMessage m _ | QueueMessageOnce m _ | QueueResuming m _ | QueueStillQueuedNotice _ m _
  | QueueClaimed m _ _ | QueueTail m _ | QueueBoundary m _ _ => Some m
  | _ => None
  end.
Definition inserts (w : World) (op : QueueOp) (s : MessageStore) : list text :=
  match op with
  | QueueTail m _ | QueueBoundary m _ _ =>
      match at_tail (Txn.new s) (fresh_id w 0) m with Some q => [message_id q] | None => [] end
  | _ => match taken op with Some m => [message_id m] | None => [] end
  end.
Definition refiles (op : QueueOp) : list text :=
  match op with QueueBoundary m _ _ => [message_id m] | _ => [] end.
