(* ===== verification/QueueFacts.v ===== *)
(** * Facts of the message queue

    The invariants of a queue transaction and what every operation of
    [Queue.v] promises: the store stays valid, nothing live is lost, nothing
    closed comes back, claims are exclusive, acknowledgements close exactly
    the batch that was pasted, and reconciliation is bounded. *)

From S2P Require Import Prelude Ids Lifecycle Agents.
Import Agent ShortId.
From S2P Require Import Message Prompt Queue.
Import Txn.

Definition ids (l : list MessageRecord) : list text := map message_id l.

Lemma elem_of_ids id l : id ∈ ids l <-> exists m, message_id m = id /\ m ∈ l.
Proof.
  unfold ids. rewrite list_elem_of_In, in_map_iff. by setoid_rewrite list_elem_of_In.
Qed.

Lemma ids_inj l a b : NoDup (ids l) -> a ∈ l -> b ∈ l -> message_id a = message_id b -> a = b.
Proof.
  induction l as [|x l IH]; cbn; [by intros _ ?%elem_of_nil|]. rewrite NoDup_cons, !elem_of_cons.
  intros [Hx Hl] [->|Ha] [->|Hb] E; auto; exfalso; apply Hx, elem_of_ids; eauto.
Qed.

(** What a record keeps for life: everything its sender set, save the
    delivery settings and the receiver, with its text unless [edited]. *)
Definition origin (edited : list text) (m : MessageRecord) :=
  (message_id m, workspace_id m, in_reply_to m, about_run m, sender m, automated m, reply_wait m,
   body m, enqueued_at m, if decide (message_id m ∈ edited) then [] else msg_text m).

Definition same_message (edited : list text) (m' m : MessageRecord) : Prop :=
  origin edited m' = origin edited m.

Lemma same_id edited m' m : same_message edited m' m -> message_id m' = message_id m.
Proof. unfold same_message, origin. congruence. Qed.

#[export] Instance same_message_equiv edited : Equivalence (same_message edited).
Proof. split; unfold same_message; [by intros ?|by intros ???|by intros ??? -> ->]. Qed.

(** ** The transaction invariant

    [base] is the queue at the start of the transaction, [ins] the ids the
    operation may insert, [moved] the ids it may refile under another id,
    [edited] the ids whose text it may change. *)
Section Inv.
Context (base : list MessageRecord) (ins moved edited : list text).
Implicit Types (l c : list MessageRecord) (e : list MessageEvent).

Record parts_ok l c e (changed : bool) : Prop := {
  po_nodup : NoDup (ids l);
  po_open : Forall (fun m => is_terminal (status m) = false) l;
  po_closed : Forall (fun m => is_terminal (status m) = true) c;
  po_logged : forall m, m ∈ c -> exists ev, ev ∈ e /\ event_record ev = m
                /\ for_terminal_status (status m) = Some (event_method ev);
  po_kept : forall m, m ∈ base ->
    (exists m', m' ∈ l ++ c /\ same_message edited m' m) \/ message_id m ∈ moved ++ ins;
  po_origin : forall id, id ∈ ids l -> id ∈ ids base \/ id ∈ ins;
  po_disjoint : forall id, id ∈ ids c -> id ∈ ids l -> id ∈ ins;
  po_closed_base : forall id, id ∈ ids c -> id ∈ ids base;
  po_clean : changed = false -> l = base
}.

Lemma ids_mid a m b : ids (a ++ m :: b) = ids a ++ message_id m :: ids b.
Proof. unfold ids. by rewrite map_app. Qed.

Lemma parts_init :
  NoDup (ids base) -> Forall (fun m => is_terminal (status m) = false) base ->
  parts_ok base [] [] false.
Proof.
  split; try done; try (by intros ? ?%elem_of_nil); [|by left].
  intros m Hm. left. exists m. split; [rewrite elem_of_app; auto|done].
Qed.

(** A step keeps what it carries over. *)
Lemma kept_step l c l' c' m :
  (exists x, x ∈ l ++ c /\ same_message edited x m) \/ message_id m ∈ moved ++ ins ->
  (forall x, x ∈ l ++ c ->
     (exists y, y ∈ l' ++ c' /\ same_message edited y x) \/ message_id x ∈ moved ++ ins) ->
  (exists x, x ∈ l' ++ c' /\ same_message edited x m) \/ message_id m ∈ moved ++ ins.
Proof.
  intros [(x & Hx & Hs)|?] Hstep; [|by right].
  destruct (Hstep x Hx) as [(y & ? & ?)|?].
  - left. exists y. split; [done|]. by etrans.
  - right. by rewrite <-(same_id _ _ _ Hs).
Qed.

Lemma parts_event l c e ch ev : parts_ok l c e ch -> parts_ok l c (e ++ [ev]) ch.
Proof.
  intros []. split; try done. intros m Hm. destruct (po_logged0 m Hm) as (ev' & ? & ? & ?).
  exists ev'. rewrite elem_of_app. auto.
Qed.

Lemma parts_change l c e ch : parts_ok l c e ch -> parts_ok l c e true.
Proof. intros []. by split. Qed.

Lemma parts_replace a m m' b c e ch :
  parts_ok (a ++ m :: b) c e ch -> message_id m' = message_id m ->
  same_message edited m' m \/ message_id m ∈ ins ->
  is_terminal (status m') = false -> parts_ok (a ++ m' :: b) c e true.
Proof.
  intros [] Hid Hsame Hopen.
  assert (E : ids (a ++ m' :: b) = ids (a ++ m :: b)) by by rewrite !ids_mid, Hid.
  split; rewrite ?E; try done.
  - apply Forall_app in po_open0 as [? [_ ?]%Forall_cons]. apply Forall_app. by repeat constructor.
  - intros x Hx. eapply kept_step; [by apply po_kept0|]. intros y Hy.
    rewrite !elem_of_app, elem_of_cons in Hy.
    destruct (decide (y = m)) as [->|Hne].
    + destruct Hsame as [?|?]; [left|right; rewrite elem_of_app; by right].
      exists m'. split; [|done]. rewrite !elem_of_app, elem_of_cons. auto.
    + left. exists y. split; [|done]. rewrite !elem_of_app, elem_of_cons. naive_solver.
Qed.

Lemma parts_close a m m' b c e ch session reason k :
  parts_ok (a ++ m :: b) c e ch -> same_message edited m' m ->
  for_terminal_status (status m') = Some k -> message_id m ∉ ins ->
  parts_ok (a ++ b) (c ++ [m']) (e ++ [message_event m' session k reason]) true.
Proof.
  intros [] Hsame Hk Hins. pose proof (same_id _ _ _ Hsame) as Hid. rewrite ids_mid in *.
  assert (E : ids (a ++ b) = ids a ++ ids b) by apply map_app.
  assert (Ec : ids (c ++ [m']) = ids c ++ [message_id m]).
  { unfold ids. rewrite map_app. simpl. by rewrite Hid. }
  apply Forall_app in po_open0 as [Ha [_ Hb]%Forall_cons].
  apply NoDup_app in po_nodup0 as (Hna & Hd & [Hni Hnb]%NoDup_cons).
  split; rewrite ?E, ?Ec; try done.
  - apply NoDup_app. split_and!; [done| |done]. intros x Hx Hx'. apply (Hd x Hx). by right.
  - by apply Forall_app.
  - apply Forall_app. split; [done|]. constructor; [|done]. by destruct (status m').
  - intros x. rewrite elem_of_app, list_elem_of_singleton. intros [Hx| ->].
    + destruct (po_logged0 x Hx) as (ev & ? & ? & ?). exists ev. rewrite elem_of_app. auto.
    + eexists. rewrite elem_of_app, list_elem_of_singleton. by split; [right|].
  - intros x Hx. eapply kept_step; [by apply po_kept0|]. intros y Hy. left.
    rewrite !elem_of_app, elem_of_cons in Hy.
    destruct (decide (y = m)) as [->|Hne]; [exists m'|exists y]; (split; [|done]);
      rewrite !elem_of_app, list_elem_of_singleton; naive_solver.
  - intros id Hid'. apply po_origin0. rewrite elem_of_app, elem_of_cons in *. naive_solver.
  - intros id. rewrite elem_of_app, list_elem_of_singleton. intros [Hc| ->] Hl.
    + apply po_disjoint0; [done|]. rewrite elem_of_app, elem_of_cons in *. naive_solver.
    + exfalso. apply elem_of_app in Hl as [Hl|Hl]; [|done]. apply (Hd _ Hl). by left.
  - intros id. rewrite elem_of_app, list_elem_of_singleton. intros [Hc| ->]; [auto|].
    destruct (po_origin0 (message_id m)); [|done|done]. rewrite elem_of_app. right. by left.
Qed.

Lemma parts_insert l c e ch m :
  parts_ok l c e ch -> is_terminal (status m) = false -> message_id m ∉ ids l ->
  message_id m ∈ ins -> parts_ok (l ++ [m]) c e true.
Proof.
  intros [] Hopen Hfresh Hins.
  assert (E : ids (l ++ [m]) = ids l ++ [message_id m]) by apply map_app.
  split; rewrite ?E; try done.
  - apply NoDup_app. split_and!; [done| |by apply NoDup_singleton].
    intros x Hx ->%list_elem_of_singleton. done.
  - apply Forall_app. by repeat constructor.
  - intros x Hx. eapply kept_step; [by apply po_kept0|]. intros y Hy. left. exists y.
    split; [|done]. rewrite !elem_of_app in *. naive_solver.
  - intros id. rewrite elem_of_app, list_elem_of_singleton. intros [?| ->]; auto.
  - intros id Hc. rewrite elem_of_app, list_elem_of_singleton. intros [?| ->]; auto.
Qed.

Lemma NoDup_ids_filter (f : MessageRecord -> bool) l : NoDup (ids l) -> NoDup (ids (List.filter f l)).
Proof.
  induction l as [|m l IH]; simpl; [done|]. rewrite NoDup_cons. intros [Hm Hl].
  destruct (f m); [|auto]. simpl. apply NoDup_cons. split; [|auto].
  rewrite elem_of_ids in *. intros (x & ? & [_ ?]%elem_of_filter_bool). eauto.
Qed.

Lemma parts_drop l c e ch id :
  parts_ok l c e ch -> id ∈ moved ->
  parts_ok (List.filter (fun m => negb (with_id id m)) l) c e true.
Proof.
  intros [] Hid.
  assert (Hsub : forall x, x ∈ ids (List.filter (fun m => negb (with_id id m)) l) -> x ∈ ids l).
  { intros x. rewrite !elem_of_ids. intros (m & ? & [_ ?]%elem_of_filter_bool). eauto. }
  split; try done; auto.
  - by apply NoDup_ids_filter.
  - apply Forall_forall. intros m [_ Hm]%elem_of_filter_bool. rewrite Forall_forall in po_open0. auto.
  - intros x Hx. eapply kept_step; [by apply po_kept0|]. intros y Hy.
    destruct (decide (message_id y = id)) as [->|Hne]; [right; rewrite elem_of_app; by left|].
    left. exists y. split; [|done]. rewrite elem_of_app in *. destruct Hy as [Hy|?]; [left|by right].
    apply elem_of_filter_bool. unfold with_id. by rewrite bool_decide_eq_false_2.
Qed.

Definition txn_inv (t : QueueTxn) : Prop :=
  parts_ok (live t) (closed_rows t) (staged t) (live_changed t).
End Inv.

(** ** The steps of a transaction *)

Lemma normalize_terminal_status m st now reason : status (normalize_terminal m st now reason) = st.
Proof.
  unfold normalize_terminal. destruct (_ || _ || _), reason; cbn; destruct (decide _); done.
Qed.
Lemma normalize_terminal_same edited m st now reason :
  same_message edited (normalize_terminal m st now reason) m.
Proof.
  unfold normalize_terminal.
  destruct (_ || _ || _), reason; cbn; destruct (decide _); done.
Qed.

Lemma normalize_terminal_id m st now reason :
  message_id (normalize_terminal m st now reason) = message_id m.
Proof. eapply (same_id []), normalize_terminal_same. Qed.

Lemma with_id_true id m : with_id id m = true <-> message_id m = id.
Proof. apply bool_decide_eq_true. Qed.

Lemma replace_or_push_spec m l :
  (exists a x b, l = a ++ x :: b /\ message_id m = message_id x /\ replace_or_push m l = a ++ m :: b)
  \/ (message_id m ∉ ids l /\ replace_or_push m l = l ++ [m]).
Proof.
  induction l as [|x l IH]; cbn [replace_or_push].
  - right. split; [apply not_elem_of_nil|done].
  - destruct (with_id (message_id m) x) eqn:E.
    + left. exists [], x, l. apply with_id_true in E. done.
    + destruct IH as [(a & y & b & -> & Hid & ->)|[Hn ->]].
      * left. by exists (x :: a), y, b.
      * right. split; [|done]. cbn. apply not_elem_of_cons. split; [|done].
        unfold with_id in E. apply bool_decide_eq_false in E. congruence.
Qed.

Lemma get_spec t id m : Txn.get t id = Some m -> message_id m = id /\ m ∈ live t.
Proof.
  unfold Txn.get. intros H. apply find_some in H as [H1 H2%with_id_true].
  by apply list_elem_of_In in H1.
Qed.
Lemma get_None t id : Txn.get t id = None <-> id ∉ ids (live t).
Proof.
  unfold Txn.get. rewrite elem_of_ids. split.
  - intros H (m & Hid & Hm%list_elem_of_In). apply (find_none _ _ H) in Hm.
    unfold with_id in Hm. by apply bool_decide_eq_false in Hm.
  - intros H. destruct (List.find _ _) as [m|] eqn:E; [|done].
    apply find_some in E as [H1%list_elem_of_In H2%with_id_true]. destruct H. eauto.
Qed.

Section TxnInv.
Context (base : list MessageRecord) (ins moved edited : list text).
#[local] Abbreviation parts_ok := (parts_ok base ins moved edited).
#[local] Abbreviation txn_inv := (txn_inv base ins moved edited).

(** A record that may be written: one filed under an inserted id, or the new
    version of a live one. *)
Definition writable (l : list MessageRecord) (m : MessageRecord) : Prop :=
  message_id m ∈ ins \/ exists x, x ∈ l /\ same_message edited m x.

Lemma inv_stage_event t ev : txn_inv t -> txn_inv (stage_event t ev).
Proof. apply parts_event. Qed.

Lemma parts_upsert l c e ch m :
  parts_ok l c e ch -> is_terminal (status m) = false -> writable l m ->
  parts_ok (replace_or_push m l) c e true.
Proof.
  intros Hp Hopen Hw.
  destruct (replace_or_push_spec m l) as [(a & x & b & -> & Hx & ->)|[Hn ->]].
  - eapply parts_replace; [done..| |done].
    destruct Hw as [?|(y & Hy & Hs)]; [right; by rewrite <-Hx|left].
    rewrite (ids_inj (a ++ x :: b) x y); [done|by destruct Hp| |done|].
    + rewrite elem_of_app, elem_of_cons. auto.
    + rewrite <-Hx. by apply same_id in Hs.
  - eapply parts_insert; [done..|]. destruct Hw as [?|(y & Hy & Hs)]; [done|].
    destruct Hn. apply elem_of_ids. exists y. split; [|done]. by apply same_id in Hs.
Qed.
Lemma inv_upsert t m :
  txn_inv t -> is_terminal (status m) = false -> writable (live t) m -> txn_inv (upsert t m).
Proof. apply parts_upsert. Qed.

(** Filing a record under an inserted id, with its event. *)
Lemma inv_file t m ev :
  txn_inv t -> is_terminal (status m) = false -> message_id m ∈ ins ->
  txn_inv (stage_event (upsert t m) ev).
Proof. intros. apply inv_stage_event, inv_upsert; [done..|by left]. Qed.

Lemma claim_loop_spec l indices now c e ch :
  parts_ok l c e ch -> Forall (fun i => i < length l) indices ->
  exists l' claimed, claim_loop l indices now = Some (l', claimed)
    /\ parts_ok l' c e (ch || negb (is_empty claimed))
    /\ length claimed = length indices /\ ids l' = ids l.
Proof.
  revert l ch. induction indices as [|i indices IH]; intros l ch Hp Hall; cbn [claim_loop].
  { exists l, []. by rewrite orb_false_r. }
  apply Forall_cons in Hall as [Hi Hall].
  destruct (lookup_lt_is_Some_2 l i Hi) as [m Hm]. rewrite Hm.
  pose proof (take_drop_middle l i m Hm) as Hl.
  assert (Hins : <[i:=claim_record m now]> l = take i l ++ claim_record m now :: drop (S i) l)
    by by apply insert_take_drop.
  assert (Hp' : parts_ok (<[i:=claim_record m now]> l) c e true).
  { rewrite Hins. eapply parts_replace; [by rewrite Hl|done|by left|done]. }
  destruct (IH _ true Hp') as (l' & claimed & -> & Hp'' & Hlen & Hids).
  { by rewrite length_insert. }
  eexists l', _. split_and!; [done|by rewrite orb_true_r|cbn; lia|].
  rewrite Hids, Hins. rewrite <-Hl at 3. by rewrite !ids_mid.
Qed.
Lemma inv_claim_indices t indices now :
  txn_inv t -> Forall (fun i => i < length (live t)) indices ->
  exists claimed t', claim_indices t indices now = Some (claimed, t') /\ txn_inv t'
    /\ length claimed = length indices /\ ids (live t') = ids (live t).
Proof.
  intros Ht Hall. unfold claim_indices.
  destruct (claim_loop_spec _ _ now _ _ _ Ht Hall) as (l' & claimed & -> & ? & ? & ?).
  by eexists _, _.
Qed.

Lemma inv_upsert_claimed t m now :
  parts_ok (live t) (closed_rows t) (staged t) true -> is_terminal (status m) = false ->
  writable (live t) m ->
  exists m' t', upsert_claimed t m now = Some (m', t') /\ txn_inv t'.
Proof.
  intros Ht Hopen Hid.
  assert (Hu : txn_inv (upsert t m)) by by eapply parts_upsert.
  unfold upsert_claimed.
  destruct (position (with_id (message_id m)) (live (upsert t m))) as [i|] eqn:Ep.
  - apply position_Some in Ep as (x & Hx & _ & _).
    destruct (inv_claim_indices (upsert t m) [i] now Hu) as (cl & t' & -> & ? & Hlen & _).
    { constructor; [|done]. by eapply lookup_lt_Some. }
    destruct cl as [|y [|]]; try done. cbn. by eexists _, _.
  - exfalso. assert (Hin : m ∈ live (upsert t m)).
    { cbn. destruct (replace_or_push_spec m (live t)) as [(a & x & b & _ & _ & ->)|[_ ->]];
        rewrite elem_of_app, elem_of_cons; auto. }
    apply (proj1 (position_None _ _) Ep) in Hin. unfold with_id in Hin.
    by rewrite bool_decide_eq_true_2 in Hin.
Qed.

Lemma close_eq t m st session reason now k :
  for_terminal_status st = Some k ->
  exists t', close t m st session reason now = Some (normalize_terminal m st now reason, t')
    /\ live t' = live t /\ live_changed t' = live_changed t
    /\ closed_rows t' = closed_rows t ++ [normalize_terminal m st now reason]
    /\ staged t' = staged t ++ [message_event (normalize_terminal m st now reason) session k reason]
    /\ undelivered t' = undelivered t ++
         (if wants_undelivered_notice (normalize_terminal m st now reason)
          then [(normalize_terminal m st now reason, reason, session)] else []).
Proof.
  intros Hk. unfold close. rewrite Hk. eexists. split; [done|].
  destruct (wants_undelivered_notice _); cbn; by rewrite ?app_nil_r.
Qed.

Lemma terminal_method st : is_terminal st = true -> exists k, for_terminal_status st = Some k.
Proof. destruct st; try done; by eexists. Qed.

Lemma inv_close a m m' b t st session reason now :
  parts_ok (a ++ m :: b) (closed_rows t) (staged t) (live_changed t) ->
  live t = a ++ b -> live_changed t = true -> same_message edited m' m ->
  message_id m ∉ ins -> is_terminal st = true ->
  exists t', close t m' st session reason now = Some (normalize_terminal m' st now reason, t')
             /\ live t' = a ++ b /\ txn_inv t'.
Proof.
  intros Hp Hl Hch Hsame Hins [k Hk]%terminal_method.
  destruct (close_eq t m' st session reason now k Hk) as (t' & -> & Hl' & Hc' & Hcl & Hst & _).
  exists t'. split; [done|]. split; [congruence|]. unfold QueueFacts.txn_inv.
  rewrite Hl', Hc', Hcl, Hst, Hl, Hch.
  eapply parts_close; [done| | |done].
  - etrans; [apply normalize_terminal_same|done].
  - by rewrite normalize_terminal_status.
Qed.

Lemma inv_terminalize t m st session reason now :
  txn_inv t -> (exists x, x ∈ live t /\ same_message edited m x) -> message_id m ∉ ins ->
  is_terminal st = true ->
  exists t', terminalize t m st session reason now = Some (normalize_terminal m st now reason, t')
             /\ txn_inv t'.
Proof.
  intros Ht (y & Hy & Hsame) Hins Hst. pose proof (same_id _ _ _ Hsame) as Hid. unfold terminalize.
  destruct (position (with_id (message_id m)) (live t)) as [i|] eqn:Ep.
  - apply position_Some in Ep as (x & Hx & Hxid%with_id_true & _).
    destruct (inv_close (take i (live t)) x m (drop (S i) (live t))
                (t <| live := delete i (live t) |> <| live_changed := true |>) st session reason now)
      as (t' & -> & _ & ?); try done.
    + cbn. rewrite take_drop_middle by done. by eapply parts_change.
    + cbn. by rewrite delete_take_drop.
    + rewrite (ids_inj (live t) x y); [done|by destruct Ht| |done|congruence].
      by eapply list_elem_of_lookup_2.
    + by rewrite Hxid.
    + by eexists.
  - exfalso. apply (proj1 (position_None _ _) Ep) in Hy. unfold with_id in Hy.
    by rewrite bool_decide_eq_true_2 in Hy.
Qed.
End TxnInv.

Lemma parts_weaken base ins ins' moved edited l c e ch :
  parts_ok base ins moved edited l c e ch -> ins ⊆ ins' -> parts_ok base ins' moved edited l c e ch.
Proof.
  intros [] Hsub. split; try done.
  - intros m Hm. destruct (po_kept0 m Hm) as [?|Hin]; [by left|right].
    rewrite elem_of_app in *. destruct Hin; auto.
  - intros id Hid. destruct (po_origin0 id Hid); auto.
  - intros id Hc Hl. auto.
Qed.

(** What every update closure guarantees on a live record. *)
Definition safe_step (m : MessageRecord) (r : MessageRecord * MessageUpdate) : Prop :=
  same_message [] r.1 m
  /\ match r.2 with
     | Keep => r.1 = m
     | Finalize st _ => is_terminal st = true
     | _ => is_terminal (status r.1) = false
     end.
Definition safe_update {S} (update : S -> MessageRecord -> S * MessageRecord * MessageUpdate) : Prop :=
  forall s m, is_terminal (status m) = false ->
    safe_step m ((update s m).1.2, (update s m).2).

Section Apply.
Context (base : list MessageRecord) (moved : list text).
Context {S : Type} (update : S -> MessageRecord -> S * MessageRecord * MessageUpdate)
  (session : text) (now : Z).
#[local] Abbreviation parts_ok := (parts_ok base [] moved []).
#[local] Abbreviation txn_inv := (txn_inv base [] moved []).

Lemma inv_apply_loop s t updated rest :
  safe_update update ->
  parts_ok (live t ++ rest) (closed_rows t) (staged t) (live_changed t) ->
  exists s' updated' t', apply_loop update session now s t updated rest = Some (s', updated', t')
    /\ txn_inv t'.
Proof.
  intros Hsafe. revert s t updated. induction rest as [|m rest IH]; intros s t updated Hp.
  { rewrite app_nil_r in Hp. by eexists _, _, _. }
  assert (Hm : is_terminal (status m) = false).
  { destruct Hp. apply Forall_app in po_open0 as [_ [? _]%Forall_cons]. done. }
  pose proof (Hsafe s m Hm) as [Hid Hu]. cbn [apply_loop].
  destruct (update s m) as [[s' m'] u]. cbn [fst snd] in Hid, Hu. destruct u.
  - apply IH. cbn. subst m'. by rewrite <-app_assoc.
  - apply IH. cbn. rewrite <-app_assoc.
    eapply parts_replace; [done|by eapply same_id|by left|done].
  - apply IH. cbn. rewrite <-app_assoc.
    eapply parts_event, parts_replace; [done|by eapply same_id|by left|done].
  - destruct (terminal_method _ Hu) as [k Hk].
    destruct (close_eq (t <| live_changed := true |>) m' status session reason now k Hk)
      as (t2 & -> & Hl2 & Hc2 & Hcl2 & Hst2 & _).
    apply IH. rewrite Hl2, Hc2, Hcl2, Hst2. cbn.
    eapply parts_close; [done| | |by apply not_elem_of_nil].
    + etrans; [apply normalize_terminal_same|done].
    + by rewrite normalize_terminal_status.
Qed.

Lemma inv_apply_all_with s t :
  safe_update update -> txn_inv t ->
  exists s' updated t', apply_all_with update session now s t = Some (s', updated, t') /\ txn_inv t'.
Proof. intros Hsafe Ht. unfold apply_all_with. by apply inv_apply_loop. Qed.
End Apply.

Lemma inv_apply_all base moved t session now update :
  (forall m, is_terminal (status m) = false -> safe_step m (update m)) ->
  txn_inv base [] moved [] t ->
  exists updated t', apply_all t session now update = Some (updated, t') /\ txn_inv base [] moved [] t'.
Proof.
  intros Hsafe Ht. unfold apply_all.
  destruct (inv_apply_all_with base moved
    (fun (_ : unit) m => let '(m, u) := update m in (tt, m, u)) session now tt t)
    as (s' & updated & t' & -> & Ht'); [|done|by eexists _, _].
  intros s m Hm. specialize (Hsafe m Hm). by destruct (update m).
Qed.

(** ** The store across a commit *)

Definition by_id (a b : MessageRecord) : Prop := text_leb (message_id a) (message_id b) = true.

(** A valid store: the live queue sorted by distinct ids and open, the history
    terminal. *)
Record store_ok `{Env} (s : MessageStore) : Prop := {
  so_sorted : StronglySorted by_id (messages s);
  so_nodup : NoDup (ids (messages s));
  so_open : Forall (fun m => is_terminal (status m) = false) (messages s);
  so_history : Forall (fun m => is_terminal (status m) = true) (history s)
}.

(** The wake stamp on disk is the one the records on disk call for. *)
Definition wake_ok `{Env} (s : MessageStore) : Prop :=
  exists q at_, q ≡ₚ messages s /\ message_wake s = queue_wake_deadline q at_.

Definition empty_store : MessageStore :=
  {| messages := []; history := []; message_events := []; message_wake := None |}.

(** What a commit of an operation that inserts [ins], refiles [moved] and
    edits [edited] does to a store: the closed rows go to the history, each
    with its event. *)
Record store_next `{Env} (w : World) (ins moved edited : list text) (s s' : MessageStore) : Prop := {
  sn_ok : store_ok s';
  sn_rows : exists closed_ events_,
    history s' = history s ++ (if history_writable w then closed_ else [])
    /\ message_events s' = message_events s ++ events_
    /\ (forall m, m ∈ closed_ -> message_id m ∈ ids (messages s)
          /\ exists ev, ev ∈ events_ /\ event_record ev = m
             /\ for_terminal_status (status m) = Some (event_method ev))
    /\ (forall m, m ∈ messages s ->
          (exists m', m' ∈ messages s' ++ closed_ /\ same_message edited m' m)
          \/ message_id m ∈ moved ++ ins \/ exists n, message_id m = fresh_id w n);
  sn_origin : forall id, id ∈ ids (messages s') ->
    id ∈ ids (messages s) \/ id ∈ ins \/ exists n, id = fresh_id w n;
  sn_wake : wake_writable w = true ->
    wake_ok s' \/ (messages s' = messages s /\ message_wake s' = message_wake s)
}.

Section Commit.
Context `{Env} `{TimeDisplay}.

Lemma new_live s : store_ok s -> live (Txn.new s) = messages s.
Proof. intros []. apply sort_by_sorted; [apply _..|done]. Qed.

Lemma inv_new s ins moved edited : store_ok s -> txn_inv (messages s) ins moved edited (Txn.new s).
Proof.
  intros Hs. unfold txn_inv. rewrite new_live by done. destruct Hs. by apply parts_init.
Qed.

Lemma inv_notify base ins moved edited w n t rows :
  (forall k, n <= k < n + length rows -> fresh_id w k ∈ ins) ->
  txn_inv base ins moved edited t -> txn_inv base ins moved edited (notify w n t rows).
Proof.
  revert n t. induction rows as [|[[record reason] session] rows IH]; intros n t Hf Ht;
    cbn [notify]; [done|].
  destruct (resolve_sender _ _) as [card|].
  - apply IH; [intros k Hk; apply Hf; cbn; lia|].
    apply inv_upsert; [by apply inv_stage_event|done|]. left. apply Hf. cbn. lia.
  - apply IH; [intros k Hk; apply Hf; cbn; lia|done].
Qed.

Lemma finish_next w s ins moved edited t :
  store_ok s -> txn_inv (messages s) ins moved edited t ->
  store_next w ins moved edited s (finish w s t).
Proof.
  intros Hs [].
  assert (Hperm : sort_messages (live t) ≡ₚ live t) by apply sort_by_Permutation.
  assert (Hrows : forall m, m ∈ messages (finish w s t) <-> m ∈ live t).
  { intros m. cbn. destruct (live_changed t) eqn:E.
    - by rewrite Hperm.
    - by rewrite (po_clean0 eq_refl). }
  split.
  - destruct Hs. split; cbn.
    + destruct (live_changed t); [|done]. apply sort_by_StronglySorted; apply _.
    + destruct (live_changed t); [|done]. unfold ids. by rewrite Hperm.
    + destruct (live_changed t); [|done]. by rewrite Hperm.
    + destruct (history_writable w); [|done]. by apply Forall_app.
  - exists (closed_rows t), (staged t). cbn. split_and!.
    + destruct (history_writable w); [done|by rewrite app_nil_r].
    + done.
    + intros m Hm. split; [|by apply po_logged0]. apply po_closed_base0, elem_of_ids. eauto.
    + intros m Hm. fold (finish w s t). destruct (po_kept0 m Hm) as [(m' & Hm' & ?)|?]; [left|by right; left].
      exists m'. split; [|done]. rewrite elem_of_app in *. by rewrite Hrows.
  - intros id (m & Hid & Hm)%elem_of_ids. rewrite Hrows in Hm.
    destruct (po_origin0 id); [apply elem_of_ids; eauto|auto..].
  - intros Hw. unfold wake_ok. cbn. unfold refresh_message_wake. rewrite Hw.
    destruct (live_changed t); [left|by right]. eexists (live t), _. by split; [rewrite Hperm|].
Qed.

Lemma commit_next {T} w s ins moved edited (f : QueueTxn -> option (T * QueueTxn)) :
  store_ok s ->
  (exists r t, f (Txn.new s) = Some (r, t) /\ txn_inv (messages s) ins moved edited t) ->
  exists r s', commit_queue w s f = Some (r, s') /\ store_next w ins moved edited s s'.
Proof.
  intros Hs (r & t & Hf & Ht). unfold commit_queue. rewrite Hf. eexists _, _. split; [done|].
  set (drawn := map (fresh_id w) (seq 0 (length (undelivered t)))).
  assert (Hn : txn_inv (messages s) (ins ++ drawn) moved edited
                 (notify w 0 (t <| undelivered := [] |>) (undelivered t))).
  { apply inv_notify.
    - intros k Hk. rewrite elem_of_app. right. apply list_elem_of_In, in_map_iff.
      exists k. split; [done|]. apply in_seq. lia.
    - eapply parts_weaken; [exact Ht|]. intros x Hx. rewrite elem_of_app. by left. }
  assert (Hdrawn : forall id, id ∈ drawn -> exists n, id = fresh_id w n).
  { intros id Hin. apply list_elem_of_In, in_map_iff in Hin as (k & <- & _). by exists k. }
  destruct (finish_next w s _ _ _ _ Hs Hn) as [? (cl & ev & ? & ? & ? & Hk) Horigin Hwake].
  split; [done| | |exact Hwake].
  - exists cl, ev. split_and!; [done..|]. intros m Hm.
    destruct (Hk m Hm) as [?|[Hin|?]]; [by left| |by right; right]. right.
    rewrite !elem_of_app in *. destruct Hin as [?|[?|?]]; auto.
  - intros id Hid. destruct (Horigin id Hid) as [?|[Hin|?]]; [by left| |by right; right].
    apply elem_of_app in Hin as [?|Hin]; [by right; left|]. right. auto.
Qed.
End Commit.

(** ** The update closures *)

Section Updates.
Context `{Env} `{TimeDisplay}.

Lemma fail_delivery_safe m disposition error now : safe_step m (fail_delivery m disposition error now).
Proof.
  unfold fail_delivery, safe_step. cbn [fst snd].
  assert (E : same_message [] (if decide (disposition = Retry)
            then requeue m now error <| last_attempt_at := None |> else requeue m now error) m)
    by by destruct (decide (disposition = Retry)).
  split; [exact E|].
  destruct (decide (disposition = Terminal)); [done|].
  destruct (_ <=? _)%N; [done|]. by destruct (decide (disposition = Retry)).
Qed.

Lemma stamp_after_nothing l indices now l' : stamp_after_conditions l indices now = (l', []) -> l' = l.
Proof.
  revert l. induction indices as [|i indices IH]; intros l; cbn [stamp_after_conditions].
  { by intros [= ->]. }
  destruct (l !! i) as [c|]; [|apply IH]. destruct (is_some _); [apply IH|].
  by destruct (stamp_after_conditions _ _ _).
Qed.
Lemma stamp_when_nothing l indices now l' : stamp_when_conditions l indices now = (l', []) -> l' = l.
Proof.
  revert l. induction indices as [|i indices IH]; intros l; cbn [stamp_when_conditions].
  { by intros [= ->]. }
  destruct (l !! i) as [c|]; [|apply IH]. destruct (is_some _); [apply IH|].
  by destruct (stamp_when_conditions _ _ _).
Qed.

Lemma apply_sweep_safe m update now :
  is_terminal (status m) = false -> safe_step m (apply_sweep_update m update now).
Proof.
  intros Hm. unfold apply_sweep_update, safe_step. destruct (archive_reason update); [done|].
  destruct (stamp_after_conditions _ _ _) as [a sa] eqn:Ea.
  destruct (stamp_when_conditions _ _ _) as [v sv] eqn:Ev.
  destruct (_ && negb (bool_decide _)) eqn:Er.
  - by destruct (is_empty sa && is_empty sv).
  - destruct (is_empty sa && is_empty sv) eqn:Ee; [|done]. split; [done|]. cbn [fst snd].
    apply andb_true_iff in Ee as [Hsa Hsv].
    destruct sa; [|done]. destruct sv; [|done].
    rewrite (stamp_after_nothing _ _ _ _ Ea), (stamp_when_nothing _ _ _ _ Ev). by destruct m.
Qed.

Lemma settle_wrap_up_safe m agents now report :
  is_terminal (status m) = false ->
  let r := settle_wrap_up m agents now report in safe_step m (r.1.2, r.2).
Proof.
  intros Hm. unfold settle_wrap_up. destruct (existsb _ agents); [done|].
  by destruct (existsb _ agents).
Qed.

Lemma reconcile_safe agents pending now max_attempts :
  safe_update (reconcile_update agents pending now max_attempts).
Proof.
  intros report m Hm. unfold reconcile_update.
  destruct (_ && is_open _); [by destruct (negb (claim_expired _ _))|].
  destruct (expired m now); [done|].
  destruct (if awaiting_registration m agents then _ else None); [done|].
  destruct (_ && claim_expired _ _).
  { pose proof (fail_delivery_safe m Retry (str "claim expired; sender gone") now) as [Hid Hu].
    destruct (fail_delivery m Retry _ now) as [m' u] eqn:Ef. cbn [fst snd] in Hid, Hu.
    destruct u; try done. split; [done|]. cbn [fst snd].
    unfold fail_delivery in Ef. by injection Ef as <- _. }
  destruct (negb _); [done|]. destruct (sent_reconcile_deadline m) as [deadline|]; [|done].
  destruct (now <? deadline)%Z; [done|].
  destruct (bool_decide _); [by apply settle_wrap_up_safe|].
  destruct (existsb _ agents); [done|]. destruct (existsb _ pending); [done|].
  destruct (resends_unconfirmed _ && _); [done|]. destruct (negb _); [done|].
  by destruct (_ <? _)%N.
Qed.
End Updates.

(** ** Every operation *)


(** [queue]: closes the invariant of a transaction that files records. *)
Create HintDb queue.
#[export] Hint Resolve inv_new inv_stage_event inv_file list_elem_of_here : queue.
#[export] Hint Extern 1 (is_terminal _ = false) => done : queue.

Section Operations.
Context `{Env} `{TimeDisplay} (w : World) (s : MessageStore) (Hs : store_ok s).
#[local] Notation goes_editing o ins moved edited :=
  (exists s', option_map snd o = Some s' /\ store_next w ins moved edited s s').
#[local] Notation goes o ins moved := (goes_editing o ins moved []).

Lemma commit_goes {T} ins moved edited (f : QueueTxn -> option (T * QueueTxn)) :
  (exists r t, f (Txn.new s) = Some (r, t) /\ txn_inv (messages s) ins moved edited t) ->
  goes_editing (commit_queue w s f) ins moved edited.
Proof using Hs.
  intros Hf. destruct (commit_next w s ins moved edited f Hs Hf) as (r & s' & -> & ?). by eexists.
Qed.

(** An operation that inserts nothing and applies one closure to the queue. *)
Lemma apply_goes session now update :
  (forall m, is_terminal (status m) = false -> safe_step m (update m)) ->
  goes (commit_queue w s (fun t => apply_all t session now update)) [] [].
Proof using Hs.
  intros Hsafe. apply commit_goes; cbv beta zeta.
  destruct (inv_apply_all (messages s) [] (Txn.new s) session now update) as (u & t & -> & ?);
    [done|by apply inv_new|by eexists _, _].
Qed.

Lemma queue_message_goes m session :
  is_terminal (status m) = false -> goes (Store.queue_message w m session s) [message_id m] [].
Proof using Hs.
  intros Hm. apply commit_goes; cbv beta zeta. eexists _, _. split; [done|].
  eauto with queue.
Qed.

Lemma queue_message_once_goes m session :
  is_terminal (status m) = false -> goes (Store.queue_message_once w m session s) [message_id m] [].
Proof using Hs.
  intros Hm. apply commit_goes; cbv beta zeta. destruct (is_some _); eexists _, _; (split; [done|]);
    eauto with queue.
Qed.

Lemma queue_resuming_goes m session :
  is_terminal (status m) = false -> goes (Store.queue_resuming_message w m session s) [message_id m] [].
Proof using Hs.
  intros Hm. apply commit_goes; cbv beta zeta. case_if; [eexists _, _; eauto with queue|].
  destruct (min_of _); eexists _, _; (split; [done|]); eauto with queue.
Qed.

Lemma still_queued_goes stalled notice session :
  is_terminal (status notice) = false ->
  goes (Store.queue_still_queued_notice w stalled notice session s) [message_id notice] [].
Proof using Hs.
  intros Hm. apply commit_goes; cbv beta zeta.
  destruct (inv_apply_all (messages s) [] (Txn.new s) session (clock w) (fun record =>
        if negb (with_id stalled record) || negb (bool_decide (status record = Status.Queued))
           || is_some (queued_notice_at record)
        then (record, Keep)
        else (record <| queued_notice_at := Some (clock w) |>, SilentRewrite))) as (u & t & -> & Ht).
  { intros x Hx. by destruct (_ || _). }
  { by apply inv_new. }
  assert (Ht' : txn_inv (messages s) [message_id notice] [] [] t).
  { eapply parts_weaken; [exact Ht|]. by intros x ?%elem_of_nil. }
  destruct (is_empty u); eexists _, _; (split; [done|]); eauto with queue.
Qed.

Lemma queue_claimed_goes m session now :
  is_terminal (status m) = false ->
  goes (Store.queue_claimed_message w m session now s) [message_id m] [].
Proof using Hs.
  intros Hm. apply commit_goes; cbv beta zeta.
  destruct (inv_upsert_claimed (messages s) [message_id m] [] [] (Txn.new s) m now) as (c & t & -> & Ht).
  - eapply parts_change. by apply inv_new.
  - done.
  - left. by left.
  - eexists _, _. split; [done|]. by apply inv_stage_event.
Qed.

Lemma at_tail_status t fresh m q : at_tail t fresh m = Some q -> status q = status m.
Proof.
  unfold at_tail. destruct (max_by _ _ _) as [l|]; [|by intros [= <-]].
  destruct (text_leb _ _); [|by intros [= <-]]. destruct (successor _); [|done]. by intros [= <-].
Qed.

Lemma queue_tail_goes m session q :
  at_tail (Txn.new s) (fresh_id w 0) m = Some q -> is_terminal (status m) = false ->
  goes (Store.queue_tail_message w m session s) [message_id q] [].
Proof using Hs.
  intros Hq Hm. apply commit_goes; cbv beta zeta. rewrite Hq. eexists _, _. split; [done|].
  rewrite <-(at_tail_status _ _ _ _ Hq) in Hm. eauto with queue.
Qed.

Lemma queue_boundary_goes m session now q :
  at_tail (Txn.new s) (fresh_id w 0) m = Some q -> is_terminal (status m) = false ->
  goes (Store.queue_boundary_message w m session now s) [message_id q] [message_id m].
Proof using Hs.
  intros Hq Hm. apply commit_goes; cbv beta zeta. rewrite Hq.
  assert (Hq' : is_terminal (status q) = false) by by rewrite (at_tail_status _ _ _ _ Hq).
  assert (Hd : parts_ok (messages s) [message_id q] [message_id m] []
            (List.filter (fun l => negb (with_id (message_id m) l)) (live (Txn.new s)))
            (closed_rows (Txn.new s)) (staged (Txn.new s)) true).
  { eapply parts_drop; [by apply inv_new|]. by left. }
  destruct (option_map message_id _) as [blocker|].
  - eexists _, _. split; [done|]. apply inv_stage_event. eapply parts_upsert; [exact Hd|done|].
    left. by left.
  - destruct (inv_upsert_claimed (messages s) [message_id q] [message_id m] []
      (Txn.new s <| live := List.filter (fun l => negb (with_id (message_id m) l)) (live (Txn.new s)) |>)
      q now) as (c & t & -> & Ht); [done|done|left; by left|].
    eexists _, _. split; [done|]. by apply inv_stage_event.
Qed.

Lemma sweep_goes updates now session : goes (Store.apply_delivery_sweep w updates now session s) [] [].
Proof using Hs.
  apply commit_goes; cbv beta zeta.
  destruct (inv_apply_all (messages s) [] (Txn.new s) session now (fun m =>
        if negb (bool_decide (status m = Status.Queued)) then (m, Keep)
        else
          let! update :=
            List.find (fun u => bool_decide (sweep_message_id u = message_id m)) (rev updates)
            else (m, Keep) in
          apply_sweep_update m update now)) as (u & t & -> & Ht);
    [|by apply inv_new|by eexists _, _].
  intros m Hm. case_if; [done|]. destruct (List.find _ _); [by apply apply_sweep_safe|done].
Qed.

Lemma apply_edit_same e m : same_message [message_id m] (apply_edit e m) m.
Proof.
  assert (Hid : message_id m ∈ [message_id m]) by by left.
  assert (E : message_id (apply_edit e m) = message_id m) by (unfold apply_edit; by repeat case_match).
  unfold same_message, origin. rewrite E, !decide_True by done. unfold apply_edit. by repeat case_match.
Qed.
Lemma apply_edit_status e m : status (apply_edit e m) = status m.
Proof. unfold apply_edit. by repeat case_match. Qed.

Lemma get_live id m :
  Txn.get (Txn.new s) id = Some m ->
  message_id m = id /\ m ∈ messages s /\ is_terminal (status m) = false.
Proof using Hs.
  intros [Hid Hm]%get_spec. rewrite new_live in Hm by done. split_and!; [done..|].
  destruct Hs. rewrite Forall_forall in so_open0. auto.
Qed.

(** A record read from the queue may be written back. *)
Lemma inv_rewrite edited m m' :
  m ∈ messages s -> same_message edited m' m -> is_terminal (status m') = false ->
  txn_inv (messages s) [] [] edited (upsert (Txn.new s) m').
Proof using Hs.
  intros Hm Hsame Ho. apply inv_upsert; [by apply inv_new|done|]. right.
  rewrite new_live by done. by exists m.
Qed.

Lemma edit_goes id edit session : goes_editing (Store.edit_message w id edit session s) [] [] [id].
Proof using Hs.
  apply commit_goes; cbv beta zeta. destruct (Txn.get (Txn.new s) id) as [m|] eqn:Eg.
  - case_if; [eexists _, _; eauto with queue|].
    apply get_live in Eg as (<- & ? & ?). eexists _, _. split; [done|].
    apply inv_stage_event. eapply inv_rewrite; [done| |].
    + apply apply_edit_same.
    + by rewrite <-(apply_edit_status edit m) in *.
  - eexists _, _. split; [done|by apply inv_new].
Qed.

Lemma sent_loop_inv supplied session t :
  txn_inv (messages s) [] [] [] t -> txn_inv (messages s) [] [] [] (Store.sent_loop w supplied session t).2.
Proof.
  revert t. induction supplied as [|sup supplied IH]; intros t Ht; cbn [Store.sent_loop]; [done|].
  destruct (ofilter _ _) as [m|] eqn:Eo; [|by apply IH].
  apply ofilter_Some in Eo as [[Hid Hm]%get_spec _].
  destruct (Store.sent_loop _ _ _ _) as [sent t'] eqn:El. cbn [snd].
  change t' with (sent, t').2. rewrite <-El. apply IH. apply inv_stage_event, inv_upsert; [done..|].
  right. by exists m.
Qed.
Lemma sent_goes supplied session : goes (Store.record_sent_batch w supplied session s) [] [].
Proof using Hs.
  apply commit_goes; cbv beta zeta.
  destruct (Store.sent_loop w supplied session (Txn.new s)) as [sent t] eqn:E.
  eexists _, _. split; [done|]. change t with (sent, t).2. rewrite <-E.
  by apply sent_loop_inv, inv_new.
Qed.

Lemma batch_in_range live_ id st now indices :
  delivery_batch_indices live_ id st now = Some indices -> Forall (fun i => i < length live_) indices.
Proof.
  unfold delivery_batch_indices. destruct (position _ _) as [h|]; [|done].
  destruct (live_ !! h) as [hd|] eqn:Eh; [|done]. case_if; [done|]. apply lookup_lt_Some in Eh.
  case_if; intros [= <-]; constructor; try done.
  destruct (batch_loop_spec hd st now live_ (S h) _ eq_refl) as (_ & Hin & _).
  apply Forall_forall. intros i (_ & m & Hm & _)%Hin. by eapply lookup_lt_Some.
Qed.

Lemma claim_batch_goes id st now : goes (Store.claim_delivery_batch w id st now s) [] [].
Proof using Hs.
  unfold Store.claim_delivery_batch.
  match goal with |- context [commit_queue w s ?f] =>
    destruct (commit_next w s [] [] [] f Hs) as (r & s' & -> & Hn) end.
  - destruct (delivery_batch_indices _ _ _ _) as [indices|] eqn:Ed.
    + destruct (inv_claim_indices (messages s) [] [] [] (Txn.new s) indices now) as (c & t & E & ? & _).
      * by apply inv_new.
      * by eapply batch_in_range.
      * exists (Some c), t. split; [|done]. by rewrite E.
    + exists None, (Txn.new s). split; [done|by apply inv_new].
  - destruct r; by eexists.
Qed.

Lemma claim_steer_goes id now : goes (Store.claim_message_for_steer w id now s) [] [].
Proof using Hs.
  apply commit_goes; cbv beta zeta. destruct (position _ _) as [i|] eqn:Ep.
  - apply position_Some in Ep as (m & Hm & _). rewrite Hm.
    case_if; [eexists _, _; eauto with queue|].
    destruct (inv_claim_indices (messages s) [] [] [] (Txn.new s) [i] now) as (c & t & -> & ? & Hl & _).
    + by apply inv_new.
    + constructor; [by eapply lookup_lt_Some|done].
    + destruct c as [|x [|]]; try done. by eexists _, _.
  - eexists _, _. split; [done|by apply inv_new].
Qed.

Lemma release_goes held note session : goes (Store.release_message_claims w held note session s) [] [].
Proof using Hs. apply apply_goes. intros m Hm. by case_if. Qed.

Lemma hold_goes held hold compacted session :
  goes (Store.hold_message_claims w held hold compacted session s) [] [].
Proof using Hs.
  apply apply_goes. intros m Hm. destruct (List.find _ _); [|done]. by destruct compacted.
Qed.

Lemma replay_goes id r force_ session :
  goes (Store.record_typing_hold_replay w id r force_ session s) [] [].
Proof using Hs.
  apply commit_goes; cbv beta zeta.
  destruct (ofilter _ _) as [m|] eqn:Eo; [|eexists _, _; split; [done|by apply inv_new]].
  apply ofilter_Some in Eo as [(? & ? & ?)%get_live _].
  destruct (typing_hold m); [|eexists _, _; split; [done|by apply inv_new]].
  case_if; eexists _, _; (split; [done|]); [by apply inv_new|].
  apply inv_stage_event. by eapply inv_rewrite.
Qed.

Lemma defer_goes id until_ blocker : goes (Store.defer_message_wake w id until_ blocker s) [] [].
Proof using Hs.
  apply commit_goes; cbv beta zeta.
  destruct (ofilter _ _) as [m|] eqn:Eo; [|eexists _, _; split; [done|by apply inv_new]].
  apply ofilter_Some in Eo as [(? & ? & ?)%get_live _].
  eexists _, _. split; [done|]. eapply inv_rewrite; [done|..]; destruct blocker; try done;
    by destruct (is_some_and _ _).
Qed.

Lemma confirm_goes card ack session : goes (Store.confirm_delivered_for_card w card ack session s) [] [].
Proof using Hs.
  apply commit_goes; cbv beta zeta.
  destruct (Store.select_acknowledged _ _ _ _) as [[chosen reason] how].
  case_if; [eexists _, _; eauto with queue|].
  destruct (inv_apply_all (messages s) [] (Txn.new s) session (clock w) (fun m =>
        if negb (bool_decide (message_id m ∈ chosen)) then (m, Keep)
        else (m, Finalize Status.Delivered reason))) as (u & t & -> & Ht);
    [|by apply inv_new|by eexists _, _].
  intros m Hm. by case_if.
Qed.

Lemma terminalize_goes m m' st session reason now :
  m ∈ messages s -> same_message [] m' m -> is_terminal st = true ->
  exists t, terminalize (Txn.new s) m' st session reason now
            = Some (normalize_terminal m' st now reason, t)
    /\ txn_inv (messages s) [] [] [] t.
Proof using Hs.
  intros Hm Hid Hst. apply inv_terminalize; [by apply inv_new| |by apply not_elem_of_nil|done].
  rewrite new_live by done. by exists m.
Qed.

Lemma timed_out_goes id session reason : goes (Store.mark_message_timed_out w id session reason s) [] [].
Proof using Hs.
  apply commit_goes; cbv beta zeta.
  destruct (ofilter _ _) as [m|] eqn:Eo; [|eexists _, _; split; [done|by apply inv_new]].
  apply ofilter_Some in Eo as [(? & ? & ?)%get_live _].
  edestruct (terminalize_goes m) as (t & -> & ?); [done|..|by eexists _, _]; done.
Qed.

Lemma reconcile_goes session now max_attempts :
  goes (Store.reconcile_stale_messages w session now max_attempts s) [] [].
Proof using Hs.
  apply commit_goes; cbv beta zeta.
  match goal with |- context [apply_all_with ?u ?a ?b ?c ?t] =>
    destruct (inv_apply_all_with (messages s) [] u a b c t) as (r & up & t' & -> & Ht')
  end; [apply reconcile_safe|by apply inv_new|].
  by case_if; eexists _, _.
Qed.

Lemma send_error_goes held error session : goes (Store.record_send_error w held error session s) [] [].
Proof using Hs.
  apply commit_goes; cbv beta zeta.
  destruct (ofilter _ _) as [m|] eqn:Eo; [|eexists _, _; split; [done|by apply inv_new]].
  apply ofilter_Some in Eo as [(? & ? & ?)%get_live _].
  edestruct (terminalize_goes m) as (t & -> & ?); [done|..|by eexists _, _]; done.
Qed.

Lemma failures_goes held disposition error session :
  goes (Store.record_message_delivery_failures w held disposition error session s) [] [].
Proof using Hs.
  apply commit_goes; cbv beta zeta. destruct (head held); [|eexists _, _; split; [done|by apply inv_new]].
  match goal with |- context [apply_all_with ?u ?a ?b ?c ?t] =>
    destruct (inv_apply_all_with (messages s) [] u a b c t) as (r' & up & t' & -> & Ht')
  end; [|by apply inv_new|by eexists _, _].
  intros sent x Hx. destruct (existsb _ _); [|done]. cbn [negb].
  pose proof (fail_delivery_safe x disposition error (clock w)) as Hf.
  by destruct (fail_delivery x disposition error (clock w)).
Qed.

Lemma unheld_goes id disposition error session :
  goes (Store.record_unheld_delivery_miss w id disposition error session s) [] [].
Proof using Hs.
  apply commit_goes; cbv beta zeta.
  match goal with |- context [apply_all_with ?u ?a ?b ?c ?t] =>
    destruct (inv_apply_all_with (messages s) [] u a b c t) as (r' & up & t' & -> & Ht')
  end; [|by apply inv_new|by eexists _, _].
  intros sent x Hx. case_if; [done|]. case_if; [done|]. case_if; [done|].
  pose proof (fail_delivery_safe x disposition error (clock w)) as Hf.
  by destruct (fail_delivery x disposition error (clock w)).
Qed.

Lemma cancel_goes may id session reason : goes (Store.cancel_where w may id session reason s) [] [].
Proof using Hs.
  apply commit_goes; cbv beta zeta.
  destruct (ofilter _ _) as [m|] eqn:Eo; [|eexists _, _; split; [done|by apply inv_new]].
  apply ofilter_Some in Eo as [(? & ? & ?)%get_live _].
  edestruct (terminalize_goes m m Status.Canceled) as (t & -> & ?); [done..|by eexists _, _].
Qed.

Lemma clear_goes select session : goes (Store.clear_messages_matching w select session s) [] [].
Proof using Hs. apply apply_goes. intros m Hm. by case_if. Qed.

Lemma archive_matching_goes reason session select :
  goes (Store.archive_matching w reason session select s) [] [].
Proof using Hs.
  unfold Store.archive_matching, finalize_matching.
  match goal with |- context [commit_queue w s (fun t => apply_all t ?a ?b ?u)] =>
    destruct (apply_goes a b u) as (s' & E & Hn) end.
  - intros m Hm. by case_if.
  - destruct (commit_queue _ _ _) as [[]|]; [|done]. injection E as ->. by eexists.
Qed.

Lemma archive_watching_goes card through session :
  goes (Store.archive_messages_watching_card w card through session s) [] [].
Proof using Hs.
  unfold Store.archive_messages_watching_card.
  match goal with |- context [commit_queue w s (fun t => apply_all t ?a ?b ?u)] =>
    destruct (apply_goes a b u) as (s' & E & Hn) end.
  - intros m Hm. case_if; [done|]. by destruct (List.find _ _).
  - destruct (commit_queue _ _ _) as [[]|]; [|done]. injection E as ->. by eexists.
Qed.

Lemma archive_orphans_goes session : goes (Store.archive_orphan_messages w session s) [] [].
Proof using Hs.
  unfold Store.archive_orphan_messages.
  match goal with |- context [commit_queue w s ?f] =>
    destruct (commit_next w s [] [] [] f Hs) as (r & s' & -> & Hn) end; [|by eexists].
  match goal with |- context [apply_all ?t ?a ?b ?u] =>
    destruct (inv_apply_all (messages s) [] t a b u) as (up & t' & -> & Ht')
  end; [|by apply inv_new|by case_if; eexists _, _].
  intros m Hm. case_if; [done|]. case_if; [done|]. case_if; [|done]. by destruct (List.find _ _).
Qed.

Lemma rebind_goes predecessor successor_ session :
  exists s', Store.rebind_queued_messages w predecessor successor_ session s = Some s'
    /\ store_next w [] [] [] s s'.
Proof using Hs.
  unfold Store.rebind_queued_messages.
  match goal with |- context [apply_all ?t ?a ?b ?u] =>
    destruct (inv_apply_all (messages s) [] t a b u) as (up & t' & -> & Ht')
  end; [|by apply inv_new|].
  - intros m Hm. by case_if.
  - eexists. split; [done|]. by apply finish_next.
Qed.
End Operations.

Section Reach.
Context `{Env} `{TimeDisplay}.

(** The records the callers put in are live ones. *)
Definition takes_open (op : QueueOp) : Prop :=
  forall m, taken op = Some m -> is_terminal (status m) = false.
Definition tail_ok (w : World) (op : QueueOp) (s : MessageStore) : Prop :=
  match op with
  | QueueTail m _ | QueueBoundary m _ _ => is_Some (at_tail (Txn.new s) (fresh_id w 0) m)
  | _ => True
  end.

(** The id whose text an operation may change. *)
Definition edits (op : QueueOp) : list text :=
  match op with EditMessage id _ _ => [id] | _ => [] end.

Lemma rearm_next w s now : store_ok s -> store_next w [] [] [] s (rearm_message_wake w s now).
Proof.
  intros Hs. split.
  - by destruct Hs.
  - exists [], []. rewrite !app_nil_r. split_and!; try done.
    + by destruct (history_writable w); rewrite app_nil_r.
    + by intros m ?%elem_of_nil.
    + intros m Hm. left. by exists m.
  - by left.
  - intros Hw. left. unfold wake_ok. cbn. unfold refresh_message_wake. rewrite Hw.
    eexists _, _. split; [|done]. apply sort_by_Permutation.
Qed.

Lemma run_goes w op s :
  store_ok s -> takes_open op -> tail_ok w op s ->
  exists s', run w op s = Some s' /\ store_next w (inserts w op s) (refiles op) (edits op) s s'.
Proof.
  intros Hs Hop Htail. unfold takes_open in Hop.
  destruct op; cbn [run inserts refiles edits taken] in *;
    try (specialize (Hop _ eq_refl));
    try (destruct Htail as [q Hq]; rewrite Hq).
  - by apply queue_message_goes.
  - by apply queue_message_once_goes.
  - by apply rebind_goes.
  - by apply queue_resuming_goes.
  - by apply still_queued_goes.
  - by apply queue_claimed_goes.
  - by apply queue_tail_goes.
  - by apply queue_boundary_goes.
  - by apply sweep_goes.
  - by apply edit_goes.
  - by apply sent_goes.
  - by apply claim_batch_goes.
  - by apply claim_steer_goes.
  - by apply release_goes.
  - by apply hold_goes.
  - by apply replay_goes.
  - by apply defer_goes.
  - by apply confirm_goes.
  - by apply timed_out_goes.
  - by apply reconcile_goes.
  - by apply send_error_goes.
  - by apply failures_goes.
  - by apply unheld_goes.
  - by apply cancel_goes.
  - by apply cancel_goes.
  - by apply clear_goes.
  - by apply archive_orphans_goes.
  - by apply archive_matching_goes.
  - by apply archive_watching_goes.
  - eexists. split; [done|]. by apply rearm_next.
Qed.

Lemma run_tail_ok w op s s' : run w op s = Some s' -> tail_ok w op s.
Proof.
  destruct op; try done; cbn [run tail_ok]; unfold Store.queue_tail_message, Store.queue_boundary_message,
    commit_queue; cbv beta zeta; destruct (at_tail _ _ _); done.
Qed.

Lemma at_tail_None t fresh m :
  at_tail t fresh m = None -> exists l, l ∈ live t /\ successor (message_id l) = None.
Proof.
  unfold at_tail. destruct (max_by _ _ _) as [l|] eqn:E; [|done]. case_if; [|done].
  destruct (successor (message_id l)) eqn:Es; [done|]. intros _. exists l. split; [|done].
  apply max_by_elem in E. by apply elem_of_filter_bool in E as [_ ?].
Qed.

(** The stores the operations reach from the empty one, in worlds that satisfy
    [ok]. *)
Inductive reached (ok : World -> Prop) : MessageStore -> Prop :=
| reach_empty : reached ok empty_store
| reach_run w op s s' :
    reached ok s -> ok w -> takes_open op -> run w op s = Some s' -> reached ok s'.
Definition queue_reachable : MessageStore -> Prop := reached (fun _ => True).

Lemma empty_store_ok : store_ok empty_store.
Proof. split; constructor. Qed.

Lemma run_next w op s s' :
  store_ok s -> takes_open op -> run w op s = Some s' ->
  store_next w (inserts w op s) (refiles op) (edits op) s s'.
Proof.
  intros Hs Hop Hrun.
  destruct (run_goes w op s Hs Hop (run_tail_ok _ _ _ _ Hrun)) as (s2 & Hrun2 & Hn). congruence.
Qed.

Lemma reached_ok ok s : reached ok s -> store_ok s.
Proof.
  induction 1 as [|w op s s' _ IH _ Hop Hrun]; [apply empty_store_ok|].
  by destruct (run_next w op s s' IH Hop Hrun).
Qed.
Lemma reachable_ok s : queue_reachable s -> store_ok s.
Proof. apply reached_ok. Qed.

Lemma reached_wake s : reached (fun w => wake_writable w = true) s -> wake_ok s.
Proof.
  induction 1 as [|w op s s' Hs IH Hw Hop Hrun]; [by exists [], 0%Z|].
  destruct (run_next w op s s' (reached_ok _ _ Hs) Hop Hrun) as [_ _ _ Hk].
  destruct (Hk Hw) as [?|[E1 E2]]; [done|]. unfold wake_ok. by rewrite E1, E2.
Qed.

(** C10: in every state the queue operations reach from the empty store,
    whatever their order, worlds and arguments, as long as a record put into
    the queue is an open one ([takes_open]), the live queue is sorted by
    pairwise distinct message ids and holds no terminal record, and the
    history holds only terminal ones.  The wake stamp on disk is the one the
    live records call for if no write of it failed; after a failed write, the
    next operation that changes the queue and can write the stamp puts it
    right. *)
Theorem queue_reachable_valid s (Hr : queue_reachable s) :
  StronglySorted by_id (messages s) /\ NoDup (map message_id (messages s))
  /\ (forall m, m ∈ messages s -> is_terminal (status m) = false)
  /\ (forall m, m ∈ history s -> is_terminal (status m) = true)
  /\ (reached (fun w => wake_writable w = true) s ->
        exists q at_, q ≡ₚ messages s /\ message_wake s = queue_wake_deadline q at_)
  /\ (forall w op s', takes_open op -> run w op s = Some s' -> wake_writable w = true ->
        messages s' <> messages s ->
        exists q at_, q ≡ₚ messages s' /\ message_wake s' = queue_wake_deadline q at_).
Proof.
  pose proof (reachable_ok s Hr) as Hs. destruct (Hs) as [? ? Ho Hh]. rewrite Forall_forall in Ho, Hh.
  split_and!; [done..|apply reached_wake|]. intros w op s' Hop Hrun Hw Hne.
  destruct (run_next w op s s' Hs Hop Hrun) as [_ _ _ Hk]. by destruct (Hk Hw) as [?|[? _]].
Qed.

(** *** What an operation may overwrite *)

(** The ids a caller files a record under: the tail operations give theirs an
    id of their own. *)
Definition asked (op : QueueOp) : list text :=
  match op with
  | QueueTail _ _ | QueueBoundary _ _ _ => []
  | _ => match taken op with Some m => [message_id m] | None => [] end
  end.

(** The id a tail operation computes for [follow_up] is live for another card:
    the fresh id is not above the last live id of the follow-up's card, whose
    successor is the id of [x]. *)
Definition tail_collision w s (follow_up x : MessageRecord) : Prop :=
  x ∈ messages s /\ same_card x (message_card_ref follow_up) = false
  /\ exists last_, last_ ∈ messages s /\ same_card last_ (message_card_ref follow_up) = true
     /\ (forall y, y ∈ messages s -> same_card y (message_card_ref follow_up) = true ->
           text_leb (message_id y) (message_id last_) = true)
     /\ text_leb (fresh_id w 0) (message_id last_) = true
     /\ successor (message_id last_) = Some (message_id x).
Definition overwrites w op s (x : MessageRecord) : Prop :=
  match op with
  | QueueTail m _ | QueueBoundary m _ _ => tail_collision w s m x
  | _ => False
  end.

(** The ids the transactions count on: well formed, and not the last one. *)
Definition ids_ok (l : list MessageRecord) : Prop :=
  forall m, m ∈ l -> message_id_parse (message_id m) = Ok (message_id m)
    /\ message_id m <> str "msg_vvvvvvvvvvvvvvvv".

Lemma ids_ok_successor l m : ids_ok l -> m ∈ l -> is_Some (successor (message_id m)).
Proof.
  intros Hids Hm. destruct (Hids m Hm) as [Hp Hl].
  destruct (ShortIdFacts.successor_next _ Hp Hl) as (id & -> & _). by eexists.
Qed.

Lemma at_tail_inv t fresh m q :
  at_tail t fresh m = Some q ->
  message_id q = fresh
  \/ exists last_, last_ ∈ live t /\ same_card last_ (message_card_ref m) = true
       /\ (forall y, y ∈ live t -> same_card y (message_card_ref m) = true ->
             text_leb (message_id y) (message_id last_) = true)
       /\ text_leb fresh (message_id last_) = true
       /\ successor (message_id last_) = Some (message_id q).
Proof.
  unfold at_tail. destruct (max_by _ _ _) as [l|] eqn:E; [|intros [= <-]; by left].
  destruct (text_leb fresh (message_id l)) eqn:Ef; [|intros [= <-]; by left].
  destruct (successor (message_id l)) as [id|] eqn:Es; [|done]. intros [= <-]. right.
  pose proof (max_by_text _ _ _ E) as Hmax. apply max_by_elem, elem_of_filter_bool in E as [Hc Hl].
  exists l. split_and!; try done. intros y Hy Hyc. rewrite text_leb_ltb, Hmax; [done|].
  by apply elem_of_filter_bool.
Qed.

(** A tail id that is live is the id of another card's record. *)
Lemma inserted_id w op s x :
  store_ok s -> ids_ok (messages s) -> (forall n, message_id x <> fresh_id w n) -> x ∈ messages s ->
  message_id x ∈ inserts w op s -> message_id x ∈ asked op \/ overwrites w op s x.
Proof.
  intros Hs Hids Hfresh Hx.
  assert (Htail : forall f, message_id x ∈ match at_tail (Txn.new s) (fresh_id w 0) f with
                                           | Some q => [message_id q] | None => [] end ->
                  tail_collision w s f x).
  { intros f. destruct (at_tail _ _ f) as [q|] eqn:E; [|by intros ?%elem_of_nil].
    intros Hq%list_elem_of_singleton. apply at_tail_inv in E as [E|(l & Hl & Hc & Hmax & Hle & Hsu)].
    { destruct (Hfresh 0). congruence. }
    rewrite new_live in Hl, Hmax by done. rewrite <-Hq in Hsu. split; [done|]. split; [|by exists l].
    apply not_true_iff_false. intros Hxc. specialize (Hmax x Hx Hxc).
    destruct (Hids l Hl) as [Hp Hlast]. apply (ShortIdFacts.successor_above _ _ Hp Hlast) in Hsu.
    by rewrite text_leb_ltb, Hsu in Hmax. }
  destruct op; cbn [inserts asked overwrites]; auto.
Qed.

(** C1: no queue operation loses a message or closes it silently.  From every
    reachable store, when the history file takes the append
    ([history_writable]; otherwise the closed row is dropped with a warning),
    the record the operation puts in is open ([takes_open]), the live ids are
    well formed and not the last one, and none of them is one of the fresh
    ids the operation draws, the operation returns, and each live record is
    afterwards live as the same message -- its id, sender, threads, body,
    enqueue time, and its text unless this is an edit of it -- or it is in the
    history as that message with a terminal status and the event that reports
    that status.  The exceptions: the id the caller files a record under, the
    boundary follow-up's own record, which is filed under another id, and a
    record of another card whose id is the successor a tail operation computes
    for its follow-up: it is overwritten (C40). *)
Theorem queue_conserves_messages w op s
    (Hr : queue_reachable s) (Hop : takes_open op) (Hw : history_writable w = true)
    (Hids : ids_ok (messages s))
    (Hfresh : forall m n, m ∈ messages s -> message_id m <> fresh_id w n) :
  exists s', run w op s = Some s'
  /\ forall m, m ∈ messages s ->
       (exists m', m' ∈ messages s' /\ same_message (edits op) m' m)
       \/ (exists row ev, row ∈ history s' /\ same_message (edits op) row m
             /\ is_terminal (status row) = true /\ ev ∈ message_events s' /\ event_record ev = row
             /\ for_terminal_status (status row) = Some (event_method ev))
       \/ message_id m ∈ refiles op ++ asked op \/ overwrites w op s m.
Proof.
  pose proof (reachable_ok s Hr) as Hs.
  assert (Ht : tail_ok w op s).
  { destruct op; try done; cbn [tail_ok];
      (destruct (at_tail _ _ _) eqn:E; [by eexists|]);
      apply at_tail_None in E as (l & Hl & E);
      rewrite new_live in Hl by done; destruct (ids_ok_successor _ _ Hids Hl); congruence. }
  destruct (run_goes w op s Hs Hop Ht) as (s' & Hrun & [_ Hrows _ _]).
  exists s'. split; [done|]. intros m Hm.
  destruct Hrows as (cl & evs & Hh & He & Hcl & Hk). rewrite Hw in Hh.
  destruct (Hk m Hm) as [(m' & Hm' & Hsame)|[Hmv|[n Hn]]]; [| |by destruct (Hfresh m n Hm)].
  2:{ right. right. rewrite elem_of_app in *. destruct Hmv as [?|Hin]; [by left; left|].
      destruct (inserted_id w op s m Hs Hids (fun n => Hfresh m n Hm) Hm Hin); auto. }
  apply elem_of_app in Hm' as [Hm'|Hm']; [left; by exists m'|]. right. left.
  destruct (Hcl m' Hm') as (_ & ev & Hev & Her & Hmeth). exists m', ev.
  rewrite Hh, He, !elem_of_app. split_and!; auto. by destruct (status m').
Qed.

(** C32: a closed message never comes back: a record is live after an
    operation only if it was live before, or the operation was asked to
    queue it, or it is a notice filed under a fresh id. *)
Theorem queue_never_resurrects w op s s' m
    (Hr : queue_reachable s) (Hop : takes_open op) (Hrun : run w op s = Some s')
    (Hm : m ∈ messages s') :
  (exists m0, m0 ∈ messages s /\ message_id m0 = message_id m)
  \/ message_id m ∈ inserts w op s \/ exists n, message_id m = fresh_id w n.
Proof.
  destruct (run_next w op s s' (reachable_ok _ Hr) Hop Hrun) as [_ _ Ho _].
  destruct (Ho (message_id m)) as [Hl|?]; [apply elem_of_ids; eauto|left|by right].
  apply elem_of_ids in Hl as (m0 & ? & ?). by exists m0.
Qed.
End Reach.
