(* ===== verification/QueueDelivery.v ===== *)
(** * Delivery over the message queue

    What the claim, acknowledgement, failure, edit and reconcile operations of
    [Queue.v] do to each record: claims are exclusive, a stale claim is inert,
    an acknowledged paste closes exactly its batch, commands are never typed
    twice, resends are bounded, and senders hear of what was not delivered. *)

From S2P Require Import Prelude Ids Lifecycle Agents.
Import Agent ShortId ShortIdFacts.
From S2P Require Import Message Prompt Queue QueueFacts.
Import Txn.

(** ** [apply_all] as list functions *)

Definition kept (r : MessageRecord * MessageUpdate) : option MessageRecord :=
  match r.2 with Finalize _ _ => None | _ => Some r.1 end.
Definition closing (now : Z) (r : MessageRecord * MessageUpdate) : option MessageRecord :=
  match r.2 with Finalize st reason => Some (normalize_terminal r.1 st now reason) | _ => None end.
Definition touched (now : Z) (r : MessageRecord * MessageUpdate) : option MessageRecord :=
  match r.2 with
  | Keep => None
  | Finalize st reason => Some (normalize_terminal r.1 st now reason)
  | _ => Some r.1
  end.
Definition owed (session : text) (now : Z) (r : MessageRecord * MessageUpdate)
  : option (MessageRecord * option text * text) :=
  match r.2 with
  | Finalize st reason =>
      let m := normalize_terminal r.1 st now reason in
      if wants_undelivered_notice m then Some (m, reason, session) else None
  | _ => None
  end.
Definition changes (r : MessageRecord * MessageUpdate) : bool :=
  match r.2 with Keep => false | _ => true end.
Definition finalizes_ok (r : MessageRecord * MessageUpdate) : Prop :=
  match r.2 with Finalize st _ => is_terminal st = true | _ => True end.

Section ApplyEq.
Context {S : Type} (update : S -> MessageRecord -> S * MessageRecord * MessageUpdate)
  (f : MessageRecord -> MessageRecord * MessageUpdate) (session : text) (now : Z).
Context (Hf : forall s m, ((update s m).1.2, (update s m).2) = f m).

Lemma apply_loop_eq s t updated rest :
  Forall (fun m => finalizes_ok (f m)) rest ->
  exists s' t', apply_loop update session now s t updated rest
      = Some (s', updated ++ omap (touched now) (map f rest), t')
    /\ live t' = live t ++ omap kept (map f rest)
    /\ closed_rows t' = closed_rows t ++ omap (closing now) (map f rest)
    /\ undelivered t' = undelivered t ++ omap (owed session now) (map f rest)
    /\ live_changed t' = live_changed t || existsb changes (map f rest).
Proof using Hf.
  revert s t updated. induction rest as [|m rest IH]; intros s t updated Hok.
  { exists s, t. cbn. by rewrite !app_nil_r, orb_false_r. }
  apply Forall_cons in Hok as [Hm Hok]. cbn [apply_loop map].
  pose proof (Hf s m) as E. destruct (update s m) as [[s1 m1] u]. cbn [fst snd] in E.
  rewrite <-E in Hm |- *. unfold finalizes_ok in Hm. cbn [snd] in Hm. destruct u as [| |k r|st r].
  - edestruct (IH s1) as (s' & t' & -> & Hl & Hc & Hu & Hch); [done|]. exists s', t'.
    rewrite Hl, Hc, Hu, Hch. cbn. by rewrite <-app_assoc.
  - edestruct (IH s1) as (s' & t' & -> & Hl & Hc & Hu & Hch); [done|]. exists s', t'.
    rewrite Hl, Hc, Hu, Hch. cbn. by rewrite <-!app_assoc, orb_true_r.
  - edestruct (IH s1) as (s' & t' & -> & Hl & Hc & Hu & Hch); [done|]. exists s', t'.
    rewrite Hl, Hc, Hu, Hch. cbn. by rewrite <-!app_assoc, orb_true_r.
  - destruct (terminal_method _ Hm) as [k Hk].
    destruct (close_eq (t <| live_changed := true |>) m1 st session r now k Hk)
      as (t2 & -> & Hl2 & Hch2 & Hcl2 & Hst2 & Hu2).
    edestruct (IH s1) as (s' & t' & -> & Hl & Hc & Hu & Hch); [done|]. exists s', t'.
    rewrite Hl, Hc, Hu, Hch, Hl2, Hch2, Hcl2, Hu2. cbn.
    rewrite <-!app_assoc, orb_true_r. split_and!; try done.
    by destruct (wants_undelivered_notice _).
Qed.
End ApplyEq.


(** A closure that keeps every record changes nothing. *)
Lemma apply_all_with_keeps {S} (update : S -> MessageRecord -> S * MessageRecord * MessageUpdate)
    session now s t :
  (forall s m, m ∈ live t -> exists s', update s m = (s', m, Keep)) ->
  exists s', apply_all_with update session now s t = Some (s', [], t).
Proof.
  intros Hk. unfold apply_all_with.
  assert (forall rest u s, (forall s m, m ∈ rest -> exists s', update s m = (s', m, Keep)) ->
    exists s', apply_loop update session now s (t <| live := u |>) [] rest
               = Some (s', [], t <| live := u ++ rest |>)) as Hloop.
  { intros rest. induction rest as [|m rest IH]; intros u s0 Hr; cbn [apply_loop].
    - exists s0. by rewrite app_nil_r.
    - destruct (Hr s0 m) as [s1 ->]; [by left|]. destruct (IH (u ++ [m]) s1) as [s' E].
      + intros s2 x Hx. apply Hr. by right.
      + exists s'. etransitivity; [apply E|]. by rewrite <-app_assoc. }
  destruct (Hloop (live t) [] s Hk) as [s' ->]. exists s'. by destruct t.
Qed.
Lemma apply_all_keeps t session now f :
  (forall m, m ∈ live t -> f m = (m, Keep)) -> apply_all t session now f = Some ([], t).
Proof.
  intros Hk. unfold apply_all.
  destruct (apply_all_with_keeps (fun (_ : unit) m => let '(m, u) := f m in (tt, m, u))
              session now tt t) as [s' ->]; [|done].
  intros s m Hm. exists tt. by rewrite (Hk m Hm).
Qed.

Section Delivery.
Context `{Env} `{TimeDisplay}.

Lemma finish_new w s : finish w s (Txn.new s) = s.
Proof.
  unfold finish. cbn. rewrite !app_nil_r. destruct s, (history_writable w); done.
Qed.

Lemma commit_unchanged {T} w s (r : T) f : f (Txn.new s) = Some (r, Txn.new s) ->
  commit_queue w s f = Some (r, s).
Proof. intros E. unfold commit_queue. rewrite E. cbn [notify undelivered Txn.new]. by rewrite finish_new. Qed.

Lemma elem_of_new s m : m ∈ live (Txn.new s) <-> m ∈ messages s.
Proof. cbn. by rewrite (sort_by_Permutation message_id text_leb). Qed.

(** ** Claims *)

Lemma holds_takeover c m now : last_attempt_at c <> Some now -> holds c (claim_record m now) = false.
Proof.
  intros Hne. unfold holds. rewrite (bool_decide_eq_false_2 (last_attempt_at c = _)) by done.
  by rewrite andb_false_r.
Qed.
Lemma holds_unclaimed c m : status m <> Status.Claimed -> holds c m = false.
Proof.
  intros Hne. unfold holds. rewrite (bool_decide_eq_false_2 (status m = _)) by done.
  by rewrite andb_false_r.
Qed.
Lemma no_holder held m :
  (forall c, c ∈ held -> holds c m = false) -> existsb (fun c => holds c m) held = false.
Proof.
  intros Hn. apply not_true_iff_false. rewrite existsb_exists.
  intros (c & Hc%list_elem_of_In & Hh). by rewrite (Hn c Hc) in Hh.
Qed.

Lemma failures_unchanged w s held disposition error session :
  (forall m, m ∈ messages s -> existsb (fun c => holds c m) held = false) ->
  exists r, Store.record_message_delivery_failures w held disposition error session s = Some (r, s).
Proof.
  intros Hno. unfold Store.record_message_delivery_failures.
  destruct (head held) as [first|]; [|exists false; by apply commit_unchanged].
  match goal with |- context [commit_queue w s ?f] => assert (exists r, f (Txn.new s) = Some (r, Txn.new s))
    as [r E]; [|exists r; by apply commit_unchanged] end.
  cbv beta zeta. match goal with |- context [apply_all_with ?u _ _ _ _] =>
    destruct (apply_all_with_keeps u session (clock w) false (Txn.new s)) as [r ->] end.
  - intros b m Hm%elem_of_new. rewrite Hno by done. by eexists.
  - by exists r.
Qed.

(** C31: a claim that was lost is inert: when none of the records a sender
    holds matches a live claim (the record was requeued, taken over at
    another time, sent or closed), releasing, holding, failing or erroring
    those claims leaves the whole store as it is, so one sender never ends
    the attempt of another. *)
Theorem stale_claim_is_inert w s held note hold compacted session disposition error
    (Hstale : forall c m, c ∈ held -> m ∈ messages s ->
      status m <> Status.Claimed \/ attempts m <> attempts c \/ last_attempt_at m <> last_attempt_at c
      \/ message_id m <> message_id c) :
  Store.release_message_claims w held note session s = Some ([], s)
  /\ Store.hold_message_claims w held hold compacted session s = Some ([], s)
  /\ (exists head_sent, Store.record_message_delivery_failures w held disposition error session s
                        = Some (head_sent, s))
  /\ (forall c, c ∈ held -> Store.record_send_error w c error session s = Some (None, s)).
Proof.
  assert (Hno : forall c m, c ∈ held -> m ∈ messages s -> holds c m = false).
  { intros c m Hc Hm. unfold holds. destruct (Hstale c m Hc Hm) as [E|[E|[E|E]]].
    - rewrite (bool_decide_eq_false_2 (status m = _)) by done. by rewrite andb_false_r.
    - rewrite (bool_decide_eq_false_2 (attempts c = _)) by done. by rewrite andb_false_r.
    - rewrite (bool_decide_eq_false_2 (last_attempt_at c = _)) by done. by rewrite andb_false_r.
    - by rewrite (bool_decide_eq_false_2 (message_id c = _)) by done. }
  assert (Hno' : forall m, m ∈ messages s -> existsb (fun c => holds c m) held = false).
  { intros m Hm. apply no_holder. auto. }
  assert (Hfind : forall m, m ∈ messages s -> List.find (fun c => holds c m) held = None).
  { intros m Hm. destruct (List.find _ _) as [c|] eqn:E; [|done].
    apply find_some in E as [Hc%list_elem_of_In E]. by rewrite Hno in E. }
  split_and!.
  - apply commit_unchanged. apply apply_all_keeps. intros m Hm%elem_of_new. by rewrite Hno'.
  - apply commit_unchanged. apply apply_all_keeps. intros m Hm%elem_of_new. by rewrite Hfind.
  - by apply failures_unchanged.
  - intros c Hc. apply commit_unchanged. cbv beta.
    destruct (ofilter _ _) as [m|] eqn:Eo; [|done].
    apply ofilter_Some in Eo as [[_ Hm%elem_of_new]%get_spec Hh]. by rewrite Hno in Hh.
Qed.

(** *** The claimed records *)

Lemma claim_loop_exact l indices now l' claimed :
  NoDup indices -> claim_loop l indices now = Some (l', claimed) ->
  (forall i, i ∉ indices -> l' !! i = l !! i)
  /\ (forall i m, i ∈ indices -> l !! i = Some m ->
        l' !! i = Some (claim_record m now) /\ claim_record m now ∈ claimed)
  /\ (forall c, c ∈ claimed -> exists i m, i ∈ indices /\ l !! i = Some m
        /\ c = claim_record m now /\ l' !! i = Some c).
Proof.
  revert l l' claimed. induction indices as [|i indices IH]; intros l l' claimed Hnd; cbn [claim_loop].
  { intros [= <- <-]. split_and!; [done|by intros i m ?%elem_of_nil|by intros c ?%elem_of_nil]. }
  apply NoDup_cons in Hnd as [Hi Hnd].
  destruct (l !! i) as [m|] eqn:Em; [|done].
  destruct (claim_loop _ indices now) as [[l2 cl]|] eqn:E; [|done]. intros [= <- <-].
  destruct (IH _ _ _ Hnd E) as (Hout & Hin & Hcl). pose proof (lookup_lt_Some _ _ _ Em) as Hlt.
  split_and!.
  - intros j Hj. apply not_elem_of_cons in Hj as [Hne Hj]. rewrite Hout by done.
    by rewrite list_lookup_insert_ne.
  - intros j x Hj Hx. apply elem_of_cons in Hj as [->|Hj].
    + rewrite Hx in Em. injection Em as ->. rewrite (Hout i Hi), list_lookup_insert_eq by done.
      split; [done|by left].
    + assert (j <> i) by by intros ->. destruct (Hin j x Hj) as [? ?].
      { by rewrite list_lookup_insert_ne. }
      split; [done|by right].
  - intros c Hc. apply elem_of_cons in Hc as [->|Hc].
    + exists i, m. split_and!; [by left|done|done|]. by rewrite (Hout i Hi), list_lookup_insert_eq.
    + destruct (Hcl c Hc) as (j & x & Hj & Hx & -> & Hl). exists j, x.
      assert (j <> i) by by intros ->. rewrite list_lookup_insert_ne in Hx by done.
      split_and!; [by right|done..].
Qed.

(** A record that may be claimed: open, and held by nobody. *)
Definition claimable (m : MessageRecord) (now : Z) : Prop :=
  is_open (status m) = true /\ claim_expired (last_attempt_at m) now = true.

Lemma batch_claimable live_ id st now indices :
  delivery_batch_indices live_ id st now = Some indices ->
  NoDup indices /\ indices <> []
  /\ forall i, i ∈ indices -> exists m, live_ !! i = Some m /\ claimable m now.
Proof.
  unfold delivery_batch_indices. destruct (position _ _) as [h|]; [|done].
  destruct (live_ !! h) as [hd|] eqn:Eh; [|done].
  destruct (_ || existsb _ _) eqn:Eg; [done|]. rewrite !orb_false_iff, !negb_false_iff in Eg.
  destruct Eg as [[[[Eq _] _] Ee] _]. apply bool_decide_eq_true in Eq.
  assert (Hhd : claimable hd now) by by (split; [rewrite Eq|]).
  case_if; intros [= <-].
  - split_and!; [by apply NoDup_singleton|done|]. intros i ->%list_elem_of_singleton. by exists hd.
  - destruct (batch_loop_spec hd st now live_ (S h) _ eq_refl) as (Hs & Hin & _). split_and!; [|done|].
    + apply NoDup_cons. split; [intros (? & _)%Hin; lia|].
      clear -Hs. induction Hs as [|a l Hl IH Hall]; constructor; [|done].
      rewrite Forall_forall in Hall. intros Ha%Hall. lia.
    + intros i. rewrite elem_of_cons. intros [->|Hi]; [by exists hd|].
      destruct (Hin i Hi) as (_ & m & Hm & Hl & Hex & _). exists m. split; [done|]. split; [|done].
      unfold in_lane in Hl. rewrite !andb_true_iff in Hl. tauto.
Qed.

Lemma claim_fresh t now : (t <= now)%Z -> (now < t + CLAIM_TTL)%Z -> claim_expired (Some t) now = false.
Proof.
  intros H1 H2. unfold claim_expired, as_secs, CLAIM_TTL, SECOND in *.
  rewrite orb_false_iff, Z.ltb_ge, Z.leb_gt. split; [lia|].
  rewrite Z.quot_mul by done. apply Z.quot_lt_upper_bound; lia.
Qed.

Lemma commit_no_notice {T} w s (r : T) f t :
  f (Txn.new s) = Some (r, t) -> undelivered t = [] ->
  commit_queue w s f = Some (r, finish w s (t <| undelivered := [] |>)).
Proof. intros E Hu. unfold commit_queue. rewrite E, Hu. done. Qed.

Lemma elem_of_finish w s t m :
  live_changed t = true -> m ∈ messages (finish w s t) <-> m ∈ live t.
Proof.
  intros Hc. cbn. rewrite Hc. by rewrite (sort_by_Permutation message_id text_leb).
Qed.

(** What a claim of [indices] leaves on disk. *)
Lemma claim_commit w s indices now t claimed :
  NoDup indices -> indices <> [] -> claim_indices (Txn.new s) indices now = Some (claimed, t) ->
  undelivered t = [] /\ claimed <> [] /\
  let s' := finish w s (t <| undelivered := [] |>) in
  (forall c, c ∈ claimed -> c ∈ messages s' /\ exists i m, i ∈ indices /\ live (Txn.new s) !! i = Some m
      /\ c = claim_record m now)
  /\ (forall m, m ∈ messages s -> message_id m ∉ ids claimed -> m ∈ messages s').
Proof.
  intros Hnd Hne E.
  unfold claim_indices in E. destruct (claim_loop _ _ _) as [[l cl]|] eqn:El; [|done].
  injection E as <- <-. split; [done|].
  destruct (claim_loop_exact _ _ _ _ _ Hnd El) as (Hout & Hin & Hcl).
  assert (Hch : negb (is_empty cl) = true).
  { destruct indices as [|i indices]; [done|]. cbn [claim_loop] in El.
    destruct (_ !! i); [|done]. destruct (claim_loop _ indices now) as [[]|]; [|done].
    by injection El as _ <-. }
  split; [by destruct cl|]. split.
  - intros c Hc. destruct (Hcl c Hc) as (i & m & Hi & Hm & -> & Hl).
    split; [|by exists i, m]. apply elem_of_finish; [done|]. by eapply list_elem_of_lookup_2.
  - intros m Hm Hid. apply elem_of_new, list_elem_of_lookup_1 in Hm as [i Hi].
    apply elem_of_finish; [done|].
    destruct (decide (i ∈ indices)) as [Hii|Hii].
    + destruct (Hin i m Hii Hi) as [_ Hc]. destruct Hid. apply elem_of_ids. by exists (claim_record m now).
    + rewrite <-(Hout i Hii) in Hi. by eapply list_elem_of_lookup_2.
Qed.

Lemma claim_batch_inv w s id st now claimed s' :
  Store.claim_delivery_batch w id st now s = Some (Some claimed, s') ->
  exists cl, cl <> [] /\ Forall2 (fun c c0 => exists b, c = c0 <| batch_id := b |>) claimed cl
    /\ (forall c, c ∈ cl -> c ∈ messages s' /\ exists m, m ∈ messages s /\ claimable m now
          /\ c = claim_record m now)
    /\ (forall m, m ∈ messages s -> message_id m ∉ ids cl -> m ∈ messages s').
Proof.
  unfold Store.claim_delivery_batch. destruct (commit_queue _ _ _) as [[r s1]|] eqn:E; [|done].
  destruct r as [cl|]; [|done]. intros [= <- <-]. unfold commit_queue in E.
  destruct (delivery_batch_indices _ _ _ _) as [indices|] eqn:Ed.
  2:{ by injection E. }
  destruct (batch_claimable _ _ _ _ _ Ed) as (Hnd & Hne & Hcl).
  destruct (claim_indices _ _ _) as [[cl' t]|] eqn:Ec; [|done].
  destruct (claim_commit w s _ _ _ _ Hnd Hne Ec) as (Hu & Hc0 & Hin & Hout).
  rewrite Hu in E. injection E as <- <-. exists cl'. split_and!; [done| |..].
  - assert (Forall2 (fun c c0 => exists b, c = c0 <| batch_id := b |>) cl' cl') as Hrefl.
    { clear. induction cl' as [|c l IH]; constructor; [|done]. exists (batch_id c). by destruct c. }
    destruct cl' as [|c1 [|c2 l]]; [done..|].
    change (map ?f (c1 :: c2 :: l)) with (f <$> (c1 :: c2 :: l)). apply Forall2_fmap_l.
    eapply Forall2_impl; [exact Hrefl|]. intros a b [bb ->]. by eexists.
  - intros c Hc. destruct (Hin c Hc) as (? & i & m & Hi & Hm & ->). split; [done|].
    destruct (Hcl i Hi) as (m' & Hm' & ?). rewrite Hm in Hm'. injection Hm' as <-.
    exists m. split_and!; [|done..]. by apply elem_of_new, (list_elem_of_lookup_2 _ i).
  - done.
Qed.

Lemma holds_claimed c m : c = m -> status m = Status.Claimed -> forall b, holds (c <| batch_id := b |>) m = true.
Proof.
  intros -> Hst b. unfold holds. rewrite !andb_true_iff, !bool_decide_eq_true. by split_and!.
Qed.

(** A record a batch claim returns is held by nobody whose claim lives. *)
Lemma claimed_batch_expired w s id st now claimed s' x :
  store_ok s -> Store.claim_delivery_batch w id st now s = Some (Some claimed, s') ->
  x ∈ messages s -> message_id x ∈ ids claimed -> claim_expired (last_attempt_at x) now = true.
Proof.
  intros Hs E Hx Hid. destruct (claim_batch_inv _ _ _ _ _ _ _ E) as (cl & _ & Hf2 & Hin & _).
  assert (Hids : ids claimed = ids cl).
  { clear -Hf2. induction Hf2 as [|c c0 l l0 [b ->] _ IH]; [done|]. cbn. by f_equal. }
  rewrite Hids in Hid. apply elem_of_ids in Hid as (c & Hcid & Hc).
  destruct (Hin c Hc) as (_ & y & Hy & [_ Hexp] & ->).
  by rewrite <-(ids_inj (messages s) y x) by (done || apply so_nodup, Hs).
Qed.

(** C12: a batch claim is exclusive.  Every record the claimer gets was open
    and held by nobody, and its live record now carries the claimer's hold;
    every other live record is untouched.  From then on, in every valid store
    that later operations may leave -- whatever ran in between -- in which the
    live record still carries that hold, until the claim's lifetime ends no
    batch claim returns the record and no steer claims it.  A hold that an
    operation took off the record before that (the claimer released, held
    back, failed or sent it) protects it no longer. *)
Theorem batch_claim_is_exclusive w s id st now claimed s'
    (Hs : store_ok s) (Hclaim : Store.claim_delivery_batch w id st now s = Some (Some claimed, s')) :
  claimed <> []
  /\ (forall c, c ∈ claimed ->
        (exists m, m ∈ messages s /\ message_id m = message_id c /\ is_open (status m) = true
           /\ claim_expired (last_attempt_at m) now = true)
        /\ exists m', m' ∈ messages s' /\ holds c m' = true)
  /\ (forall m, m ∈ messages s -> message_id m ∉ ids claimed -> m ∈ messages s')
  /\ forall s1 w' now' c, store_ok s1 -> c ∈ claimed ->
       (exists m', m' ∈ messages s1 /\ holds c m' = true) ->
       (now <= now')%Z -> (now' < now + CLAIM_TTL)%Z ->
       (forall id' st' claimed' s2, Store.claim_delivery_batch w' id' st' now' s1 = Some (Some claimed', s2) ->
          message_id c ∉ ids claimed')
       /\ Store.claim_message_for_steer w' (message_id c) now' s1 = Some (None, s1).
Proof.
  destruct (claim_batch_inv _ _ _ _ _ _ _ Hclaim) as (cl & Hne & Hf2 & Hin & Hout).
  assert (Hids : ids claimed = ids cl).
  { clear -Hf2. induction Hf2 as [|c c0 l l0 [b ->] _ IH]; [done|]. cbn. by f_equal. }
  assert (Hfrom : forall c, c ∈ claimed -> exists c0 b, c0 ∈ cl /\ c = c0 <| batch_id := b |>).
  { intros c Hc. apply list_elem_of_lookup_1 in Hc as [i Hi].
    destruct (Forall2_lookup_l _ _ _ _ _ Hf2 Hi) as (c0 & Hc0 & b & ->).
    exists c0, b. split; [|done]. by eapply list_elem_of_lookup_2. }
  assert (Hok' : store_ok s').
  { pose proof (claim_batch_goes w s Hs id st now) as (s2 & E & [? _ _]).
    rewrite Hclaim in E. by injection E as <-. }
  split_and!.
  - intros ->. inversion Hf2. by subst.
  - intros c Hc. destruct (Hfrom c Hc) as (c0 & b & Hc0 & ->).
    destruct (Hin c0 Hc0) as (Hl & m & Hm & [Ho Hx] & ->). split.
    + by exists m.
    + exists (claim_record m now). split; [done|]. by apply holds_claimed.
  - intros m Hm Hid. apply Hout; [done|]. by rewrite <-Hids.
  - intros s1 w' now' c Hs1 Hc (m' & Hm' & Hh) Hle Hlt.
    assert (Hnow : last_attempt_at c = Some now).
    { destruct (Hfrom c Hc) as (c0 & b & Hc0 & ->). by destruct (Hin c0 Hc0) as (_ & m & _ & _ & ->). }
    clear Hc. unfold holds in Hh. rewrite !andb_true_iff, !bool_decide_eq_true in Hh.
    destruct Hh as [[[Hid Hst] _] Hat].
    rewrite Hnow in Hat. split.
    + intros id' st' claimed' s2 E' Hbad. rewrite Hid in Hbad.
      pose proof (claimed_batch_expired _ _ _ _ _ _ _ _ Hs1 E' Hm' Hbad) as Hexp.
      by rewrite <-Hat, claim_fresh in Hexp.
    + apply commit_unchanged. cbv beta. destruct (position _ _) as [i|] eqn:Ep; [|done].
      apply position_Some in Ep as (x & Hx & Hb & _). apply andb_true_iff in Hb as [Hb1%with_id_true Hb2].
      apply list_elem_of_lookup_2, elem_of_new in Hx.
      rewrite (ids_inj (messages s1) x m') in Hb2; [by rewrite Hst in Hb2|apply so_nodup, Hs1|done..|congruence].
Qed.

(** ** Acknowledgements *)






(** ** Reconciliation *)

(** What holds an overdue write back: the receiver compacts, hook frames of
    its window are not applied yet, or the provider was just resumed. *)
Definition held_back (m : MessageRecord) (agents : list AgentState) (pending : list (text * Z)) now : bool :=
  let last_sent_at := unwrap_or (last_sent_at m) (updated_at m) in
  let window := delivery_window (body m) in
  existsb (held_by_compaction m) agents
  || existsb (fun '(source, ts) =>
       bool_decide (source = kind m) && (last_sent_at <=? ts)%Z && (ts <? last_sent_at + window)%Z) pending
  || (resends_unconfirmed (body m)
      && existsb (fun agent =>
           same_agent_card m agent
           && is_some_and (resumed_at agent) (fun resumed_at =>
                (resumed_at <=? last_sent_at)%Z
                && (now <? resumed_at + window * PROVIDER_START_HOLD_WINDOWS)%Z)) agents).

(** What reconciliation does with a record whose paste is on screen.
    Before its deadline, nothing.  Past it, a held-back write stays on
    screen and waits one more window; otherwise a slash command is timed out
    and never typed again, while a prompt goes back to the queue, free to be
    claimed, with one more unconfirmed send, until the sends reach the cap
    and it is timed out too. *)
Theorem reconcile_sent_outcomes agents pending now max_attempts report m
    (Hsent : status m = Status.Sent) (Hwrap : soft_compact m <> Some WrapUp) :
  let deadline := unwrap_or (retry_after m)
                    (unwrap_or (last_sent_at m) (updated_at m) + delivery_window (body m))%Z in
  let '(report', m', u) := reconcile_update agents pending now max_attempts report m in
  if (now <? deadline)%Z then (report', m', u) = (report, m, Keep)
  else if held_back m agents pending now then
    u = SilentRewrite /\ status m' = Status.Sent
    /\ retry_after m' = Some (now + delivery_window (body m))%Z
    /\ unconfirmed_sends m' = unconfirmed_sends m
  else if bool_decide (body m = Command) || (max_attempts <=? unconfirmed_sends m)%N then
    u = Finalize Status.TimedOut (Some (str "reconcile")) /\ timed_out report' = (timed_out report + 1)%N
  else
    u = Rewrite Method.Queued (Some (str "reconcile")) /\ status m' = Status.Queued
    /\ last_attempt_at m' = None /\ batch_id m' = None /\ attempts m' = attempts m
    /\ unconfirmed_sends m' = saturating_add_u32 (unconfirmed_sends m) 1
    /\ msg_text m' = msg_text m.
Proof.
  cbv zeta. unfold reconcile_update, expired, awaiting_registration, sent_reconcile_deadline.
  rewrite Hsent. rewrite (bool_decide_eq_false_2 (soft_compact m = _)) by done.
  rewrite !(bool_decide_eq_false_2 (Status.Sent = _)) by done.
  rewrite (bool_decide_eq_true_2 (Status.Sent = Status.Sent)) by done. cbn [andb negb].
  destruct (now <? _)%Z; [done|]. unfold held_back.
  destruct (existsb (held_by_compaction m) agents); [by cbn|]. cbn [orb].
  destruct (existsb _ pending); [by cbn|]. cbn [orb].
  destruct (resends_unconfirmed (body m) && _) eqn:Er; [by cbn|].
  destruct (body m) eqn:Eb; cbn [resends_unconfirmed negb].
  - rewrite (bool_decide_eq_false_2 (Prompt = Command)) by done. cbn [orb].
    rewrite N.ltb_antisym. destruct (max_attempts <=? unconfirmed_sends m)%N; cbn; by split_and?.
  - rewrite (bool_decide_eq_true_2 (Command = Command)) by done. by cbn.
Qed.

Lemma reconcile_report_free agents pending now max_attempts r1 r2 m :
  ((reconcile_update agents pending now max_attempts r1 m).1.2,
   (reconcile_update agents pending now max_attempts r1 m).2)
  = ((reconcile_update agents pending now max_attempts r2 m).1.2,
     (reconcile_update agents pending now max_attempts r2 m).2).
Proof.
  unfold reconcile_update. case_if; [by case_if|]. case_if; [done|].
  destruct (if awaiting_registration m agents then _ else None); [done|].
  case_if.
  { destruct (fail_delivery m Retry _ now) as [m' u]. by destruct u. }
  case_if; [done|]. destruct (sent_reconcile_deadline m); [|done].
  case_if; [done|]. case_if.
  { unfold settle_wrap_up. case_if; [done|]. by case_if. }
  case_if; [done|]. case_if; [done|]. case_if; [done|]. case_if; [done|]. by case_if.
Qed.

Lemma elem_of_replace_or_push m x l : message_id m <> message_id x -> x ∈ l -> x ∈ replace_or_push m l.
Proof.
  intros Hne. induction l as [|y l IH]; cbn [replace_or_push]; [by intros ?%elem_of_nil|].
  rewrite elem_of_cons. intros [->|Hx].
  - unfold with_id. rewrite bool_decide_eq_false_2 by congruence. by left.
  - destruct (with_id _ y); [by right|]. right. auto.
Qed.
Lemma elem_of_replaced m l : m ∈ replace_or_push m l.
Proof.
  induction l as [|y l IH]; cbn [replace_or_push]; [by left|]. destruct (with_id _ y); [by left|by right].
Qed.

(** The ids drawn in a transaction are new. *)
Definition fresh_for (w : World) (l : list MessageRecord) : Prop :=
  (forall n m, m ∈ l -> fresh_id w n <> message_id m)
  /\ forall i j, fresh_id w i = fresh_id w j -> i = j.

Lemma notify_keeps w n t rows m :
  (forall k, n <= k -> fresh_id w k <> message_id m) -> m ∈ live t -> m ∈ live (notify w n t rows).
Proof.
  revert n t. induction rows as [|[[record reason] session] rows IH]; intros n t Hn Hm; cbn [notify]; [done|].
  destruct (resolve_sender _ _) as [card|]; [|by apply IH].
  apply IH; [intros k Hk; apply Hn; lia|]. cbn. apply elem_of_replace_or_push; [|done].
  cbn. apply Hn. lia.
Qed.
Lemma notify_closed w n t rows : closed_rows (notify w n t rows) = closed_rows t.
Proof.
  revert n t. induction rows as [|[[record reason] session] rows IH]; intros n t; cbn [notify]; [done|].
  destruct (resolve_sender _ _) as [card|]; by rewrite IH.
Qed.
Lemma notify_changed w n t rows : live_changed t = true -> live_changed (notify w n t rows) = true.
Proof.
  revert n t. induction rows as [|[[record reason] session] rows IH]; intros n t Ht; cbn [notify]; [done|].
  destruct (resolve_sender _ _) as [card|]; by apply IH.
Qed.

(** A reconcile pass, record by record. *)
Definition reconcile_one agents pending now max_attempts (m : MessageRecord)
  : MessageRecord * MessageUpdate :=
  let r := reconcile_update agents pending now max_attempts
    {| held_on_ingress := 0; requeued := 0; timed_out := 0; abandoned := 0; expired_count := 0 |} m in
  (r.1.2, r.2).

Lemma reconcile_commit w s session now max_attempts :
  store_ok s ->
  exists agents pending report t rows,
    let steps := map (reconcile_one agents pending now max_attempts) (live (Txn.new s)) in
    Store.reconcile_stale_messages w session now max_attempts s
      = Some (report, finish w s (notify w 0 t rows))
    /\ live t = omap kept steps /\ closed_rows t = omap (closing now) steps
    /\ live_changed t = existsb changes steps.
Proof.
  intros Hs. unfold Store.reconcile_stale_messages, commit_queue. cbv beta zeta.
  match goal with |- context [apply_all_with (reconcile_update ?a ?p _ _) session now ?r _] =>
    exists a, p; set (agents := a); set (pending := p); set (r0 := r) end.
  destruct (apply_loop_eq (reconcile_update agents pending now max_attempts)
      (reconcile_one agents pending now max_attempts) session now)
    with (s := r0) (t := Txn.new s <| live := [] |>)
    (updated := @nil MessageRecord) (rest := live (Txn.new s)) as (r & t & E & Hl & Hc & Hu & Hch).
  { intros r x. apply reconcile_report_free. }
  { apply Forall_forall. intros x Hx%elem_of_new. unfold finalizes_ok.
    assert (Ho : is_terminal (status x) = false).
    { pose proof (so_open s Hs) as Hall. rewrite Forall_forall in Hall. auto. }
    pose proof (reconcile_safe agents pending now max_attempts r0 x Ho) as [_ Hsafe].
    cbn [fst snd] in Hsafe.
    change (match (reconcile_update agents pending now max_attempts r0 x).2 with
            | Finalize st _ => is_terminal st = true | _ => True end).
    by destruct (reconcile_update agents pending now max_attempts r0 x).2. }
  unfold apply_all_with. rewrite E. eexists _, _, _. split; [done|].
  by case_if; (split; [exact Hl|split; [exact Hc|exact Hch]]).
Qed.

Lemma fail_delivery_retry m error now :
  fail_delivery m Retry error now
  = (requeue m now error <| last_attempt_at := None |>,
     if (MAX_DELIVERY_ATTEMPTS <=? attempts m)%N then Finalize Status.Abandoned (Some error)
     else SilentRewrite).
Proof.
  unfold fail_delivery. rewrite (decide_True (P := Retry = Retry)) by reflexivity.
  rewrite (decide_False (P := Retry = Terminal)) by discriminate. reflexivity.
Qed.

Lemma reconcile_expired_claim agents pending now max_attempts m :
  status m = Status.Claimed -> claim_expired (last_attempt_at m) now = true ->
  soft_compact m <> Some WrapUp ->
  let reason := str "claim expired; sender gone" in
  reconcile_one agents pending now max_attempts m
  = (requeue m now reason <| last_attempt_at := None |>,
     if (MAX_DELIVERY_ATTEMPTS <=? attempts m)%N
     then Finalize Status.Abandoned (Some reason) else Rewrite Method.Queued (Some reason)).
Proof.
  intros Hclaimed Hexp Hwrap reason.
  unfold reconcile_one, reconcile_update, expired, awaiting_registration. rewrite Hclaimed, Hexp.
  rewrite (bool_decide_eq_false_2 (soft_compact m = _)) by done.
  rewrite (bool_decide_eq_false_2 (Status.Claimed = Status.Queued)) by done.
  rewrite (bool_decide_eq_true_2 (Status.Claimed = Status.Claimed)) by done. cbn [andb]. rewrite fail_delivery_retry.
  destruct (_ <=? _)%N; reflexivity.
Qed.

Lemma reconcile_expired_wrap_up agents pending now max_attempts m :
  status m = Status.Claimed -> claim_expired (last_attempt_at m) now = true ->
  soft_compact m = Some WrapUp ->
  reconcile_one agents pending now max_attempts m
  = (m, Finalize Status.Canceled (Some (str "soft-compaction wrap-up was not sent; not retried"))).
Proof.
  intros Hclaimed Hexp Hwrap. unfold reconcile_one, reconcile_update. rewrite Hclaimed, Hwrap.
  rewrite (bool_decide_eq_true_2 (Some WrapUp = Some WrapUp)) by done. cbn [andb is_open].
  rewrite (decide_True (P := Status.Claimed = Status.Claimed)) by done. by rewrite Hexp.
Qed.

(** C30: a claim whose sender died is settled by the next reconcile pass,
    whichever record it is on.  The wrap-up prompt of a soft compaction is
    closed as canceled, since it is never typed late; any other record is live
    again, queued, claimable at once and with its text and attempt count,
    while attempts are left, and at the attempt cap it is closed as abandoned
    instead of being tried for ever.  A closed record is in the history if the
    history file takes the append ([history_writable]). *)
Theorem expired_claim_is_recovered w s session now max_attempts m
    (Hs : store_ok s) (Hfresh : fresh_for w (messages s)) (Hm : m ∈ messages s)
    (Hclaimed : status m = Status.Claimed) (Hexp : claim_expired (last_attempt_at m) now = true) :
  exists report s', Store.reconcile_stale_messages w session now max_attempts s = Some (report, s')
  /\ let closed_as st :=
       history_writable w = true ->
       exists row, row ∈ history s' /\ message_id row = message_id m /\ status row = st in
     if bool_decide (soft_compact m = Some WrapUp) then closed_as Status.Canceled
     else if (attempts m <? MAX_DELIVERY_ATTEMPTS)%N
     then exists m', m' ∈ messages s' /\ message_id m' = message_id m /\ status m' = Status.Queued
            /\ claim_expired (last_attempt_at m') now = true /\ attempts m' = attempts m
            /\ msg_text m' = msg_text m
     else closed_as Status.Abandoned.
Proof.
  destruct (reconcile_commit w s session now max_attempts Hs)
    as (agents & pending & report & t & rows & E & Hl & Hc & Hch).
  eexists _, _. split; [exact E|]. cbv zeta.
  assert (Hin : reconcile_one agents pending now max_attempts m
                ∈ map (reconcile_one agents pending now max_attempts) (live (Txn.new s))).
  { apply list_elem_of_In, in_map, list_elem_of_In. by apply elem_of_new. }
  assert (Hclosed : forall m1 st reason,
    reconcile_one agents pending now max_attempts m = (m1, Finalize st reason) ->
    message_id m1 = message_id m -> history_writable w = true ->
    exists row, row ∈ history (finish w s (notify w 0 t rows)) /\ message_id row = message_id m
      /\ status row = st).
  { intros m1 st reason Em Hid Hw. exists (normalize_terminal m1 st now reason). split_and!.
    - cbn. rewrite Hw, notify_closed, Hc, elem_of_app. right.
      apply list_elem_of_omap. eexists. split; [exact Hin|]. by rewrite Em.
    - by rewrite normalize_terminal_id.
    - apply normalize_terminal_status. }
  case_bool_decide as Hwrap.
  { by eapply Hclosed; [apply reconcile_expired_wrap_up|]. }
  pose proof (reconcile_expired_claim agents pending now max_attempts m Hclaimed Hexp Hwrap) as Hf.
  rewrite N.ltb_antisym. rewrite Hf in Hin, Hclosed.
  assert (Hchg : live_changed t = true).
  { rewrite Hch. apply existsb_exists. eexists. split; [by apply list_elem_of_In, Hin|].
    by destruct (_ <=? _)%N. }
  destruct (_ <=? _)%N; cbn [negb].
  - by eapply Hclosed.
  - exists (requeue m now (str "claim expired; sender gone") <| last_attempt_at := None |>).
    split; [|repeat split].
    apply elem_of_finish; [by apply notify_changed|]. apply notify_keeps.
    + intros k _. apply (proj1 Hfresh k m Hm).
    + rewrite Hl. apply list_elem_of_omap. eexists. split; [exact Hin|done].
Qed.

(** ** Order at the tail *)

Lemma at_tail_above t fresh m q l :
  (forall x, x ∈ live t -> message_id_parse (message_id x) = Ok (message_id x)
     /\ message_id x <> str "msg_vvvvvvvvvvvvvvvv") ->
  at_tail t fresh m = Some q -> l ∈ live t -> same_card l (message_card_ref m) = true ->
  text_ltb (message_id l) (message_id q) = true.
Proof.
  intros Hids Hq Hl Hcard. unfold at_tail in Hq.
  destruct (max_by _ _ _) as [top|] eqn:Etop.
  - pose proof (max_by_text _ _ _ Etop l) as Hmax.
    rewrite elem_of_filter_bool in Hmax. specialize (Hmax (conj Hcard Hl)).
    apply max_by_elem, elem_of_filter_bool in Etop as [_ Htop].
    assert (Habove : text_ltb (message_id top) (message_id q) = true).
    { destruct (text_leb fresh (message_id top)) eqn:Ef.
      - destruct (successor (message_id top)) as [id|] eqn:Es; [|done]. injection Hq as <-.
        destruct (Hids top Htop). by eapply successor_above.
      - injection Hq as <-. rewrite text_leb_ltb in Ef. by apply negb_false_iff in Ef. }
    destruct (decide (message_id l = message_id top)) as [->|Hne]; [done|].
    destruct (text_ltb_total _ _ Hne) as [Hlt|Hgt]; [|congruence].
    by eapply text_ltb_trans.
  - exfalso. assert (Hin : l ∈ List.filter (fun l => same_card l (message_card_ref m)) (live t)).
    { by apply elem_of_filter_bool. }
    destruct (List.filter _ _) as [|x xs]; [by apply elem_of_nil in Hin|]. simpl in Etop.
    by destruct (max_by _ _ xs) as [z|]; [destruct (text_ltb _ _)|].
Qed.

(** A message queued at the tail keeps its content and sorts strictly
    after every live message of its card, even when the clock that draws
    fresh ids lags behind the ids on disk; the other records stay, as long
    as the id it takes is free. *)
Theorem tail_message_sorts_last w s m session
    (Hs : store_ok s)
    (Hids : forall x, x ∈ messages s -> message_id_parse (message_id x) = Ok (message_id x)
              /\ message_id x <> str "msg_vvvvvvvvvvvvvvvv") :
  exists queued s', Store.queue_tail_message w m session s = Some (queued, s')
    /\ queued = m <| message_id := message_id queued |> /\ queued ∈ messages s'
    /\ (forall l, l ∈ messages s -> same_card l (message_card_ref m) = true ->
          text_ltb (message_id l) (message_id queued) = true)
    /\ (message_id queued ∉ ids (messages s) -> forall l, l ∈ messages s -> l ∈ messages s').
Proof.
  destruct (at_tail (Txn.new s) (fresh_id w 0) m) as [q|] eqn:Eq.
  2:{ exfalso. apply at_tail_None in Eq as (l & Hl%elem_of_new & Hn).
      destruct (Hids l Hl) as [Hp _]. destruct (message_id_parse_inv _ Hp) as (v & Hv & E).
      rewrite E, successor_encode in Hn by done. done. }
  assert (Hcommit : Store.queue_tail_message w m session s
    = Some (q, finish w s (stage_event (upsert (Txn.new s) q) (Store.queued_event q session)
                           <| undelivered := [] |>))).
  { apply commit_no_notice; [by rewrite Eq|done]. }
  eexists _, _. split; [exact Hcommit|]. split_and!.
  - unfold at_tail in Eq. destruct (max_by _ _ _); [|by injection Eq as <-].
    destruct (text_leb _ _); [|by injection Eq as <-]. destruct (successor _); [|done].
    by injection Eq as <-.
  - apply elem_of_finish; [done|]. apply elem_of_replaced.
  - intros l Hl Hc. eapply at_tail_above; [|exact Eq|by apply elem_of_new|done].
    intros x Hx%elem_of_new. auto.
  - intros Hfree l Hl. apply elem_of_finish; [done|]. apply elem_of_replace_or_push; [|by apply elem_of_new].
    intros E. apply Hfree. rewrite E. apply elem_of_ids. eauto.
Qed.

Lemma elem_of_replace_unique l m x id :
  NoDup (ids l) -> id ∈ ids l -> message_id m = id ->
  x ∈ replace_or_push m l <-> x = m \/ (x ∈ l /\ message_id x <> id).
Proof.
  intros Hnd Hid Hm. destruct (replace_or_push_spec m l) as [(a & y & b & -> & Hy & ->)|[Hn _]].
  2:{ by rewrite Hm in Hn. }
  rewrite ids_mid in Hnd. apply NoDup_app in Hnd as (_ & Hab & [Hyb _]%NoDup_cons).
  assert (Ha : forall z, z ∈ a -> message_id z <> id).
  { intros z Hz E. apply (Hab id); [apply elem_of_ids; eauto|]. rewrite <-Hm, Hy. by left. }
  assert (Hb : forall z, z ∈ b -> message_id z <> id).
  { intros z Hz E. apply Hyb. rewrite <-Hy, Hm. apply elem_of_ids. eauto. }
  rewrite !elem_of_app, !elem_of_cons. split.
  - intros [Hx|[->|Hx]]; [right|by left|right]; split; auto.
  - intros [->|[[Hx|[->|Hx]] Hne]]; auto. exfalso. apply Hne. congruence.
Qed.

(** ** A collision at the tail *)

(** On a collision the tail operation takes the id of the other card's
    record. *)
Lemma at_tail_collision w s m x :
  store_ok s -> tail_collision w s m x ->
  at_tail (Txn.new s) (fresh_id w 0) m = Some (m <| message_id := message_id x |>).
Proof.
  intros Hs (_ & _ & l & Hl & Hc & Hmax & Hle & Hsu). unfold at_tail. rewrite new_live by done.
  assert (Hin : l ∈ List.filter (fun l => same_card l (message_card_ref m)) (messages s)).
  { by apply elem_of_filter_bool. }
  destruct (max_by message_id text_ltb (List.filter _ _)) as [top|] eqn:E.
  - pose proof (max_by_text _ _ _ E l Hin) as Htop.
    apply max_by_elem, elem_of_filter_bool in E as [Ht1 Ht2].
    assert (Heq : message_id top = message_id l).
    { apply text_leb_antisym; [by apply Hmax|]. by rewrite text_leb_ltb, Htop. }
    rewrite Heq, Hle, Hsu. reflexivity.
  - exfalso. destruct (List.filter _ _) as [|y ys]; [by apply elem_of_nil in Hin|]. simpl in E.
    by destruct (max_by _ _ ys) as [z|]; [destruct (text_ltb _ _)|].
Qed.

(** C40: queueing at the tail destroys the message of another card whenever
    the fresh id is not above the last live id of the follow-up's card and the
    successor of that id is live for another card ([tail_collision]).  On any
    valid store the operation then succeeds and files the follow-up under that
    id; the other card's message is no longer live and is not in the history
    either, which with the closing events is as it was, so its sender never
    hears of it.  It is the only record lost. *)
Theorem tail_overwrites_other_card w s m session x
    (Hs : store_ok s) (Hcol : tail_collision w s m x) :
  exists queued s', Store.queue_tail_message w m session s = Some (queued, s')
    /\ queued = m <| message_id := message_id x |>
    /\ x ∈ messages s /\ x ∉ messages s'
    /\ (forall y, y ∈ messages s' <-> y = queued \/ (y ∈ messages s /\ y <> x))
    /\ history s' = history s
    /\ message_events s' = message_events s ++ [message_event queued session Method.Queued None].
Proof.
  pose proof (at_tail_collision w s m x Hs Hcol) as Eq. destruct Hcol as (Hx & Hcard & _).
  set (q := m <| message_id := message_id x |>) in *.
  assert (Hcommit : Store.queue_tail_message w m session s
    = Some (q, finish w s (stage_event (upsert (Txn.new s) q) (Store.queued_event q session)
                           <| undelivered := [] |>))).
  { apply commit_no_notice; [by rewrite Eq|done]. }
  assert (Hne : x <> q).
  { intros E. rewrite E in Hcard. change (matches (message_card_ref m) (message_card_ref m) = false) in Hcard.
    by rewrite matches_refl in Hcard. }
  assert (Hall : forall y, y ∈ messages (finish w s (stage_event (upsert (Txn.new s) q)
      (Store.queued_event q session) <| undelivered := [] |>)) <-> y = q \/ (y ∈ messages s /\ y <> x)).
  { intros y. rewrite elem_of_finish by done. cbn [live stage_event upsert].
    change (y ∈ replace_or_push q (live (Txn.new s)) <-> y = q \/ (y ∈ messages s /\ y <> x)).
    rewrite new_live by done.
    rewrite (elem_of_replace_unique (messages s) q y (message_id x));
      [|apply Hs|apply elem_of_ids; by exists x|done].
    split; (intros [->|[Hy Hd]]; [by left|right; split; [done|]]); [congruence|].
    intros E. apply Hd. by apply (ids_inj (messages s)); [apply Hs| | |]. }
  eexists q, _. split; [exact Hcommit|]. split_and!; [done|done| |exact Hall| |done].
  - rewrite Hall. intros [?|[_ ?]]; done.
  - cbn. by destruct (history_writable w); rewrite ?app_nil_r.
Qed.

(** ** The editing operation *)

(** Only a queued message is edited.  The edit replaces that record and
    no other, keeps its id, card, sender and status, clears its retry clock
    and reports the changed fields; a record that is claimed, on screen,
    closed or unknown is reported as such and the store is left as it is. *)
Theorem edit_touches_queued_only w s id edit session (Hs : store_ok s) :
  match List.find (with_id id) (messages s) with
  | Some m =>
      if bool_decide (status m = Status.Queued) then
        exists m' s', Store.edit_message w id edit session s = Some (Edited m', s')
          /\ message_id m' = id /\ status m' = Status.Queued /\ retry_after m' = None
          /\ kind m' = kind m /\ agent_id m' = agent_id m /\ sender m' = sender m
          /\ msg_text m' = unwrap_or (edit_text edit) (msg_text m)
          /\ (forall x, x ∈ messages s' <-> x = m' \/ (x ∈ messages s /\ message_id x <> id))
          /\ history s' = history s
          /\ message_events s' = message_events s ++
               [message_event m' session Method.Edited (Some (join (str ", ") (changed_fields edit)))]
      else Store.edit_message w id edit session s = Some (NotOpen (status m), s)
  | None =>
      Store.edit_message w id edit session s
      = Some (match List.find (with_id id) (list_history s) with
              | Some m => NotOpen (status m) | None => NotFound end, s)
  end.
Proof.
  assert (Hget : Txn.get (Txn.new s) id = List.find (with_id id) (messages s)).
  { unfold Txn.get. by rewrite new_live. }
  unfold Store.edit_message. rewrite <-Hget.
  destruct (Txn.get (Txn.new s) id) as [m|] eqn:Eg.
  2:{ apply commit_unchanged. by rewrite Eg. }
  case_if.
  2:{ apply commit_unchanged. rewrite Eg. by rewrite Heqb. }
  destruct (get_spec _ _ _ Eg) as [Hid Hm%elem_of_new]. apply bool_decide_eq_true in Heqb as Hst.
  set (m' := apply_edit edit m <| retry_after := None |> <| updated_at := clock w |>).
  assert (Hid' : message_id m' = id) by by (change (message_id (apply_edit edit m) = id); rewrite (same_id _ _ _ (apply_edit_same edit m))).
  eexists m', _. split.
  { apply commit_no_notice; [rewrite Eg, Heqb; cbn [negb]; reflexivity|done]. }
  split_and!; [exact Hid'| |done|..].
  - change (status (apply_edit edit m) = Status.Queued). by rewrite apply_edit_status.
  - change (kind (apply_edit edit m) = kind m). unfold apply_edit. by repeat case_match.
  - change (agent_id (apply_edit edit m) = agent_id m). unfold apply_edit. by repeat case_match.
  - change (sender (apply_edit edit m) = sender m). unfold apply_edit. by repeat case_match.
  - change (msg_text (apply_edit edit m) = unwrap_or (edit_text edit) (msg_text m)).
    unfold apply_edit. by repeat case_match.
  - intros x. rewrite elem_of_finish by done. cbn [live stage_event upsert].
    change (x ∈ replace_or_push m' (live (Txn.new s)) <-> x = m' \/ (x ∈ messages s /\ message_id x <> id)).
    rewrite new_live by done. by apply elem_of_replace_unique; [apply Hs|apply elem_of_ids; exists m|].
  - cbn. by destruct (history_writable w); rewrite ?app_nil_r.
  - done.
Qed.

(** ** Sender notices *)

Lemma notify_keeps_event w n t rows ev : ev ∈ staged t -> ev ∈ staged (notify w n t rows).
Proof.
  revert n t. induction rows as [|[[record reason] session] rows IH]; intros n t Hev; cbn [notify]; [done|].
  destruct (resolve_sender _ _) as [card|]; [|by apply IH]. apply IH. cbn. rewrite elem_of_app. by left.
Qed.

Lemma notify_tells w n t rows record reason session card :
  (forall i j, fresh_id w i = fresh_id w j -> i = j) ->
  (record, reason, session) ∈ rows -> resolve_sender (sender record) (snapshot_agents w) = Some card ->
  exists k, let notice := compose (fresh_id w k) (store_workspace w) card MessageUndelivered
                            (undelivered_text record reason) (clock w) in
    notice ∈ live (notify w n t rows) /\ live_changed (notify w n t rows) = true
    /\ message_event notice session Method.Queued None ∈ staged (notify w n t rows).
Proof.
  intros Hinj. revert n t. induction rows as [|[[r1 reason1] session1] rows IH]; intros n t Hin Hcard;
    [by apply elem_of_nil in Hin|].
  apply elem_of_cons in Hin as [[= <- <- <-]|Hin].
  - exists n. cbn [notify]. rewrite Hcard. split_and!.
    + apply notify_keeps; [|apply elem_of_replaced]. intros k Hk E. apply Hinj in E. lia.
    + by apply notify_changed.
    + apply notify_keeps_event. cbn. rewrite elem_of_app. right. by left.
  - cbn [notify]. destruct (resolve_sender (sender r1) _); by apply IH.
Qed.

(** The agent behind a message that times out is told: when an overdue
    paste of a resolvable sender is timed out, the sender's card has a queued
    notice that carries the failure's text, with its event, and that notice
    can never owe a further one, so notices do not breed. *)
Theorem timed_out_sender_is_told w s m session reason card
    (Hs : store_ok s) (Hfresh : fresh_for w (messages s)) (Hm : m ∈ messages s)
    (Hsent : status m = Status.Sent) (Hwait : reply_wait m = false)
    (Hcard : resolve_sender (sender m) (snapshot_agents w) = Some card) :
  exists row s' notice,
    Store.mark_message_timed_out w (message_id m) session reason s = Some (Some row, s')
    /\ message_id row = message_id m /\ status row = Status.TimedOut
    /\ notice ∈ messages s' /\ same_agent_card notice card = true /\ status notice = Status.Queued
    /\ sender notice = Sender.Harness MessageUndelivered
    /\ msg_text notice = undelivered_text row (Some (unwrap_or reason (str "delivery window elapsed")))
    /\ message_event notice session Method.Queued None ∈ message_events s'
    /\ forall st, wants_undelivered_notice (notice <| status := st |>) = false.
Proof.
  set (why := unwrap_or reason (str "delivery window elapsed")).
  set (m1 := m <| last_error := Some why |>).
  set (row := normalize_terminal m1 Status.TimedOut (clock w) (Some why)).
  assert (Hget : Txn.get (Txn.new s) (message_id m) = Some m).
  { destruct (Txn.get (Txn.new s) (message_id m)) as [x|] eqn:Eg.
    - apply get_spec in Eg as [Hid Hx%elem_of_new]. f_equal. eapply ids_inj; try done. apply Hs.
    - apply get_None in Eg. destruct Eg. rewrite new_live by done. apply elem_of_ids. eauto. }
  assert (Hsender : sender row = sender m) by reflexivity.
  assert (Hrow : wants_undelivered_notice row = true).
  { unfold wants_undelivered_notice. rewrite Hsender.
    change (reply_wait row) with (reply_wait m). change (status row) with Status.TimedOut. rewrite Hwait.
    unfold resolve_sender in Hcard. by destruct (sender m). }
  assert (Hterm : exists t, terminalize (Txn.new s) m1 Status.TimedOut session (Some why) (clock w)
                            = Some (row, t) /\ undelivered t = [(row, Some why, session)]).
  { unfold terminalize.
    match goal with |- context [close ?t0 _ _ _ _ _] =>
      destruct (close_eq t0 m1 Status.TimedOut session (Some why) (clock w) Method.TimedOut eq_refl)
        as (t & E & _ & _ & _ & _ & Hu) end.
    exists t. split; [exact E|]. rewrite Hu. fold row. rewrite Hrow. by destruct (position _ _). }
  destruct Hterm as (t & Ht & Hu).
  destruct (notify_tells w 0 (t <| undelivered := [] |>) [(row, Some why, session)] row (Some why) session card)
    as (k & Hn & Hch & Hev); [apply Hfresh|by left|by rewrite Hsender|].
  eexists row, _, _. split.
  { unfold Store.mark_message_timed_out, commit_queue. cbv beta zeta. rewrite Hget. cbn [ofilter].
    rewrite Hsent. rewrite (bool_decide_eq_true_2 (Status.Sent = Status.Sent)) by done.
    fold why m1. rewrite Ht, Hu. reflexivity. }
  split_and!; [done|done| | | | | | |].
  - apply elem_of_finish; [exact Hch|exact Hn].
  - unfold same_agent_card, same_card.
    change (matches (message_card_ref (compose (fresh_id w k) (store_workspace w) card MessageUndelivered
              (undelivered_text row (Some why)) (clock w))) (card_ref card))
      with (matches (card_ref card) (card_ref card)). apply matches_refl.
  - done.
  - done.
  - done.
  - cbn. rewrite elem_of_app. right. exact Hev.
  - done.
Qed.
End Delivery.

(** ** Concrete runs *)

Module QueueSample.
Import Sample.
#[export] Instance seconds : TimeDisplay := fun at_ => show_N (Z.to_N (as_secs at_)).
Definition world : World :=
  {| clock := 100; finish_clock := 101; snapshot_agents := [AgentFacts.resting];
     fresh_id := fun n => str "msg_z" ++ repeat 122%N n; pending_ingress := [];
     history_writable := true; wake_writable := true; store_workspace := str "ws" |}.
Definition store_of (l : list MessageRecord) : MessageStore :=
  {| messages := l; history := []; message_events := []; message_wake := queue_wake_deadline l 0 |}.

Definition steps (ops : list QueueOp) : option MessageStore :=
  foldl (fun s op => let! s := s else None in run world op s) (Some empty_store) ops.

Lemma fresh_injective i j : fresh_id world i = fresh_id world j -> i = j.
Proof.
  cbn [world fresh_id]. intros E%app_inv_head. apply (f_equal length) in E. by rewrite !repeat_length in E.
Qed.

Lemma store_of_ok l :
  StronglySorted by_id l -> NoDup (ids l) -> Forall (fun m => is_terminal (status m) = false) l ->
  store_ok (store_of l).
Proof. intros. split; try done; constructor. Qed.
End QueueSample.
Import Sample QueueSample.

Lemma sample_reached (ok : World -> Prop) ops s :
  ok world -> Forall (fun op => takes_open op) ops -> steps ops = Some s -> reached ok s.
Proof.
  intros Hok. unfold steps. assert (forall s0, reached ok s0 -> Forall (fun op => takes_open op) ops ->
    foldl (fun s op => let! s := s else None in run world op s) (Some s0) ops = Some s ->
    reached ok s) as Hgen; [|intros; eapply Hgen; eauto using reach_empty].
  induction ops as [|op ops IH]; intros s0 Hs0 Hall; cbn [foldl]; [by intros [= <-]|].
  apply Forall_cons in Hall as [Hop Hall]. destruct (run world op s0) as [s1|] eqn:E.
  - apply IH; [by eapply reach_run|done].
  - clear. induction ops as [|x l IHl]; [done|exact IHl].
Qed.

Lemma sample_reachable ops s :
  Forall (fun op => takes_open op) ops -> steps ops = Some s -> queue_reachable s.
Proof. by apply sample_reached. Qed.

(** Two prompts queued, claimed as one batch, and typed. *)
Definition typed_ops : list QueueOp :=
  [QueueMessage (msg id1 (str "a")) (str "s"); QueueMessage (msg id2 (str "b")) (str "s");
   ClaimDeliveryBatch id1 Idle 50].
Lemma typed_ops_open : Forall (fun op => takes_open op) typed_ops.
Proof. repeat constructor; intros m [= <-]; reflexivity. Qed.

Definition claimed_store : MessageStore := default empty_store (steps typed_ops).
Definition claimed_batch : list MessageRecord :=
  match Store.claim_delivery_batch world id1 Idle 50 (default empty_store (steps (take 2 typed_ops))) with
  | Some (Some claimed, _) => claimed
  | _ => []
  end.
Definition sent_store : MessageStore :=
  default empty_store (run world (RecordSentBatch claimed_batch (str "s")) claimed_store).

Example claimed_batch_ids : map message_id claimed_batch = [id1; id2].
Proof. by vm_compute. Qed.
Example sent_statuses : map status (messages sent_store) = [Status.Sent; Status.Sent].
Proof. by vm_compute. Qed.

Lemma steps_reachable : queue_reachable claimed_store.
Proof. apply (sample_reachable typed_ops _ typed_ops_open). by vm_compute. Qed.
Lemma sent_reachable : queue_reachable sent_store.
Proof.
  eapply (reach_run _ world (RecordSentBatch claimed_batch (str "s"))); [exact steps_reachable|done|done|].
  by vm_compute.
Qed.
Lemma claimed_written : reached (fun w => wake_writable w = true) claimed_store.
Proof. apply (sample_reached _ typed_ops _); [done|exact typed_ops_open|by vm_compute]. Qed.

Lemma queue_reachable_valid_witness :
  queue_reachable claimed_store /\ length (messages claimed_store) = 2
  /\ NoDup (map message_id (messages claimed_store))
  /\ exists q at_, q ≡ₚ messages claimed_store /\ message_wake claimed_store = queue_wake_deadline q at_.
Proof.
  split; [exact steps_reachable|]. split; [by vm_compute|].
  destruct (queue_reachable_valid claimed_store steps_reachable) as (_ & Hnd & _ & _ & Hwake & _).
  split; [exact Hnd|apply Hwake, claimed_written].
Defined.

Lemma sent_ids_ok : ids_ok (messages sent_store).
Proof.
  unfold ids_ok. apply Forall_forall. assert (E : map message_id (messages sent_store) = [id1; id2]) by by vm_compute.
  destruct (messages sent_store) as [|a [|b [|]]]; try done. injection E as Ha Hb.
  repeat apply Forall_cons_2; rewrite ?Ha, ?Hb; try done; (split; [by vm_compute|discriminate]).
Qed.

Lemma sent_not_fresh : forall m n, m ∈ messages sent_store -> message_id m <> fresh_id world n.
Proof.
  intros m n Hm. revert m Hm. apply Forall_forall.
  assert (E : map message_id (messages sent_store) = [id1; id2]) by by vm_compute.
  destruct (messages sent_store) as [|a [|b [|]]]; try done. injection E as Ha Hb.
  repeat constructor; rewrite ?Ha, ?Hb; by vm_compute.
Qed.

Lemma queue_conserves_messages_witness :
  let op := MarkTimedOut id1 (str "s") None in
  exists s', run world op sent_store = Some s'
  /\ forall m, m ∈ messages sent_store ->
       (exists m', m' ∈ messages s' /\ same_message (edits op) m' m)
       \/ (exists row ev, row ∈ history s' /\ same_message (edits op) row m
             /\ is_terminal (status row) = true /\ ev ∈ message_events s' /\ event_record ev = row
             /\ for_terminal_status (status row) = Some (event_method ev))
       \/ message_id m ∈ refiles op ++ asked op \/ overwrites world op sent_store m.
Proof.
  intros op. apply (queue_conserves_messages world op sent_store);
    [exact sent_reachable|done|done|exact sent_ids_ok|exact sent_not_fresh].
Defined.

Lemma queue_never_resurrects_witness :
  exists s', run world (RetireMessage id1 (str "s") (str "why")) sent_store = Some s'
  /\ forall m, m ∈ messages s' ->
       (exists m0, m0 ∈ messages sent_store /\ message_id m0 = message_id m)
       \/ message_id m ∈ inserts world (RetireMessage id1 (str "s") (str "why")) sent_store
       \/ exists n, message_id m = fresh_id world n.
Proof.
  destruct (run world (RetireMessage id1 (str "s") (str "why")) sent_store) as [s'|] eqn:E.
  - exists s'. split; [done|]. intros m Hm.
    apply (queue_never_resurrects world (RetireMessage id1 (str "s") (str "why")) sent_store s' m);
      [exact sent_reachable|done|exact E|exact Hm].
  - exfalso. by vm_compute in E.
Defined.

Lemma stale_claim_is_inert_witness :
  Store.release_message_claims world claimed_batch (str "note") (str "s") sent_store = Some ([], sent_store).
Proof.
  destruct (stale_claim_is_inert world sent_store claimed_batch (str "note")
           {| until := 0; replay := None; hold_force := false |} false (str "s") Retry (str "e"))
    as (H & _); [|exact H].
  intros c m _ Hm. left.
  assert (E : map status (messages sent_store) = [Status.Sent; Status.Sent]) by by vm_compute.
  destruct (messages sent_store) as [|a [|b [|]]]; try done. injection E as Ha Hb.
  apply elem_of_cons in Hm as [->|Hm]; [by rewrite Ha|].
  apply list_elem_of_singleton in Hm as ->. by rewrite Hb.
Defined.

Lemma batch_claim_is_exclusive_witness :
  map message_id claimed_batch = [id1; id2]
  /\ forall c, c ∈ claimed_batch ->
       (exists m', m' ∈ messages claimed_store /\ holds c m' = true)
       /\ Store.claim_message_for_steer world (message_id c) 60 claimed_store = Some (None, claimed_store).
Proof.
  split; [by vm_compute|].
  destruct (batch_claim_is_exclusive world (default empty_store (steps (take 2 typed_ops))) id1 Idle 50
              claimed_batch claimed_store) as (_ & H & _ & Hex).
  - apply reachable_ok, (sample_reachable (take 2 typed_ops)); [|by vm_compute].
    apply Forall_take, typed_ops_open.
  - by vm_compute.
  - intros c Hc. destruct (H c Hc) as [_ Hh]. split; [exact Hh|].
    apply (Hex claimed_store world 60%Z c); try done. apply reachable_ok, steps_reachable.
Defined.



Definition overdue : MessageRecord := msg id3 (str "/compact") <| status := Status.Sent |> <| last_sent_at := Some 0%Z |>.
Lemma reconcile_sent_outcomes_witness :
  let '(report', m', u) :=
    reconcile_update [] [] (60 * SECOND)%Z 3
      {| held_on_ingress := 0; requeued := 0; timed_out := 0; abandoned := 0; expired_count := 0 |} overdue in
  u = Rewrite Method.Queued (Some (str "reconcile")) /\ unconfirmed_sends m' = 1%N.
Proof.
  pose proof (reconcile_sent_outcomes [] [] (60 * SECOND)%Z 3
      {| held_on_ingress := 0; requeued := 0; timed_out := 0; abandoned := 0; expired_count := 0 |} overdue
      eq_refl ltac:(discriminate)) as Hr.
  destruct (reconcile_update _ _ _ _ _ _) as [[r m'] u]. cbv zeta in Hr.
  change ((60 * SECOND <? unwrap_or (retry_after overdue)
    (unwrap_or (last_sent_at overdue) (updated_at overdue) + delivery_window (body overdue)))%Z) with false in Hr.
  change (held_back overdue [] [] (60 * SECOND)%Z) with false in Hr.
  change (bool_decide (body overdue = Command) || (3 <=? unconfirmed_sends overdue)%N) with false in Hr.
  destruct Hr as (H1 & _ & _ & _ & _ & H2 & _). by split.
Defined.

Lemma claimed_m1 : exists m, m ∈ messages claimed_store /\ status m = Status.Claimed
  /\ claim_expired (last_attempt_at m) (20 * SECOND)%Z = true /\ soft_compact m <> Some WrapUp
  /\ attempts m = 1%N.
Proof.
  destruct (messages claimed_store) as [|a l] eqn:E; [by vm_compute in E|].
  exists a. vm_compute in E. injection E as <- _. split; [by left|]. by split_and!.
Qed.
Lemma claimed_fresh : fresh_for world (messages claimed_store).
Proof.
  split; [|exact fresh_injective]. intros n. apply Forall_forall.
  assert (E : map message_id (messages claimed_store) = [id1; id2]) by by vm_compute.
  destruct (messages claimed_store) as [|a [|b [|]]]; try done. injection E as Ha Hb.
  repeat constructor; rewrite ?Ha, ?Hb; discriminate.
Qed.

Lemma expired_claim_is_recovered_witness :
  exists m report s' m', Store.reconcile_stale_messages world (str "s") (20 * SECOND)%Z 3 claimed_store
      = Some (report, s')
    /\ m' ∈ messages s' /\ message_id m' = message_id m /\ status m' = Status.Queued.
Proof.
  destruct claimed_m1 as (m & Hm & Hst & Hexp & Hw & Ha).
  destruct (expired_claim_is_recovered world claimed_store (str "s") (20 * SECOND)%Z 3 m)
    as (report & s' & E & Hif); try done.
  - apply reachable_ok, steps_reachable.
  - exact claimed_fresh.
  - rewrite Ha, bool_decide_eq_false_2 in Hif by done. destruct Hif as (m' & ? & ? & ? & _). by exists m, report, s', m'.
Defined.

Lemma tail_message_sorts_last_witness :
  exists queued s', Store.queue_tail_message world (msg id1 (str "c")) (str "s") claimed_store = Some (queued, s')
    /\ queued ∈ messages s'.
Proof.
  destruct (tail_message_sorts_last world claimed_store (msg id1 (str "c")) (str "s"))
    as (q & s' & E & _ & Hin & _).
  - apply reachable_ok, steps_reachable.
  - apply Forall_forall.
    assert (E : map message_id (messages claimed_store) = [id1; id2]) by by vm_compute.
    destruct (messages claimed_store) as [|a [|b [|]]]; try done. injection E as Ha Hb.
    repeat constructor; rewrite ?Ha, ?Hb; by vm_compute.
  - by exists q, s'.
Defined.

Lemma edit_touches_queued_only_witness :
  exists st, Store.edit_message world id1
    {| edit_text := Some (str "z"); edit_gate := None; edit_not_before := None; edit_force := None;
       edit_enter := None; edit_auto_compact := None |} (str "s") claimed_store = Some (NotOpen st, claimed_store).
Proof.
  pose proof (edit_touches_queued_only world claimed_store id1
    {| edit_text := Some (str "z"); edit_gate := None; edit_not_before := None; edit_force := None;
       edit_enter := None; edit_auto_compact := None |} (str "s")
    (reachable_ok _ steps_reachable)) as He.
  destruct (List.find (with_id id1) (messages claimed_store)) as [m|] eqn:E; [|by vm_compute in E].
  assert (Hq : bool_decide (status m = Status.Queued) = false).
  { vm_compute in E. by injection E as <-. }
  rewrite Hq in He. by eexists.
Defined.

Definition from_peer : MessageRecord :=
  msg id3 (str "hello") <| sender := Sender.Agent (str "claude") (Some (str "s1")) None None None None |>
  <| status := Status.Sent |>.
Lemma timed_out_sender_is_told_witness :
  exists row s' notice,
    Store.mark_message_timed_out world id3 (str "s") None (store_of [from_peer]) = Some (Some row, s')
    /\ notice ∈ messages s' /\ sender notice = Sender.Harness MessageUndelivered.
Proof.
  destruct (timed_out_sender_is_told world (store_of [from_peer]) from_peer (str "s") None AgentFacts.resting)
    as (row & s' & notice & E & _ & _ & Hn & _ & _ & Hs & _); try (by vm_compute).
  - apply store_of_ok; repeat constructor. by apply not_elem_of_nil.
  - split; [|exact fresh_injective]. intros n x ->%list_elem_of_singleton. discriminate.
  - by left.
  - by exists row, s', notice.
Defined.

(** Two cards share the queue and the id clock lags. *)
Definition lagging_world : World :=
  {| clock := 100; finish_clock := 101; snapshot_agents := [];
     fresh_id := fun _ => str "msg_0000000000000000"; pending_ingress := [];
     history_writable := true; wake_writable := true; store_workspace := str "ws" |}.
Definition other_card : MessageRecord :=
  new_for_card id2 (str "ws") (str "codex") (str "s9") None (str "for the other agent") true Done 0.

Lemma tail_overwrites_other_card_witness :
  let s := store_of [msg id1 (str "a"); other_card] in
  tail_collision lagging_world s (msg id3 (str "c")) other_card
  /\ exists queued s', Store.queue_tail_message lagging_world (msg id3 (str "c")) (str "s") s = Some (queued, s')
       /\ message_id queued = id2 /\ other_card ∉ messages s' /\ history s' = [].
Proof.
  intros s.
  assert (Hs : store_ok s).
  { apply store_of_ok; [repeat constructor; by vm_compute| |repeat constructor].
    apply (bool_decide_unpack (NoDup (ids [msg id1 (str "a"); other_card]))). by vm_compute. }
  assert (Hcol : tail_collision lagging_world s (msg id3 (str "c")) other_card).
  { split; [right; by left|]. split; [by vm_compute|]. exists (msg id1 (str "a")).
    split_and!; [by left|by vm_compute| |by vm_compute..].
    intros y [->|[->|Hy%elem_of_nil]%elem_of_cons]%elem_of_cons; by vm_compute. }
  split; [exact Hcol|].
  destruct (tail_overwrites_other_card lagging_world s (msg id3 (str "c")) (str "s") other_card Hs Hcol)
    as (queued & s' & E & Hq & _ & Hn & _ & Hh & _).
  exists queued, s'. split_and!; [exact E|by rewrite Hq|exact Hn|exact Hh].
Defined.
