(* ===== verification/Workflow.v ===== *)
(** * Workflow definitions ([crates/rimz/src/harness/workflow])

    A workflow is a graph of checks and steps joined by outcomes.  This file
    models the definition and its accessors ([spec.rs]), the cleanup of fields
    that do not apply ([spec/tolerant/clean.rs]), the graph ([graph.rs]) and
    the validation that admits a definition ([validate.rs]).

    A [BTreeMap] the code iterates over is the list of its entries in key
    order; one it only inserts into and looks up is a [gmap].  The fields the
    engine does not read -- wakes, providers, notes, the scope -- are left out,
    and the validators of files, profiles and condition terms are a parameter
    ([Validators]).  Warnings, the ignored fields and the node rows are not
    modelled. *)

From S2P Require Import Prelude.

Definition lookup_key {V} (k : text) (l : list (text * V)) : option V :=
  option_map snd (List.find (fun e => bool_decide (e.1 = k)) l).
Definition contains_key {V} (k : text) (l : list (text * V)) : bool := is_some (lookup_key k l).
(** [BTreeSet::from_iter], in order. *)
Definition btree_set (l : list text) : list text := sort_by id text_leb (remove_dups l).

(** ** The definition ([spec.rs]) *)

Record Issue := { issue_path : text; message : text }.
Definition issue (path msg : text) : Issue :=
  {| issue_path := path; message := path ++ str ": " ++ msg |}.

Inductive Route := Target (to : text) | Delayed (to : text) (delay : option text).
Definition route_target (r : Route) : text := match r with Target t | Delayed t _ => t end.
Definition delay (r : Route) : option text :=
  match r with Target _ => None | Delayed _ d => d end.

Record Case := { when_ : list text; case_outcome : text; case_hold : option text }.

Record Check := {
  summary : option text;
  run : option text;
  shell : option text;
  agent : option text;
  sleep : option text;
  check_when : option (list text);
  hold : option text;
  check_then : option text;
  prompt_file : option text;
  cases : list Case;
  else_outcome : option text;
  check_on : list (text * Route);
  timeout : option text;
  check_window : option text
}.
#[export] Instance Check_eta : Eta Check := fun c =>
  {| summary := summary c; run := run c; shell := shell c; agent := agent c; sleep := sleep c;
     check_when := check_when c; hold := hold c; check_then := check_then c;
     prompt_file := prompt_file c; cases := cases c; else_outcome := else_outcome c;
     check_on := check_on c; timeout := timeout c;
     check_window := check_window c |}.

Inductive CheckKind := KRun (run : text) | KShell (shell : text) | KAgent (agent : text) | Condition | Sleep.

Module Check.
Definition kind (c : Check) : option CheckKind :=
  match run c, shell c, agent c, sleep c, cases c with
  | Some run, None, None, None, [] => Some (KRun run)
  | None, Some shell, None, None, [] => Some (KShell shell)
  | None, None, Some agent, None, [] => Some (KAgent agent)
  | None, None, None, None, _ :: _ => Some Condition
  | None, None, None, Some _, [] => Some Sleep
  | _, _, _, _, _ => None
  end.
Definition is_condition (c : Check) : bool := match kind c with Some Condition => true | _ => false end.
Definition is_sleep (c : Check) : bool := match kind c with Some Sleep => true | _ => false end.
Definition is_agent (c : Check) : bool := match kind c with Some (KAgent _) => true | _ => false end.
Definition is_shell (c : Check) : bool := match kind c with Some (KShell _) => true | _ => false end.
Definition condition_cases (c : Check) : list Case :=
  match kind c with
  | Some Condition => cases c
  | Some Sleep =>
      match check_when c with
      | Some w => [{| when_ := w; case_outcome := str "then"; case_hold := hold c |}]
      | None => []
      end
  | _ => []
  end.
Definition fallback_outcome (c : Check) : option text :=
  if is_sleep c then Some (str "sleeping") else else_outcome c.
End Check.

Definition RESERVED_OUTCOMES : list text :=
  [str "timeout"; str "invalid"; str "cap"; str "capacity"; str "deadline"; str "unknown"; str "hold"].
Definition reserved (outcome : text) : bool := bool_decide (outcome ∈ RESERVED_OUTCOMES).

Inductive StepLifecycle := Turn | Stay | Until.
#[export] Instance StepLifecycle_eq_dec : EqDecision StepLifecycle.
Proof. solve_decision. Defined.
Inductive CapacityWait := Forever | Duration (nanoseconds : Z).
Inductive OutcomeCap := Count (limit : N) | Rule (limit : N) (reset_on : option (list text)).
Definition cap_limit (c : OutcomeCap) : N := match c with Count n | Rule n _ => n end.
Definition reset_on (c : OutcomeCap) : list text :=
  match c with Count _ => [] | Rule _ r => default [] r end.

Record StepEdges := { asked : option text; cap : option text; capacity : option text }.
#[export] Instance StepEdges_eta : Eta StepEdges := fun e =>
  {| asked := asked e; cap := cap e; capacity := capacity e |}.

(** [max-parallel] and [stagger] of a header or a step. *)
Record Limit := { max_parallel : option N; stagger : option text }.
#[export] Instance Limit_eta : Eta Limit := fun l =>
  {| max_parallel := max_parallel l; stagger := stagger l |}.
Inductive ThrottleSwitch := On | Off.

Record Step := {
  step_agent : option text;
  step_run : option text;
  step_shell : option text;
  step_lifecycle : option StepLifecycle;
  step_prompt_file : option text;
  capacity_wait : option CapacityWait;
  step_then : list text;
  step_on : StepEdges;
  max_visits : option N;
  max_visits_per_outcome : option OutcomeCap;
  step_timeout : option text;
  keep : option bool;
  takeover : option bool;
  step_window : option text;
  step_throttle : option ThrottleSwitch;
  step_limit : option Limit
}.
#[export] Instance Step_eta : Eta Step := fun s =>
  {| step_agent := step_agent s; step_run := step_run s; step_shell := step_shell s;
     step_lifecycle := step_lifecycle s; step_prompt_file := step_prompt_file s;
     capacity_wait := capacity_wait s; step_then := step_then s; step_on := step_on s;
     max_visits := max_visits s; max_visits_per_outcome := max_visits_per_outcome s;
     step_timeout := step_timeout s; keep := keep s; takeover := takeover s;
     step_window := step_window s; step_throttle := step_throttle s; step_limit := step_limit s |}.

Inductive StepKind := SAgent (agent : text) | SRun (run : text) | SShell (shell : text).

Module Step.
Definition kind (s : Step) : option StepKind :=
  match step_agent s, step_run s, step_shell s with
  | Some agent, None, None => Some (SAgent agent)
  | None, Some run, None => Some (SRun run)
  | None, None, Some shell => Some (SShell shell)
  | _, _, _ => None
  end.
Definition is_agent (s : Step) : bool := match kind s with Some (SAgent _) => true | _ => false end.
Definition is_command (s : Step) : bool :=
  match kind s with Some (SRun _ | SShell _) => true | _ => false end.
Definition lifecycle (s : Step) : StepLifecycle :=
  default (if is_agent s then Until else Turn) (step_lifecycle s).
Definition is_turn (l : StepLifecycle) : bool := match l with Turn => true | _ => false end.
End Step.

Record Header := {
  start : text; deadline : option text; deadline_target : option text; header_limit : option Limit
}.
#[export] Instance Header_eta : Eta Header := fun h =>
  {| start := start h; deadline := deadline h; deadline_target := deadline_target h;
     header_limit := header_limit h |}.
Record WorkflowSpec := {
  workflow : Header;
  checks : list (text * Check);
  steps : list (text * Step)
}.
#[export] Instance WorkflowSpec_eta : Eta WorkflowSpec := fun s =>
  {| workflow := workflow s; checks := checks s; steps := steps s |}.
Definition node_names (s : WorkflowSpec) : list text := map fst (checks s) ++ map fst (steps s).

(** The validators of what is not a route: durations ([utils/time.rs]), argv
    and files of the workflow directory, profiles and layouts, condition
    terms.  An error is its text, or the issues it reports. *)
Class Validators := {
  parse_duration : text -> option Z;
  duration_error : text -> text;
  argv_error : text -> option text;
  prompt_errors : text -> option text -> list Issue;
  definition_errors : text -> text -> list Issue;
  headless_errors : text -> text -> list Issue;
  condition_terms : text -> Check -> list Issue;
  layout_error : text -> option text;
  deadline_parses : text -> bool;
  window_parses : text -> bool
}.

(** ** Cleanup ([spec/tolerant/clean.rs]) *)

Module Clean.
Section Clean.
Context `{Validators}.

(** [sanitize]: drop a value its validator refuses. *)
Definition sanitize {T} (value : option T) (valid : T -> bool) : option T := ofilter value valid.
(** [ignore] under a condition. *)
Definition ignore {T} (dead : bool) (value : option T) : option T := if dead then None else value.

Definition duration_valid (raw : text) : bool := is_some (parse_duration raw).
Definition positive (value : N) : bool := negb (value =? 0)%N.
Definition nonzero_duration (raw : text) : bool :=
  is_some_and (parse_duration raw) (fun d => negb (d =? 0)%Z).
Definition valid_summary (t : text) : bool :=
  negb (is_empty (trim t) || bool_decide (10%N ∈ t) || bool_decide (13%N ∈ t)).

(** Whether [check.on.retain] keeps the route of an outcome. *)
Definition retains (c : Check) (outcome : text) : bool :=
  let condition := Check.is_condition c in
  let outcomes :=
    map case_outcome (cases c) ++ match else_outcome c with Some o => [o] | None => [] end in
  let engine :=
    reserved outcome
    && negb (bool_decide (outcome ∈ [str "timeout"; str "invalid"]))
    && negb (condition && bool_decide (outcome = str "unknown")) in
  let dead :=
    if Check.is_shell c
    then negb (bool_decide (outcome ∈ [str "pass"; str "fail"; str "timeout"; str "invalid"]))
    else condition && negb (bool_decide (outcome ∈ outcomes))
         && negb (bool_decide (outcome ∈ [str "unknown"; str "timeout"; str "invalid"])) in
  negb (Check.is_sleep c || engine || dead).

Definition sleep_hold_valid (c : Check) (raw : text) : bool :=
  match parse_duration raw with
  | None => false
  | Some hold_ =>
      negb (hold_ =? 0)%Z && is_some (check_when c)
      && negb (is_some_and (match sleep c with Some s => parse_duration s | None => None end)
                 (fun sleep_ => (sleep_ <=? hold_)%Z))
  end.

(** The loop body over the checks. *)
Definition clean_check (c : Check) : Check :=
  let condition := Check.is_condition c in
  let sleep_ := Check.is_sleep c in
  let agent_ := Check.is_agent c in
  let other := negb sleep_ && is_some (Check.kind c) in
  let c := c <| summary := sanitize (summary c) valid_summary |> in
  let c := c <| timeout := sanitize (timeout c) duration_valid |> in
  let c := c <| check_window := sanitize (check_window c) window_parses |> in
  let c := c <| else_outcome := ignore (negb condition) (else_outcome c) |> in
  let c := c <| timeout := ignore sleep_ (timeout c) |> in
  let c := c <| hold := if sleep_ then sanitize (hold c) (sleep_hold_valid c) else hold c |> in
  let c := c <| check_when := ignore other (check_when c) |> in
  let c := c <| hold := ignore other (hold c) |> in
  let c := c <| check_then := ignore other (check_then c) |> in
  let c := c <| prompt_file := ignore (negb agent_) (prompt_file c) |> in
  let c := c <| check_window := ignore (negb agent_) (check_window c) |> in
  let c := c <| check_on := List.filter (fun e => retains c e.1) (check_on c) |> in
  c <| cases :=
    map (fun case =>
      {| when_ := when_ case; case_outcome := case_outcome case;
         case_hold :=
           ignore (is_some_and (lookup_key (case_outcome case) (check_on c))
                     (fun route => bool_decide (route_target route = str "@wait")))
             (sanitize (case_hold case) nonzero_duration) |}) (cases c) |>.

(** [clean.rs]'s [limit]. *)
Definition clean_limit (value : option Limit) : option Limit :=
  match value with
  | None => None
  | Some l =>
      let l := l <| max_parallel := sanitize (max_parallel l) positive |> in
      let l := l <| stagger := sanitize (stagger l) nonzero_duration |> in
      ignore (is_none (max_parallel l) && is_none (stagger l)) (Some l)
  end.

(** The loop body over the steps. *)
Definition clean_step (s : Step) : Step :=
  let s := s <| keep := ignore (negb (Step.is_agent s) || bool_decide (Step.lifecycle s = Stay)) (keep s) |> in
  let s := s <| step_timeout := sanitize (step_timeout s) duration_valid |> in
  let s := s <| step_window := sanitize (step_window s) window_parses |> in
  let s := s <| max_visits := sanitize (max_visits s) positive |> in
  let s := s <| max_visits_per_outcome :=
    sanitize (max_visits_per_outcome s) (fun cap => positive (cap_limit cap)) |> in
  let s := s <| max_visits_per_outcome :=
    match max_visits_per_outcome s, max_visits s with
    | Some cap, Some total => ignore (total <=? cap_limit cap)%N (Some cap)
    | cap, _ => cap
    end |> in
  let s := s <| step_limit := clean_limit (step_limit s) |> in
  let command := Step.is_command s in
  let s := s <| step_limit := ignore command (step_limit s) |> in
  let s := s <| takeover := ignore command (takeover s) |> in
  let s := s <| step_throttle := ignore command (step_throttle s) |> in
  let s := s <| capacity_wait := ignore command (capacity_wait s) |> in
  let s := s <| step_on := step_on s <| capacity := ignore command (capacity (step_on s)) |> |> in
  let s := s <| step_lifecycle := ignore command (step_lifecycle s) |> in
  let s := s <| step_window := ignore command (step_window s) |> in
  let s := s <| step_on := step_on s <| asked := ignore command (asked (step_on s)) |> |> in
  let s := s <| step_prompt_file := ignore command (step_prompt_file s) |> in
  let stays := Step.is_agent s && negb (Step.is_turn (Step.lifecycle s)) in
  let s := s <| step_timeout := ignore stays (step_timeout s) |> in
  s <| step_on := step_on s <| asked := ignore stays (asked (step_on s)) |> |>.

(** The last loop, over the delays of the routes of one check. *)
Definition clean_delays (all_steps : list (text * Step)) (node : text) (c : Check) : Check :=
  let held_steps :=
    List.filter (fun e => bool_decide (Step.lifecycle e.2 = Until)
                          && bool_decide (node ∈ step_then e.2)) all_steps in
  c <| check_on :=
    map (fun '(outcome, route) =>
      (outcome,
       match route with
       | Target to => Target to
       | Delayed to delay =>
           Delayed to
             (ignore (is_empty held_steps || bool_decide (to = str "@wait")
                      || existsb (fun e => bool_decide (e.1 = to) || bool_decide (to ∈ step_then e.2))
                           held_steps)
                (sanitize delay nonzero_duration))
       end)) (check_on c) |>.

Definition apply (spec : WorkflowSpec) : WorkflowSpec :=
  let spec := spec <| workflow :=
    workflow spec <| deadline := sanitize (deadline (workflow spec)) deadline_parses |> |> in
  let spec := spec <| workflow :=
    workflow spec <| header_limit := clean_limit (header_limit (workflow spec)) |> |> in
  let checks_ := map (fun e => (e.1, clean_check e.2)) (checks spec) in
  let steps_ := map (fun e => (e.1, clean_step e.2)) (steps spec) in
  spec <| checks := map (fun e => (e.1, clean_delays steps_ e.1 e.2)) checks_ |>
       <| steps := steps_ |>.
End Clean.
End Clean.

(** ** The graph ([graph.rs]) *)

Definition CHECK_TRIGGERS : list text := [str "unknown"; str "timeout"; str "invalid"; str "deadline"].
Definition STEP_TRIGGERS : list text :=
  [str "then"; str "asked"; str "cap"; str "capacity"; str "deadline"].

Inductive EdgeSource := Explicit | Default.
#[export] Instance EdgeSource_eq_dec : EqDecision EdgeSource.
Proof. solve_decision. Defined.
Inductive Fireability := Yes | Never | WithDeadline | InLoopRuns.
#[export] Instance Fireability_eq_dec : EqDecision Fireability.
Proof. solve_decision. Defined.
Inductive NeverReason := NoTimeout | NoMaxVisits | CapacityWaitForever | JudgeRetries.

Record Edge := {
  outcome : text; target : text; source : EdgeSource; fires : Fireability;
  because : option NeverReason; edge_delay : option text
}.

Record WalkNode := { node : text; hangs_under : option text }.
Record Walk := { nodes : list WalkNode; unreachable : list text }.

(** [entry(k).or_insert(v)]. *)
Definition or_insert {V} (k : text) (v : V) (m : gmap text V) : gmap text V :=
  match m !! k with Some _ => m | None => <[k := v]> m end.

Definition check_edges (c : Check) : gmap text text :=
  if Check.is_sleep c then
    let edges : gmap text text :=
      <[str "sleeping" := str "@wait"]> {[ str "invalid" := str "@user" ]} in
    let edges := match check_then c with Some t => <[str "then" := t]> edges | None => edges end in
    if is_some (check_when c) then <[str "unknown" := str "@wait"]> edges else edges
  else
    let edges : gmap text text :=
      list_to_map (map (fun e => (e.1, route_target e.2)) (check_on c)) in
    let edges := or_insert (str "timeout") (str "@user") edges in
    let edges := or_insert (str "invalid") (str "@user") edges in
    if Check.is_condition c then or_insert (str "unknown") (str "@wait") edges else edges.

Definition step_edges (s : Step) : gmap text (text * bool) :=
  list_to_map (omap (fun '(outcome, target, default_) =>
      option_map (fun t => (outcome, (t, is_some target))) (or_else target default_))
    [(str "then", head (step_then s), None);
     (str "asked", asked (step_on s), None);
     (str "cap", cap (step_on s), Some (str "@user"));
     (str "capacity", capacity (step_on s), Some (str "@failed"))]).

Section Graph.
Implicit Types (spec : WorkflowSpec) (node outcome : text).

Definition fireability spec node outcome : Fireability * option NeverReason :=
  if decide (outcome = str "deadline") then
    (if is_some (deadline (workflow spec)) then Yes else WithDeadline, None)
  else
    match lookup_key node (checks spec) with
    | Some check =>
        let because :=
          if decide (outcome = str "timeout") then
            (if is_none (timeout check) then Some NoTimeout else None)
          else if decide (outcome = str "invalid") then
            (if Check.is_agent check then Some JudgeRetries else None)
          else None in
        (if is_some because then Never else Yes, because)
    | None =>
        let! step := lookup_key node (steps spec) else (Yes, None) in
        if bool_decide (outcome = str "cap") && is_none (max_visits step)
           && is_none (max_visits_per_outcome step)
        then (Never, Some NoMaxVisits)
        else if negb (bool_decide (outcome = str "capacity")) then (Yes, None)
        else
          match capacity_wait step with
          | Some (Duration _) => (InLoopRuns, None)
          | _ => (Never, Some CapacityWaitForever)
          end
    end.

Definition node_edges spec node : option (gmap text (text * bool)) :=
  let! edges :=
    match lookup_key node (checks spec) with
    | Some check =>
        Some (map_imap (fun outcome target =>
          Some (target, contains_key outcome (check_on check)
                        || bool_decide (outcome = str "then") && Check.is_sleep check))
          (check_edges check))
    | None => option_map step_edges (lookup_key node (steps spec))
    end else None in
  Some (<[str "deadline" :=
           (unwrap_or (deadline_target (workflow spec)) (str "@user"),
            is_some (deadline_target (workflow spec)))]> edges).

(** The [filter_map] of [resolved_edges], which takes each outcome's route out
    of the map. *)
Fixpoint resolve_loop spec node (outcomes : list text) (edges : gmap text (text * bool)) : list Edge :=
  match outcomes with
  | [] => []
  | outcome :: outcomes' =>
      match edges !! outcome with
      | None => resolve_loop spec node outcomes' edges
      | Some (target, explicit) =>
          let '(fires, because) := fireability spec node outcome in
          {| outcome := outcome; target := target;
             source := if explicit : bool then Explicit else Default;
             fires := fires; because := because;
             edge_delay :=
               let! check := lookup_key node (checks spec) else None in
               let! route := lookup_key outcome (check_on check) else None in
               delay route |} :: resolve_loop spec node outcomes' (delete outcome edges)
      end
  end.

Definition node_outcomes spec node : list text :=
  match lookup_key node (checks spec) with
  | Some check =>
      if Check.is_sleep check
      then [str "then"; str "sleeping"; str "unknown"; str "invalid"; str "deadline"]
      else
        map case_outcome (cases check)
        ++ match else_outcome check with Some o => [o] | None => [] end
        ++ List.filter (fun o => negb (bool_decide (o ∈ CHECK_TRIGGERS))) (map fst (check_on check))
        ++ CHECK_TRIGGERS
  | None => STEP_TRIGGERS
  end.

Definition resolved_edges spec node : option (list Edge) :=
  let! edges := node_edges spec node else None in
  Some (resolve_loop spec node (node_outcomes spec node) edges).

Definition edges spec node : list Edge :=
  List.filter (fun edge =>
    is_none_or (lookup_key node (steps spec)) (fun step =>
      if decide (outcome edge = str "asked")
      then Step.is_agent step && Step.is_turn (Step.lifecycle step)
      else if decide (outcome edge = str "capacity") then Step.is_agent step
      else true)) (default [] (resolved_edges spec node)).

Definition find_target (outcome_ : text) (edges : list Edge) : option text :=
  option_map target (List.find (fun edge => bool_decide (outcome edge = outcome_)) edges).

(** [WorkflowSpec::target]. *)
Definition spec_target spec node (outcome_ : text) : option text :=
  let! edges := resolved_edges spec node else None in
  if contains_key node (checks spec) then
    (if decide (outcome_ = str "hold") then Some (str "@wait") else find_target outcome_ edges)
  else
    let outcome_ :=
      if decide (outcome_ ∈ [str "ended"; str "died"; str "canceled"; str "limited"; str "timeout"])
      then str "then" else outcome_ in
    or_else (find_target outcome_ edges)
      (if decide (outcome_ ∈ [str "then"; str "asked"]) then Some (str "@user") else None).

(** [engine_target]; [None] is the panic of its [expect]. *)
Definition engine_target spec node outcome : option text := spec_target spec node outcome.

(** ** The walk *)

Definition is_node spec node : bool :=
  contains_key node (checks spec) || contains_key node (steps spec).
Definition live_edge (edge : Edge) : bool :=
  negb (bool_decide (outcome edge = str "deadline")) && negb (bool_decide (fires edge = Never)).

(** Depth first over an explicit stack; an iteration pops one entry, and only
    the first visit of a node pushes. *)
Fixpoint walk_loop spec (fuel : nat) (pending : list (text * bool)) (seen : list text)
    (order : list text) : list text * list text :=
  match fuel with
  | O => (order, seen)
  | S fuel' =>
      match pending with
      | [] => (order, seen)
      | (node, finished) :: pending =>
          if finished : bool then walk_loop spec fuel' pending seen (order ++ [node])
          else if negb (is_node spec node) || bool_decide (node ∈ seen)
          then walk_loop spec fuel' pending seen order
          else
            walk_loop spec fuel'
              (rev (map (fun edge => (target edge, false)) (List.filter live_edge (edges spec node)))
               ++ (node, true) :: pending)
              (node :: seen) order
      end
  end.

Definition walk_cost spec node : nat := S (length (edges spec node)).
Definition walk_fuel spec : nat := 2 + sum_list_with (walk_cost spec) (node_names spec).

(** Returns the order and the nodes seen so far. *)
Definition walk_component spec (start : text) (seen : list text) : list text * list text :=
  let '(order, seen) := walk_loop spec (walk_fuel spec) [(start, false)] seen [] in
  (rev order, seen).

Definition hanging_steps spec (order : list text) : gmap text text :=
  let positions : gmap text nat := list_to_map (rev (imap (fun i n => (n, i)) order)) in
  list_to_map (omap (fun '(node, step) =>
    let! parent :=
      List.find (fun parent =>
        contains_key parent (checks spec)
        && match positions !! parent, positions !! node with
           | Some parent, Some step => (parent <? step)%nat
           | _, _ => false
           end
        && existsb (fun edge => bool_decide (target edge = node) && live_edge edge)
             (edges spec parent)) (step_then step) else None in
    Some (node, parent)) (steps spec)).

(** The edges of one placed node: the steps that hang under it. *)
Fixpoint hang_loop (parents : gmap text text) (node : text) (l : list Edge)
    (placed : list text) (out : list WalkNode) : list text * list WalkNode :=
  match l with
  | [] => (placed, out)
  | edge :: l' =>
      if bool_decide (parents !! target edge = Some node) && negb (bool_decide (target edge ∈ placed))
      then hang_loop parents node l' (target edge :: placed)
             (out ++ [{| node := target edge; hangs_under := Some node |}])
      else hang_loop parents node l' placed out
  end.
Fixpoint place_loop spec (parents : gmap text text) (order placed : list text) (out : list WalkNode)
  : list WalkNode :=
  match order with
  | [] => out
  | node :: order' =>
      if bool_decide (node ∈ placed) then place_loop spec parents order' placed out
      else
        let '(placed, out) :=
          hang_loop parents node (edges spec node) (node :: placed)
            (out ++ [{| node := node; hangs_under := None |}]) in
        place_loop spec parents order' placed out
  end.

Definition walk spec : Walk :=
  let '(order, seen) := walk_component spec (start (workflow spec)) [] in
  let '(order, seen) :=
    match deadline_target (workflow spec) with
    | Some target =>
        let '(more, seen) := walk_component spec target seen in (order ++ more, seen)
    | None => (order, seen)
    end in
  {| nodes := place_loop spec (hanging_steps spec order) order [] [];
     unreachable :=
       btree_set (List.filter (fun n => negb (bool_decide (n ∈ seen))) (node_names spec)) |}.
End Graph.

(** ** Validation ([validate.rs]) *)

(** [schedule::validate_name]. *)
Definition validate_name (name : text) : bool :=
  negb (is_empty name)
  && forallb (fun ch => is_ascii_alphanumeric ch || (ch =? 45)%N || (ch =? 95)%N) name.
Definition bad_name (name : text) : text :=
  str "schedule name `" ++ name
  ++ str "` must be non-empty and use only letters, digits, `-`, or `_`".

Module Validate.
Section Cycles.
Context (spec : WorkflowSpec) (start : text) (allowed : text -> bool).

(** The targets an iteration of [cycles_to] does not skip. *)
Definition cycle_targets (node : text) : list text :=
  List.filter allowed (map target (List.filter (fun edge =>
    negb (bool_decide (outcome edge = str "deadline")
          || contains_key node (steps spec) && negb (bool_decide (source edge = Explicit))))
    (default [] (resolved_edges spec node)))).

(** The [for] over the edges returns at the first target that is the start. *)
Fixpoint cycles_loop (fuel : nat) (pending seen : list text) : bool :=
  match fuel with
  | O => false
  | S fuel' =>
      match pending with
      | [] => false
      | node :: pending =>
          if bool_decide (node ∈ seen) then cycles_loop fuel' pending seen
          else if bool_decide (start ∈ cycle_targets node) then true
          else cycles_loop fuel' (rev (cycle_targets node) ++ pending) (node :: seen)
      end
  end.
Definition cycle_fuel : nat :=
  2 + sum_list_with (fun n => length (default [] (resolved_edges spec n))) (node_names spec).
Definition cycles_to : bool := cycles_loop cycle_fuel [start] [].
End Cycles.

Section Validate.
Context `{Validators}.
Implicit Types (spec : WorkflowSpec) (path node : text).

Definition when_error (b : bool) path (msg : text) : list Issue :=
  if b then [issue path msg] else [].

(** [Validation::target]. *)
Definition check_target spec path (target : text) : list Issue :=
  when_error (negb (bool_decide (target ∈ [str "@wait"; str "@done"; str "@failed"; str "@user"])
                    || contains_key target (checks spec) || contains_key target (steps spec)))
    path (str "unknown target " ++ target).

(** [Validation::node_name]. *)
Definition node_name path node : list Issue :=
  when_error (negb (validate_name node)) path (bad_name node).

(** [Validation::condition_fields]. *)
Definition condition_fields path (check : Check) : list Issue :=
  match else_outcome check with
  | Some o => when_error (reserved o) (path ++ str ".else") (str "choose a non-reserved outcome")
  | None => [issue (path ++ str ".else") (str "a condition check requires else")]
  end
  ++ concat (imap (fun index case =>
       when_error (reserved (case_outcome case))
         (path ++ str ".cases." ++ show_N (N.of_nat index) ++ str ".outcome")
         (str "choose a non-reserved outcome")) (cases check))
  ++ flat_map (fun o =>
       when_error (negb (contains_key o (check_on check))) (path ++ str ".on." ++ o)
         (str "route every case and else outcome in on"))
       (btree_set (match else_outcome check with Some o => [o] | None => [] end
                   ++ map case_outcome (cases check)))
  ++ condition_terms path check.

Definition waits spec node : bool :=
  existsb (fun edge => negb (bool_decide (outcome edge = str "deadline"))
                       && bool_decide (target edge = str "@wait")) (edges spec node).

Definition kind_errors path (check : Check) : list Issue :=
  match Check.kind check with
  | None => [issue path (str "set exactly one of run, shell, agent, sleep, or cases (nonempty)")]
  | Some (KRun run) =>
      match argv_error run with Some err => [issue (path ++ str ".run") err] | None => [] end
  | Some (KShell shell) =>
      when_error (is_empty (trim shell)) (path ++ str ".shell") (str "set a nonempty shell command")
      ++ flat_map (fun outcome =>
           when_error (negb (contains_key outcome (check_on check))) (path ++ str ".on." ++ outcome)
             (str "a shell check requires both on.pass and on.fail")) [str "pass"; str "fail"]
  | Some (KAgent _) =>
      when_error (is_none (prompt_file check)) (path ++ str ".prompt-file")
        (str "an agent check requires prompt-file")
  | _ => []
  end.

Definition sleep_errors spec path (check : Check) : list Issue :=
  match sleep check with
  | Some raw =>
      match parse_duration raw with
      | Some d => when_error (d =? 0)%Z (path ++ str ".sleep") (str "sleep must be nonzero")
      | None => [issue (path ++ str ".sleep") (duration_error raw)]
      end
  | None => []
  end
  ++ match check_then check with
     | None => [issue (path ++ str ".then") (str "a sleep requires then routing away from @wait")]
     | Some target =>
         if decide (target = str "@wait")
         then [issue (path ++ str ".then") (str "a sleep requires then routing away from @wait")]
         else check_target spec (path ++ str ".then") target
     end
  ++ condition_terms path check.

Definition judge_errors path (check : Check) : list Issue :=
  match Check.kind check with
  | Some (KAgent agent) =>
      when_error (is_none (summary check)) (path ++ str ".summary")
        (str "a judge check requires a one-line summary of what it reviews; add summary = "
         ++ [34%N] ++ str "..." ++ [34%N])
      ++ definition_errors path agent ++ prompt_errors path (prompt_file check)
      ++ headless_errors path agent
  | _ => []
  end.

(** The loop body over the checks. *)
Definition check_errors spec (entry : text * Check) : list Issue :=
  let '(node, check) := entry in
  let path := str "checks." ++ node in
  let condition := Check.is_condition check in
  let sleep_ := Check.is_sleep check in
  let unknown_waits :=
    condition && existsb (fun edge => bool_decide (outcome edge = str "unknown")
                                      && bool_decide (target edge = str "@wait")) (edges spec node) in
  node_name path node
  ++ when_error (contains_key node (steps spec)) path (str "name is also used by a step")
  ++ kind_errors path check
  ++ (if condition then condition_fields path check else [])
  ++ (if sleep_ then sleep_errors spec path check else [])
  ++ judge_errors path check
  ++ when_error (waits spec node && is_none (timeout check) && negb sleep_) (path ++ str ".timeout")
       (if unknown_waits
        then str "a waiting check requires timeout; set timeout or route on.unknown away from @wait (and any other waiting outcomes)"
        else str "a waiting check requires timeout")
  ++ flat_map (fun '(outcome, route) =>
       check_target spec (path ++ str ".on." ++ outcome) (route_target route)
       ++ when_error (bool_decide (outcome = str "timeout")
                      && bool_decide (route_target route = str "@wait"))
            (path ++ str ".on.timeout")
            (str "a timed-out check cannot wait on its expired timeout clock")) (check_on check).

(** The outcomes some check answers. *)
Definition answerable spec : list text :=
  List.filter (fun o => negb (reserved o))
    (map outcome (flat_map (fun e => edges spec e.1) (checks spec))).

Definition reset_errors spec path (step : Step) : list Issue :=
  match max_visits_per_outcome step with
  | Some cap =>
      let cap_path := path ++ str ".max-visits-per-outcome" in
      when_error (negb (is_empty (reset_on cap)) && is_none (max_visits step))
        (cap_path ++ str ".reset-on") (str "reset-on requires max-visits")
      ++ flat_map (fun outcome =>
           when_error (negb (bool_decide (outcome ∈ answerable spec))) (cap_path ++ str ".reset-on")
             (str "no check answers outcome " ++ outcome)) (reset_on cap)
  | None => []
  end.

(** [step.then.windows(2)]. *)
Fixpoint then_route_errors spec path (then_ : list text) : list Issue :=
  match then_ with
  | a :: (b :: _) as rest =>
      when_error (negb (existsb (fun edge =>
          negb (bool_decide (outcome edge = str "deadline")) && bool_decide (target edge = b)
          && negb (bool_decide (fires edge = Never))) (edges spec a))) (path ++ str ".then")
        (a ++ str " requires a direct route to the next listed check " ++ b)
      ++ then_route_errors spec path rest
  | _ => []
  end.

Definition step_kind_errors path (step : Step) : list Issue :=
  when_error (is_none (Step.kind step)) path (str "set exactly one of agent, run, or shell")
  ++ when_error (Step.is_agent step && is_none (step_prompt_file step)) (path ++ str ".prompt-file")
       (str "an agent step requires prompt-file")
  ++ when_error (Step.is_command step && is_none (step_timeout step)) (path ++ str ".timeout")
       (str "a run or shell step requires timeout, so a hung command cannot hold the run")
  ++ match Step.kind step with
     | Some (SRun run) =>
         match argv_error run with Some err => [issue (path ++ str ".run") err] | None => [] end
     | Some (SShell shell) =>
         when_error (is_empty (trim shell)) (path ++ str ".shell") (str "set a nonempty shell command")
     | Some (SAgent agent) =>
         prompt_errors path (step_prompt_file step)
         ++ match layout_error agent with Some err => [issue (path ++ str ".agent") err] | None => [] end
     | None => []
     end.

Definition then_errors spec path (step : Step) : list Issue :=
  let then_path := path ++ str ".then" in
  when_error (is_empty (step_then step)) then_path
    (str "then must name a check or a nonempty list of checks")
  ++ when_error (existsb (fun target => negb (contains_key target (checks spec))) (step_then step))
       then_path (str "then must name a check, never a step or @done")
  ++ when_error (bool_decide (Step.lifecycle step = Until)
                 && existsb (fun node => is_some_and (lookup_key node (checks spec)) Check.is_sleep)
                      (step_then step)) then_path
       (str "an until step cannot use a sleep as its turn-end check; use lifecycle = "
        ++ [34%N] ++ str "turn" ++ [34%N])
  ++ then_route_errors spec path (step_then step).

Definition step_on_errors spec path node (step : Step) : list Issue :=
  match capacity (step_on step) with
  | Some target =>
      if Step.is_agent step then
        check_target spec (path ++ str ".on.capacity") target
        ++ when_error (bool_decide (target ∈ [str "@user"; str "@wait"])) (path ++ str ".on.capacity")
             (str "capacity give-up cannot park or wait; use @failed, @done, or a node")
      else []
  | None => []
  end
  ++ flat_map (fun '(outcome, target) =>
       if bool_decide (outcome = str "asked") && negb (Step.is_agent step) then []
       else
         match target with
         | Some target =>
             check_target spec (path ++ str ".on." ++ outcome) target
             ++ when_error (bool_decide (target = str "@wait")) (path ++ str ".on." ++ outcome)
                  (str "only checks can wait")
             ++ when_error (bool_decide (outcome = str "cap") && bool_decide (target = node))
                  (path ++ str ".on.cap") (str "a capped step cannot target itself")
         | None => []
         end) [(str "asked", asked (step_on step)); (str "cap", cap (step_on step))].

(** The loop body over the steps. *)
Definition step_errors spec (entry : text * Step) : list Issue :=
  let '(node, step) := entry in
  let path := str "steps." ++ node in
  node_name path node ++ reset_errors spec path step ++ step_kind_errors path step
  ++ then_errors spec path step ++ step_on_errors spec path node step.

Definition unbounded_step (spec : WorkflowSpec) (name : text) : bool :=
  negb (is_some_and (lookup_key name (steps spec)) (fun step => is_some (max_visits step))).
Definition unwaiting_check (spec : WorkflowSpec) (name : text) : bool :=
  contains_key name (checks spec) && negb (waits spec name).

Definition cycle_errors spec : list Issue :=
  flat_map (fun '(node, step) =>
    when_error (is_none (max_visits step) && cycles_to spec node (unbounded_step spec))
      (str "steps." ++ node)
      (if is_some (max_visits_per_outcome step)
       then str "cycle through steps has no max-visits bound; a per-outcome bound does not bound the cycle: a check can name a new outcome or key every time; max-visits is needed"
       else str "cycle through steps has no max-visits bound")) (steps spec)
  ++ flat_map (fun '(node, _) =>
       when_error (negb (waits spec node) && cycles_to spec node (unwaiting_check spec))
         (str "checks." ++ node) (str "check-only cycle has no @wait")) (checks spec).

(** The errors of [validate_spec]. *)
Definition validate_spec (name : text) spec : list Issue :=
  map (fun i => {| issue_path := issue_path i; message := name ++ str ": " ++ message i |})
    (when_error (negb (validate_name name)) (str "workflow") (bad_name name)
     ++ when_error (negb (is_node spec (start (workflow spec)))) (str "workflow.start")
          (start (workflow spec) ++ str " must name a check or a step")
     ++ match deadline_target (workflow spec) with
        | Some target => check_target spec (str "workflow.on.deadline") target
        | None => []
        end
     ++ flat_map (check_errors spec) (checks spec)
     ++ flat_map (step_errors spec) (steps spec)
     ++ cycle_errors spec).
End Validate.
End Validate.

(** ** Visits ([store/workflow.rs], [spec.rs]) *)

Inductive Key := KString (s : text) | KInteger (z : Z) | KUnsigned (n : N).
#[export] Instance Key_eq_dec : EqDecision Key.
Proof. solve_decision. Defined.
Abbreviation bucket := (option text * option Key)%type.

Record OutcomeVisits := { row_bucket : bucket; row_visits : N }.
Record StepVisits := { total : N; outcomes : list OutcomeVisits }.

Definition bucket_index (v : StepVisits) (b : bucket) : option nat :=
  position (fun row => bool_decide (row_bucket row = b)) (outcomes v).
Definition for_bucket (v : StepVisits) (b : bucket) : N :=
  let! index := bucket_index v b else 0%N in
  let! row := outcomes v !! index else 0%N in row_visits row.

(** [StepVisits::bump]; the counters do not reach the end of [u64]. *)
Definition bump (v : StepVisits) (b : bucket) : StepVisits :=
  {| total := (total v + 1)%N;
     outcomes :=
       match bucket_index v b with
       | Some index =>
           alter (fun row => {| row_bucket := row_bucket row; row_visits := (row_visits row + 1)%N |})
             index (outcomes v)
       | None => outcomes v ++ [{| row_bucket := b; row_visits := 1 |}]
       end |}.

(** [Step::visit_bounds]: (name, used, limit with the grant). *)
Definition visit_bounds (s : Step) (visits : option StepVisits) (b : bucket) (grant : N)
  : list (text * N * N) :=
  omap (fun '(bound, used, max) =>
      option_map (fun max => (bound, used, saturating_add_u64 max grant)) max)
    [(str "max-visits", match visits with Some v => total v | None => 0%N end, max_visits s);
     (str "max-visits-per-outcome", match visits with Some v => for_bucket v b | None => 0%N end,
      option_map cap_limit (max_visits_per_outcome s))].

(** [Step::tripped_visit_bound] at the record's visits, bucket and grant. *)
Definition tripped_visit_bound (s : Step) (visits : option StepVisits) (b : bucket) (grant : N)
  : option (text * N * N) :=
  List.find (fun '(_, used, max) => (max <=? used)%N) (visit_bounds s visits b grant).
