(* ===== verification/WorkflowFacts.v ===== *)
(** * Facts of workflow definitions

    The walk lists every node once and finds exactly the reachable ones, the
    cycle search decides reachability, and an admitted definition routes every
    outcome the engine asks for and has no cycle that neither waits nor spends
    a bounded visit. *)

From S2P Require Import Prelude Workflow.

(** ** Lookups *)

Lemma lookup_key_elem {V} k (v : V) l : lookup_key k l = Some v -> (k, v) ∈ l.
Proof.
  unfold lookup_key. destruct (List.find _ l) as [[k' v']|] eqn:E; [|done]. intros [= <-].
  apply find_some in E as [Hin Hk%bool_decide_eq_true]. cbn in Hk. subst.
  by apply list_elem_of_In.
Qed.

Lemma contains_key_spec {V} k (l : list (text * V)) : contains_key k l = true <-> k ∈ map fst l.
Proof.
  unfold contains_key, lookup_key. destruct (List.find _ l) as [[k' v']|] eqn:E; cbn.
  - apply find_some in E as [Hin Hk%bool_decide_eq_true]. cbn in Hk. subst. split; [|done].
    intros _. apply list_elem_of_fmap. exists (k, v'). by rewrite list_elem_of_In.
  - split; [done|]. intros ([k' v'] & -> & Hin%list_elem_of_In)%list_elem_of_fmap.
    apply (find_none _ _ E) in Hin. cbn in Hin. by rewrite bool_decide_eq_true_2 in Hin.
Qed.

Lemma contains_key_Some {V} k (v : V) l : lookup_key k l = Some v -> contains_key k l = true.
Proof. unfold contains_key. by intros ->. Qed.

Lemma is_node_spec spec n : is_node spec n = true <-> n ∈ node_names spec.
Proof.
  unfold is_node, node_names. by rewrite orb_true_iff, !contains_key_spec, elem_of_app.
Qed.

Lemma elem_of_rev {A} (x : A) l : x ∈ rev l <-> x ∈ l.
Proof. by rewrite !list_elem_of_In, <-in_rev. Qed.

Lemma elem_of_btree_set x l : x ∈ btree_set l <-> x ∈ l.
Proof. unfold btree_set. by rewrite sort_by_Permutation, elem_of_remove_dups. Qed.
Lemma btree_set_sorted l : StronglySorted (fun a b => text_leb a b = true) (btree_set l) /\ NoDup (btree_set l).
Proof.
  split; [apply (sort_by_StronglySorted id text_leb); apply _|].
  unfold btree_set. rewrite sort_by_Permutation. apply NoDup_remove_dups.
Qed.

Lemma list_to_map_some {A B} (f : A -> B) k (l : list (text * A)) :
  k ∈ map fst l ->
  is_Some ((list_to_map (map (fun e => (e.1, f e.2)) l) : gmap text B) !! k).
Proof.
  intros Hk. apply not_eq_None_Some. rewrite <-not_elem_of_list_to_map.
  intros Hn. apply Hn. apply list_elem_of_fmap in Hk as ([k' a] & -> & Ha).
  apply list_elem_of_fmap. exists (k', f a). split; [done|]. apply list_elem_of_fmap. by exists (k', a).
Qed.

(** ** Work lists

    The total cost of the names not yet seen bounds what a search may still
    push. *)
Definition unseen_cost (cost : text -> nat) (names seen : list text) : nat :=
  sum_list_with cost (filter (fun n => n ∉ seen) names).

Lemma unseen_cost_mono cost names seen n :
  unseen_cost cost names (n :: seen) <= unseen_cost cost names seen.
Proof.
  unfold unseen_cost. induction names as [|m names IH]; [done|]. rewrite !filter_cons.
  destruct (decide (m ∉ n :: seen)) as [H|H]; [|destruct (decide (m ∉ seen)); cbn; lia].
  rewrite decide_True by (by rewrite elem_of_cons in H; tauto). cbn. lia.
Qed.

Lemma unseen_cost_visit cost names seen n :
  n ∈ names -> n ∉ seen -> unseen_cost cost names (n :: seen) + cost n <= unseen_cost cost names seen.
Proof.
  unfold unseen_cost. intros Hn Hs. induction names as [|m names IH]; [by apply elem_of_nil in Hn|].
  rewrite !filter_cons. destruct (decide (m = n)) as [->|Hne].
  - rewrite (decide_False (P:=n ∉ n :: seen)) by (rewrite elem_of_cons; tauto).
    rewrite decide_True by done. pose proof (unseen_cost_mono cost names seen n).
    unfold unseen_cost in *. cbn. lia.
  - apply elem_of_cons in Hn as [?|Hn]; [done|]. specialize (IH Hn).
    destruct (decide (m ∉ n :: seen)) as [H|H]; rewrite elem_of_cons in H.
    + rewrite decide_True by tauto. cbn. lia.
    + rewrite decide_False by (intros ?; apply H; intros [|]; tauto). lia.
Qed.

Lemma unseen_cost_nil cost names : unseen_cost cost names [] = sum_list_with cost names.
Proof.
  unfold unseen_cost. f_equal. induction names as [|m names IH]; [done|].
  rewrite filter_cons, decide_True by apply not_elem_of_nil. by f_equal.
Qed.

Lemma unseen_cost_le cost names seen : unseen_cost cost names seen <= sum_list_with cost names.
Proof.
  unfold unseen_cost. induction names as [|m names IH]; [done|]. rewrite filter_cons.
  destruct (decide _); cbn; lia.
Qed.

(** ** The walk *)

Section Walk.
Context (spec : WorkflowSpec).

(** A live route between nodes. *)
Definition live_step (a b : text) : Prop :=
  exists edge, edge ∈ edges spec a /\ live_edge edge = true /\ target edge = b.

Definition finished_nodes (pending : list (text * bool)) : list text :=
  map fst (List.filter (fun p => p.2) pending).

(** What the loop has done when its stack is empty. *)
Record walked (pending : list (text * bool)) (seen order : list text)
    (result : list text * list text) (new : list text) : Prop := {
  wk_seen : result.2 = new ++ seen;
  wk_order : result.1 ≡ₚ order ++ finished_nodes pending ++ new;
  wk_nodes : Forall (fun n => is_node spec n = true) new;
  wk_nodup : NoDup seen -> NoDup (new ++ seen);
  wk_reach : forall n, n ∈ new -> exists p, (p, false) ∈ pending /\ rtc live_step p n;
  wk_pending : forall p, (p, false) ∈ pending -> is_node spec p = true -> p ∈ new ++ seen;
  wk_closed : forall a b, a ∈ new -> live_step a b -> is_node spec b = true -> b ∈ new ++ seen
}.

Lemma elem_of_targets n b :
  (b, false) ∈ map (fun edge => (target edge, false)) (List.filter live_edge (edges spec n))
  <-> live_step n b.
Proof.
  rewrite list_elem_of_In, in_map_iff. split.
  - intros (e & [= <-] & He%list_elem_of_In%elem_of_filter_bool). exists e. tauto.
  - intros (e & He & Hl & <-). exists e. split; [done|].
    by apply list_elem_of_In, elem_of_filter_bool.
Qed.

Lemma finished_targets n rest :
  finished_nodes (rev (map (fun edge => (target edge, false)) (List.filter live_edge (edges spec n)))
                  ++ (n, true) :: rest) = n :: finished_nodes rest.
Proof.
  unfold finished_nodes. rewrite List.filter_app, map_app. cbn.
  replace (List.filter _ _) with (@nil (text * bool)); [done|]. symmetry.
  induction (List.filter live_edge (edges spec n)) as [|e l IH]; [done|].
  cbn. by rewrite List.filter_app, IH.
Qed.

Lemma walk_visit n pending seen order result new :
  is_node spec n = true -> n ∉ seen ->
  walked (rev (map (fun edge => (target edge, false)) (List.filter live_edge (edges spec n)))
          ++ (n, true) :: pending) (n :: seen) order result new ->
  walked ((n, false) :: pending) seen order result (new ++ [n]).
Proof.
  intros Hn Hs []. split.
  - by rewrite <-app_assoc.
  - rewrite wk_order0, finished_targets. unfold finished_nodes at 2. cbn.
    fold (finished_nodes pending). cbn. rewrite <-Permutation_middle. rewrite !app_assoc.
    by rewrite <-Permutation_cons_append.
  - apply Forall_app. split; [done|]. by constructor.
  - intros Hnd. rewrite <-app_assoc. apply wk_nodup0. by constructor.
  - intros x [Hx| ->%list_elem_of_singleton]%elem_of_app; [|exists n; split; [by left|done]].
    destruct (wk_reach0 x Hx) as (p & Hp & Hr).
    rewrite elem_of_app, elem_of_cons, elem_of_rev in Hp. destruct Hp as [Hp|[?|Hp]]; [|done|].
    + apply elem_of_targets in Hp. exists n. split; [by left|]. by eapply rtc_l.
    + exists p. split; [by right|done].
  - intros p [[= ->]|Hp]%elem_of_cons Hnode; rewrite <-app_assoc.
    + rewrite elem_of_app. right. by left.
    + apply wk_pending0; [|done]. rewrite elem_of_app, elem_of_cons. auto.
  - intros a b [Ha| ->%list_elem_of_singleton]%elem_of_app Hab Hb; rewrite <-app_assoc.
    + by eapply wk_closed0.
    + apply wk_pending0; [|done]. rewrite elem_of_app, elem_of_rev, elem_of_targets. by left.
Qed.

Lemma walk_loop_spec fuel pending seen order :
  length pending + unseen_cost (walk_cost spec) (node_names spec) seen < fuel ->
  exists new, walked pending seen order (walk_loop spec fuel pending seen order) new.
Proof.
  revert pending seen order. induction fuel as [|fuel IH]; intros pending seen order Hf; [lia|].
  cbn [walk_loop]. destruct pending as [|[n finished] pending]; cbn [length] in Hf.
  { exists []. split; cbn; try done; try (by intros ? ?%elem_of_nil); try (by intros ? ? ?%elem_of_nil).
    by rewrite app_nil_r. }
  destruct finished; [|destruct (negb (is_node spec n) || bool_decide (n ∈ seen)) eqn:E].
  - destruct (IH pending seen (order ++ [n])) as [new []]; [lia|]. exists new. split; try done.
    + rewrite wk_order0. unfold finished_nodes. cbn. by rewrite <-app_assoc.
    + intros x Hx. destruct (wk_reach0 x Hx) as (p & ? & ?). exists p. split; [by right|done].
    + intros p [?|?]%elem_of_cons ?; [done|auto].
  - destruct (IH pending seen order) as [new []]; [lia|]. exists new. split; try done.
    + intros x Hx. destruct (wk_reach0 x Hx) as (p & ? & ?). exists p. split; [by right|done].
    + intros p [[= ->]|?]%elem_of_cons Hn; [|auto]. rewrite Hn in E. cbn in E.
      apply bool_decide_eq_true in E. rewrite elem_of_app. by right.
  - apply orb_false_iff in E as [Hn%negb_false_iff Hs%bool_decide_eq_false].
    pose proof (unseen_cost_visit (walk_cost spec) (node_names spec) seen n) as Hc.
    rewrite is_node_spec in Hn. specialize (Hc Hn Hs).
    destruct (IH (rev (map (fun edge => (target edge, false)) (List.filter live_edge (edges spec n)))
                  ++ (n, true) :: pending) (n :: seen) order) as [new Hw].
    + rewrite length_app, length_rev, length_map. cbn [length].
      pose proof (filter_length_le live_edge (edges spec n)). change (walk_cost spec n) with (S (length (edges spec n))) in Hc. lia.
    + exists (new ++ [n]). apply walk_visit; [by apply is_node_spec|done..].
Qed.

(** *** The depth-first search by recursion

    [visits seen l seen' fin]: visiting the nodes [l] in turn finishes the
    nodes [fin], in that order. *)
Definition targets_of n : list text := rev (map target (List.filter live_edge (edges spec n))).
Inductive visits : list text -> list text -> list text -> list text -> Prop :=
| visits_nil seen : visits seen [] seen []
| visits_skip seen n l seen' fin :
    negb (is_node spec n) || bool_decide (n ∈ seen) = true ->
    visits seen l seen' fin -> visits seen (n :: l) seen' fin
| visits_node seen n l seen1 fin1 seen2 fin2 :
    is_node spec n = true -> n ∉ seen ->
    visits (n :: seen) (targets_of n) seen1 fin1 -> visits seen1 l seen2 fin2 ->
    visits seen (n :: l) seen2 (fin1 ++ n :: fin2).

Lemma elem_of_targets_of n b : b ∈ targets_of n <-> live_step n b.
Proof.
  unfold targets_of. rewrite elem_of_rev, list_elem_of_fmap. split.
  - intros (e & -> & [Hl He]%elem_of_filter_bool). by exists e.
  - intros (e & He & Hl & <-). exists e. split; [done|]. by apply elem_of_filter_bool.
Qed.

(** [y] comes after [x] in [l]. *)
Definition above (l : list text) (x y : text) : Prop := exists l1 l2, l = l1 ++ x :: l2 /\ y ∈ l2.

Lemma above_app_l l l' x y : above l x y -> above (l ++ l') x y.
Proof. intros (l1 & l2 & -> & Hy). exists l1, (l2 ++ l'). rewrite <-app_assoc, elem_of_app. auto. Qed.
Lemma above_app_r l l' x y : above l x y -> above (l' ++ l) x y.
Proof. intros (l1 & l2 & -> & Hy). exists (l' ++ l1), l2. by rewrite <-app_assoc. Qed.
Lemma above_across l l' x y : x ∈ l -> y ∈ l' -> above (l ++ l') x y.
Proof.
  intros (l1 & l2 & ->)%list_elem_of_split Hy. exists l1, (l2 ++ l').
  by rewrite <-app_assoc, elem_of_app; auto.
Qed.
Lemma above_rev l x y : above l x y -> above (rev l) y x.
Proof.
  intros (l1 & l2 & -> & Hy). rewrite rev_app_distr. cbn. rewrite <-app_assoc.
  apply above_across; [by apply elem_of_rev|]. cbn. by left.
Qed.
Lemma above_lookup l x y : above l x y -> exists i j, l !! i = Some x /\ l !! j = Some y /\ i < j.
Proof.
  intros (l1 & l2 & -> & [j Hj]%list_elem_of_lookup). exists (length l1), (length l1 + S j).
  rewrite list_lookup_middle, lookup_app_r by lia.
  replace (length l1 + S j - length l1) with (S j) by lia. split_and!; [done..|lia].
Qed.
Lemma lookup_above l i j x y : l !! i = Some x -> l !! j = Some y -> i < j -> above l x y.
Proof.
  intros Hi Hj Hlt. exists (take i l), (drop (S i) l). split; [by rewrite take_drop_middle|].
  apply list_elem_of_lookup. exists (j - S i). rewrite lookup_drop, <-Hj. f_equal. lia.
Qed.
Lemma above_trans l x y z : NoDup l -> above l x y -> above l y z -> above l x z.
Proof.
  intros Hnd (i & j & Hi & Hj & Hij)%above_lookup (j' & k & Hj' & Hk & Hjk)%above_lookup.
  pose proof (NoDup_lookup _ _ _ _ Hnd Hj Hj') as ->. by apply (lookup_above l i k); [..|lia].
Qed.
Lemma above_irreflexive l x y : NoDup l -> above l x y -> ~ above l y x.
Proof.
  intros Hnd (i & j & Hi & Hj & Hij)%above_lookup (j' & i' & Hj' & Hi' & Hji)%above_lookup.
  pose proof (NoDup_lookup _ _ _ _ Hnd Hj Hj'). pose proof (NoDup_lookup _ _ _ _ Hnd Hi Hi'). lia.
Qed.

(** Of a live route between nodes, the target finishes first, unless it was
    seen before or leads back. *)
Lemma visits_spec seen l seen' fin : visits seen l seen' fin ->
  (forall x, x ∈ seen' <-> x ∈ seen \/ x ∈ fin)
  /\ (forall x, x ∈ fin -> exists r, r ∈ l /\ rtc live_step r x)
  /\ (forall r, r ∈ l -> is_node spec r = true -> r ∈ seen')
  /\ (forall a b, a ∈ fin -> live_step a b -> is_node spec b = true ->
        above fin b a \/ b ∈ seen \/ rtc live_step b a).
Proof.
  induction 1 as [seen|seen n l seen' fin Hskip _ (IHs & IHr & IHp & IHa)
    |seen n l seen1 fin1 seen2 fin2 Hn Hns _ (IHs1 & IHr1 & IHp1 & IHa1) _ (IHs2 & IHr2 & IHp2 & IHa2)].
  - split_and!; [|by intros ? ?%elem_of_nil|by intros ? ?%elem_of_nil|by intros ? ? ?%elem_of_nil].
    intros x. rewrite elem_of_nil. tauto.
  - split_and!; [done| | |done].
    + intros x (r & ? & ?)%IHr. exists r. split; [by right|done].
    + intros r [->|?]%elem_of_cons Hr; [|auto]. rewrite Hr in Hskip. cbn in Hskip.
      apply bool_decide_eq_true in Hskip. apply IHs. by left.
  - assert (Hreach : forall x, x ∈ fin1 -> rtc live_step n x).
    { intros x (r & Hr%elem_of_targets_of & ?)%IHr1. by eapply rtc_l. }
    assert (Hs1 : forall x, x ∈ seen1 <-> x ∈ seen \/ x ∈ fin1 ++ [n]).
    { intros x. rewrite IHs1, elem_of_cons, elem_of_app, list_elem_of_singleton. tauto. }
    split_and!.
    + intros x. rewrite IHs2, Hs1. rewrite !elem_of_app, list_elem_of_singleton, elem_of_cons. tauto.
    + intros x [Hx|[->|Hx]%elem_of_cons]%elem_of_app.
      * exists n. split; [by left|auto].
      * exists n. by split; [left|].
      * destruct (IHr2 x Hx) as (r & ? & ?). exists r. split; [by right|done].
    + intros r [->|Hr]%elem_of_cons Hnode; [|auto]. apply IHs2. left. apply Hs1.
      rewrite elem_of_app, list_elem_of_singleton. auto.
    + intros a b Ha Hab Hb. change (fin1 ++ n :: fin2) with (fin1 ++ [n] ++ fin2) in *.
      rewrite app_assoc in *. apply elem_of_app in Ha as [Ha|Ha].
      * apply elem_of_app in Ha as [Ha| ->%list_elem_of_singleton].
        -- destruct (IHa1 a b Ha Hab Hb) as [?|[[->|?]%elem_of_cons|?]]; auto.
           left. by apply above_app_l, above_app_l.
        -- assert (Hseen : b ∈ seen1) by (apply IHp1; [by apply elem_of_targets_of|done]).
           apply IHs1 in Hseen as [[->|?]%elem_of_cons|Hf]; auto using rtc_refl.
           left. apply above_app_l, above_across; [done|by left].
      * destruct (IHa2 a b Ha Hab Hb) as [?|[Hseen|?]]; auto.
        -- left. by apply above_app_r.
        -- apply Hs1 in Hseen as [?|?]; auto. left. by apply above_across.
Qed.

(** A stack: the finished entries to report, the open ones to visit. *)
Inductive unwinds : list (text * bool) -> list text -> list text -> list text * list text -> Prop :=
| unwinds_nil seen order : unwinds [] seen order (order, seen)
| unwinds_finished n pending seen order result :
    unwinds pending seen (order ++ [n]) result -> unwinds ((n, true) :: pending) seen order result
| unwinds_open n pending seen order seen1 fin result :
    visits seen [n] seen1 fin -> unwinds pending seen1 (order ++ fin) result ->
    unwinds ((n, false) :: pending) seen order result.

Lemma unwinds_targets l rest seen order result :
  unwinds (map (fun n => (n, false)) l ++ rest) seen order result ->
  exists seen1 fin, visits seen l seen1 fin /\ unwinds rest seen1 (order ++ fin) result.
Proof.
  revert seen order. induction l as [|n l IH]; intros seen order; cbn [map app].
  { intros ?. exists seen, []. rewrite app_nil_r. split; [constructor|done]. }
  intros Hu. inversion Hu as [| |? ? ? ? seen1 fin ? Hv Hrest]; subst.
  destruct (IH _ _ Hrest) as (seen2 & fin2 & Hv2 & Hrest2). exists seen2, (fin ++ fin2).
  rewrite app_assoc. split; [|done].
  inversion Hv as [|? ? ? ? ? Hskip Hnil|? ? ? s1 f1 s2 f2 Hn Hs Hv1 Hnil]; subst.
  - inversion Hnil; subst. by apply visits_skip.
  - inversion Hnil; subst. rewrite <-app_assoc. by eapply visits_node.
Qed.

(** The loop is the recursion. *)
Lemma walk_loop_unwinds fuel pending seen order :
  length pending + unseen_cost (walk_cost spec) (node_names spec) seen < fuel ->
  unwinds pending seen order (walk_loop spec fuel pending seen order).
Proof.
  revert pending seen order. induction fuel as [|fuel IH]; intros pending seen order Hf; [lia|].
  cbn [walk_loop]. destruct pending as [|[n finished] pending]; cbn [length] in Hf; [constructor|].
  destruct finished; [|destruct (negb (is_node spec n) || bool_decide (n ∈ seen)) eqn:E].
  - constructor. apply IH. lia.
  - eapply unwinds_open; [apply visits_skip; [done|constructor]|]. rewrite app_nil_r. apply IH. lia.
  - apply orb_false_iff in E as [Hn%negb_false_iff Hs%bool_decide_eq_false].
    pose proof (unseen_cost_visit (walk_cost spec) (node_names spec) seen n) as Hc.
    rewrite is_node_spec in Hn. specialize (Hc Hn Hs).
    match goal with |- unwinds _ _ _ (walk_loop _ _ ?p ?sn _) => specialize (IH p sn order) end.
    rewrite length_app, length_rev, length_map in IH. cbn [length] in IH.
    pose proof (filter_length_le live_edge (edges spec n)).
    change (walk_cost spec n) with (S (length (edges spec n))) in Hc. specialize (IH ltac:(lia)).
    revert IH. generalize (walk_loop spec fuel
      (rev (map (fun edge => (target edge, false)) (List.filter live_edge (edges spec n))) ++ (n, true) :: pending)
      (n :: seen) order). intros result.
    replace (rev (map (fun edge => (target edge, false)) (List.filter live_edge (edges spec n))))
      with (map (fun t => (t, false)) (targets_of n)) by (unfold targets_of; by rewrite map_rev, map_map).
    intros (seen1 & fin & Hv & Hrest)%unwinds_targets. inversion Hrest; subst.
    eapply unwinds_open; [|rewrite app_assoc; eassumption].
    eapply (visits_node _ _ [] _ fin _ []); [by apply is_node_spec|done|done|constructor].
Qed.

Lemma walk_component_visits start seen :
  exists fin, (walk_component spec start seen).1 = rev fin
    /\ visits seen [start] (walk_component spec start seen).2 fin.
Proof.
  pose proof (walk_loop_unwinds (walk_fuel spec) [(start, false)] seen []) as Hu. unfold walk_component.
  pose proof (unseen_cost_le (walk_cost spec) (node_names spec) seen).
  specialize (Hu ltac:(unfold walk_fuel; cbn [length]; lia)).
  destruct (walk_loop spec (walk_fuel spec) [(start, false)] seen []) as [order seen'].
  inversion Hu as [| |? ? ? ? seen1 fin ? Hv Hrest]; subst. inversion Hrest; subst. by exists order.
Qed.
End Walk.

Section WalkOrder.
Context (spec : WorkflowSpec).

Lemma edges_resolved a e : e ∈ edges spec a -> exists l, resolved_edges spec a = Some l /\ e ∈ l.
Proof.
  unfold edges. intros [_ He]%elem_of_filter_bool.
  destruct (resolved_edges spec a) as [l|]; [by exists l|by apply elem_of_nil in He].
Qed.
Lemma resolved_node a l : resolved_edges spec a = Some l -> is_node spec a = true.
Proof.
  unfold resolved_edges, node_edges, is_node, contains_key.
  destruct (lookup_key a (checks spec)); [done|]. by destruct (lookup_key a (steps spec)).
Qed.
Lemma live_step_node a b : live_step spec a b -> is_node spec a = true.
Proof. intros (e & (l & Hl & _)%edges_resolved & _). by eapply resolved_node. Qed.

Definition closed (seen : list text) : Prop :=
  forall a b, a ∈ seen -> live_step spec a b -> is_node spec b = true -> b ∈ seen.

Lemma closed_reach seen s n :
  closed seen -> s ∈ seen -> rtc (live_step spec) s n -> is_node spec n = true -> n ∈ seen.
Proof.
  intros Hc Hs Hr. revert n Hr. apply (rtc_ind_r (fun n => is_node spec n = true -> n ∈ seen)); [done|].
  intros a b _ Hab IH Hn. eapply Hc; [apply IH; by eapply live_step_node|done..].
Qed.

(** What one start contributes. *)
Record component (start : text) (seen : list text) (result : list text * list text)
    (new : list text) : Prop := {
  cp_seen : result.2 = new ++ seen;
  cp_order : result.1 ≡ₚ new;
  cp_nodes : forall n, n ∈ new -> is_node spec n = true /\ rtc (live_step spec) start n;
  cp_nodup : NoDup (new ++ seen);
  cp_start : is_node spec start = true -> start ∈ new ++ seen;
  cp_closed : closed (new ++ seen);
  cp_above : forall a b, a ∈ new -> live_step spec a b -> is_node spec b = true ->
    above result.1 a b \/ b ∈ seen \/ rtc (live_step spec) b a
}.

Lemma walk_component_spec start seen :
  NoDup seen -> closed seen -> exists new, component start seen (walk_component spec start seen) new.
Proof.
  intros Hnd Hc. destruct (walk_loop_spec spec (walk_fuel spec) [(start, false)] seen []) as [new []].
  { unfold walk_fuel. cbn [length]. pose proof (unseen_cost_le (walk_cost spec) (node_names spec) seen). lia. }
  destruct (walk_component_visits spec start seen) as (fin & Efin & (_ & _ & _ & Hv)%visits_spec).
  exists new. unfold walk_component in *. destruct (walk_loop _ _ _ _ _) as [order seen'] eqn:E.
  cbn [fst snd] in *. cbn in wk_order0. split; cbn [fst snd]; [done| | |by auto| | |].
  - by rewrite <-wk_order0, <-Permutation_rev.
  - intros n Hn. rewrite Forall_forall in wk_nodes0. split; [by apply wk_nodes0|].
    destruct (wk_reach0 n Hn) as (p & [= ->]%list_elem_of_singleton & ?). done.
  - intros Hs. apply wk_pending0; [by left|done].
  - intros a b [Ha|Ha]%elem_of_app Hab Hb; [by eapply wk_closed0|].
    rewrite elem_of_app. right. by eapply Hc.
  - intros a b Ha Hab Hb. rewrite Efin.
    destruct (Hv a b) as [?|?]; [|done..|by left; apply above_rev|by right].
    by rewrite <-elem_of_rev, <-Efin, elem_of_rev, wk_order0.
Qed.

Definition starts (s : text) : Prop :=
  s = start (workflow spec) \/ deadline_target (workflow spec) = Some s.
(** The nodes a run can come to along live routes. *)
Definition reached (n : text) : Prop :=
  is_node spec n = true /\ exists s, starts s /\ rtc (live_step spec) s n.

Lemma reached_seen seen n :
  closed seen -> (forall s, starts s -> is_node spec s = true -> s ∈ seen) -> reached n -> n ∈ seen.
Proof.
  intros Hc Hs (Hn & s & Hst & Hr). eapply closed_reach; [done| |done..].
  apply Hs; [done|]. destruct (rtc_inv _ _ Hr) as [->|(b & Hb & _)]; [done|].
  by eapply live_step_node.
Qed.

Lemma walk_order_spec :
  exists order, NoDup order /\ (forall n, n ∈ order <-> reached n)
    /\ nodes (walk spec) = place_loop spec (hanging_steps spec order) order [] []
    /\ (forall n, n ∈ unreachable (walk spec) <-> is_node spec n = true /\ n ∉ order)
    /\ (forall a b, a ∈ order -> live_step spec a b -> is_node spec b = true ->
          above order a b \/ rtc (live_step spec) b a
          \/ (rtc (live_step spec) (start (workflow spec)) b
              /\ ~ rtc (live_step spec) (start (workflow spec)) a)).
Proof.
  assert (Hset : forall (seen : list text) n,
    n ∈ btree_set (List.filter (fun n => negb (bool_decide (n ∈ seen))) (node_names spec))
    <-> is_node spec n = true /\ n ∉ seen).
  { intros seen n. rewrite elem_of_btree_set, elem_of_filter_bool,
      negb_true_iff, bool_decide_eq_false, is_node_spec. tauto. }
  destruct (walk_component_spec (start (workflow spec)) []) as [new1 [E1 P1 N1 D1 S1 C1 A1]].
  { constructor. }
  { intros a b ?%elem_of_nil. done. }
  unfold walk. destruct (walk_component spec (start (workflow spec)) []) as [order1 seen1].
  cbn [fst snd] in *. rewrite app_nil_r in *. subst seen1.
  destruct (deadline_target (workflow spec)) as [d|] eqn:Ed.
  - destruct (walk_component_spec d new1) as [new2 [E2 P2 N2 D2 S2 C2 A2]]; [done..|].
    destruct (walk_component spec d new1) as [order2 seen2]. cbn [fst snd] in *. subst seen2.
    exists (order1 ++ order2). cbn [nodes unreachable].
    assert (Hp : order1 ++ order2 ≡ₚ new2 ++ new1) by (rewrite P1, P2; apply Permutation_app_comm).
    split_and!; [by rewrite Hp| |done| |].
    + intros n. rewrite Hp. split.
      * intros [Hn|Hn]%elem_of_app; [apply N2 in Hn as [? ?]|apply N1 in Hn as [? ?]]; (split; [done|]).
        -- exists d. split; [by right|done].
        -- eexists. split; [by left|done].
      * intros Hn. eapply reached_seen; [done| |done]. intros s [->|[= <-]%(eq_trans (eq_sym Ed))] Hs; [|auto].
        rewrite elem_of_app. right. auto.
    + intros n. rewrite Hset. by rewrite Hp.
    + intros a b [Ha|Ha]%elem_of_app Hab Hb.
      * rewrite P1 in Ha. destruct (A1 a b Ha Hab Hb) as [?|[?%elem_of_nil|?]]; [|done|by auto].
        left. by apply above_app_l.
      * rewrite P2 in Ha. destruct (A2 a b Ha Hab Hb) as [?|[Hb1|?]]; [by left; apply above_app_r| |by auto].
        right. right. split; [by apply N1|]. intros Hr.
        apply NoDup_app in D2 as (_ & Hd & _). apply (Hd a Ha).
        eapply closed_reach; [exact C1| |exact Hr|by apply N2]. apply S1.
        destruct (rtc_inv _ _ Hr) as [->|(x & Hx & _)]; [by apply N2|by eapply live_step_node].
  - exists order1. cbn [nodes unreachable]. split_and!; [by rewrite P1| |done| |].
    + intros n. rewrite P1. split.
      * intros [? ?]%N1. split; [done|]. eexists. split; [by left|done].
      * intros Hn. eapply reached_seen; [done| |done]. intros s [->|?] Hs; [auto|congruence].
    + intros n. rewrite Hset. by rewrite P1.
    + intros a b Ha Hab Hb. rewrite P1 in Ha. destruct (A1 a b Ha Hab Hb) as [?|[?%elem_of_nil|?]]; by auto.
Qed.
End WalkOrder.

Section Placing.
Context (spec : WorkflowSpec) (parents : gmap text text) (whole : list text).
Context (Hwhole : NoDup whole) (Hparents : forall n p, parents !! n = Some p -> above whole p n).

Definition names (out : list WalkNode) : list text := map node out.

(** The end of the list is [p] and steps that hang under it. *)
Definition right_below (out : list WalkNode) (p : text) : Prop :=
  exists out0 z between, out = out0 ++ z :: between /\ node z = p
    /\ Forall (fun y => hangs_under y = Some p) between.
(** The nodes that hang nowhere, placed in turn. *)
Definition upright (w : WalkNode) : Prop := hangs_under w = None.

(** The list built so far: distinct nodes, [placed] their names; every hung
    node right below its parent; below an upright node, later ones only. *)
Record placed_ok (placed : list text) (out : list WalkNode) : Prop := {
  pl_names : forall n, n ∈ placed <-> n ∈ names out;
  pl_nodup : NoDup (names out);
  pl_hung : forall out1 w out2 p, out = out1 ++ w :: out2 -> hangs_under w = Some p ->
    right_below out1 p /\ parents !! node w = Some p;
  pl_above : forall out1 w out2 y, out = out1 ++ w :: out2 -> upright w -> y ∈ names out2 ->
    above whole (node w) y
}.

Lemma placed_snoc placed out n h :
  placed_ok placed out -> n ∉ placed ->
  (forall p, h = Some p -> right_below out p /\ parents !! n = Some p) ->
  (forall w, w ∈ out -> upright w -> above whole (node w) n) ->
  placed_ok (n :: placed) (out ++ [{| node := n; hangs_under := h |}]).
Proof using.
  intros [] Hn Hh Hab. split; unfold names in *.
  - intros x. rewrite map_app, elem_of_app, elem_of_cons, pl_names0. cbn. rewrite list_elem_of_singleton. tauto.
  - rewrite map_app. apply NoDup_app. split_and!; [done| |by apply NoDup_singleton].
    intros x Hx ->%list_elem_of_singleton. apply Hn, pl_names0, Hx.
  - intros out1 w out2 p Heq Hw. destruct out2 as [|z out2 _] using rev_ind.
    + apply app_inj_tail in Heq as [-> <-]. cbn in *. by apply Hh.
    + rewrite app_comm_cons, app_assoc in Heq. apply app_inj_tail in Heq as [-> _]. eauto.
  - intros out1 w out2 y Heq Hw Hy. destruct out2 as [|z out2 _] using rev_ind; [by apply elem_of_nil in Hy|].
    rewrite app_comm_cons, app_assoc in Heq. apply app_inj_tail in Heq as [-> <-].
    rewrite map_app, elem_of_app in Hy. destruct Hy as [Hy| ->%list_elem_of_singleton]; [by eapply pl_above0|].
    apply Hab; [|done]. rewrite elem_of_app. right. by left.
Qed.

Lemma hang_loop_ok n l placed out :
  placed_ok placed out -> right_below out n ->
  (forall w, w ∈ out -> upright w -> node w = n \/ above whole (node w) n) ->
  let '(placed', out') := hang_loop parents n l placed out in
  placed_ok placed' out' /\ (forall x, x ∈ placed -> x ∈ placed')
  /\ (forall x, x ∈ placed' -> x ∈ placed \/ is_Some (parents !! x))
  /\ (forall w, w ∈ out' -> upright w -> w ∈ out).
Proof using Hwhole Hparents.
  revert placed out. induction l as [|e l IH]; intros placed out Hok Hn Hw; cbn [hang_loop]; [by auto|].
  destruct (bool_decide (parents !! target e = Some n) && _) eqn:E; [|by apply IH].
  apply andb_true_iff in E as [Hp%bool_decide_eq_true Ht%negb_true_iff%bool_decide_eq_false].
  specialize (IH (target e :: placed) (out ++ [{| node := target e; hangs_under := Some n |}])).
  assert (Hback : forall w, w ∈ out ++ [{| node := target e; hangs_under := Some n |}] -> upright w -> w ∈ out).
  { by intros w [?| ->%list_elem_of_singleton]%elem_of_app. }
  destruct (hang_loop _ _ _ _ _) as [placed' out'].
  destruct IH as (? & Hsub & Hfrom & Hup).
  - apply placed_snoc; [done..|by intros p [= <-]|]. intros w Hin Hu. pose proof (Hparents _ _ Hp).
    destruct (Hw w Hin Hu) as [->|?]; [done|by eapply above_trans].
  - destruct Hn as (out0 & z & between & -> & Hz & Hf). exists out0, z, (between ++ [{| node := target e; hangs_under := Some n |}]).
    rewrite <-app_assoc. split_and!; [done..|]. apply Forall_app. by repeat constructor.
  - auto.
  - split_and!; [done| | |auto].
    + intros x Hx. apply Hsub. by right.
    + intros x [[->|?]%elem_of_cons|?]%Hfrom; eauto.
Qed.

Lemma place_loop_ok done_ order placed out :
  whole = done_ ++ order -> placed_ok placed out ->
  (forall w, w ∈ out -> upright w -> node w ∈ done_) ->
  let out' := place_loop spec parents order placed out in
  (exists placed', placed_ok placed' out')
  /\ (forall x, x ∈ names out' -> x ∈ placed \/ x ∈ order \/ is_Some (parents !! x))
  /\ (forall x, x ∈ placed \/ x ∈ order -> x ∈ names out').
Proof using Hwhole Hparents.
  revert done_ placed out. induction order as [|n order IH]; intros done_ placed out Hw Hok Hup; cbn [place_loop].
  - split_and!; [by exists placed| |]; destruct Hok.
    + intros x Hx. left. by apply pl_names0.
    + intros x [?|?%elem_of_nil]; [by apply pl_names0|done].
  - assert (Hw' : whole = (done_ ++ [n]) ++ order) by by rewrite <-app_assoc.
    destruct (bool_decide (n ∈ placed)) eqn:E.
    + apply bool_decide_eq_true in E. destruct (IH (done_ ++ [n]) placed out Hw' Hok) as (? & Hfrom & Hto).
      { intros w Hin Hu. rewrite elem_of_app. left. by apply Hup. }
      split_and!; [done| |].
      * intros x Hx. rewrite elem_of_cons. destruct (Hfrom x Hx) as [|[|]]; auto.
      * intros x [?|[->|?]%elem_of_cons]; auto.
    + apply bool_decide_eq_false in E.
      assert (Hbefore : forall w, w ∈ out -> upright w -> above whole (node w) n).
      { intros w Hin Hu. rewrite Hw. apply above_across; [by apply Hup|by left]. }
      pose proof (hang_loop_ok n (edges spec n) (n :: placed) (out ++ [{| node := n; hangs_under := None |}])) as Hh.
      destruct (hang_loop _ _ _ _ _) as [placed' out'].
      destruct Hh as (Hok' & Hsub & Hfrom' & Hback).
      { by apply placed_snoc. }
      { by exists out, {| node := n; hangs_under := None |}, []. }
      { intros w [Hin| ->%list_elem_of_singleton]%elem_of_app Hu; [right; by apply Hbefore|by left]. }
      destruct (IH (done_ ++ [n]) placed' out' Hw' Hok') as (? & Hfrom & Hto).
      { intros w Hin Hu. destruct (proj1 (elem_of_app _ _ _) (Hback w Hin Hu)) as [Ho| ->%list_elem_of_singleton];
          rewrite elem_of_app; [left; by apply Hup|right; by left]. }
      split_and!; [done| |].
      * intros x Hx. rewrite elem_of_cons. destruct (Hfrom x Hx) as [Hx'|[|]]; [|auto..].
        apply Hfrom' in Hx' as [[->|?]%elem_of_cons|?]; auto.
      * intros x Hx. apply Hto. rewrite elem_of_cons in Hx.
        destruct Hx as [?|[->|?]]; [left|left|by right]; apply Hsub; [by right|by left].
Qed.
End Placing.

Lemma hanging_steps_spec spec order n p :
  hanging_steps spec order !! n = Some p ->
  above order p n /\ contains_key p (checks spec) = true /\ live_step spec p n
  /\ exists step, (n, step) ∈ steps spec /\ p ∈ step_then step.
Proof.
  unfold hanging_steps. intros H%elem_of_list_to_map_2.
  apply list_elem_of_omap in H as ([n' step] & Hin & Hp).
  destruct (List.find _ (step_then step)) as [parent|] eqn:Ef; [|done]. injection Hp as -> ->.
  apply find_some in Ef as [Hthen%list_elem_of_In Hf].
  apply andb_true_iff in Hf as [[Hc Hpos]%andb_true_iff He]. split_and!; [|done| |by exists step].
  - assert (Hat : forall x i, (list_to_map (rev (imap (fun i n => (n, i)) order)) : gmap text nat) !! x = Some i ->
      order !! i = Some x).
    { intros x i (j & y & [= <- <-] & Hy)%elem_of_list_to_map_2%elem_of_rev%elem_of_lookup_imap. done. }
    destruct (_ !! p) as [i|] eqn:Ei; [|done]. destruct (_ !! n) as [j|] eqn:Ej; [|done].
    apply Nat.ltb_lt in Hpos. by eapply (lookup_above order i j); [apply Hat..|].
  - apply existsb_exists in He as (e & He%list_elem_of_In & [Ht%bool_decide_eq_true Hl]%andb_true_iff).
    by exists e.
Qed.

(** C37: the walk of a workflow lists every node exactly once: [nodes] holds
    the nodes a run can come to from its start or its deadline target along
    live routes, and [unreachable] the others, sorted; neither has a node
    twice.  A node that hangs is a step right below an earlier check, after
    that check's other hung steps at most, which the step names in [then] and
    which routes to it.  Any other node is placed in reverse postorder of the
    search: when it has a live route from a node below it, it leads back to
    that node (the route closes a cycle), or it belongs to the part of the
    start and that node only to the part of the deadline target, which is
    listed last. *)
Theorem walk_partitions_nodes spec :
  NoDup (names (nodes (walk spec)))
  /\ (forall n, n ∈ names (nodes (walk spec)) <-> reached spec n)
  /\ (forall n, n ∈ unreachable (walk spec) <-> is_node spec n = true /\ ~ reached spec n)
  /\ NoDup (unreachable (walk spec))
  /\ StronglySorted (fun a b => text_leb a b = true) (unreachable (walk spec))
  /\ (forall above w below p, nodes (walk spec) = above ++ w :: below -> hangs_under w = Some p ->
        right_below above p /\ contains_key p (checks spec) = true /\ live_step spec p (node w)
        /\ exists step, (node w, step) ∈ steps spec /\ p ∈ step_then step)
  /\ (forall above w below a, nodes (walk spec) = above ++ w :: below -> hangs_under w = None ->
        a ∈ names below -> live_step spec a (node w) ->
        rtc (live_step spec) (node w) a
        \/ (rtc (live_step spec) (start (workflow spec)) (node w)
            /\ ~ rtc (live_step spec) (start (workflow spec)) a)).
Proof.
  destruct (walk_order_spec spec) as (order & Hnd & Hr & Hnodes & Hun & Hab). rewrite Hnodes.
  destruct (place_loop_ok spec (hanging_steps spec order) order Hnd) with (done_ := @nil text) (order := order)
    (placed := @nil text) (out := @nil WalkNode) as ([placed []] & Hfrom & Hto).
  { by intros n p [? _]%hanging_steps_spec. }
  { done. }
  { split; [done|constructor|by intros [|? ?]..]. }
  { by intros w ?%elem_of_nil. }
  assert (Hin : forall n, n ∈ names (place_loop spec (hanging_steps spec order) order [] []) <-> n ∈ order).
  { intros n. split; [|auto]. intros [?%elem_of_nil|[?|[p Hp]]]%Hfrom; [done..|].
    apply hanging_steps_spec in Hp as [(l1 & l2 & -> & ?) _]. rewrite elem_of_app. right. by right. }
  split_and!; [done| | | | | |].
  - intros n. by rewrite Hin.
  - intros n. by rewrite Hun, Hr.
  - unfold walk. repeat case_match; apply btree_set_sorted.
  - unfold walk. repeat case_match; apply btree_set_sorted.
  - intros above_ w below p Heq Hw. destruct (pl_hung0 above_ w below p Heq Hw) as [? Hp].
    apply hanging_steps_spec in Hp as (_ & ? & ? & ?). done.
  - intros above_ w below a Heq Hw Ha Hstep.
    assert (Hout : forall x, x ∈ names (above_ ++ w :: below) -> x ∈ order) by (intros x; by rewrite <-Heq, Hin).
    unfold names in Hout. rewrite map_app in Hout. cbn [map] in Hout.
    destruct (Hab a (node w)) as [Hup|?]; [|done| |exfalso|done].
    + apply Hout. rewrite elem_of_app, elem_of_cons. auto.
    + apply Hr, Hout. rewrite elem_of_app, elem_of_cons. auto.
    + exact (above_irreflexive _ _ _ Hnd Hup (pl_above0 above_ w below a Heq Hw Ha)).
Qed.

(** ** Cycles *)

Import Validate.

Section Cycles.
Context (spec : WorkflowSpec) (start : text) (allowed : text -> bool).

(** A route between nodes that the cycle search may follow. *)
Definition cycle_step (a b : text) : Prop := b ∈ cycle_targets spec allowed a.

Definition resolved_cost (n : text) : nat := length (default [] (resolved_edges spec n)).

Lemma cycle_targets_cost n : length (cycle_targets spec allowed n) <= resolved_cost n.
Proof.
  unfold cycle_targets, resolved_cost. etrans; [apply filter_length_le|]. rewrite length_map.
  apply filter_length_le.
Qed.

Lemma resolved_cost_node n : is_node spec n = false -> resolved_cost n = 0.
Proof.
  unfold resolved_cost. destruct (resolved_edges spec n) as [l|] eqn:E; [|done].
  apply resolved_node in E. congruence.
Qed.

Lemma cycles_loop_sound fuel pending seen :
  (forall p, p ∈ pending -> rtc cycle_step start p) ->
  cycles_loop spec start allowed fuel pending seen = true -> tc cycle_step start start.
Proof.
  revert pending seen. induction fuel as [|fuel IH]; intros pending seen Hp; cbn [cycles_loop]; [done|].
  destruct pending as [|n pending]; [done|].
  assert (Hn : rtc cycle_step start n) by (apply Hp; by left).
  destruct (bool_decide (n ∈ seen)); [apply IH; intros p ?; apply Hp; by right|].
  destruct (bool_decide (start ∈ _)) eqn:E.
  - intros _. apply bool_decide_eq_true in E. by eapply tc_rtc_l; [|apply tc_once].
  - apply IH. intros p [Ht|?]%elem_of_app; [|apply Hp; by right].
    rewrite elem_of_rev in Ht. eapply rtc_r; [exact Hn|exact Ht].
Qed.

(** The search fails only when nothing it can follow leads back. *)
Lemma cycles_loop_complete fuel pending seen :
  length pending + unseen_cost resolved_cost (node_names spec) seen < fuel ->
  (forall a, a ∈ seen -> forall b, cycle_step a b -> b <> start /\ (b ∈ pending \/ b ∈ seen)) ->
  cycles_loop spec start allowed fuel pending seen = false ->
  exists final : list text, (forall p, p ∈ pending \/ p ∈ seen -> p ∈ final)
    /\ forall a, a ∈ final -> forall b, cycle_step a b -> b <> start /\ b ∈ final.
Proof.
  revert pending seen. induction fuel as [|fuel IH]; intros pending seen Hf Hseen; [lia|].
  cbn [cycles_loop]. destruct pending as [|n pending]; cbn [length] in Hf.
  { intros _. exists seen. split; [by intros p [?%elem_of_nil|?]|].
    intros a Ha b Hb. destruct (Hseen a Ha b Hb) as [? [?%elem_of_nil|?]]; done. }
  destruct (bool_decide (n ∈ seen)) eqn:En; [apply bool_decide_eq_true in En|apply bool_decide_eq_false in En].
  - intros H. destruct (IH pending seen) as (final & Hsub & Hcl); [lia| |done|].
    + intros a Ha b Hb. destruct (Hseen a Ha b Hb) as [? [[->|?]%elem_of_cons|?]]; auto.
    + exists final. split; [|done]. intros p [[->|?]%elem_of_cons|?]; auto.
  - destruct (bool_decide (start ∈ _)) eqn:Es; [done|apply bool_decide_eq_false in Es]. intros H.
    destruct (IH (rev (cycle_targets spec allowed n) ++ pending) (n :: seen)) as (final & Hsub & Hcl);
      [| |done|].
    + rewrite length_app, length_rev. pose proof (cycle_targets_cost n).
      destruct (is_node spec n) eqn:Hn.
      * pose proof (unseen_cost_visit resolved_cost (node_names spec) seen n). apply is_node_spec in Hn.
        specialize (H1 Hn En). lia.
      * rewrite (resolved_cost_node n Hn) in *. pose proof (unseen_cost_mono resolved_cost (node_names spec) seen n).
        lia.
    + intros a [->|Ha]%elem_of_cons b Hb.
      * split; [by intros ->|]. left. rewrite elem_of_app, elem_of_rev. by left.
      * destruct (Hseen a Ha b Hb) as [? [[->|?]%elem_of_cons|?]]; (split; [done|]);
          rewrite elem_of_app, elem_of_cons; auto.
    + exists final. split; [|done]. intros p [[->|?]%elem_of_cons|?]; apply Hsub.
      * right. by left.
      * left. rewrite elem_of_app. by right.
      * right. by right.
Qed.

(** The cycle search of the validation is exact: it answers yes precisely
    when routes it may follow -- not the deadline, no default route of a step,
    only allowed targets -- lead from the node back to itself. *)
Theorem cycles_to_spec : cycles_to spec start allowed = true <-> tc cycle_step start start.
Proof.
  unfold cycles_to. split.
  - apply cycles_loop_sound. by intros p ->%list_elem_of_singleton.
  - intros Hc. destruct (cycles_loop _ _ _ _ _ _) eqn:E; [done|exfalso].
    apply cycles_loop_complete in E as (final & Hsub & Hcl).
    + assert (Hs : start ∈ final) by (apply Hsub; left; by left).
      assert (H : forall a b, tc cycle_step a b -> a ∈ final -> b <> start /\ b ∈ final).
      { intros a b Hab. induction Hab as [a b Hab|a b c Hab _ IH]; intros Ha; [by eapply Hcl|].
        apply IH. by eapply Hcl. }
      by destruct (H _ _ Hc Hs).
    + unfold cycle_fuel. cbn [length].
      pose proof (unseen_cost_le resolved_cost (node_names spec) []). unfold resolved_cost in *. lia.
    + by intros a ?%elem_of_nil.
Qed.
End Cycles.

(** ** Resolved routes *)

Lemma find_target_resolve spec n o outs m :
  find_target o (resolve_loop spec n outs m)
  = if decide (o ∈ outs) then option_map fst (m !! o) else None.
Proof.
  revert m. induction outs as [|x outs IH]; intros m; cbn [resolve_loop].
  { by rewrite decide_False by apply not_elem_of_nil. }
  destruct (m !! x) as [[t b]|] eqn:Ex.
  - destruct (fireability spec n x) as [f bc]. unfold find_target. cbn [List.find].
    destruct (decide (x = o)) as [->|Hne].
    + cbn [outcome]. rewrite bool_decide_eq_true_2, decide_True by (done || by left). by rewrite Ex.
    + cbn [outcome]. rewrite bool_decide_eq_false_2 by done. fold (find_target o (resolve_loop spec n outs (delete x m))).
      rewrite IH, lookup_delete_ne by done.
      destruct (decide (o ∈ outs)); [rewrite decide_True by by right|rewrite decide_False]; [done..|].
      rewrite elem_of_cons. naive_solver.
  - rewrite IH. destruct (decide (o ∈ outs)); [by rewrite decide_True by by right|].
    destruct (decide (o = x)) as [->|Hne].
    + rewrite decide_True by by left. by rewrite Ex.
    + rewrite decide_False; [done|]. rewrite elem_of_cons. naive_solver.
Qed.

Lemma resolve_loop_elem spec n outs m e :
  e ∈ resolve_loop spec n outs m ->
  exists b : bool, m !! outcome e = Some (target e, b) /\ source e = (if b then Explicit else Default).
Proof.
  revert m. induction outs as [|x outs IH]; intros m; cbn [resolve_loop]; [by intros ?%elem_of_nil|].
  destruct (m !! x) as [[t b]|] eqn:Ex; [|apply IH].
  destruct (fireability spec n x) as [f bc]. intros [->|He]%elem_of_cons; [by exists b|].
  apply IH in He as (b' & Hm & Hs). exists b'. split; [|done].
  destruct (decide (x = outcome e)) as [->|Hne]; [by rewrite lookup_delete_eq in Hm|].
  by rewrite lookup_delete_ne in Hm.
Qed.

Lemma resolve_loop_outcome spec n outs m e :
  e ∈ resolve_loop spec n outs m -> outcome e ∈ outs.
Proof.
  revert m. induction outs as [|x outs IH]; intros m; cbn [resolve_loop]; [by intros ?%elem_of_nil|].
  rewrite elem_of_cons. destruct (m !! x) as [[t b]|]; [|eauto].
  destruct (fireability spec n x) as [f bc]. intros [->|He]%elem_of_cons; [by left|eauto].
Qed.

(** The routes of a node, without the deadline. *)
Definition own_edges (spec : WorkflowSpec) (n : text) (m : gmap text (text * bool)) : Prop :=
  match lookup_key n (checks spec) with
  | Some check =>
      m = map_imap (fun outcome target =>
            Some (target, contains_key outcome (check_on check)
                          || bool_decide (outcome = str "then") && Check.is_sleep check))
            (check_edges check)
  | None => exists step, lookup_key n (steps spec) = Some step /\ m = step_edges step
  end.

Lemma resolved_own spec n l :
  resolved_edges spec n = Some l ->
  exists m, own_edges spec n m
    /\ l = resolve_loop spec n (node_outcomes spec n)
             (<[str "deadline" := (unwrap_or (deadline_target (workflow spec)) (str "@user"),
                                   is_some (deadline_target (workflow spec)))]> m).
Proof.
  unfold resolved_edges, node_edges, own_edges.
  destruct (lookup_key n (checks spec)) as [c|]; [|destruct (lookup_key n (steps spec)) as [s|]; [|done]];
    intros [= <-]; eexists; (split; [|done]); [done|by exists s].
Qed.

Lemma own_resolved spec n m :
  own_edges spec n m ->
  resolved_edges spec n = Some (resolve_loop spec n (node_outcomes spec n)
             (<[str "deadline" := (unwrap_or (deadline_target (workflow spec)) (str "@user"),
                                   is_some (deadline_target (workflow spec)))]> m)).
Proof.
  unfold resolved_edges, node_edges, own_edges.
  destruct (lookup_key n (checks spec)) as [c|]; [by intros ->|]. by intros (s & -> & ->).
Qed.

Lemma own_edge spec n l e :
  resolved_edges spec n = Some l -> e ∈ l -> outcome e <> str "deadline" ->
  exists m (b : bool), own_edges spec n m /\ m !! outcome e = Some (target e, b)
    /\ source e = (if b then Explicit else Default).
Proof.
  intros (m & Hm & ->)%resolved_own (b & Hb & Hs)%resolve_loop_elem Ho.
  rewrite lookup_insert_ne in Hb by done. eauto.
Qed.

Lemma step_edges_spec s o t b :
  step_edges s !! o = Some (t, b) ->
  (o = str "then" /\ head (step_then s) = Some t /\ b = true)
  \/ (o = str "asked" /\ asked (step_on s) = Some t /\ b = true)
  \/ (o = str "cap" /\ (if b : bool then cap (step_on s) = Some t else t = str "@user"))
  \/ (o = str "capacity" /\ (if b : bool then capacity (step_on s) = Some t else t = str "@failed")).
Proof.
  intros H%elem_of_list_to_map_2%list_elem_of_omap. destruct H as (((o' & target) & d) & Hin & H).
  rewrite !elem_of_cons, elem_of_nil in Hin.
  destruct Hin as [[= -> -> ->]|[[= -> -> ->]|[[= -> -> ->]|[[= -> -> ->]|[]]]]].
  - destruct (head (step_then s)) eqn:E; [|done]. injection H as <- <- <-. by left.
  - destruct (asked (step_on s)) eqn:E; [|done]. injection H as <- <- <-. auto.
  - destruct (cap (step_on s)) eqn:E; injection H as <- <- <-; auto.
  - destruct (capacity (step_on s)) eqn:E; injection H as <- <- <-; auto.
Qed.

Lemma step_edges_total s : is_Some (step_edges s !! str "cap") /\ is_Some (step_edges s !! str "capacity").
Proof.
  unfold step_edges.
  destruct (cap (step_on s)), (capacity (step_on s)), (head (step_then s)), (asked (step_on s));
    split; by eexists.
Qed.

Lemma or_insert_lookup {V} k (v : V) m o x :
  or_insert k v m !! o = Some x -> m !! o = Some x \/ (o = k /\ x = v).
Proof.
  unfold or_insert. destruct (m !! k) eqn:E; [by left|].
  rewrite lookup_insert_Some. intros [[<- <-]|[? ?]]; auto.
Qed.
Lemma or_insert_some {V} k (v : V) m : is_Some (or_insert k v m !! k).
Proof. unfold or_insert. destruct (m !! k) eqn:E; [by rewrite E; eexists|]. by rewrite lookup_insert_eq; eexists. Qed.
Lemma or_insert_keep {V} k (v : V) m o : is_Some (m !! o) -> is_Some (or_insert k v m !! o).
Proof.
  unfold or_insert. destruct (m !! k) eqn:E; [done|]. intros. rewrite lookup_insert_is_Some. 
  destruct (decide (k = o)); auto.
Qed.

Lemma check_edges_spec c o t :
  check_edges c !! o = Some t ->
  (exists route, (o, route) ∈ check_on c /\ t = route_target route /\ Check.is_sleep c = false)
  \/ (o = str "then" /\ check_then c = Some t /\ Check.is_sleep c = true)
  \/ t = str "@user" \/ t = str "@wait".
Proof.
  unfold check_edges. destruct (Check.is_sleep c).
  - set (base := <[str "sleeping" := _]> _).
    assert (Hb : forall t, base !! o = Some t -> t = str "@user" \/ t = str "@wait").
    { intros x. unfold base. rewrite lookup_insert_Some. intros [[_ <-]|[_ H]]; [by right|].
      rewrite lookup_singleton_Some in H. destruct H as [_ <-]. by left. }
    destruct (check_then c) as [tt|]; destruct (is_some (check_when c));
      rewrite ?lookup_insert_Some; naive_solver.
  - intros H.
    assert (H' : (exists route, (o, route) ∈ check_on c /\ t = route_target route)
                 \/ t = str "@user" \/ t = str "@wait").
    { destruct (Check.is_condition c); [apply or_insert_lookup in H as [H|[_ ->]]; [|by auto]|];
        (apply or_insert_lookup in H as [H|[_ ->]]; [|by auto]);
        (apply or_insert_lookup in H as [H|[_ ->]]; [|by auto]); left;
        apply elem_of_list_to_map_2, list_elem_of_fmap in H as ([o' r] & [= -> ->] & Hin); by exists r. }
    destruct H' as [(r & ? & ?)|?]; [left; by exists r|by auto].
Qed.

(** ** Accepted definitions *)

Definition SPECIAL : list text := [str "@wait"; str "@done"; str "@failed"; str "@user"].
Definition ok_target (spec : WorkflowSpec) (t : text) : Prop := is_node spec t = true \/ t ∈ SPECIAL.

Lemma when_error_nil b path msg : when_error b path msg = [] <-> b = false.
Proof. by destruct b. Qed.

Lemma flat_map_nil {A B} (f : A -> list B) l : flat_map f l = [] <-> forall x, x ∈ l -> f x = [].
Proof.
  induction l as [|x l IH]; cbn; [split; [by intros _ x ?%elem_of_nil|done]|].
  rewrite app_nil, IH. split.
  - intros [? ?] y [->|?]%elem_of_cons; auto.
  - intros H. split; [apply H; by left|]. intros y ?. apply H. by right.
Qed.

Lemma check_target_nil spec path t : check_target spec path t = [] <-> ok_target spec t.
Proof.
  unfold check_target, ok_target, is_node. rewrite when_error_nil, negb_false_iff, !orb_true_iff,
    bool_decide_eq_true. fold SPECIAL. tauto.
Qed.

Lemma special_name t : t ∈ SPECIAL -> validate_name t = false.
Proof.
  unfold SPECIAL. rewrite !elem_of_cons, elem_of_nil. intros [->|[->|[->|[->|[]]]]]; by vm_compute.
Qed.

(** [validate_spec] found no error. *)
Class Accepted `{Validators} (spec : WorkflowSpec) : Prop := {
  ad_start : is_node spec (start (workflow spec)) = true;
  ad_deadline : forall t, deadline_target (workflow spec) = Some t -> ok_target spec t;
  ad_check : forall n c, (n, c) ∈ checks spec -> check_errors spec (n, c) = [];
  ad_step : forall n s, (n, s) ∈ steps spec -> step_errors spec (n, s) = [];
  ad_cycles : cycle_errors spec = []
}.

Section Admission.
Context `{Validators}.

Lemma validated name spec : validate_spec name spec = [] -> Accepted spec.
Proof.
  intros Hv%map_eq_nil. apply app_nil in Hv as [_ Hv]. apply app_nil in Hv as [Hstart Hv].
  apply app_nil in Hv as [Hdl Hv]. apply app_nil in Hv as [Hc Hv]. apply app_nil in Hv as [Hs Hcy].
  split; [| |intros n c; by apply flat_map_nil|intros n x; by apply flat_map_nil|done].
  - by apply when_error_nil, negb_false_iff in Hstart.
  - intros t Ht. rewrite Ht in Hdl. by apply check_target_nil in Hdl.
Qed.

Context (spec : WorkflowSpec) `{!Accepted spec}.

Lemma node_validated n : is_node spec n = true -> validate_name n = true.
Proof using Type*.
  intros [Hn|Hn]%is_node_spec%elem_of_app; apply list_elem_of_fmap in Hn as ([n' x] & -> & Hin); cbn [fst].
  - apply ad_check in Hin. apply app_nil in Hin as [Hin _].
    by apply when_error_nil, negb_false_iff in Hin.
  - apply ad_step in Hin. apply app_nil in Hin as [Hin _].
    by apply when_error_nil, negb_false_iff in Hin.
Qed.

Lemma special_not_node t : t ∈ SPECIAL -> is_node spec t = false.
Proof using Type*.
  intros Ht%special_name. apply not_true_is_false. intros Hn%node_validated. congruence.
Qed.

Lemma step_not_check n s : (n, s) ∈ steps spec -> contains_key n (checks spec) = false.
Proof using Type*.
  intros Hs. apply not_true_is_false. intros (e & -> & Hin)%contains_key_spec%list_elem_of_fmap.
  destruct e as [n c]. apply ad_check in Hin. unfold check_errors in Hin.
  apply app_nil in Hin as [_ Hin]. apply app_nil in Hin as [Hin _]. apply when_error_nil in Hin.
  cbn [fst] in *. assert (contains_key n (steps spec) = true); [|congruence].
  apply contains_key_spec, list_elem_of_fmap. by exists (n, s).
Qed.

Lemma then_ok n s t : (n, s) ∈ steps spec -> t ∈ step_then s -> contains_key t (checks spec) = true.
Proof using Type*.
  intros Hs Ht. apply ad_step in Hs. unfold step_errors in Hs.
  do 3 (apply app_nil in Hs as [_ Hs]). apply app_nil in Hs as [Hs _]. unfold then_errors in Hs.
  apply app_nil in Hs as [_ Hs]. apply app_nil in Hs as [Hs _].
  apply when_error_nil, not_true_iff_false in Hs. destruct (contains_key t (checks spec)) eqn:E; [done|].
  destruct Hs. apply existsb_exists. exists t. rewrite E. by rewrite <-list_elem_of_In.
Qed.

Lemma then_nonempty n s : (n, s) ∈ steps spec -> exists t, head (step_then s) = Some t.
Proof using Type*.
  intros Hs. apply ad_step in Hs. unfold step_errors in Hs.
  do 3 (apply app_nil in Hs as [_ Hs]). apply app_nil in Hs as [Hs _]. unfold then_errors in Hs.
  apply app_nil in Hs as [Hs _]. apply when_error_nil in Hs. destruct (step_then s); [done|by eexists].
Qed.

Lemma on_targets_ok n s o t :
  (n, s) ∈ steps spec -> Step.is_agent s = true ->
  (o, Some t) ∈ [(str "asked", asked (step_on s)); (str "cap", cap (step_on s));
                 (str "capacity", capacity (step_on s))] ->
  ok_target spec t /\ t <> str "@wait".
Proof using Type*.
  intros Hs Ha Ht. apply ad_step in Hs. unfold step_errors in Hs.
  do 4 (apply app_nil in Hs as [_ Hs]). unfold step_on_errors in Hs. rewrite Ha in Hs.
  apply app_nil in Hs as [Hcap Hs]. pose proof (proj1 (flat_map_nil _ _) Hs) as Hon.
  assert (Hin : forall o, (o, Some t) ∈ [(str "asked", asked (step_on s)); (str "cap", cap (step_on s))] ->
            ok_target spec t /\ t <> str "@wait").
  { intros x Hx. specialize (Hon _ Hx). cbn [fst snd negb] in Hon. rewrite andb_false_r in Hon.
    apply app_nil in Hon as [Hok Hon]. apply app_nil in Hon as [Hw _].
    apply check_target_nil in Hok. by apply when_error_nil, bool_decide_eq_false in Hw. }
  rewrite !elem_of_cons, elem_of_nil in Ht. destruct Ht as [E|[E|[E|[]]]].
  - apply (Hin o). rewrite E. by left.
  - apply (Hin o). rewrite E. by right; left.
  - injection E as _ E. rewrite <-E in Hcap. apply app_nil in Hcap as [Hok Hw].
    apply check_target_nil in Hok. apply when_error_nil, bool_decide_eq_false in Hw.
    split; [done|]. intros ->. by apply Hw; right; left.
Qed.

Lemma cap_ok n s t : (n, s) ∈ steps spec -> cap (step_on s) = Some t ->
  ok_target spec t /\ t <> str "@wait" /\ t <> n.
Proof using Type*.
  intros Hs Ht. apply ad_step in Hs. unfold step_errors in Hs.
  do 4 (apply app_nil in Hs as [_ Hs]). unfold step_on_errors in Hs.
  apply app_nil in Hs as [_ Hs]. pose proof (proj1 (flat_map_nil _ _) Hs (str "cap", Some t)) as Hon.
  rewrite Ht in Hon. cbn -[str check_target when_error] in Hon.
  assert (Hc : bool_decide (str "cap" = str "asked") = false) by done. rewrite Hc in Hon. cbn [andb] in Hon.
  specialize (Hon ltac:(right; by left)). apply app_nil in Hon as [Hok Hon].
  apply app_nil in Hon as [Hw Hn]. apply check_target_nil in Hok.
  apply when_error_nil, bool_decide_eq_false in Hw. apply when_error_nil, bool_decide_eq_false in Hn. done.
Qed.

Lemma check_admitted n c : (n, c) ∈ checks spec ->
  Check.kind c <> None
  /\ (Check.is_condition c = true -> condition_fields (str "checks." ++ n) c = [])
  /\ (Check.is_sleep c = true -> sleep_errors spec (str "checks." ++ n) c = [])
  /\ waits spec n && is_none (timeout c) && negb (Check.is_sleep c) = false
  /\ forall o r, (o, r) ∈ check_on c -> ok_target spec (route_target r).
Proof using Type*.
  intros Hc. apply ad_check in Hc. unfold check_errors in Hc.
  do 2 (apply app_nil in Hc as [_ Hc]). apply app_nil in Hc as [Hk Hc].
  apply app_nil in Hc as [Hcond Hc]. apply app_nil in Hc as [Hsl Hc]. apply app_nil in Hc as [_ Hc].
  apply app_nil in Hc as [Hw Hon]. apply when_error_nil in Hw. split_and!; [| | |done|].
  - unfold kind_errors in Hk. by destruct (Check.kind c).
  - intros E. by rewrite E in Hcond.
  - intros E. by rewrite E in Hsl.
  - intros o r Hin. pose proof (proj1 (flat_map_nil _ _) Hon (o, r) Hin) as Ht. cbn beta iota in Ht.
    apply app_nil in Ht as [Ht _]. by apply check_target_nil in Ht.
Qed.

Lemma sleep_then n c : (n, c) ∈ checks spec -> Check.is_sleep c = true ->
  exists t, check_then c = Some t /\ ok_target spec t.
Proof using Type*.
  intros Hc E. apply check_admitted in Hc as (_ & _ & Hs & _). specialize (Hs E).
  unfold sleep_errors in Hs. apply app_nil in Hs as [_ Hs]. apply app_nil in Hs as [Hs _].
  destruct (check_then c) as [t|]; [|done]. exists t. split; [done|].
  destruct (decide _); [done|]. by apply check_target_nil in Hs.
Qed.

(** Commands keep no route of their own after the cleanup. *)
Definition commands_clean : Prop :=
  forall n s, (n, s) ∈ steps spec -> Step.is_command s = true ->
    asked (step_on s) = None /\ capacity (step_on s) = None.

Lemma step_kinds n s : (n, s) ∈ steps spec -> Step.is_agent s = true \/ Step.is_command s = true.
Proof using Type*.
  intros Hs. apply ad_step in Hs. unfold step_errors in Hs. do 2 (apply app_nil in Hs as [_ Hs]).
  apply app_nil in Hs as [Hs _]. unfold step_kind_errors in Hs. apply app_nil in Hs as [Hs _].
  apply when_error_nil in Hs. unfold Step.is_agent, Step.is_command.
  destruct (Step.kind s) as [[]|]; auto; done.
Qed.

Lemma own_target_ok n m o t b :
  commands_clean -> own_edges spec n m -> m !! o = Some (t, b) -> ok_target spec t.
Proof using Type*.
  intros Hclean Hown Hm. unfold own_edges in Hown.
  assert (Hsp : forall x, x ∈ SPECIAL -> ok_target spec x) by by right.
  destruct (lookup_key n (checks spec)) as [c|] eqn:Ec.
  - apply lookup_key_elem in Ec. subst m. rewrite map_lookup_imap in Hm.
    destruct (check_edges c !! o) as [t'|] eqn:Et; [|done]. cbn in Hm. injection Hm as -> _.
    apply check_edges_spec in Et as [(r & Hr & -> & _)|[(_ & Ht & E)|[->| ->]]];
      [|destruct (sleep_then n c Ec E) as (t' & ? & ?); congruence|by apply Hsp; repeat constructor..].
    by eapply check_admitted.
  - destruct Hown as (s & Es & ->). apply lookup_key_elem in Es.
    apply step_edges_spec in Hm as [(_ & Hh & _)|[(_ & Ha & _)|[(_ & Hc)|(_ & Hc)]]].
    + left. unfold is_node. rewrite (then_ok n s t Es); [done|]. destruct (step_then s); [done|].
      injection Hh as ->. by left.
    + destruct (step_kinds n s Es) as [Hk|Hk].
      * eapply (on_targets_ok n s (str "asked")); [done..|]. rewrite Ha. by left.
      * apply (Hclean n s Es) in Hk as [? _]. congruence.
    + destruct b; [by eapply cap_ok|]. subst t. apply Hsp. by repeat constructor.
    + destruct b; [|subst t; apply Hsp; by repeat constructor].
      destruct (step_kinds n s Es) as [Hk|Hk].
      * eapply (on_targets_ok n s (str "capacity")); [done..|]. rewrite Hc. by right; right; left.
      * apply (Hclean n s Es) in Hk as [_ ?]. congruence.
Qed.
End Admission.

Section Cleaned.
Context `{Validators}.

Lemma apply_steps spec0 :
  steps (Clean.apply spec0) = map (fun e => (e.1, Clean.clean_step e.2)) (steps spec0).
Proof. reflexivity. Qed.

Lemma apply_checks spec0 :
  checks (Clean.apply spec0)
  = map (fun e => (e.1, Clean.clean_delays (steps (Clean.apply spec0)) e.1 e.2))
      (map (fun e => (e.1, Clean.clean_check e.2)) (checks spec0)).
Proof. reflexivity. Qed.

Lemma clean_commands spec0 : commands_clean (Clean.apply spec0).
Proof.
  intros n s Hs Hk. rewrite apply_steps in Hs. apply list_elem_of_fmap in Hs as ([n0 s0] & E0 & _).
  apply pair_equal_spec in E0 as [-> ->]. cbn [fst snd] in *.
  assert (E : Step.is_command (Clean.clean_step s0) = Step.is_command s0) by done.
  rewrite E in Hk. split.
  - change (asked (step_on (Clean.clean_step s0))) with
      (Clean.ignore (Step.is_agent s0 && negb (Step.is_turn (Step.lifecycle
         (s0 <| step_lifecycle := Clean.ignore (Step.is_command s0) (step_lifecycle s0) |>))))
         (Clean.ignore (Step.is_command s0) (asked (step_on s0)))).
    rewrite Hk. by destruct (_ && _).
  - change (capacity (step_on (Clean.clean_step s0))) with
      (Clean.ignore (Step.is_command s0) (capacity (step_on s0))). by rewrite Hk.
Qed.

Lemma clean_check_fields c :
  Check.is_sleep (Clean.clean_check c) = Check.is_sleep c
  /\ timeout (Clean.clean_check c)
     = Clean.ignore (Check.is_sleep c) (Clean.sanitize (timeout c) Clean.duration_valid).
Proof.
  split; [|reflexivity]. destruct c as [? ? ? ? ? ? ? ? ? [|? ?] ? ? ?]; reflexivity.
Qed.
Lemma clean_delays_fields all n c :
  Check.is_sleep (Clean.clean_delays all n c) = Check.is_sleep c
  /\ timeout (Clean.clean_delays all n c) = timeout c.
Proof. split; reflexivity. Qed.

Lemma clean_sleep spec0 n c :
  (n, c) ∈ checks (Clean.apply spec0) -> Check.is_sleep c = true -> timeout c = None.
Proof.
  intros Hc. rewrite apply_checks in Hc. apply list_elem_of_fmap in Hc as ([n1 c1] & E1 & Hin).
  apply list_elem_of_fmap in Hin as ([n0 c0] & E0 & _).
  apply pair_equal_spec in E1 as [-> ->], E0 as [-> ->]. cbn [fst snd].
  destruct (clean_delays_fields (steps (Clean.apply spec0)) n0 (Clean.clean_check c0)) as [-> ->].
  destruct (clean_check_fields c0) as [-> ->]. by intros ->.
Qed.
End Cleaned.

(** ** Engine routes *)

Section Targets.
Context `{Validators} (spec : WorkflowSpec) `{!Accepted spec}.

Lemma check_resolves n c o :
  lookup_key n (checks spec) = Some c -> o ∈ node_outcomes spec n ->
  o = str "deadline" \/ is_Some (check_edges c !! o) -> is_Some (engine_target spec n o).
Proof using Type.
  intros Hc Ho Hm. unfold engine_target, spec_target.
  erewrite own_resolved by (unfold own_edges; by rewrite Hc).
  rewrite (contains_key_Some _ _ _ Hc). destruct (decide (o = str "hold")); [by eexists|].
  rewrite find_target_resolve, decide_True by done.
  apply fmap_is_Some, lookup_insert_is_Some.
  destruct (decide (str "deadline" = o)); [by left|right]. split; [done|].
  destruct Hm as [->|[t Ht]]; [done|]. rewrite map_lookup_imap, Ht. by eexists.
Qed.

Lemma invalid_route c : is_Some (check_edges c !! str "invalid").
Proof using Type.
  unfold check_edges. destruct (Check.is_sleep c).
  - destruct (check_then c) as [t|], (is_some (check_when c));
      rewrite ?(lookup_insert_ne _ (str "unknown")), ?(lookup_insert_ne _ (str "then")) by done; by eexists.
  - destruct (Check.is_condition c); repeat first [apply or_insert_some|apply or_insert_keep].
Qed.
Lemma timeout_route c : Check.is_sleep c = false -> is_Some (check_edges c !! str "timeout").
Proof using Type.
  unfold check_edges. intros ->.
  destruct (Check.is_condition c); repeat first [apply or_insert_some|apply or_insert_keep].
Qed.

Lemma edge_resolves n c e :
  lookup_key n (checks spec) = Some c -> e ∈ edges spec n -> is_Some (engine_target spec n (outcome e)).
Proof using Type.
  intros Hc (l & Hl & He)%edges_resolved. apply resolved_own in Hl as (m & Hm & ->).
  destruct (resolve_loop_elem _ _ _ _ _ He) as (b & Hb & _).
  eapply check_resolves; [done|by eapply resolve_loop_outcome|].
  apply lookup_insert_Some in Hb as [[<- _]|[_ Hb]]; [by left|right].
  unfold own_edges in Hm. rewrite Hc in Hm. subst m. rewrite map_lookup_imap in Hb.
  by destruct (check_edges c !! outcome e).
Qed.

Lemma trigger_outcome n o :
  o ∈ [str "invalid"; str "deadline"; str "unknown"] -> contains_key n (checks spec) = true ->
  o ∈ node_outcomes spec n.
Proof using Type.
  unfold node_outcomes, contains_key. intros Ho Hn.
  destruct (lookup_key n (checks spec)) as [c|]; [|done]. destruct (Check.is_sleep c).
  - rewrite !elem_of_cons, elem_of_nil in *. tauto.
  - rewrite !elem_of_app. do 3 right. unfold CHECK_TRIGGERS. rewrite !elem_of_cons, elem_of_nil in *. tauto.
Qed.

Lemma check_answers n c o :
  (n, c) ∈ checks spec -> lookup_key n (checks spec) = Some c ->
  (exists case, case ∈ Check.condition_cases c /\ case_outcome case = o)
  \/ (Check.condition_cases c <> [] /\ Check.fallback_outcome c = Some o) ->
  is_Some (engine_target spec n o).
Proof using Type*.
  intros Hin Hc Ho. destruct (Check.is_sleep c) eqn:Esl.
  - eapply check_resolves; [done| |].
    + unfold node_outcomes. rewrite Hc, Esl. destruct Ho as [(case & Hcase & <-)|[_ Hf]].
      * unfold Check.condition_cases in Hcase. unfold Check.is_sleep in Esl.
        destruct (Check.kind c) as [[]|]; try done. destruct (check_when c); [|by apply elem_of_nil in Hcase].
        apply list_elem_of_singleton in Hcase as ->. by left.
      * unfold Check.fallback_outcome in Hf. rewrite Esl in Hf. injection Hf as <-. by right; left.
    + right. destruct (sleep_then spec n c Hin Esl) as (t & Ht & _). unfold check_edges. rewrite Esl, Ht.
      assert (Hb : o = str "then" \/ o = str "sleeping").
      { destruct Ho as [(case & Hcase & <-)|[_ Hf]].
        - unfold Check.condition_cases in Hcase. unfold Check.is_sleep in Esl.
          destruct (Check.kind c) as [[]|]; try done. destruct (check_when c); [|by apply elem_of_nil in Hcase].
          apply list_elem_of_singleton in Hcase as ->. by left.
        - unfold Check.fallback_outcome in Hf. rewrite Esl in Hf. injection Hf as <-. by right. }
      destruct Hb as [->| ->]; destruct (is_some (check_when c)); by eexists.
  - destruct (Check.is_condition c) eqn:Ec.
    + pose proof (check_admitted spec n c Hin) as (_ & Hcf & _). specialize (Hcf Ec).
      unfold condition_fields in Hcf. apply app_nil in Hcf as [He Hcf]. apply app_nil in Hcf as [_ Hcf].
      apply app_nil in Hcf as [Hon _].
      assert (Ho' : o ∈ match else_outcome c with Some o => [o] | None => [] end ++ map case_outcome (cases c)).
      { rewrite elem_of_app. destruct Ho as [(case & Hcase & <-)|[_ Hf]].
        - right. unfold Check.condition_cases, Check.is_condition in *.
          destruct (Check.kind c) as [[]|]; try done. apply list_elem_of_In, in_map, list_elem_of_In, Hcase.
        - left. unfold Check.fallback_outcome in Hf. rewrite Esl in Hf. rewrite Hf. by left. }
      eapply check_resolves; [done| |].
      * unfold node_outcomes. rewrite Hc, Esl. rewrite !elem_of_app in *. tauto.
      * right. unfold check_edges. rewrite Esl, Ec. do 3 apply or_insert_keep.
        apply list_to_map_some, contains_key_spec, negb_false_iff, (when_error_nil _ (str "checks." ++ n ++ str ".on." ++ o)
          (str "route every case and else outcome in on")).
        rewrite app_assoc. apply (proj1 (flat_map_nil _ _) Hon o), elem_of_btree_set, Ho'.
    + exfalso. unfold Check.condition_cases, Check.is_condition, Check.is_sleep in *.
      destruct Ho as [(case & Hcase & _)|[Hne _]]; destruct (Check.kind c) as [[]|]; try done;
        by apply elem_of_nil in Hcase.
Qed.

Lemma step_resolves n s o :
  (n, s) ∈ steps spec -> lookup_key n (steps spec) = Some s ->
  o ∈ STEP_TRIGGERS \/ o ∈ [str "ended"; str "died"; str "canceled"; str "limited"; str "timeout"] ->
  is_Some (engine_target spec n o).
Proof using Type*.
  intros Hin Hs Ho. pose proof (step_not_check spec n s Hin) as Hnc.
  assert (Hnone : lookup_key n (checks spec) = None).
  { unfold contains_key in Hnc. by destruct (lookup_key n (checks spec)). }
  unfold engine_target, spec_target. erewrite own_resolved by (unfold own_edges; rewrite Hnone; by exists s).
  rewrite Hnc.
  assert (Hto : forall o, o ∈ [str "then"; str "asked"] -> forall x,
            is_Some (or_else x (if decide (o ∈ [str "then"; str "asked"]) then Some (str "@user") else None))).
  { intros x Hx y. rewrite decide_True by done. by destruct y; eexists. }
  destruct (decide (o ∈ [str "ended"; str "died"; str "canceled"; str "limited"; str "timeout"])) as [Hd|Hd].
  { apply Hto. by left. }
  destruct Ho as [Ho|?]; [|done]. unfold STEP_TRIGGERS in Ho. rewrite !elem_of_cons, elem_of_nil in Ho.
  destruct Ho as [->|[->|[->|[->|[->|[]]]]]]; [apply Hto; by left|apply Hto; by right; left|..].
  all: rewrite find_target_resolve; unfold node_outcomes; rewrite Hnone, decide_True
    by (unfold STEP_TRIGGERS; rewrite !elem_of_cons; auto 6).
  - rewrite lookup_insert_ne by done. destruct (step_edges_total s) as [[x ->] _]. by eexists.
  - rewrite lookup_insert_ne by done. destruct (step_edges_total s) as [_ [x ->]]. by eexists.
  - rewrite lookup_insert_eq. by eexists.
Qed.

Lemma engine_target_ok n o t :
  commands_clean spec -> engine_target spec n o = Some t -> ok_target spec t.
Proof using Type*.
  intros Hclean. unfold engine_target, spec_target.
  destruct (resolved_edges spec n) as [l|] eqn:El; [|done].
  assert (Hf : forall x, find_target x l = Some t -> ok_target spec t).
  { intros x. apply resolved_own in El as (m & Hm & ->). rewrite find_target_resolve.
    destruct (decide _); [|done]. destruct (_ !! x) as [[t' b]|] eqn:Ex; [|done]. intros [= ->].
    apply lookup_insert_Some in Ex as [[_ [= <- _]]|[_ Ex]]; [|by eapply own_target_ok].
    destruct (deadline_target (workflow spec)) eqn:Ed; [by apply ad_deadline|]. right. by repeat constructor. }
  destruct (contains_key n (checks spec)).
  - destruct (decide _); [intros [= <-]; right; by repeat constructor|apply Hf].
  - generalize (if decide (o ∈ [str "ended"; str "died"; str "canceled"; str "limited"; str "timeout"])
                then str "then" else o). intros o'. destruct (find_target o' l) eqn:E.
    + intros [= ->]. by eapply Hf.
    + cbn [or_else]. destruct (decide _); [|done]. intros E'. assert (t = str "@user") as -> by congruence.
      right. by repeat constructor.
Qed.
End Targets.

(** C36: in a definition that the cleanup and the validation admit, every
    outcome the engine routes resolves -- so its [expect] never fails: the
    deadline everywhere, a check's answers, [invalid], and [timeout] where a
    timeout runs, a step's endings, caps and capacity -- and every target is
    a node of the definition or one of the four special targets. *)
Theorem admitted_routes_resolve `{Validators} name spec0
    (Hv : validate_spec name (Clean.apply spec0) = []) :
  let spec := Clean.apply spec0 in
  (forall n c, lookup_key n (checks spec) = Some c ->
     is_Some (engine_target spec n (str "deadline")) /\ is_Some (engine_target spec n (str "invalid"))
     /\ (timeout c <> None -> is_Some (engine_target spec n (str "timeout")))
     /\ forall o, (exists case, case ∈ Check.condition_cases c /\ case_outcome case = o)
                  \/ (Check.condition_cases c <> [] /\ Check.fallback_outcome c = Some o)
                  \/ (exists edge, edge ∈ edges spec n /\ outcome edge = o) ->
          is_Some (engine_target spec n o))
  /\ (forall n s o, lookup_key n (steps spec) = Some s ->
        o ∈ STEP_TRIGGERS \/ o ∈ [str "ended"; str "died"; str "canceled"; str "limited"; str "timeout"] ->
        is_Some (engine_target spec n o))
  /\ (forall n o t, engine_target spec n o = Some t -> is_node spec t = true \/ t ∈ SPECIAL).
Proof.
  pose proof (validated name _ Hv) as Had. set (spec := Clean.apply spec0) in *. intros s0.
  split_and!.
  - intros n c Hc. pose proof (lookup_key_elem _ _ _ Hc) as Hin.
    pose proof (contains_key_Some _ _ _ Hc) as Hk. split_and!.
    + eapply check_resolves; [done| |by left]. apply trigger_outcome; [by right; left|done].
    + eapply check_resolves; [done| |right; apply invalid_route]. apply trigger_outcome; [by left|done].
    + intros Ht. assert (Hs : Check.is_sleep c = false).
      { apply not_true_is_false. intros Hs. by apply Ht, (clean_sleep spec0 n c). }
      eapply check_resolves; [done| |right; by apply timeout_route].
      unfold node_outcomes. rewrite Hc, Hs, !elem_of_app. do 3 right. by right; left.
    + intros o [Ho|[Ho|(e & He & <-)]]; [eapply check_answers; eauto..|].
      by eapply edge_resolves.
  - intros n s o Hs Ho. eapply (step_resolves spec); [by apply lookup_key_elem|done..].
  - intros n o t. apply (engine_target_ok spec), clean_commands.
Qed.

(** ** Cycles of an admitted definition *)

Section AdmittedCycles.
Context `{Validators} (spec : WorkflowSpec) `{!Accepted spec}.

(** A route other than the deadline, which fires once in a run. *)
Definition route_step (a b : text) : Prop :=
  exists l edge, resolved_edges spec a = Some l /\ edge ∈ l /\ outcome edge <> str "deadline"
    /\ target edge = b.

(** [route_path a l b]: routes lead from [a] through the nodes [l] to [b], the
    last of them. *)
Inductive route_path : text -> list text -> text -> Prop :=
| path_nil a : route_path a [] a
| path_cons a b l c : route_step a b -> route_path b l c -> route_path a (b :: l) c.

Lemma path_app a l1 b l2 c : route_path a l1 b -> route_path b l2 c -> route_path a (l1 ++ l2) c.
Proof using Type. induction 1; [done|]. intros. econstructor; eauto. Qed.

Lemma path_split a l c b : route_path a l c -> b ∈ l ->
  exists l1 l2, l = l1 ++ b :: l2 /\ route_path a (l1 ++ [b]) b /\ route_path b l2 c.
Proof using Type.
  induction 1 as [|a x l c Hs Hp IH]; [by intros ?%elem_of_nil|].
  destruct (decide (b = x)) as [->|Hne].
  - intros _. exists [], l. split_and!; [done| |done]. econstructor; [done|constructor].
  - intros [?|Hb]%elem_of_cons; [done|]. destruct (IH Hb) as (l1 & l2 & -> & H1 & H2).
    exists (x :: l1), l2. split_and!; [done|by econstructor|done].
Qed.

(** A cycle goes around from any of its nodes. *)
Lemma path_rotate a l b : route_path a l a -> b ∈ l ->
  exists l', route_path b l' b /\ l' <> [] /\ forall x, x ∈ l' -> x ∈ l.
Proof using Type.
  intros Hp Hb. destruct (path_split a l a b Hp Hb) as (l1 & l2 & -> & H1 & H2).
  exists (l2 ++ l1 ++ [b]). split_and!; [by eapply path_app| |].
  - by destruct l2, l1.
  - intros x. rewrite !elem_of_app, !elem_of_cons, elem_of_nil. tauto.
Qed.

Lemma path_last a l c : route_path a l c -> l <> [] -> c ∈ l.
Proof using Type.
  induction 1 as [|a b l c Hs Hp IH]; [done|]. intros _. destruct l as [|x l].
  - inversion Hp; subst. by left.
  - right. by apply IH.
Qed.

(** Every node of a cycle has a route out of it. *)
Lemma cycle_node a l b : route_path a l a -> b ∈ l -> is_node spec b = true.
Proof using Type.
  intros Hp Hb. destruct (path_rotate a l b Hp Hb) as (l' & Hp' & Hne & _).
  inversion Hp' as [|? ? ? ? (es & e & Hes & _)]; subst; [done|]. by eapply resolved_node.
Qed.

Lemma route_cycle_step allowed a b :
  route_step a b -> is_node spec b = true -> allowed b = true -> cycle_step spec allowed a b.
Proof using Type*.
  intros (l & e & Hl & He & Ho & <-) Hn Hall. unfold cycle_step, cycle_targets.
  rewrite Hl. apply elem_of_filter_bool. split; [done|].
  apply list_elem_of_In, in_map, list_elem_of_In, elem_of_filter_bool. split; [|done].
  rewrite bool_decide_eq_false_2 by done. cbn [orb].
  destruct (contains_key a (steps spec)) eqn:Es; [|done]. cbn [andb]. apply negb_true_iff, negb_false_iff.
  apply bool_decide_eq_true. destruct (own_edge spec a l e Hl He Ho) as (m & b & Hown & Hm & Hs).
  rewrite Hs. destruct b; [done|exfalso]. unfold own_edges in Hown.
  destruct (lookup_key a (checks spec)) as [c|] eqn:Ec.
  - apply lookup_key_elem, ad_check in Ec. unfold check_errors in Ec. apply app_nil in Ec as [_ Ec].
    apply app_nil in Ec as [Ec _]. apply when_error_nil in Ec. congruence.
  - destruct Hown as (s & _ & ->).
    apply step_edges_spec in Hm as [(_ & _ & ?)|[(_ & _ & ?)|[(_ & Ht)|(_ & Ht)]]]; [done..| |];
      rewrite Ht, (special_not_node spec) in Hn; [done|by repeat constructor|done|by repeat constructor].
Qed.

Lemma path_cycles allowed a l :
  route_path a l a -> l <> [] -> (forall x, x ∈ l -> allowed x = true) ->
  tc (cycle_step spec allowed) a a.
Proof using Type*.
  intros Hp Hne Hall. assert (Hnode : forall x, x ∈ l -> is_node spec x = true) by by intros; eapply cycle_node.
  assert (Htc : forall a c, route_path a l c -> tc (cycle_step spec allowed) a c); [|by apply Htc].
  clear a Hp. induction l as [|x l IH]; [done|]. intros a c Hp. inversion Hp as [|? ? ? ? Hs Hp']; subst.
  assert (Hx : cycle_step spec allowed a x) by (apply route_cycle_step; [done|apply Hnode|apply Hall]; by left).
  destruct l as [|y l]; [inversion Hp'; subst; by apply tc_once|].
  eapply tc_l; [done|]. apply IH; [done|..|done]; intros; [apply Hall|apply Hnode]; by right.
Qed.

Lemma cycle_bounded a l :
  route_path a l a -> l <> [] ->
  (exists n s, n ∈ l /\ lookup_key n (steps spec) = Some s /\ max_visits s <> None)
  \/ ((forall n, n ∈ l -> contains_key n (checks spec) = true)
      /\ exists n, n ∈ l /\ waits spec n = true).
Proof using Type*.
  intros Hp Hne. pose proof (ad_cycles (spec:=spec)) as Hcy. apply app_nil in Hcy as [Hst Hck].
  destruct (existsb (fun n => negb (unbounded_step spec n)) l) eqn:Eb.
  { left. apply existsb_exists in Eb as (n & Hn%list_elem_of_In & Hb). unfold unbounded_step in Hb.
    destruct (lookup_key n (steps spec)) as [s|] eqn:Es; [|done]. cbn in Hb. exists n, s.
    split_and!; [done..|]. by destruct (max_visits s). }
  assert (Hun : forall n, n ∈ l -> unbounded_step spec n = true).
  { intros n Hn%list_elem_of_In. apply not_false_iff_true. intros Hf.
    apply not_true_iff_false in Eb. apply Eb, existsb_exists. exists n. by rewrite Hf. }
  right. assert (Hchecks : forall n, n ∈ l -> contains_key n (checks spec) = true).
  { intros n Hn. pose proof (cycle_node _ _ _ Hp Hn) as Hnode. apply orb_true_iff in Hnode as [?|Hstep]; [done|exfalso].
    unfold contains_key in Hstep. destruct (lookup_key n (steps spec)) as [s|] eqn:Es; [|done].
    pose proof (Hun n Hn) as Hu. unfold unbounded_step in Hu. rewrite Es in Hu. cbn in Hu.
    destruct (path_rotate _ _ _ Hp Hn) as (l' & Hp' & Hne' & Hsub).
    assert (Hc : cycles_to spec n (unbounded_step spec) = true).
    { apply cycles_to_spec. apply (path_cycles _ n l'); [done..|]. auto. }
    pose proof (proj1 (flat_map_nil _ _) Hst (n, s) (lookup_key_elem _ _ _ Es)) as He. cbn beta iota in He.
    apply when_error_nil in He. rewrite Hc in He. by destruct (max_visits s). }
  split; [done|].
  destruct (existsb (waits spec) l) eqn:Ew.
  { apply existsb_exists in Ew as (n & Hn%list_elem_of_In & Hw). eauto. }
  exfalso. assert (Hnw : forall n, n ∈ l -> waits spec n = false).
  { intros n Hn%list_elem_of_In. apply not_true_is_false. intros Ht.
    apply not_true_iff_false in Ew. apply Ew, existsb_exists. eauto. }
  pose proof (path_last _ _ _ Hp Hne) as Ha. pose proof (Hchecks a Ha) as Hc.
  assert (Hcyc : cycles_to spec a (unwaiting_check spec) = true).
  { apply cycles_to_spec. apply (path_cycles _ a l); [done..|]. intros x Hx. unfold unwaiting_check.
    by rewrite (Hchecks x Hx), (Hnw x Hx). }
  apply contains_key_spec, list_elem_of_fmap in Hc as ([a' c] & -> & Hin). cbn [fst] in *.
  pose proof (proj1 (flat_map_nil _ _) Hck (a', c) Hin) as He. cbn beta iota in He.
  apply when_error_nil in He. by rewrite Hcyc, (Hnw a' Ha) in He.
Qed.
End AdmittedCycles.

(** C35: every cycle of routes in an admitted definition, deadline routes
    aside, goes through a step with a visit limit, or consists of checks of
    which one can wait. *)
Theorem admitted_cycles_bounded `{Validators} name spec a l
    (Hv : validate_spec name spec = []) (Hp : route_path spec a l a) (Hl : l <> []) :
  (exists n s, n ∈ l /\ lookup_key n (steps spec) = Some s /\ max_visits s <> None)
  \/ ((forall n, n ∈ l -> contains_key n (checks spec) = true)
      /\ exists n, n ∈ l /\ waits spec n = true).
Proof. pose proof (validated name spec Hv). by eapply cycle_bounded. Qed.

(** ** A sample definition *)

Module WorkflowExample.

#[export] Instance lenient : Validators := {
  parse_duration := fun raw => if is_empty raw then None else Some 60000000000%Z;
  duration_error := fun _ => str "bad duration";
  argv_error := fun _ => None;
  prompt_errors := fun _ _ => [];
  definition_errors := fun _ _ => [];
  headless_errors := fun _ _ => [];
  condition_terms := fun _ _ => [];
  layout_error := fun _ => None;
  deadline_parses := fun _ => true;
  window_parses := fun _ => true
}.

Definition shell_check (on : list (text * Route)) : Check := {|
  summary := None; run := None; shell := Some (str "make check"); agent := None; sleep := None;
  check_when := None; hold := None; check_then := None; prompt_file := None; cases := [];
  else_outcome := None; check_on := on; timeout := None; check_window := None |}.
Definition shell_step (then_ : text) (limit : option N) (cap_ : option text) : Step := {|
  step_agent := None; step_run := None; step_shell := Some (str "make"); step_lifecycle := None;
  step_prompt_file := None; capacity_wait := None; step_then := [then_];
  step_on := {| asked := None; cap := cap_; capacity := None |};
  max_visits := limit; max_visits_per_outcome := None; step_timeout := Some (str "1h");
  keep := None; takeover := None; step_window := None; step_throttle := None; step_limit := None |}.

(** A step and the check that sends it back, at most three times. *)
Definition land : WorkflowSpec := {|
  workflow := {| start := str "work"; deadline := None; deadline_target := None; header_limit := None |};
  checks := [(str "gate", shell_check [(str "fail", Target (str "work")); (str "pass", Target (str "@done"))])];
  steps := [(str "work", shell_step (str "gate") (Some 3%N) None)] |}.

Lemma land_valid : validate_spec (str "land") (Clean.apply land) = [].
Proof. by vm_compute. Qed.

Lemma admitted_routes_resolve_witness :
  validate_spec (str "land") (Clean.apply land) = []
  /\ is_Some (engine_target (Clean.apply land) (str "gate") (str "invalid")).
Proof.
  split; [exact land_valid|].
  destruct (admitted_routes_resolve (str "land") land land_valid) as (H & _).
  by destruct (H (str "gate") _ eq_refl) as (_ & ? & _).
Defined.

Lemma land_cycle : route_path (Clean.apply land) (str "work") [str "gate"; str "work"] (str "work").
Proof.
  econstructor; [|econstructor; [|constructor]].
  - eexists _, _. split; [by vm_compute|]. split; [by left|]. by vm_compute.
  - eexists _, _. split; [by vm_compute|]. split; [by left|]. by vm_compute.
Qed.

Lemma admitted_cycles_bounded_witness :
  exists n, n ∈ [str "gate"; str "work"]
    /\ (is_Some (lookup_key n (steps (Clean.apply land))) \/ waits (Clean.apply land) n = true).
Proof.
  destruct (admitted_cycles_bounded (str "land") (Clean.apply land) (str "work") [str "gate"; str "work"]
              land_valid land_cycle ltac:(done)) as [(n & s & Hn & Hs & _)|(_ & n & Hn & Hw)];
    exists n; split; [exact Hn| |exact Hn|by right].
  left. by exists s.
Defined.
End WorkflowExample.
