(* ===== verification/Run.v ===== *)
(** * Workflow run records ([crates/rimz/src/store/workflow.rs])

    The record of a workflow run, its live and previous attempts, the session
    a run holds under a check, and the journal entries.  Also the JSON values
    that travel along routes ([serde_json::Value] with the accessors the engine
    uses) and the reading of routing keys.

    Left out are the fields no transition reads: the version, identity and
    prompt of the run, paths, digests, commit heads, costs and logs. *)

From S2P Require Import Prelude.
From S2P Require Agents.
From S2P Require Import Workflow.

(** ** JSON *)

Inductive Number := PosInt (n : N) | NegInt (z : Z) | Float (digits : text).
(** [serde_json::Value]; an object is its entries, the first of a key counts. *)
Inductive Value :=
| Null
| Bool (b : bool)
| JNumber (n : Number)
| JString (s : text)
| JArray (l : list Value)
| JObject (fields : list (text * Value)).

Definition value_get (k : text) (v : Value) : option Value :=
  match v with JObject fields => lookup_key k fields | _ => None end.
Definition as_str (v : Value) : option text := match v with JString s => Some s | _ => None end.
Definition as_u64 (v : Value) : option N := match v with JNumber (PosInt n) => Some n | _ => None end.
Definition is_null (v : Value) : bool := match v with Null => true | _ => false end.
(** [v[k].as_str()], where a missing key reads as null. *)
Definition str_at (k : text) (v : Value) : option text :=
  let! x := value_get k v else None in as_str x.
Fixpoint set_key {V} (k : text) (x : V) (l : list (text * V)) : list (text * V) :=
  match l with
  | [] => [(k, x)]
  | (k', y) :: l' => if decide (k' = k) then (k, x) :: l' else (k', y) :: set_key k x l'
  end.
(** [v[k] = x], which panics unless [v] is an object or null. *)
Definition value_set (k : text) (x : Value) (v : Value) : option Value :=
  match v with
  | JObject fields => Some (JObject (set_key k x fields))
  | Null => Some (JObject [(k, x)])
  | _ => None
  end.

Definition I64_MAX : N := 9223372036854775807.
(** [serde_json::from_value::<Key>], untagged. *)
Definition key_of_value (v : Value) : option Key :=
  match v with
  | JString s => Some (KString s)
  | JNumber (PosInt n) =>
      Some (if (n <=? I64_MAX)%N then KInteger (Z.of_N n) else KUnsigned n)
  | JNumber (NegInt z) => Some (KInteger z)
  | _ => None
  end.
Definition value_of_Z (z : Z) : Value :=
  JNumber (if (0 <=? z)%Z then PosInt (Z.to_N z) else NegInt z).
(** [json!(key)]. *)
Definition value_of_key (k : Key) : Value :=
  match k with
  | KString s => JString s
  | KInteger z => value_of_Z z
  | KUnsigned n => JNumber (PosInt n)
  end.
Definition value_of_option {A} (f : A -> Value) (o : option A) : Value :=
  match o with Some a => f a | None => Null end.

(** ** Enumerations *)

Module RunState.
Inductive RunState := Active | Parked | Done | Failed | Canceled.
#[global] Instance RunState_eq_dec : EqDecision RunState.
Proof. solve_decision. Defined.
Definition is_terminal (s : RunState) : bool :=
  match s with Done | Failed | Canceled => true | Active | Parked => false end.
End RunState.

Module ParkReason.
Inductive ParkReason := User | Cap | Deadline | Timeout | Invalid | Asked | Check.
#[global] Instance ParkReason_eq_dec : EqDecision ParkReason.
Proof. solve_decision. Defined.
End ParkReason.

Module AttemptKind.
Inductive AttemptKind := Script | Agent | Judge | Team | Workflow.
#[global] Instance AttemptKind_eq_dec : EqDecision AttemptKind.
Proof. solve_decision. Defined.
End AttemptKind.

Module AttemptOutcome.
Inductive AttemptOutcome := Ended | Died | Timeout | Asked | Limited | Canceled.
#[global] Instance AttemptOutcome_eq_dec : EqDecision AttemptOutcome.
Proof. solve_decision. Defined.
End AttemptOutcome.

Module EndCause.
Inductive EndCause := Lifecycle | Timeout | Deadline | Cancel | Restart (continued : bool).
#[global] Instance EndCause_eq_dec : EqDecision EndCause.
Proof. solve_decision. Defined.
End EndCause.

Module TurnEndAction.
Inductive TurnEndAction := Kept | Pushed | Closed | Discarded | Interrupted.
#[global] Instance TurnEndAction_eq_dec : EqDecision TurnEndAction.
Proof. solve_decision. Defined.
End TurnEndAction.

Module EvaluationOrigin.
Inductive EvaluationOrigin := Check | Engine.
#[global] Instance EvaluationOrigin_eq_dec : EqDecision EvaluationOrigin.
Proof. solve_decision. Defined.
End EvaluationOrigin.

(** Why an automated start is held ([ids.rs]). *)
Module HoldKind.
Inductive HoldKind :=
| Capacity | CheckFailed | Queue | MachineCap | AutomationCap | Stagger | WorkflowLimit | StepLimit
| Pressure | Memory | Disk | Store.
#[global] Instance HoldKind_eq_dec : EqDecision HoldKind.
Proof. solve_decision. Defined.
Definition needs_fix (k : HoldKind) : bool :=
  match k with CheckFailed | Disk | Store => true | _ => false end.
End HoldKind.

(** ** Records *)

Record Park := { park_reason : ParkReason.ParkReason; park_text : option text; park_at : Z }.

(** A process; [HostChild] has the same fields. *)
Record Host := { pid : N; host_start : option text }.
#[export] Instance Host_eq_dec : EqDecision Host.
Proof. solve_decision. Defined.

Record AttemptRun := { run_id : text; handle : text }.

(** A restart in progress: the session to resume, and the attempt that is
    stopped again though its end is journaled. *)
Record Restart := { resume_session : option text; settled : option N }.
#[export] Instance Restart_eq_dec : EqDecision Restart.
Proof. solve_decision. Defined.
#[export] Instance Restart_eta : Eta Restart := fun r =>
  {| resume_session := resume_session r; settled := settled r |}.

Record Verdict := {
  verdict_node : text;
  verdict_entered_at : Z;
  verdict_at : option Z;
  verdict_target : text;
  verdict_object : Value;
  verdict_reason : ParkReason.ParkReason
}.

Record Ending := {
  ending_outcome : AttemptOutcome.AttemptOutcome;
  ending_cause : EndCause.EndCause;
  ending_route : option Verdict;
  ending_reason : option text
}.

Record TurnEnd := { turn_agent : text; turn_started_at : Z; turn_ended_at : Z }.
#[export] Instance TurnEnd_eq_dec : EqDecision TurnEnd.
Proof. solve_decision. Defined.

Record PushBack := { push_message : text; push_queued : bool }.

Record Limited := { reset_at : option Z }.
Record Asked := { ask_text : text; ask_kind : text; ask_handle : text }.
#[export] Instance Asked_eq_dec : EqDecision Asked.
Proof. solve_decision. Defined.
Record Asking := { asking_since : Z; asking_ask : Asked }.
#[export] Instance Asking_eq_dec : EqDecision Asking.
Proof. solve_decision. Defined.

Record ChildRef := { child_handle : text; child_kind : text }.
#[export] Instance ChildRef_eq_dec : EqDecision ChildRef.
Proof. solve_decision. Defined.
Record Children := { stopped : list ChildRef; live_children : list ChildRef }.

Record LiveAttempt := {
  attempt_kind : AttemptKind.AttemptKind;
  attempt_lifecycle : StepLifecycle;
  seq : N;
  attempt_node : text;
  visit : option N;
  started_at : Z;
  host : Host;
  child : option Host;
  attempt_run : option AttemptRun;
  ending : option Ending;
  retry : option Value;
  woken : bool;
  asking : option Asking;
  held_since : option Z;
  asked_ms : N;
  judged : option TurnEnd;
  push : option PushBack
}.
#[export] Instance LiveAttempt_eta : Eta LiveAttempt := fun a =>
  {| attempt_kind := attempt_kind a; attempt_lifecycle := attempt_lifecycle a; seq := seq a;
     attempt_node := attempt_node a; visit := visit a; started_at := started_at a; host := host a;
     child := child a; attempt_run := attempt_run a; ending := ending a; retry := retry a;
     woken := woken a; asking := asking a; held_since := held_since a; asked_ms := asked_ms a;
     judged := judged a; push := push a |}.

(** A session kept alive while a check judges its turn. *)
Record HeldSession := {
  held_attempt : LiveAttempt; held_entered_at : Z; held_verdict : option Verdict
}.
#[export] Instance HeldSession_eta : Eta HeldSession := fun h =>
  {| held_attempt := held_attempt h; held_entered_at := held_entered_at h;
     held_verdict := held_verdict h |}.

Record PreviousAttempt := {
  prev_step : text;
  prev_outcome : AttemptOutcome.AttemptOutcome;
  prev_seq : N;
  prev_visit : N;
  prev_key : option Key;
  prev_routed_by : option text;
  prev_started_at : Z;
  prev_ended_at : Z;
  prev_handle : option text;
  prev_run_id : option text;
  prev_code : option Z;
  prev_children : option Children;
  prev_limited : option Limited;
  prev_asked : option Asked
}.
#[export] Instance PreviousAttempt_eta : Eta PreviousAttempt := fun p =>
  {| prev_step := prev_step p; prev_outcome := prev_outcome p; prev_seq := prev_seq p;
     prev_visit := prev_visit p; prev_key := prev_key p; prev_routed_by := prev_routed_by p;
     prev_started_at := prev_started_at p; prev_ended_at := prev_ended_at p;
     prev_handle := prev_handle p; prev_run_id := prev_run_id p; prev_code := prev_code p;
     prev_children := prev_children p; prev_limited := prev_limited p; prev_asked := prev_asked p |}.

Record Wait := {
  wait_node : text;
  wait_outcome : text;
  wait_case : option N;
  wait_detail : option text;
  wait_hold : option HoldKind.HoldKind;
  wait_kinds : list text;
  gives_up_at : option Z;
  wait_first : Z;
  wait_last : Z;
  wait_count : N;
  wait_recheck_at : option Z
}.
#[export] Instance Wait_eta : Eta Wait := fun w =>
  {| wait_node := wait_node w; wait_outcome := wait_outcome w; wait_case := wait_case w;
     wait_detail := wait_detail w; wait_hold := wait_hold w; wait_kinds := wait_kinds w;
     gives_up_at := gives_up_at w; wait_first := wait_first w; wait_last := wait_last w;
     wait_count := wait_count w; wait_recheck_at := wait_recheck_at w |}.
Definition is_hold (w : Wait) : bool := bool_decide (wait_outcome w = str "hold").

Record RunRecord := {
  task : option text;
  manual : bool;
  run_state : RunState.RunState;
  park : option Park;
  run_node : text;
  entered_at : Z;
  input : option Value;
  key : option Key;
  recheck_at : option Z;
  wait : option Wait;
  visits : gmap text StepVisits;
  visit_grant : N;
  run_deadline : option Z;
  deadline_fired : bool;
  next_seq : N;
  attempt : option LiveAttempt;
  held : option HeldSession;
  restart : option Restart;
  prev_attempt : option PreviousAttempt;
  terminal_at : option Z;
  check_retry : N;
  check_retry_context : option Value
}.
#[export] Instance RunRecord_eta : Eta RunRecord := fun r =>
  {| task := task r; manual := manual r; run_state := run_state r; park := park r;
     run_node := run_node r; entered_at := entered_at r; input := input r; key := key r;
     recheck_at := recheck_at r; wait := wait r; visits := visits r; visit_grant := visit_grant r;
     run_deadline := run_deadline r; deadline_fired := deadline_fired r; next_seq := next_seq r;
     attempt := attempt r; held := held r; restart := restart r; prev_attempt := prev_attempt r;
     terminal_at := terminal_at r; check_retry := check_retry r;
     check_retry_context := check_retry_context r |}.

Definition session_attempt (r : RunRecord) : option LiveAttempt :=
  ofilter (or_else (option_map held_attempt (held r)) (attempt r))
    (fun a => bool_decide (attempt_kind a = AttemptKind.Agent)).

Definition visit_bucket (r : RunRecord) : bucket :=
  (let! input := input r else None in
   let field :=
     if bool_decide (str_at (str "outcome") input = Some (str "cap"))
        && bool_decide (str_at (str "step") input = Some (run_node r))
     then str "routed_by" else str "outcome" in
   str_at field input,
   key r).

Definition started_by (r : RunRecord) (t : text) : bool :=
  negb (RunState.is_terminal (run_state r)) && bool_decide (task r = Some t).

(** ** The journal *)

Module Journal.
Inductive JournalEvent :=
| TurnEnd (action : TurnEndAction.TurnEndAction) (turn : Run.TurnEnd) (check : text)
    (outcome target reason : option text) (visit : option N) (message : option text)
| Evaluation (origin : EvaluationOrigin.EvaluationOrigin) (outcome : text) (object : Value)
    (started_at ended_at : Z) (stderr_tail : option text) (retry : option Value)
| Attempt (outcome : AttemptOutcome.AttemptOutcome) (visit : N) (key : option Key)
    (routed_by : option text) (started_at ended_at : Z) (handle run_id : option text)
    (code : option Z) (children : option Children) (limited : option Limited)
    (asked : option Asked) (reason : option text)
| VisitsReset (step outcome : text) (all : bool)
| Restart (step : text) (continued : bool)
| Wait (outcome : text) (detail : option text) (hold : option HoldKind.HoldKind) (first last : Z) (count : N)
    (recheck_at : option Z)
| Route (outcome : text) (input : Value)
| Park (reason : ParkReason.ParkReason) (text_ : option text)
| Terminal (state : RunState.RunState)
| Cancel (reason : option text)
| Resume (visit_grant : N) (deadline : option Z)
| Wake (signal : text).
End Journal.

Record JournalEntry := {
  entry_seq : option N; entry_at : Z; entry_node : text; event : Journal.JournalEvent
}.
