(* ===== verification/Throttling.v ===== *)
(** * The throttle of automated starts ([harness/schedule/throttle.rs])

    A start that opens agents asks the throttle for a turn.  Each asking
    process keeps a ticket in one queue directory; every decision is a section
    under the lock of that queue ([pass]): it sweeps out the tickets that are
    over, looks at the tickets ahead, at the caps on open agents, at the launch
    stagger and at the resources of the machine, and writes the answer on its
    ticket.  A turn is held from the answer until its launch is reported.

    Modules follow the sources: [Limits] is [throttle/limits.rs].  The state is
    the files of the throttle ([Files]); what a section reads from the machine
    is a [Host].  [stage_step] is one section of an asking process, for the
    attempts of the workflow engine ([try_admit_in]) and for the blocking wait
    of a loop run ([admit]); [system_step] interleaves any number of them.

    The names of agents and the rendering of floating point numbers in the
    texts of holds are parameters ([Rendering]); the queue directory holds
    tickets only. *)

From S2P Require Import Prelude.
From S2P Require Lifecycle Agents.
From S2P Require Import Units Workflow Run.
Import Agents.Placement HoldKind.
#[local] Existing Instance Lifecycle.AgentStatus_eq_dec.

(** ** What a section reads *)

Inductive Resource := Cpu | Io | Memory_.
(** The averages of a pressure file, in hundredths of a percent. *)
Record PressureReading := { avg10 : Z; avg60 : Z }.

Record Owner := { owner_pid : N; owner_start : option text }.
#[export] Instance Owner_eq_dec : EqDecision Owner.
Proof. solve_decision. Defined.

(** The row of an agent with what the throttle counts by. *)
Record AgentRow := {
  row : Agents.Agent.AgentState; automation : option Automation; runtime_owner : option RuntimeOwner
}.
(** An unfinished run of a workflow. *)
Record WorkflowRun := { workflow_run_id : text; workflow_name : text; run_record : RunRecord }.

Record StartGroup := { group_kind : text; group_account : option text; group_agents : N }.
#[export] Instance StartGroup_eq_dec : EqDecision StartGroup.
Proof. solve_decision. Defined.

Record CheckOutcome := {
  check_timed_out : bool; check_interrupted : bool; check_code : option Z; stderr_line : text
}.

(** [ThrottleConfig] ([config/throttle.rs]). *)
Record ThrottleConfig := {
  config_check : option text;
  config_check_timeout : option text;
  config_stagger : option text;
  max_parallel_agents : option N;
  max_parallel_automation : option N;
  cpu_pressure : option N;
  io_pressure : option N;
  memory_pressure : option N;
  min_memory : option text;
  min_disk : option text
}.
#[export] Instance ThrottleConfig_eq_dec : EqDecision ThrottleConfig.
Proof. solve_decision. Defined.

(** The machine as one section of a process sees it: the clock at its start
    and where it is read again, the processes, the readings, the workspaces. *)
Record Host := {
  now_ms : N;
  stagger_ms : N;
  check_ms : N;
  checked_ms : N;
  owner_is_live : Owner -> bool;
  process_is_live : N -> option text -> bool;
  throttle_config : option ThrottleConfig;
  interrupted : bool;
  interrupts_error : option text;
  capacity_check : StartGroup -> result text CheckOutcome;
  pressure : Resource -> result text PressureReading;
  memory_available : result text N;
  disk_free : text -> result text N;
  workspaces : result text (list text);
  agents : text -> result text (list AgentRow);
  workflows : text -> result text (list WorkflowRun);
  nonce : text
}.

Class Rendering := {
  decimal_bytes : N -> text;
  show_percent : Z -> text;
  agent_handle : Agents.Agent.AgentState -> list Agents.Agent.AgentState -> text
}.

(** ** Starts, holds and tickets *)

Record WorkflowStart := {
  start_workflow : text; start_step : text; start_run : text; arrival : Z;
  workflow_limit : option Limit; start_limit : option Limit; may_wait : bool
}.

(** [Run], the start asking for a turn. *)
Record StartRun := {
  start_task : text; start_root : text; start_checkout : text; start_disk : text;
  groups : list StartGroup; gives_up_ms : option N; machine_gated : bool; limits : option WorkflowStart
}.
Definition kinds (run : StartRun) : list text := btree_set (map group_kind (groups run)).
Definition incoming (run : StartRun) : N := foldr N.add 0%N (map group_agents (groups run)).

Record Hold := { hold_kind : HoldKind; hold_text : text; hold_kinds : list text }.
#[export] Instance Hold_eq_dec : EqDecision Hold.
Proof. solve_decision. Defined.
#[export] Instance Hold_eta : Eta Hold := fun h =>
  {| hold_kind := hold_kind h; hold_text := hold_text h; hold_kinds := hold_kinds h |}.

(** [Granted] is the source's state of an admitted start. *)
Inductive TicketState :=
| Waiting (reason : option Hold)
| Granted
| Launched (at_ms : N) (workspace agent : text).
#[export] Instance TicketState_eq_dec : EqDecision TicketState.
Proof. solve_decision. Defined.

Record LimitScope := { scope_workflow : text; scope_step : text }.
#[export] Instance LimitScope_eq_dec : EqDecision LimitScope.
Proof. solve_decision. Defined.

Record Ticket := {
  ticket_owner : Owner; ticket_task : text; ticket_root : text; ticket_checkout : text;
  enqueued_ms : N; ticket_gated : bool; ticket_agents : N; ticket_limit : option LimitScope;
  ticket_kinds : list text; ticket_gives_up : option N; ticket_state : TicketState
}.
#[export] Instance Ticket_eta : Eta Ticket := fun t =>
  {| ticket_owner := ticket_owner t; ticket_task := ticket_task t; ticket_root := ticket_root t;
     ticket_checkout := ticket_checkout t; enqueued_ms := enqueued_ms t; ticket_gated := ticket_gated t;
     ticket_agents := ticket_agents t; ticket_limit := ticket_limit t; ticket_kinds := ticket_kinds t;
     ticket_gives_up := ticket_gives_up t; ticket_state := ticket_state t |}.

Definition new_ticket (owner : Owner) (run : StartRun) (enqueued : N) : Ticket := {|
  ticket_owner := owner; ticket_task := start_task run; ticket_root := start_root run;
  ticket_checkout := start_checkout run; enqueued_ms := enqueued; ticket_gated := machine_gated run;
  ticket_agents := incoming run;
  ticket_limit := option_map (fun s => {| scope_workflow := start_workflow s; scope_step := start_step s |})
                    (limits run);
  ticket_kinds := kinds run; ticket_gives_up := gives_up_ms run; ticket_state := Waiting None |}.

Definition shares_limit (a b : Ticket) : bool :=
  match ticket_limit a, ticket_limit b with
  | Some mine, Some theirs => bool_decide (scope_workflow mine = scope_workflow theirs)
  | _, _ => false
  end.
Definition shares_scope (a b : Ticket) : bool := (ticket_gated a && ticket_gated b) || shares_limit a b.
Definition is_waiting (t : Ticket) : bool := match ticket_state t with Waiting _ => true | _ => false end.

Inductive CheckAnswer := Room | NoRoom | CheckError.
#[export] Instance CheckAnswer_eq_dec : EqDecision CheckAnswer.
Proof. solve_decision. Defined.
Record CheckVerdict := {
  check_kind : text; check_account : option text; check_at : N; check_outcome : CheckAnswer; check_detail : text
}.

Record WorkflowStamps := { last_launch_ms : N; stamp_steps : gmap text N }.
Record LaunchStamps := { stamp_machine : option N; stamp_workflows : gmap text WorkflowStamps }.

(** The queue directory by name, a corrupt ticket as [None]; the cache of the
    capacity checks; the stamps of the last launches, when they can be read. *)
Record Files := {
  tickets : list (text * option Ticket); verdicts : list CheckVerdict; stamps : result text LaunchStamps
}.
#[export] Instance Files_eta : Eta Files := fun f =>
  {| tickets := tickets f; verdicts := verdicts f; stamps := stamps f |}.

Inductive ThrottleError :=
| Unreadable (problem : text)
| Oversized (agents_ : N) (cap_key : text) (cap : N) (fix_ : text)
| Reading (reading detail : text)
| Vanished (ticket : text)
| InterruptsError (source : text).
Definition show_error (e : ThrottleError) : text :=
  match e with
  | Unreadable problem => problem
  | Oversized n k cap fix_ =>
      str "this start opens " ++ show_N n ++ str " agents, more than " ++ k ++ str " = " ++ show_N cap
      ++ str " allows; " ++ fix_
  | Reading reading detail => str "reading " ++ reading ++ str ": " ++ detail
  | Vanished ticket => str "loop throttle ticket " ++ ticket ++ str " vanished from the queue"
  | InterruptsError source => str "listening for Ctrl-C while held: " ++ source
  end.

Abbreviation locked := (section Files ThrottleError).

(** ** Configuration ([config/throttle.rs]) *)

Definition THROTTLE_UNITS : list DurationUnit := [Second; Minute; Hour].
Definition throttle_duration (raw : text) : TimeInputErr + N := parse_duration_units raw THROTTLE_UNITS.
Definition check_timeout (c : ThrottleConfig) : N :=
  match throttle_duration (default (str "30s") (config_check_timeout c)) with
  | inr d => d
  | inl _ => from_secs 30
  end.
Definition config_gap (c : ThrottleConfig) : option N :=
  let! raw := config_stagger c else None in
  match throttle_duration raw with inr d => Some d | inl _ => None end.
Definition bytes_of (raw : option text) : option N :=
  let! raw := raw else None in match parse_byte_size raw with inr n => Some n | inl _ => None end.
Definition min_memory_bytes (c : ThrottleConfig) : option N := bytes_of (min_memory c).
Definition min_disk_bytes (c : ThrottleConfig) : option N := bytes_of (min_disk c).

Definition ALL : list Resource := [Cpu; Io; Memory_].
Definition resource_name (r : Resource) : text :=
  match r with Cpu => str "cpu" | Io => str "io" | Memory_ => str "memory" end.
Definition label (r : Resource) : text := resource_name r ++ str " pressure".
Definition resource_limit (r : Resource) (c : ThrottleConfig) : option N :=
  match r with Cpu => cpu_pressure c | Io => io_pressure c | Memory_ => memory_pressure c end.
Definition worst (p : PressureReading) : Z := Z.max (avg10 p) (avg60 p).

Definition caps (c : ThrottleConfig) : bool :=
  is_some (max_parallel_agents c) || is_some (max_parallel_automation c).

Definition SAMPLE_EVERY_MS : N := 5000.
Definition CHECK_REUSE_MS : N := 60000.
Definition TURN_CEILING : N := from_secs 10.
Definition CHECK_CEILING : N := from_secs 120.
Definition NAMED_AGENTS : nat := 2.

Definition duration_ms (d : N) : N := N.min (as_millis d) U64_MAX.
Definition plural (n : N) : text := if (n =? 1)%N then [] else str "s".

(** ** Counting agents *)

Inductive AgentLiveness := Live (pid : N) | Dead | Unknown.
#[export] Instance AgentLiveness_eq_dec : EqDecision AgentLiveness.
Proof. solve_decision. Defined.

Section Throttle.
Context `{Validators, Rendering}.
Implicit Types (host : Host) (config : ThrottleConfig) (run : StartRun).

(** [store/runtime.rs]'s [agent_liveness]. *)
Definition agent_liveness host (a : AgentRow) : AgentLiveness :=
  match runtime_owner a with
  | Some owner =>
      let live := process_is_live host (runtime_pid owner) (process_start owner) in
      match runtime_kind owner with
      | OwnerDaemon => if live then Unknown else Dead
      | _ => if live then Live (runtime_pid owner) else Dead
      end
  | None => Unknown
  end.

(** [open]. *)
Definition open_ host (a : AgentRow) : bool :=
  Agents.Agent.molt_stands (row a) && negb (Agents.Agent.is_provider_subagent (row a))
  && negb (bool_decide (agent_liveness host a = Dead)).

Definition name_counted (names : list text) (agents_ counted : list AgentRow) : list text :=
  let peers := map row (List.filter (fun a => negb (Agents.Agent.is_provider_subagent (row a))) agents_) in
  names ++ map (fun a => agent_handle (row a) peers) (take (NAMED_AGENTS - length names) counted).

Definition count_of (l : list AgentRow) : N := N.of_nat (length l).

(** [machine_counts]: the open agents, and the automated among them. *)
Fixpoint machine_counts_in host (ids : list text) (all auto : N * list text)
  : result text ((N * list text) * (N * list text)) :=
  match ids with
  | [] => Ok (all, auto)
  | id :: ids' =>
      let? agents_ := agents host id in
      let opened := List.filter (open_ host) agents_ in
      let automated := List.filter (fun a => is_some (automation a)) opened in
      machine_counts_in host ids'
        ((all.1 + count_of opened)%N, name_counted all.2 agents_ opened)
        ((auto.1 + count_of automated)%N, name_counted auto.2 agents_ automated)
  end.
Definition machine_counts host : result text ((N * list text) * (N * list text)) :=
  let? ids := workspaces host in machine_counts_in host ids (0%N, []) (0%N, []).

Definition store_hold (detail : text) : Hold :=
  {| hold_kind := Store; hold_kinds := []; hold_text := str "cannot count open agents: " ++ detail |}.

Definition disk_hold host (floor : N) (path : text) : result ThrottleError (option Hold) :=
  match disk_free host path with
  | Err detail => Err (Reading (str "free disk") detail)
  | Ok free =>
      Ok (if (free <? floor)%N then
            Some {| hold_kind := Disk; hold_kinds := [];
                    hold_text := str "free disk " ++ decimal_bytes free ++ str " < " ++ decimal_bytes floor
                                 ++ str " at " ++ path |}
          else None)
  end.

Definition cap_hold (kind : HoldKind) (prefix : text) (cap count incoming_ in_flight : N) (names : list text)
  : option Hold :=
  if (saturating_add_u64 (saturating_add_u64 count in_flight) incoming_ <=? cap)%N then None
  else
    let names :=
      if (N.of_nat (length names) <? count)%N
      then names ++ [str "+" ++ show_N (count - N.of_nat (length names))] else names in
    let automated := if bool_decide (kind = AutomationCap) then str "automated " else [] in
    let suffix_ := if is_empty names then [] else str " (" ++ join (str ", ") names ++ str ")" in
    let text_ :=
      prefix ++ show_N count ++ str " of " ++ show_N cap ++ str " " ++ automated ++ str "agents open" ++ suffix_
      ++ (if (0 <? in_flight)%N then str ", " ++ show_N in_flight ++ str " more starting" else [])
      ++ (if (1 <? incoming_)%N then str "; this start opens " ++ show_N incoming_ else []) in
    Some {| hold_kind := kind; hold_kinds := []; hold_text := text_ |}.

(** [provider_reported]: the row of a launch was adopted, or is over or gone. *)
Definition provider_reported (agents_ : list AgentRow) (reference : text) : bool :=
  existsb (fun a => bool_decide (Agents.Agent.launch_id (row a) = Some reference)
                    && negb (bool_decide (Agents.Agent.agent_id (row a) = reference))) agents_
  || is_none_or (List.find (fun a => bool_decide (Agents.Agent.agent_id (row a) = reference)) agents_)
       (fun a => is_some (Agents.Agent.ended_at (row a))
                 || bool_decide (Agents.Agent.agent_status (row a) = Lifecycle.Failed)).
End Throttle.

(** ** Limits of workflows and steps ([throttle/limits.rs]) *)

Module Limits.
Section Limits.
Context `{Validators, Rendering}.
Implicit Types (host : Host) (start : WorkflowStart).

Record Census := {
  census_workflow : N; census_step : N; workflow_names : list text; step_names : list text;
  earlier_workflow : N; earlier_step : N
}.

(** The hold of a run that waits for capacity since before [start]. *)
Definition earlier_wait start (r : WorkflowRun) : option HoldKind :=
  let record := run_record r in
  let! w := wait record else None in
  if negb (RunState.is_terminal (run_state record))
     && bool_decide (workflow_name r = start_workflow start)
     && bool_decide (run_state record = RunState.Active)
     && bool_decide (wait_outcome w = str "capacity")
     && ((wait_first w <? arrival start)%Z
         || (wait_first w =? arrival start)%Z && text_ltb (workflow_run_id r) (start_run start))
  then wait_hold w else None.

Definition workflow_scope (a : AgentRow) : option (text * text) :=
  match automation a with Some (AWorkflow workflow step) => Some (workflow, step) | _ => None end.

Fixpoint census_in host start (ids : list text) (c : Census) : result text Census :=
  match ids with
  | [] => Ok c
  | id :: ids' =>
      let? runs := workflows host id in
      let waits := map (fun r => (earlier_wait start r, run_node (run_record r))) runs in
      let earlier_w := List.filter (fun w => bool_decide (w.1 = Some WorkflowLimit)) waits in
      let earlier_s := List.filter (fun w => bool_decide (w.1 = Some StepLimit)
                                             && bool_decide (w.2 = start_step start)) waits in
      let? agents_ := agents host id in
      let workflow_ := List.filter (fun a => open_ host a
        && is_some_and (workflow_scope a) (fun s => bool_decide (s.1 = start_workflow start))) agents_ in
      let step := List.filter (fun a =>
        is_some_and (workflow_scope a) (fun s => bool_decide (s.2 = start_step start))) workflow_ in
      census_in host start ids'
        {| census_workflow := (census_workflow c + count_of workflow_)%N;
           census_step := (census_step c + count_of step)%N;
           workflow_names := name_counted (workflow_names c) agents_ workflow_;
           step_names := name_counted (step_names c) agents_ step;
           earlier_workflow := (earlier_workflow c + N.of_nat (length earlier_w))%N;
           earlier_step := (earlier_step c + N.of_nat (length earlier_s))%N |}
  end.
Definition census host start : result text Census :=
  let? ids := workspaces host in
  census_in host start ids
    {| census_workflow := 0; census_step := 0; workflow_names := []; step_names := [];
       earlier_workflow := 0; earlier_step := 0 |}.

Definition hold (kind : HoldKind) (text_ : text) : Hold :=
  {| hold_kind := kind; hold_text := text_; hold_kinds := [] |}.
Definition scope (kind : HoldKind) : text :=
  match kind with WorkflowLimit => str "workflow" | StepLimit => str "step" | _ => [] end.

Definition launching start (count : N) : Hold :=
  let '(kind, name) :=
    match workflow_limit start with
    | Some _ => (WorkflowLimit, start_workflow start)
    | None => (StepLimit, start_step start)
    end in
  hold kind (scope kind ++ str " " ++ name ++ str ": " ++ show_N count ++ str " start" ++ plural count
             ++ str " launching").

Definition remaining host (gap : N) (stamp : option N) : option text :=
  let! stamp := stamp else None in
  let remaining := saturating_sub (duration_ms gap) (saturating_sub (stagger_ms host) stamp) in
  if (0 <? remaining)%N then Some (format_duration_compact (from_secs ((remaining + 999) / 1000))) else None.

Definition earlier (kind : HoldKind) (name : text) (count : N) : option Hold :=
  if (0 <? count)%N then
    Some (hold kind (scope kind ++ str " " ++ name ++ str ": " ++ show_N count ++ str " earlier start"
                     ++ plural count ++ str " waiting"))
  else None.

Definition capped (kind : HoldKind) (name : text) (limit : option Limit) (count incoming_ : N)
    (names : list text) : option Hold :=
  let! l := limit else None in
  let! cap := max_parallel l else None in
  cap_hold kind (scope kind ++ str " " ++ name ++ str ": ") cap count incoming_ 0 names.

(** [Limit::stagger] ([spec.rs]). *)
Definition gap_of (limit : option Limit) : result text (option N) :=
  match (let! l := limit else None in stagger l) with
  | None => Ok None
  | Some raw =>
      match parse_duration raw with
      | Some d => Ok (Some (Z.to_N d))
      | None => Err (duration_error raw)
      end
  end.
Definition staggered host (kind : HoldKind) (name : text) (limit : option Limit) (stamp : option N)
  : result text (option Hold) :=
  let? gap := gap_of limit in
  Ok (let! gap := gap else None in
      option_map (fun rest =>
        hold kind (scope kind ++ str " " ++ name ++ str ": next start in " ++ rest))
        (remaining host gap stamp)).

Definition evaluate host (stamps_ : result text LaunchStamps) start (incoming_ : N)
  : result text (option Hold) :=
  let? c := census host start in
  match or_else (earlier WorkflowLimit (start_workflow start) (earlier_workflow c))
          (or_else (earlier StepLimit (start_step start) (earlier_step c))
             (or_else (capped WorkflowLimit (start_workflow start) (workflow_limit start)
                         (census_workflow c) incoming_ (workflow_names c))
                (capped StepLimit (start_step start) (start_limit start)
                   (census_step c) incoming_ (step_names c)))) with
  | Some h => Ok (Some h)
  | None =>
      let has (limit : option Limit) := is_some (let! l := limit else None in stagger l) in
      if negb (has (workflow_limit start)) && negb (has (start_limit start)) then Ok None
      else
        let? all := stamps_ in
        let workflow_ := stamp_workflows all !! start_workflow start in
        let? h := staggered host WorkflowLimit (start_workflow start) (workflow_limit start)
                    (option_map last_launch_ms workflow_) in
        match h with
        | Some _ => Ok h
        | None =>
            staggered host StepLimit (start_step start) (start_limit start)
              (let! w := workflow_ else None in stamp_steps w !! start_step start)
        end
  end.

Definition machine_hold host (stamps_ : result text LaunchStamps) (gap : N) : result text (option Hold) :=
  let? all := stamps_ in
  Ok (option_map (fun rest => hold Stagger (str "next start in " ++ rest))
        (remaining host gap (stamp_machine all))).

Definition stamp (machine : bool) (scope_ : option LimitScope) (at_ms : N) : locked unit := fun st =>
  match stamps st with
  | Err detail => (st, Err (Reading (str "launch stagger") detail))
  | Ok all =>
      let all := {| stamp_machine := if machine then Some at_ms else stamp_machine all;
                    stamp_workflows := stamp_workflows all |} in
      let all :=
        match scope_ with
        | None => all
        | Some s =>
            let steps_ := match stamp_workflows all !! scope_workflow s with
                          | Some w => stamp_steps w
                          | None => ∅
                          end in
            {| stamp_machine := stamp_machine all;
               stamp_workflows := <[scope_workflow s :=
                 {| last_launch_ms := at_ms; stamp_steps := <[scope_step s := at_ms]> steps_ |}]>
                 (stamp_workflows all) |}
        end in
      (st <| stamps := Ok all |>, Ok tt)
  end.

Definition reported (agents_ : list AgentRow) (reference : text) : bool :=
  existsb (fun a => bool_decide (Agents.Agent.agent_id (row a) = reference)
                    || bool_decide (Agents.Agent.launch_id (row a) = Some reference)) agents_.
End Limits.
End Limits.

(** ** The queue *)

Section Queue.
Context `{Validators, Rendering}.
Implicit Types (host : Host) (config : ThrottleConfig) (run : StartRun).
Abbreviation queue := (list (text * Ticket)).

Definition ticket_name (enqueued : N) (nonce_ : text) : text := fixed_digits 10 20 enqueued ++ str "-" ++ nonce_.

(** Writing and removing a file of the directory, which lists by name. *)
Fixpoint put_ticket (name : text) (t : Ticket) (l : list (text * option Ticket)) : list (text * option Ticket) :=
  match l with
  | [] => [(name, Some t)]
  | (name', t') :: l' =>
      if decide (name = name') then (name, Some t) :: l'
      else if text_ltb name name' then (name, Some t) :: l else (name', t') :: put_ticket name t l'
  end.
Definition write_ticket (name : text) (t : Ticket) : locked unit := fun st =>
  (st <| tickets := put_ticket name t (tickets st) |>, Ok tt).
Definition drop_ticket (name : text) (l : list (text * option Ticket)) : list (text * option Ticket) :=
  List.filter (fun e => negb (bool_decide (e.1 = name))) l.
Definition remove_ticket (name : text) : locked unit := fun st =>
  (st <| tickets := drop_ticket name (tickets st) |>, Ok tt).
(** A corrupt ticket is an error of its reader; no reader but [sweep] meets one. *)
Definition read_ticket (name : text) : locked (option Ticket) := fun st =>
  (st, Ok (let! e := List.find (fun e => bool_decide (e.1 = name)) (tickets st) else None in e.2)).

(** What [sweep] makes of a ticket: [None] removes it.  Without a ceiling it
    only reaps the dead. *)
Definition sweep_ticket host (ceiling : option N) (now : N) (t : Ticket) : option Ticket :=
  match ticket_state t with
  | Waiting _ | Granted => if owner_is_live host (ticket_owner t) then Some t else None
  | Launched at_ms workspace agent_ =>
      let t :=
        match ceiling with
        | None => t
        | Some ceiling =>
            let elapsed := saturating_sub now at_ms in
            let machine_done := negb (ticket_gated t) || (duration_ms ceiling <=? elapsed)%N in
            let limit_done := is_none (ticket_limit t) || (duration_ms CHECK_CEILING <=? elapsed)%N in
            let '(machine_done, limit_done) :=
              if machine_done && limit_done then (machine_done, limit_done)
              else match agents host workspace with
                   | Ok agents_ => (machine_done || provider_reported agents_ agent_,
                                    limit_done || Limits.reported agents_ agent_)
                   | Err _ => (machine_done, limit_done)
                   end in
            t <| ticket_gated := ticket_gated t && negb machine_done |>
              <| ticket_limit := if limit_done then None else ticket_limit t |>
        end in
      if negb (ticket_gated t) && is_none (ticket_limit t) then None else Some t
  end.
Definition swept host (ceiling : option N) (now : N) (l : list (text * option Ticket)) : queue :=
  omap (fun '(name, t) =>
    let! t := t else None in option_map (pair name) (sweep_ticket host ceiling now t)) l.
Definition sweep host (ceiling : option N) (now : N) : locked queue := fun st =>
  let q := swept host ceiling now (tickets st) in
  (st <| tickets := map (fun '(name, t) => (name, Some t)) q |>, Ok q).

(** [launching]: the other starts of the workflow on their way. *)
Definition launching (q : queue) (mine : Ticket) (path : option text) : N :=
  N.of_nat (length (List.filter (fun '(name, t) =>
    negb (bool_decide (path = Some name)) && shares_limit t mine && negb (is_waiting t)) q)).

(** Whether a start at another place of the scope holds a turn. *)
Definition others {A} (place : nat) (q : list A) : list A := take place q ++ drop (S place) q.
Definition turn_held (q : queue) (mine : Ticket) (place : nat) : bool :=
  existsb (fun '(_, t) => shares_scope t mine && negb (is_waiting t)) (others place q).

(** The providers a waiting ticket is held for, when that lets others step over it. *)
Definition provider_hold (t : Ticket) : option Hold :=
  match ticket_state t with
  | Waiting (Some h) =>
      if (bool_decide (hold_kind h = Capacity) || bool_decide (hold_kind h = CheckFailed))
         && negb (is_empty (hold_kinds h))
      then Some h else None
  | _ => None
  end.
Definition blocks (mine t : Ticket) : bool :=
  if negb (shares_scope t mine) then false
  else if negb (is_waiting t) then true
  else if negb (ticket_gated mine) || negb (ticket_gated t) then false
  else negb (is_some_and (provider_hold t) (fun h =>
         negb (is_empty (ticket_kinds mine))
         && forallb (fun k => negb (bool_decide (k ∈ hold_kinds h))) (ticket_kinds mine))).

(** What the tickets ahead are held for: the worst kind and the first text of
    the provider holds, unless one of them waits for something else. *)
Definition fold_holds (ahead : list Ticket) : bool * HoldKind * list text * option text :=
  fold_left (fun '(only, kind, kinds_, text_) t =>
    match provider_hold t with
    | Some h =>
        let '(kind, text_) :=
          if bool_decide (hold_kind h = CheckFailed) && negb (bool_decide (kind = CheckFailed))
          then (CheckFailed, Some (hold_text h)) else (kind, text_) in
        (only, kind, kinds_ ++ hold_kinds h, or_else text_ (Some (hold_text h)))
    | None => (false, kind, kinds_, text_)
    end) ahead (true, Capacity, [], None).
Definition needs_fix_of (t : Ticket) : option Hold :=
  match ticket_state t with Waiting (Some h) => if needs_fix (hold_kind h) then Some h else None | _ => None end.

Definition queue_hold (q : queue) (place : nat) (mine : Ticket) : option Hold :=
  let turn_held_ := turn_held q mine place in
  let ahead := List.filter (blocks mine) (map snd (take place q)) in
  if negb turn_held_ && is_empty ahead then None
  else
    let '(only, kind, kinds_, text_) := fold_holds ahead in
    let starts := N.max (N.of_nat (length ahead)) 1 in
    let '(kind, kinds_, text_) :=
      if turn_held_ || negb only then (Queue, [], None) else (kind, kinds_, text_) in
    let '(kind, text_) :=
      match head (omap needs_fix_of ahead) with
      | Some h => (hold_kind h, Some (hold_text h))
      | None => (kind, text_)
      end in
    Some {| hold_kind := kind; hold_kinds := btree_set kinds_;
            hold_text := default (str "queued: " ++ show_N starts ++ str " start" ++ plural starts
                                  ++ str " ahead") text_ |}.

(** ** Limits of the machine *)

Definition check_group_size config run : result ThrottleError unit :=
  let agents_ := incoming run in
  let over (cap_key : text) (cap : option N) (fix_ : text) :=
    let! cap := cap else None in
    if (cap <? agents_)%N then Some (Oversized agents_ cap_key cap fix_) else None in
  let limited (scope_ name : text) (limit : option Limit) :=
    over (str "max-parallel") (let! l := limit else None in max_parallel l)
      (str "raise max-parallel in " ++ scope_ ++ str " " ++ name ++ str "'s definition") in
  let machine (cap_key : text) (cap : option N) := over cap_key cap (str "raise it in ~/.rimz/config.toml") in
  let of_limits :=
    let! s := limits run else None in
    or_else (limited (str "workflow") (start_workflow s) (workflow_limit s))
      (limited (str "step") (start_step s) (start_limit s)) in
  match or_else of_limits
          (or_else (machine (str "max-parallel-agents") (max_parallel_agents config))
             (machine (str "max-parallel-automation") (max_parallel_automation config))) with
  | Some e => Err e
  | None => Ok tt
  end.

(** The resources, in order. *)
Fixpoint pressure_hold host config (resources : list Resource) : result ThrottleError (option Hold) :=
  match resources with
  | [] => Ok None
  | r :: resources' =>
      match resource_limit r config with
      | None => pressure_hold host config resources'
      | Some limit =>
          match pressure host r with
          | Err detail => Err (Reading (label r) detail)
          | Ok p =>
              if (100 * Z.of_N limit <=? worst p)%Z
              then Ok (Some {| hold_kind := Pressure; hold_kinds := [];
                               hold_text := resource_name r ++ str " pressure " ++ show_percent (worst p)
                                 ++ str "% " ++ [8805%N] ++ str " " ++ show_N limit ++ str "%" |})
              else pressure_hold host config resources'
          end
      end
  end.
Definition memory_hold host config : result ThrottleError (option Hold) :=
  match min_memory_bytes config with
  | None => Ok None
  | Some floor =>
      match memory_available host with
      | Err detail => Err (Reading (str "available memory") detail)
      | Ok available =>
          Ok (if (available <? floor)%N then
                Some {| hold_kind := HoldKind.Memory; hold_kinds := [];
                        hold_text := str "available memory " ++ decimal_bytes available ++ str " < "
                                     ++ decimal_bytes floor |}
              else None)
      end
  end.

Definition limit_hold host (stamps_ : result text LaunchStamps) config run (in_flight : N)
  : result ThrottleError (option Hold) :=
  match (if caps config then machine_counts host else Ok ((0%N, []), (0%N, []))) with
  | Err detail => Ok (Some (store_hold detail))
  | Ok (all, auto) =>
      let capped (kind : HoldKind) (cap : option N) (counted : N * list text) :=
        let! cap := cap else None in
        cap_hold kind [] cap counted.1 (incoming run) in_flight counted.2 in
      match or_else (capped MachineCap (max_parallel_agents config) all)
              (capped AutomationCap (max_parallel_automation config) auto) with
      | Some h => Ok (Some h)
      | None =>
          if negb (machine_gated run) then Ok None
          else
            match (match config_gap config with
                   | None => Ok None
                   | Some gap => Limits.machine_hold host stamps_ gap
                   end) with
            | Err detail => Ok (Some (store_hold detail))
            | Ok (Some h) => Ok (Some h)
            | Ok None =>
                let? h := pressure_hold host config ALL in
                match h with
                | Some _ => Ok h
                | None =>
                    let? h := memory_hold host config in
                    match h with
                    | Some _ => Ok h
                    | None =>
                        match min_disk_bytes config with
                        | Some floor => disk_hold host floor (start_disk run)
                        | None => Ok None
                        end
                    end
                end
            end
      end
  end.
End Queue.

(** ** One decision *)

(** [Pass]: a manual start carries the limit it skipped. *)
Inductive Pass := Passes (note : option text) | Holds (h : Hold).
Definition pass_hold (p : Pass) : option Hold := match p with Passes _ => None | Holds h => Some h end.
Abbreviation sample := (option (N * Hold)).

Definition show_Z (z : Z) : text := (if (z <? 0)%Z then str "-" else []) ++ show_N (Z.to_N (Z.abs z)).

Section Decision.
Context `{Validators, Rendering}.
Implicit Types (host : Host) (config : ThrottleConfig) (run : StartRun).

Definition manual run : bool := is_some_and (limits run) (fun s => negb (may_wait s)).
Definition with_kinds run (h : Hold) : Hold := h <| hold_kinds := kinds run |>.

(** The hold of the limits of its workflow, while another start of the
    workflow is on its way or for what [Limits.evaluate] finds. *)
Definition limits_hold host run (q : list (text * Ticket)) (ticket : Ticket) (mine : option text)
  : locked (option Hold) := fun st =>
  (st, Ok (let! s := limits run else None in
           let count := launching q ticket mine in
           if (0 <? count)%N then Some (Limits.launching s count)
           else
             match Limits.evaluate host (stamps st) s (incoming run) with
             | Ok h => h
             | Err e => if manual run then None else Some (store_hold e)
             end)).

(** The limits of the machine, sampled again unless a recent sample holds. *)
Definition sampled_hold host config run (q : list (text * Ticket)) (mine : option text) (now : N)
    (blocked : sample) : locked (option Hold * sample) := fun st =>
  let fresh :=
    match blocked with
    | Some (at_, h) =>
        if negb (bool_decide (hold_kind h = Stagger)) && (saturating_sub now at_ <? SAMPLE_EVERY_MS)%N
        then Some h else None
    | None => None
    end in
  match fresh with
  | Some h => (st, Ok (Some (with_kinds run h), blocked))
  | None =>
      let in_flight := foldr N.add 0%N (map (fun e => ticket_agents e.2)
        (List.filter (fun '(name, t) =>
           negb (bool_decide (mine = Some name)) && bool_decide (ticket_state t = Granted)) q)) in
      (st, let? h := limit_hold host (stamps st) config run in_flight in
           Ok (option_map (with_kinds run) h, option_map (pair now) h))
  end.

(** [pass]: without a ticket of its own, a start looks at the tail. *)
Definition pass host (owner : Owner) config run (mine : option text) (now : N) (blocked : sample)
  : locked (Pass * sample) :=
  if manual run && is_some_and (limits run) (fun s => is_none (workflow_limit s) && is_none (start_limit s))
  then ret (Passes None, blocked)
  else
    let* _ := lift (if manual run then Ok tt else check_group_size config run) in
    let ceiling := if is_some (config_check config) then CHECK_CEILING else TURN_CEILING in
    let* q := sweep host (Some ceiling) now in
    let* (place, ticket) := lift
      (match mine with
       | None => Ok (length q, new_ticket owner run now)
       | Some name =>
           match position (fun e => bool_decide (e.1 = name)) q with
           | Some i => match q !! i with Some e => Ok (i, e.2) | None => Err (Vanished name) end
           | None => Err (Vanished name)
           end
       end) in
    let* hold := limits_hold host run q ticket mine in
    if manual run then ret (Passes (option_map hold_text hold), blocked)
    else
      let hold := if is_none hold && machine_gated run then queue_hold q place ticket else hold in
      let* (hold, blocked) :=
        match hold with
        | Some _ => ret (hold, blocked)
        | None => sampled_hold host config run q mine now blocked
        end in
      let state := match hold with Some _ => Waiting hold | None => Granted end in
      let* _ :=
        match mine with
        | Some name =>
            if bool_decide (ticket_state ticket = state) then ret tt
            else write_ticket name (ticket <| ticket_state := state |>)
        | None => ret tt
        end in
      ret (match hold with
           | None => Passes None
           | Some h => Holds (if is_empty (hold_kinds h) then with_kinds run h else h)
           end, blocked).

(** ** The capacity check *)

Definition check_answer (checked : result text CheckOutcome) (timeout : N) : CheckAnswer * text :=
  match checked with
  | Err error => (CheckError, error)
  | Ok c =>
      let fails (detail : text) :=
        (CheckError, if is_empty (stderr_line c) then detail else detail ++ str ": " ++ stderr_line c) in
      if check_timed_out c then fails (str "timed out after " ++ format_duration_compact timeout)
      else if check_interrupted c then fails (str "interrupted")
      else
        match check_code c with
        | Some code =>
            if (code =? 0)%Z then (Room, str "capacity")
            else if (code =? 75)%Z then (NoRoom, str "no capacity (your check)")
            else fails (str "exit " ++ show_Z code)
        | None => fails (str "terminated by signal")
        end
  end.

Definition same_group (v : CheckVerdict) (g : StartGroup) : bool :=
  bool_decide (check_kind v = group_kind g) && bool_decide (check_account v = group_account g).
Definition cached_verdict host (refresh : bool) (g : StartGroup) (l : list CheckVerdict) : option CheckVerdict :=
  List.find (fun v =>
    negb refresh && same_group v g && negb (bool_decide (check_outcome v = Room))
    && (check_at v <=? now_ms host)%N && (now_ms host - check_at v <? CHECK_REUSE_MS)%N) l.
(** The cache with a verdict, unless it has a later one of the group. *)
Fixpoint record_verdict (v : CheckVerdict) (g : StartGroup) (l : list CheckVerdict) : list CheckVerdict :=
  match l with
  | [] => [v]
  | v' :: l' =>
      if same_group v' g then (if (check_at v' <=? check_at v)%N then v :: l' else l)
      else v' :: record_verdict v g l'
  end.

(** One group: [None] when the start has no time left for the check. *)
Definition check_group host config run (refresh : bool) (g : StartGroup) : locked (option CheckVerdict) := fun st =>
  match cached_verdict host refresh g (verdicts st) with
  | Some v => (st, Ok (Some v))
  | None =>
      let timeout :=
        match gives_up_ms run with
        | Some until => N.min (check_timeout config) (from_millis (saturating_sub until (check_ms host)))
        | None => check_timeout config
        end in
      if (timeout =? 0)%N || is_some_and (gives_up_ms run) (fun until => (until <=? checked_ms host)%N)
      then (st, Ok None)
      else
        let '(outcome, detail) := check_answer (capacity_check host g) timeout in
        let label_ := match group_account g with
                      | Some account => group_kind g ++ str "/" ++ account
                      | None => group_kind g
                      end in
        let v := {| check_kind := group_kind g; check_account := group_account g; check_at := check_ms host;
                    check_outcome := outcome;
                    check_detail :=
                      if bool_decide (outcome = CheckError)
                      then str "capacity check failing: " ++ label_ ++ str " " ++ detail
                      else label_ ++ str ": " ++ detail |} in
        (st <| verdicts := record_verdict v g (verdicts st) |>, Ok (Some v))
  end.

(** The groups in order, each at its own time. *)
Fixpoint check_loop (hosts : nat -> Host) config run (refresh : bool) (groups_ : list StartGroup)
    (kind : HoldKind) (held : list text) (failing full : list text) : locked (option Hold) :=
  match groups_ with
  | [] =>
      ret (if is_empty held then None
           else Some {| hold_kind := kind; hold_kinds := held; hold_text := join (str "; ") (failing ++ full) |})
  | g :: groups' =>
      let* v := check_group (hosts 0%nat) config run refresh g in
      match v with
      | None => ret None
      | Some v =>
          let next := check_loop (fun i => hosts (S i)) config run refresh groups' in
          let held' := if bool_decide (group_kind g ∈ held) then held else held ++ [group_kind g] in
          match check_outcome v with
          | Room => next kind held failing full
          | NoRoom => next kind held' failing (full ++ [check_detail v])
          | CheckError => next CheckFailed held' (failing ++ [check_detail v]) full
          end
      end
  end.
Definition check_groups (hosts : nat -> Host) config run (refresh : bool) : locked (option Hold) :=
  if negb (machine_gated run) || is_none (config_check config) then ret None
  else check_loop hosts config run refresh (groups run) Capacity [] [] [].

(** ** Reports and readers *)

(** [report_launch], once: a launch that cannot be stamped gives its turn up. *)
Definition report_launch host (name workspace agent_ : text) : locked unit := fun st =>
  let stamped :=
    let* t := read_ticket name in
    match t with
    | None => ret tt
    | Some t =>
        let* _ := if ticket_gated t || is_some (ticket_limit t)
                  then Limits.stamp (ticket_gated t) (ticket_limit t) (now_ms host) else ret tt in
        write_ticket name (t <| ticket_state := Launched (now_ms host) workspace agent_ |>)
    end in
  match stamped st with
  | (st', Ok _) => (st', Ok tt)
  | (st', Err _) => remove_ticket name st'
  end.

Definition reap host : locked unit := let* _ := sweep host None (now_ms host) in ret tt.

(** [check_errors_in]: the latest errors of the capacity check. *)
Definition check_errors_in config (st : Files) : list text :=
  if is_none (config_check config) then []
  else map check_detail (List.filter (fun v => bool_decide (check_outcome v = CheckError)) (verdicts st)).

(** [unreadable]: a configured reading the machine cannot give. *)
Definition unreadable host config : option text :=
  let bad := List.find (fun r => is_some (resource_limit r config)
                                 && match pressure host r with Err _ => true | Ok _ => false end) ALL in
  match bad with
  | Some r =>
      match pressure host r with
      | Err source =>
          Some (str "`throttle." ++ resource_name r ++ str "-pressure` is set but pressure cannot be read ("
                ++ source ++ str "); remove the key from config.toml, or enable PSI (boot with `psi=1`)")
      | Ok _ => None
      end
  | None =>
      match memory_available host with
      | Err source =>
          if is_some (min_memory config) then
            Some (str "`throttle.min-memory` is set but available memory cannot be read ("
                  ++ source ++ str "); remove the key from config.toml")
          else None
      | Ok _ => None
      end
  end.

Definition preflight host config : result ThrottleError unit :=
  match unreadable host config with Some problem => Err (Unreadable problem) | None => Ok tt end.

(** [look_in], its sections in a row: what a start would be held for, without
    a ticket. *)
Definition look_in (hosts : nat -> Host) (owner : Owner) config run : locked (option Hold) :=
  let host := hosts 0%nat in
  if negb (machine_gated run) && negb (caps config) && is_none (limits run) then ret None
  else
    match (if machine_gated run then unreadable host config else None) with
    | Some problem => lift (Err (Unreadable problem))
    | None =>
        let* (answer, _) := pass host owner config run None (now_ms host) None in
        match pass_hold answer with
        | Some h => ret (Some h)
        | None =>
            let* h := check_groups (fun i => hosts (S i)) config run false in
            if is_some h || negb (machine_gated run) || is_none (config_check config) then ret h
            else
              let last := hosts (S (length (groups run))) in
              let* (answer, _) := pass last owner config run None (now_ms last) None in
              ret (pass_hold answer)
        end
    end.

Record Held := {
  held_pid : N; held_checkout : text; since_ms : N; held_kinds : list text; held_gives_up : option N;
  held_reason : option text; held_hold : option HoldKind; held_position : N
}.
(** [waiting_in]: the live waiting starts of a room, and of one task. *)
Definition waiting_in host (task_ : option text) (root : text) (st : Files) : list (text * Held) :=
  omap (fun '(index, t) =>
    match ticket_state t with
    | Waiting reason =>
        if is_some_and task_ (fun name => negb (bool_decide (ticket_task t = name)))
           || negb (bool_decide (ticket_root t = root)) || negb (owner_is_live host (ticket_owner t))
        then None
        else Some (ticket_task t,
          {| held_pid := owner_pid (ticket_owner t); held_checkout := ticket_checkout t;
             since_ms := enqueued_ms t; held_kinds := ticket_kinds t; held_gives_up := ticket_gives_up t;
             held_reason := option_map hold_text reason; held_hold := option_map hold_kind reason;
             held_position := (N.of_nat index + 1)%N |})
    | _ => None
    end) (imap pair (omap snd (tickets st))).
End Decision.

(** ** Asking processes *)

(** How a start leaves without a turn, or with its launch reported. *)
Inductive Answer :=
| AOpen
| AHeld (h : Hold)
| ASkipped (reason : text)
| AInterrupted
| AFailed (e : ThrottleError)
| AReported
| ADropped.

(** Where an asking process is: the sections of [try_admit_in] ([Trying] to
    [TryPassing]) and of the loop of the blocking wait ([Entering] to
    [Deciding]), holding a turn, removing its ticket, gone. *)
Inductive Stage :=
| Trying | TryChecking | TryPassing
| Entering | Looping | LoopChecking | LoopPassing | Writing (h : Hold) | Deciding (h : option Hold)
| Turning
| Leaving (a : Answer)
| Over (a : Answer).

Record Starter := {
  starter_owner : Owner; starter_run : StartRun; starter_config : ThrottleConfig;
  path : option text; started_past_limit : option text; blocked : sample; heard : option text;
  starter_enqueued : N; refresh_check : bool; listening : bool; stage : Stage
}.
#[export] Instance Starter_eta : Eta Starter := fun p =>
  {| starter_owner := starter_owner p; starter_run := starter_run p; starter_config := starter_config p;
     path := path p; started_past_limit := started_past_limit p; blocked := blocked p; heard := heard p;
     starter_enqueued := starter_enqueued p; refresh_check := refresh_check p; listening := listening p;
     stage := stage p |}.

Definition starter (owner : Owner) (run : StartRun) (config : ThrottleConfig) (listening_ : bool) (s : Stage)
  : Starter :=
  {| starter_owner := owner; starter_run := run; starter_config := config; path := None;
     started_past_limit := None; blocked := None; heard := None; starter_enqueued := 0;
     refresh_check := false; listening := listening_; stage := s |}.

Section Stages.
Context `{Validators, Rendering}.
Implicit Types (p : Starter) (host : Host).

Definition leave p (a : Answer) : Starter := p <| stage := Leaving a |>.
(** A section of the process; an error drops its turn. *)
Definition within p (m : locked Starter) (st : Files) : Files * Starter :=
  match m st with
  | (st', Ok p') => (st', p')
  | (st', Err e) => (st', leave p (AFailed e))
  end.

(** Nothing gates the start. *)
Definition ungated p : bool :=
  negb (machine_gated (starter_run p)) && negb (caps (starter_config p)) && is_none (limits (starter_run p)).
Definition fails_fast host p : option text :=
  if machine_gated (starter_run p) then unreadable host (starter_config p) else None.
Definition expired host p : bool :=
  is_some_and (gives_up_ms (starter_run p)) (fun until => (until <=? now_ms host)%N).
Definition checks_again p : bool :=
  machine_gated (starter_run p) && is_some (config_check (starter_config p)).

(** [try_admit_in]: one pass at the tail, then the turn is written. *)
Definition try_first host p : locked Starter :=
  let* (answer, _) := pass host (starter_owner p) (starter_config p) (starter_run p) None (now_ms host) None in
  match answer with
  | Holds h => ret (leave p (AHeld h))
  | Passes note =>
      let name := ticket_name (now_ms host) (nonce host) in
      let* _ := write_ticket name
        (new_ticket (starter_owner p) (starter_run p) (now_ms host) <| ticket_state := Granted |>) in
      ret (p <| path := Some name |> <| started_past_limit := note |> <| stage := TryChecking |>)
  end.
Definition try_check (hosts : nat -> Host) p : locked Starter :=
  let* h := check_groups hosts (starter_config p) (starter_run p) false in
  match h with
  | Some h => ret (leave p (AHeld h))
  | None =>
      if is_none_or (limits (starter_run p)) may_wait && expired (hosts 0%nat) p
      then ret (leave p (AHeld {| hold_kind := Capacity; hold_text := str "wait deadline reached";
                                  hold_kinds := kinds (starter_run p) |}))
      else ret (p <| stage := if checks_again p then TryPassing else Turning |>)
  end.
Definition try_again host p : locked Starter :=
  let* (answer, _) :=
    pass host (starter_owner p) (starter_config p) (starter_run p) (path p) (now_ms host) None in
  ret (match answer with Holds h => leave p (AHeld h) | Passes _ => p <| stage := Turning |> end).

(** [skipped]: the reason with how long the start was held. *)
Definition skipped host p (reason : text) : Starter :=
  leave p (ASkipped (str "gave up waiting for capacity after "
    ++ format_duration_compact (from_millis (saturating_sub (now_ms host) (starter_enqueued p)))
    ++ str "; " ++ reason)).

Definition enqueue host p : locked Starter :=
  let name := ticket_name (now_ms host) (nonce host) in
  let* _ := write_ticket name (new_ticket (starter_owner p) (starter_run p) (now_ms host)) in
  ret (p <| path := Some name |> <| starter_enqueued := now_ms host |> <| stage := Looping |>).

(** The configuration is read again on every round. *)
Definition reconfigure host p : Starter + ThrottleError :=
  match throttle_config host with
  | Some current =>
      if decide (current = starter_config p) then inl p
      else
        match (if machine_gated (starter_run p) then unreadable host current else None) with
        | Some problem => inr (Unreadable problem)
        | None =>
            let changed :=
              negb (bool_decide (config_check current = config_check (starter_config p)))
              || negb (bool_decide (config_check_timeout current = config_check_timeout (starter_config p))) in
            inl (p <| refresh_check := refresh_check p || changed |> <| starter_config := current |>
                   <| blocked := None |>)
        end
  | None => inl p
  end.
Definition round host p : locked Starter :=
  match reconfigure host p with
  | inr e => lift (Err e)
  | inl p =>
      if listening p && interrupted host then ret (leave p AInterrupted)
      else
        match heard p, expired host p with
        | Some reason, true => ret (skipped host p reason)
        | _, _ =>
            if ungated p then ret (leave p AOpen)
            else
              let* (answer, blocked_) :=
                pass host (starter_owner p) (starter_config p) (starter_run p) (path p) (now_ms host) (blocked p) in
              ret (p <| blocked := blocked_ |>
                     <| stage := match answer with Holds h => Deciding (Some h) | Passes _ => LoopChecking end |>)
        end
  end.
Definition round_check (hosts : nat -> Host) p : locked Starter :=
  let* h := check_groups hosts (starter_config p) (starter_run p) (refresh_check p) in
  ret (p <| refresh_check := false |>
         <| stage := match h with
                     | Some h => Writing h
                     | None => if checks_again p then LoopPassing else Deciding None
                     end |>).
Definition round_again host p : locked Starter :=
  let* (answer, _) :=
    pass host (starter_owner p) (starter_config p) (starter_run p) (path p) (now_ms host) None in
  ret (p <| stage := match answer with Holds h => Writing h | Passes _ => Deciding None end |>).
Definition round_write p (h : Hold) : locked Starter :=
  match path p with
  | None => ret p
  | Some name =>
      let* t := read_ticket name in
      match t with
      | None => lift (Err (Vanished name))
      | Some t =>
          let* _ := write_ticket name (t <| ticket_state := Waiting (Some h) |>) in
          ret (p <| stage := Deciding (Some h) |>)
      end
  end.
Definition decide_round host p (h : option Hold) : Starter :=
  if listening p && interrupted host then leave p AInterrupted
  else if expired host p
  then skipped host p (default (default (str "wait deadline reached") (heard p)) (option_map hold_text h))
  else
    match h with
    | None => p <| stage := Turning |>
    | Some h =>
        match (if listening p then None else interrupts_error host) with
        | Some e => leave p (AFailed (InterruptsError e))
        | None => p <| listening := true |> <| heard := Some (hold_text h) |> <| stage := Looping |>
        end
    end.

(** One section of a process.  [hosts] gives each checked group its time. *)
Definition stage_step (hosts : nat -> Host) p (st : Files) : Files * Starter :=
  let host := hosts 0%nat in
  match stage p with
  | Trying =>
      if ungated p then (st, p <| stage := Over AOpen |>)
      else match fails_fast host p with
           | Some problem => (st, p <| stage := Over (AFailed (Unreadable problem)) |>)
           | None => within p (try_first host p) st
           end
  | TryChecking => within p (try_check hosts p) st
  | TryPassing => within p (try_again host p) st
  | Entering =>
      if ungated p then (st, p <| stage := Over AOpen |>)
      else match fails_fast host p with
           | Some problem => (st, p <| stage := Over (AFailed (Unreadable problem)) |>)
           | None => within p (enqueue host p) st
           end
  | Looping => within p (round host p) st
  | LoopChecking => within p (round_check hosts p) st
  | LoopPassing => within p (round_again host p) st
  | Writing h => within p (round_write p h) st
  | Deciding h => (st, decide_round host p h)
  | Leaving a =>
      (match path p with Some name => (remove_ticket name st).1 | None => st end, p <| stage := Over a |>)
  | Turning | Over _ => (st, p)
  end.

(** The launch of a turn is reported, or the turn is dropped unreported. *)
Definition report host (workspace agent_ : text) p (st : Files) : Files * Starter :=
  match stage p, path p with
  | Turning, Some name => ((report_launch host name workspace agent_ st).1, p <| stage := Over AReported |>)
  | _, _ => (st, p)
  end.
Definition abandon p : Starter := match stage p with Turning => leave p ADropped | _ => p end.
End Stages.

(** ** The system *)

Record ThrottleSystem := { files : Files; starters : list Starter }.

(** A start that may not wait is not gated by the machine, as the engine and
    the runner ask. *)
Definition well_asked (run : StartRun) : Prop :=
  forall s, limits run = Some s -> may_wait s = false -> machine_gated run = false.

Section System.
Context `{Validators, Rendering}.

(** What is true of every reading: the processes that ask are live, and a name
    drawn for a ticket is new. *)
Definition truthful (sys : ThrottleSystem) (host : Host) : Prop :=
  (forall p, p ∈ starters sys -> owner_is_live host (starter_owner p) = true)
  /\ (forall now, ticket_name now (nonce host) ∉ map fst (tickets (files sys)))
  /\ (forall now p, p ∈ starters sys -> path p <> Some (ticket_name now (nonce host))).

Inductive system_step : ThrottleSystem -> ThrottleSystem -> Prop :=
| step_asks sys owner run config listening_ s : well_asked run -> s = Trying \/ s = Entering ->
    system_step sys {| files := files sys;
                       starters := starters sys ++ [starter owner run config listening_ s] |}
| step_stage sys i p hosts st' p' :
    starters sys !! i = Some p -> (forall k, truthful sys (hosts k)) ->
    stage_step hosts p (files sys) = (st', p') ->
    system_step sys {| files := st'; starters := <[i := p']> (starters sys) |}
| step_reports sys i p host workspace agent_ st' p' :
    starters sys !! i = Some p -> report host workspace agent_ p (files sys) = (st', p') ->
    system_step sys {| files := st'; starters := <[i := p']> (starters sys) |}
| step_abandons sys i p :
    starters sys !! i = Some p ->
    system_step sys {| files := files sys; starters := <[i := abandon p]> (starters sys) |}
| step_dies sys i :
    system_step sys {| files := files sys; starters := delete i (starters sys) |}
| step_looks sys host owner config run : truthful sys host -> well_asked run ->
    system_step sys {| files := (pass host owner config run None (now_ms host) None (files sys)).1;
                       starters := starters sys |}
| step_reaps sys host : truthful sys host ->
    system_step sys {| files := (reap host (files sys)).1; starters := starters sys |}.

Definition no_tickets (st : Files) : Prop := tickets st = [].
Inductive reachable : ThrottleSystem -> Prop :=
| reachable_empty st : no_tickets st -> reachable {| files := st; starters := [] |}
| reachable_step sys sys' : reachable sys -> system_step sys sys' -> reachable sys'.
End System.
