(* ===== verification/ThrottlingFacts.v ===== *)
(** * Properties of the throttle

    The queue directory under its lock: what a sweep keeps, when the queue
    holds a start back, and the invariant that makes the turn of the machine
    exclusive, over every interleaving of asking processes. *)

From S2P Require Import Prelude.
From S2P Require Lifecycle Agents.
From S2P Require Import Units Workflow Run Throttling.
Import HoldKind.

(** ** The directory *)

Section Directory.
Implicit Types (l : list (text * option Ticket)) (t : Ticket).

Abbreviation before := (fun a b : text => text_ltb a b = true).
(** A directory lists each name once, in order. *)
Definition listed {A} (l : list (text * A)) : Prop := StronglySorted before (map fst l).

Lemma listed_cons {A} name (x : A) (l : list (text * A)) : listed ((name, x) :: l) <->
  listed l /\ forall e, e ∈ l -> text_ltb name e.1 = true.
Proof.
  unfold listed. cbn [map fst]. split.
  - intros Hs. inversion Hs as [|? ? Hl Hf]; subst. split; [done|]. intros e He.
    rewrite Forall_forall in Hf. apply Hf, list_elem_of_fmap. eauto.
  - intros [Hl Hf]. constructor; [done|]. apply Forall_forall. intros n (e & -> & He)%list_elem_of_fmap. auto.
Qed.

(** A name has one file. *)
Lemma listed_unique {A} (l : list (text * A)) name x y : listed l -> (name, x) ∈ l -> (name, y) ∈ l -> x = y.
Proof.
  induction l as [|[n z] l IH]; [by intros _ ?%elem_of_nil|]. intros [Hl Hf]%listed_cons.
  rewrite !elem_of_cons. intros [Ex|Hx] [Ey|Hy]; [congruence|..|by apply IH].
  - injection Ex as -> ->. specialize (Hf _ Hy). cbn in Hf. by rewrite text_ltb_irrefl in Hf.
  - injection Ey as -> ->. specialize (Hf _ Hx). cbn in Hf. by rewrite text_ltb_irrefl in Hf.
Qed.

Lemma elem_put_ticket name t l x : listed l ->
  x ∈ put_ticket name t l <-> x = (name, Some t) \/ (x ∈ l /\ x.1 <> name).
Proof.
  induction l as [|[n z] l IH]; intros Hl; cbn [put_ticket].
  { rewrite list_elem_of_singleton, elem_of_nil. tauto. }
  apply listed_cons in Hl as [Hl Hf]. destruct (decide (name = n)) as [->|Hn].
  - rewrite !elem_of_cons. split; [intros [->|Hx]; [by left|right]|].
    + split; [by right|]. intros En. specialize (Hf _ Hx). by rewrite En, text_ltb_irrefl in Hf.
    + intros [->|[[->|Hx] Hne]]; [by left|done|by right].
  - destruct (text_ltb name n) eqn:Elt.
    + rewrite !elem_of_cons. split; [|tauto]. intros [->|Hx]; [by left|right]. split; [done|].
      destruct Hx as [->|Hx]; [done|]. intros Hne. specialize (Hf _ Hx). rewrite Hne in Hf.
      pose proof (text_ltb_trans _ _ _ Elt Hf) as Hc. by rewrite text_ltb_irrefl in Hc.
    + rewrite !elem_of_cons, IH by done. split; [|tauto].
      intros [->|[->|[Hx Hne]]]; [right; split; [by left|done]|by left|right; by split; [right|]].
Qed.

Lemma listed_put name t l : listed l -> listed (put_ticket name t l).
Proof.
  induction l as [|[n z] l IH]; intros Hl; cbn [put_ticket]; [by repeat constructor|].
  pose proof Hl as [Hl' Hf]%listed_cons. destruct (decide (name = n)) as [->|Hn]; [by apply listed_cons|].
  destruct (text_ltb name n) eqn:Elt.
  - apply listed_cons. split; [done|]. intros e [->|He]%elem_of_cons; [done|].
    eapply text_ltb_trans; [exact Elt|]. by apply (Hf e).
  - apply listed_cons. split; [by apply IH|]. intros e [->|[He _]]%elem_put_ticket; [|by apply Hf|done].
    cbn. destruct (text_ltb_total name n Hn) as [Hc|Hc]; [|done]. by rewrite Hc in Elt.
Qed.

Lemma elem_drop_ticket name l x : x ∈ drop_ticket name l <-> x ∈ l /\ x.1 <> name.
Proof.
  unfold drop_ticket. rewrite elem_of_filter_bool. rewrite negb_true_iff, bool_decide_eq_false. tauto.
Qed.

Lemma listed_omap {A B} (f : text * A -> option (text * B)) (l : list (text * A)) :
  (forall e e', f e = Some e' -> e'.1 = e.1) -> listed l -> listed (omap f l).
Proof.
  intros Hf. induction l as [|[n x] l IH]; intros Hl; [constructor|]. apply listed_cons in Hl as [Hl Hlt].
  cbn [omap list_omap]. destruct (f (n, x)) as [[n' y]|] eqn:E; [|by apply IH].
  pose proof (Hf _ _ E) as Hn. cbn in Hn. subst n'. apply listed_cons. split; [by apply IH|].
  intros e (e0 & He0 & Ee)%list_elem_of_omap. rewrite (Hf _ _ Ee). by apply Hlt.
Qed.

Lemma filter_as_omap {A} (f : A -> bool) (l : list A) :
  List.filter f l = omap (fun x => if f x then Some x else None) l.
Proof. induction l as [|x l IH]; [done|]. cbn. rewrite IH. by destruct (f x). Qed.

Lemma listed_drop name l : listed l -> listed (drop_ticket name l).
Proof.
  unfold drop_ticket. rewrite filter_as_omap. apply listed_omap.
  intros e e'. by destruct (negb _); [intros [= ->]|].
Qed.

Lemma listed_whole {A B} (f : A -> B) (l : list (text * A)) :
  listed l -> listed (map (fun '(n, x) => (n, f x)) l).
Proof.
  unfold listed. enough (map fst (map (fun '(n, x) => (n, f x)) l) = map fst l) as -> by done.
  induction l as [|[n x] l IH]; cbn; [done|]. by rewrite IH.
Qed.

(** Reading a file. *)
Lemma find_listed l name x : listed l -> (name, x) ∈ l ->
  List.find (fun e => bool_decide (e.1 = name)) l = Some (name, x).
Proof.
  intros Hl Hx. destruct (List.find _ l) as [[n y]|] eqn:E.
  - apply List.find_some in E as [Hy%list_elem_of_In Hn%bool_decide_eq_true]. cbn in Hn. subst n.
    by rewrite (listed_unique l name x y).
  - apply list_elem_of_In in Hx. pose proof (List.find_none _ _ E _ Hx) as Hn.
    cbn in Hn. by rewrite bool_decide_eq_true_2 in Hn.
Qed.
End Directory.

(** ** The sweep *)

Definition launched (t : Ticket) : bool := match ticket_state t with Launched _ _ _ => true | _ => false end.
(** The turn of the machine is held. *)
Definition holds_turn (t : Ticket) : bool := ticket_gated t && negb (is_waiting t).

Section Sweep.
Context `{Validators, Rendering}.
Implicit Types (t : Ticket).

Lemma sweep_ticket_live host ceiling now t :
  owner_is_live host (ticket_owner t) = true -> launched t = false -> sweep_ticket host ceiling now t = Some t.
Proof. unfold sweep_ticket, launched. intros ->. by destruct (ticket_state t). Qed.

Lemma sweep_ticket_Some host ceiling now t t' : sweep_ticket host ceiling now t = Some t' ->
  ticket_state t' = ticket_state t /\ (ticket_gated t' = true -> ticket_gated t = true)
  /\ (launched t = false -> t' = t).
Proof.
  unfold sweep_ticket, launched. destruct (ticket_state t) as [r| |at_ w a] eqn:Es.
  - destruct (owner_is_live _ _); [|done]. intros [= <-]. done.
  - destruct (owner_is_live _ _); [|done]. intros [= <-]. done.
  - destruct ceiling as [c|].
    + match goal with |- context [let '(_, _) := ?x in _] => destruct x as [md ld] end.
      cbn zeta. match goal with |- context [if ?b then None else _] => destruct b end; [done|]. intros [= <-].
      cbn. split; [done|]. split; [|done]. by intros [? _]%andb_prop.
    + destruct (_ && _); [done|]. intros [= <-]. done.
Qed.

Lemma sweep_ticket_turn host ceiling now t t' : sweep_ticket host ceiling now t = Some t' ->
  holds_turn t' = true -> holds_turn t = true.
Proof.
  intros Hs. destruct (sweep_ticket_Some _ _ _ _ _ Hs) as (Est & Hg & _). unfold holds_turn, is_waiting.
  rewrite Est, !andb_true_iff. intros [? ?]. auto.
Qed.

Lemma elem_swept host ceiling now l n t' :
  (n, t') ∈ swept host ceiling now l <-> exists t, (n, Some t) ∈ l /\ sweep_ticket host ceiling now t = Some t'.
Proof.
  unfold swept. rewrite list_elem_of_omap. split.
  - intros ([m [t|]] & He & Es); [|done]. destruct (sweep_ticket _ _ _ t) as [t1|] eqn:Et; [|done].
    injection Es as -> ->. eauto.
  - intros (t & Ht & Es). exists (n, Some t). split; [done|]. by rewrite Es.
Qed.

Lemma listed_swept host ceiling now l : listed l -> listed (swept host ceiling now l).
Proof.
  apply listed_omap. intros [n [t|]] e'; [|done]. destruct (sweep_ticket _ _ _ t); [|done]. by intros [= <-].
Qed.

(** A launch older than the longest ceiling is swept out. *)
Lemma launched_expires host ceiling now t at_ workspace agent_ :
  ticket_state t = Launched at_ workspace agent_ ->
  (duration_ms ceiling <= duration_ms CHECK_CEILING)%N -> (at_ + duration_ms CHECK_CEILING <= now)%N ->
  sweep_ticket host (Some ceiling) now t = None.
Proof.
  intros Es Hc Hn. unfold sweep_ticket. rewrite Es. unfold saturating_sub.
  rewrite !(proj2 (N.leb_le _ (now - at_))) by lia. rewrite !orb_true_r. cbn.
  by rewrite andb_false_r.
Qed.
End Sweep.

(** ** What holds a start back in the queue *)

Section QueueHold.
Context `{Validators, Rendering}.
Implicit Types (q : list (text * Ticket)) (mine t : Ticket).

Lemma elem_of_others {A} place (q : list A) x :
  x ∈ others place q <-> exists i, q !! i = Some x /\ i <> place.
Proof.
  unfold others. rewrite elem_of_app. split.
  - intros [(i & Hi & Hlt)%elem_of_take|Hd]; [exists i; split; [done|lia]|].
    apply list_elem_of_lookup in Hd as (i & Hi). rewrite lookup_drop in Hi. exists (S place + i). split; [done|lia].
  - intros (i & Hi & Hne). destruct (decide (i < place)) as [Hl|Hl].
    + left. apply elem_of_take. eauto.
    + right. apply list_elem_of_lookup. exists (i - S place). rewrite lookup_drop.
      by replace (S place + (i - S place)) with i by lia.
Qed.

Lemma turn_held_false q mine place : turn_held q mine place = false <->
  forall i n t, q !! i = Some (n, t) -> i <> place -> shares_scope t mine = true -> is_waiting t = true.
Proof.
  unfold turn_held. rewrite <- not_true_iff_false, existsb_exists. split.
  - intros Hn i n t Hi Hne Hs. destruct (is_waiting t) eqn:Ew; [done|]. destruct Hn. exists (n, t). split.
    + apply list_elem_of_In, elem_of_others. eauto.
    + by rewrite Hs, Ew.
  - intros Hw ([n t] & (i & Hi & Hne)%list_elem_of_In%elem_of_others & [Hs Hn]%andb_prop).
    by rewrite (Hw i n t Hi Hne Hs) in Hn.
Qed.

(** [t] waits for providers that [mine] does not use. *)
Definition steps_aside t mine : Prop := exists h, ticket_state t = Waiting (Some h)
  /\ (hold_kind h = Capacity \/ hold_kind h = CheckFailed) /\ hold_kinds h <> [] /\ ticket_kinds mine <> []
  /\ forall k, k ∈ ticket_kinds mine -> k ∉ hold_kinds h.

Lemma steps_aside_spec t mine :
  is_some_and (provider_hold t) (fun h => negb (is_empty (ticket_kinds mine))
    && forallb (fun k => negb (bool_decide (k ∈ hold_kinds h))) (ticket_kinds mine)) = true <-> steps_aside t mine.
Proof.
  unfold steps_aside, provider_hold. destruct (ticket_state t) as [[h|]| |]; cbn; try by (split; [|intros (?&?&?)]).
  assert (He : forall l : list text, negb (is_empty l) = true <-> l <> []) by by intros [|].
  destruct ((_ || _) && _) eqn:E; cbn.
  - apply andb_prop in E as [Ek Ee]. rewrite orb_true_iff, !bool_decide_eq_true in Ek. apply He in Ee.
    rewrite andb_true_iff, He, forallb_forall. split.
    + intros [Hm Hd]. exists h. split_and!; try done. intros k Hk%list_elem_of_In Hin.
      specialize (Hd k Hk). by rewrite bool_decide_eq_true_2 in Hd.
    + intros (h' & [= <-] & _ & _ & Hm & Hd). split; [done|]. intros k Hk%list_elem_of_In.
      rewrite bool_decide_eq_false_2; [done|]. by apply Hd.
  - split; [done|]. intros (h' & [= <-] & Hk & Hne & _). rewrite andb_false_iff in E. destruct E as [E|E].
    + rewrite orb_false_iff, !bool_decide_eq_false in E. tauto.
    + apply He in Hne. congruence.
Qed.

Lemma and_iff_strong (A B C : Prop) : (A -> B <-> C) -> A /\ B <-> A /\ C.
Proof. tauto. Qed.

(** A start is free to go exactly when no other start of its scope holds a
    turn, and every start of the machine ahead of it waits for providers that
    it does not use. *)
Lemma queue_hold_none q place mine : queue_hold q place mine = None <->
  (forall i n t, q !! i = Some (n, t) -> i <> place -> shares_scope t mine = true -> is_waiting t = true)
  /\ (forall i n t, i < place -> q !! i = Some (n, t) -> ticket_gated t = true -> ticket_gated mine = true ->
        steps_aside t mine).
Proof.
  assert (Hdef : queue_hold q place mine = None <->
    turn_held q mine place = false /\ List.filter (blocks mine) (map snd (take place q)) = []).
  { unfold queue_hold. destruct (negb _ && is_empty _) eqn:E.
    - apply andb_prop in E as [Et%negb_true_iff Ef]. by destruct (List.filter _ _).
    - split; [|intros [Ht Hf]; by rewrite Ht, Hf in E].
      repeat match goal with |- context [let '(_, _) := ?x in _] => destruct x end. done. }
  rewrite Hdef, turn_held_false. apply and_iff_strong. intros Hw. split.
  - intros Hf i n t Hi Hq Hg Hgm. apply steps_aside_spec.
    assert (Hb : blocks mine t = false).
    { destruct (blocks mine t) eqn:Eb; [|done]. assert (Hin : t ∈ List.filter (blocks mine) (map snd (take place q))).
      - apply elem_of_filter_bool. split; [done|]. apply list_elem_of_fmap. exists (n, t). split; [done|].
        apply elem_of_take. eauto.
      - rewrite Hf in Hin. by apply elem_of_nil in Hin. }
    assert (Hs : shares_scope t mine = true) by (unfold shares_scope; by rewrite Hg, Hgm).
    unfold blocks in Hb. rewrite Hs, Hg, Hgm, (Hw i n t) in Hb by (done || lia). cbn in Hb.
    by apply negb_false_iff in Hb.
  - intros Ha. apply elem_of_nil_inv. intros t (Hb & Ht)%elem_of_filter_bool.
    apply list_elem_of_fmap in Ht as ([n t'] & -> & (i & Hq & Hi)%elem_of_take). cbn in Hb. revert Hb.
    unfold blocks. destruct (shares_scope t' mine) eqn:Es; [|done]. rewrite (Hw i n t') by (done || lia). cbn.
    destruct (ticket_gated mine) eqn:Egm; [|done]. destruct (ticket_gated t') eqn:Eg; [|done]. cbn.
    rewrite (proj2 (steps_aside_spec t' mine)); [done|]. by eapply Ha.
Qed.
End QueueHold.

(** ** How a section changes the directory *)

Definition whole (l : list (text * option Ticket)) : Prop := forall n, (n, None) ∉ l.
Definition good (l : list (text * option Ticket)) : Prop := listed l /\ whole l.

(** No turn of the machine is held under another name. *)
Definition alone (mine : option text) (l : list (text * option Ticket)) : Prop :=
  forall n t, (n, Some t) ∈ l -> mine <> Some n -> holds_turn t = false.
Definition exclusive (l : list (text * option Ticket)) : Prop :=
  forall n t n' t', (n, Some t) ∈ l -> (n', Some t') ∈ l -> holds_turn t = true -> holds_turn t' = true -> n = n'.

(** What a section of the owner of [mine] may do to the other tickets: no turn
    appears among them, and the tickets of live processes that are not
    launched stay as they are. *)
Record evolves (live : Owner -> bool) (mine : option text) (l l' : list (text * option Ticket)) : Prop := {
  evolves_good : good l';
  evolves_back n t' : (n, Some t') ∈ l' -> mine <> Some n ->
    exists t, (n, Some t) ∈ l /\ (holds_turn t' = true -> holds_turn t = true);
  evolves_keep n t : (n, Some t) ∈ l -> mine <> Some n -> live (ticket_owner t) = true -> launched t = false ->
    (n, Some t) ∈ l'
}.

Section Evolves.
Context (live : Owner -> bool).

Lemma evolves_refl mine l : good l -> evolves live mine l l.
Proof. intros Hg. constructor; [done| |done]. intros n t Ht _. eauto. Qed.

Lemma evolves_trans mine l1 l2 l3 : evolves live mine l1 l2 -> evolves live mine l2 l3 -> evolves live mine l1 l3.
Proof.
  intros H1 H2. constructor.
  - apply H2.
  - intros n t3 Ht3 Hm. destruct (evolves_back _ _ _ _ H2 n t3 Ht3 Hm) as (t2 & Ht2 & H32).
    destruct (evolves_back _ _ _ _ H1 n t2 Ht2 Hm) as (t1 & Ht1 & H21). eauto.
  - intros n t Ht Hm Hl Hn. apply (evolves_keep _ _ _ _ H2); [|done..]. by apply (evolves_keep _ _ _ _ H1).
Qed.

Lemma evolves_any mine l l' : evolves live None l l' -> evolves live mine l l'.
Proof.
  intros He. constructor; [apply He|..].
  - intros n t' Ht _. by apply (evolves_back _ _ _ _ He).
  - intros n t Ht _. by apply (evolves_keep _ _ _ _ He).
Qed.

Lemma alone_evolves mine l l' : evolves live mine l l' -> alone mine l -> alone mine l'.
Proof.
  intros He Ha n t' Ht' Hm. destruct (evolves_back _ _ _ _ He n t' Ht' Hm) as (t & Ht & Ht1).
  destruct (holds_turn t') eqn:E; [|done]. by rewrite <- (Ha n t Ht Hm), Ht1.
Qed.

Lemma good_put name t l : good l -> good (put_ticket name t l).
Proof.
  intros [Hl Hw]. split; [by apply listed_put|]. intros n [[=]|[Hn _]]%elem_put_ticket; [|done]. by apply Hw in Hn.
Qed.

Lemma evolves_put name t l : good l -> evolves live (Some name) l (put_ticket name t l).
Proof.
  intros Hg. pose proof Hg as [Hl _]. constructor; [by apply good_put|..].
  - intros n t' [[= -> ->]|[Ht' _]]%elem_put_ticket Hm; [done|eauto|done].
  - intros n t' Ht' Hm _ _. apply elem_put_ticket; [done|]. right. split; [done|]. cbn. by intros ->.
Qed.

Lemma evolves_drop name l : good l -> evolves live (Some name) l (drop_ticket name l).
Proof.
  intros [Hl Hw]. constructor.
  - split; [by apply listed_drop|]. intros n [Hn _]%elem_drop_ticket. by apply Hw in Hn.
  - intros n t' [Ht' _]%elem_drop_ticket _. eauto.
  - intros n t Ht Hm _ _. apply elem_drop_ticket. split; [done|]. cbn. by intros ->.
Qed.

(** The turn stays exclusive when its new holder was the holder, or is alone. *)
Lemma exclusive_evolves mine l l' : evolves live mine l l' -> exclusive l ->
  (forall n t, mine = Some n -> (n, Some t) ∈ l' -> holds_turn t = true ->
     (exists t0, (n, Some t0) ∈ l /\ holds_turn t0 = true) \/ alone mine l') ->
  exclusive l'.
Proof.
  intros He Hx Ho.
  assert (Hb : forall n t, (n, Some t) ∈ l' -> holds_turn t = true ->
    (exists t0, (n, Some t0) ∈ l /\ holds_turn t0 = true) \/ (mine = Some n /\ alone mine l')).
  { intros n t Ht Hh. destruct (decide (mine = Some n)) as [Hm|Hm].
    - destruct (Ho n t Hm Ht Hh); eauto.
    - destruct (evolves_back _ _ _ _ He n t Ht Hm) as (t0 & Ht0 & H0). eauto. }
  intros n t n' t' Ht Ht' Hh Hh'.
  destruct (Hb n t Ht Hh) as [(t0 & Ht0 & Hh0)|[Hm Ha]], (Hb n' t' Ht' Hh') as [(t0' & Ht0' & Hh0')|[Hm' Ha']].
  - by apply (Hx n t0 n' t0').
  - destruct (decide (mine = Some n)) as [Hn|Hn]; [congruence|]. by rewrite (Ha' n t Ht Hn) in Hh.
  - destruct (decide (mine = Some n')) as [Hn|Hn]; [congruence|]. by rewrite (Ha n' t' Ht' Hn) in Hh'.
  - congruence.
Qed.
End Evolves.

Section Swept.
Context `{Validators, Rendering}.

Lemma elem_whole (q : list (text * Ticket)) x :
  x ∈ map (fun '(n, t) => (n, Some t)) q <-> exists n t, x = (n, Some t) /\ (n, t) ∈ q.
Proof. rewrite list_elem_of_fmap. split; [intros ([n t] & -> & Hq); eauto|intros (n & t & -> & Hq); by exists (n, t)]. Qed.

Lemma evolves_sweep host ceiling now l : good l ->
  evolves (owner_is_live host) None l (map (fun '(n, t) => (n, Some t)) (swept host ceiling now l)).
Proof.
  intros [Hl Hw]. constructor.
  - split; [by apply listed_whole, listed_swept|]. by intros n (? & ? & [=] & _)%elem_whole.
  - intros n t' (n' & t1 & [= <- <-] & (t & Ht & Hs)%elem_swept)%elem_whole _. exists t. split; [done|].
    by eapply sweep_ticket_turn.
  - intros n t Ht _ Hlv Hn. apply elem_whole. exists n, t. split; [done|]. apply elem_swept. exists t.
    split; [done|]. by apply sweep_ticket_live.
Qed.
End Swept.

(** ** One decision *)

(** The queue never lost a ticket. *)
Definition stays {A} (r : result ThrottleError A) : Prop := forall n, r <> Err (Vanished n).

Section Decision.
Context `{Validators, Rendering}.
Implicit Types (host : Host) (config : ThrottleConfig) (run : StartRun).

Lemma check_group_size_stays config run : stays (check_group_size config run).
Proof.
  intros n. unfold check_group_size. destruct (or_else _ _) as [e|] eqn:E; [|done]. intros [= ->].
  revert E. cbn zeta.
  destruct (limits run) as [s|], (max_parallel_agents config), (max_parallel_automation config);
    repeat (cbn || case_match); congruence.
Qed.

Lemma pressure_hold_stays host config l : stays (pressure_hold host config l).
Proof.
  intros n. induction l as [|r l IH]; cbn [pressure_hold]; [done|]. destruct (resource_limit r config); [|done].
  destruct (pressure host r); [|done]. by destruct (_ <=? _)%Z.
Qed.

Lemma limit_hold_stays host stamps_ config run in_flight : stays (limit_hold host stamps_ config run in_flight).
Proof.
  intros n. unfold limit_hold.
  destruct (if caps config then _ else _) as [[all auto]|d]; [|done]. cbn zeta.
  destruct (or_else _ _); [done|]. destruct (machine_gated run); [|done]. cbn [negb].
  destruct (match config_gap config with None => _ | Some _ => _ end) as [[h|]|d]; [done| |done].
  pose proof (pressure_hold_stays host config ALL n) as Hp.
  destruct (pressure_hold host config ALL) as [[h|]|e]; [done| |congruence].
  assert (Hm : memory_hold host config <> Err (Vanished n)).
  { unfold memory_hold. destruct (min_memory_bytes config); [|done]. by destruct (memory_available host). }
  destruct (memory_hold host config) as [[h|]|e]; [done| |congruence].
  destruct (min_disk_bytes config) as [floor|]; [|done]. unfold disk_hold. by destruct (disk_free host _).
Qed.

Lemma sampled_hold_read host config run q mine now b st :
  exists r, sampled_hold host config run q mine now b st = (st, r) /\ stays r.
Proof.
  unfold sampled_hold. cbn zeta. case_match; [by eexists|]. eexists. split; [done|]. intros n.
  pose proof (limit_hold_stays host (stamps st) config run
    (foldr N.add 0%N (map (fun e => ticket_agents e.2) (List.filter (fun '(name, t) =>
      negb (bool_decide (mine = Some name)) && bool_decide (ticket_state t = Granted)) q))) n) as Hs.
  by destruct (limit_hold _ _ _ _ _); cbn; congruence.
Qed.

Lemma limits_hold_read host run q t mine st : exists h, limits_hold host run q t mine st = (st, Ok h).
Proof. by eexists. Qed.

(** The place of a listed ticket. *)
Lemma position_name (q : list (text * Ticket)) name t : listed q -> (name, t) ∈ q ->
  exists i, position (fun e => bool_decide (e.1 = name)) q = Some i /\ q !! i = Some (name, t).
Proof.
  intros Hl Ht. destruct (position _ q) as [i|] eqn:E.
  - exists i. split; [done|]. apply position_Some in E as ([n t'] & Hi & Hn%bool_decide_eq_true & _).
    cbn in Hn. subst n. by rewrite (listed_unique q name t t' Hl Ht (list_elem_of_lookup_2 _ _ _ Hi)).
  - eapply position_None in E; [|exact Ht]. cbn in E. by rewrite bool_decide_eq_true_2 in E.
Qed.

(** Free to go, a start of the machine finds no other turn of the machine. *)
Lemma queue_hold_alone q place name mine t :
  listed q -> (place < length q -> q !! place = Some (name, t)) ->
  queue_hold q place mine = None -> ticket_gated mine = true ->
  forall n t', (n, t') ∈ q -> (place < length q -> n <> name) -> holds_turn t' = false.
Proof.
  intros Hl Hp [Hq _]%queue_hold_none Hg n t' (i & Hi)%list_elem_of_lookup Hn. unfold holds_turn.
  destruct (ticket_gated t') eqn:Eg; [|done]. rewrite (Hq i n t' Hi); [done| |].
  - intros ->. pose proof (lookup_lt_Some _ _ _ Hi) as Hlt. specialize (Hp Hlt). apply Hn; [done|].
    rewrite Hi in Hp. by injection Hp as -> _.
  - unfold shares_scope. by rewrite Eg, Hg.
Qed.

(** The decisions of [pass] for a start that may wait, after its sweep. *)
Definition turn_ceiling config : N := if is_some (config_check config) then CHECK_CEILING else TURN_CEILING.
Definition swept_queue host config now st : list (text * Ticket) :=
  swept host (Some (turn_ceiling config)) now (tickets st).
Definition swept_files host config now st : Files :=
  st <| tickets := map (fun '(name, t) => (name, Some t)) (swept_queue host config now st) |>.

(** Where a start stands in the queue: at its ticket, or at the tail. *)
Inductive stands owner run (now : N) (q : list (text * Ticket)) : option text -> nat -> Ticket -> Prop :=
| stands_tail : stands owner run now q None (length q) (new_ticket owner run now)
| stands_at name place t :
    position (fun e => bool_decide (e.1 = name)) q = Some place -> q !! place = Some (name, t) ->
    stands owner run now q (Some name) place t.
(** The answer is on the ticket. *)
Inductive answered t (s : TicketState) st : option text -> Files -> Prop :=
| answered_nowhere : answered t s st None st
| answered_already name : ticket_state t = s -> answered t s st (Some name) st
| answered_written name :
    answered t s st (Some name) (st <| tickets := put_ticket name (t <| ticket_state := s |>) (tickets st) |>).

Definition granted_agents (q : list (text * Ticket)) (mine : option text) : N :=
  foldr N.add 0%N (map (fun e => ticket_agents e.2)
    (List.filter (fun '(name, t) =>
       negb (bool_decide (mine = Some name)) && bool_decide (ticket_state t = Granted)) q)).

(** The start carries no sample of the machine that still counts: a hold it saw
    less than [SAMPLE_EVERY_MS] ago answers for the machine, save a gap. *)
Definition sample_spent (now : N) (blocked : sample) : Prop :=
  forall at_ h, blocked = Some (at_, h) ->
    hold_kind h = Stagger \/ (SAMPLE_EVERY_MS <= saturating_sub now at_)%N.

(** Nothing holds the start back. *)
Record clear host config run (now : N) (blocked : sample) (q : list (text * Ticket)) (mine : option text)
    (place : nat) t st : Prop := {
  clear_sample : sample_spent now blocked;
  clear_workflow : (limits_hold host run q t mine st).2 = Ok None;
  clear_queue : machine_gated run = true -> queue_hold q place t = None;
  clear_machine : limit_hold host (stamps st) config run (granted_agents q mine) = Ok None
}.

Inductive decided host owner config run mine now (blocked : sample) st : Files -> result ThrottleError (Pass * sample) -> Prop :=
| decided_size e : check_group_size config run = Err e -> decided host owner config run mine now blocked st st (Err e)
| decided_lost name : mine = Some name ->
    position (fun e => bool_decide (e.1 = name)) (swept_queue host config now st) = None ->
    decided host owner config run mine now blocked st (swept_files host config now st) (Err (Vanished name))
| decided_error place t e :
    stands owner run now (swept_queue host config now st) mine place t ->
    stays (Err (A := unit) e) ->
    decided host owner config run mine now blocked st (swept_files host config now st) (Err e)
| decided_holds place t h h' b st' :
    stands owner run now (swept_queue host config now st) mine place t ->
    answered t (Waiting (Some h)) (swept_files host config now st) mine st' ->
    decided host owner config run mine now blocked st st' (Ok (Holds h', b))
| decided_passes place t b st' :
    stands owner run now (swept_queue host config now st) mine place t ->
    check_group_size config run = Ok tt ->
    clear host config run now blocked (swept_queue host config now st) mine place t (swept_files host config now st) ->
    answered t Granted (swept_files host config now st) mine st' ->
    decided host owner config run mine now blocked st st' (Ok (Passes None, b)).

Lemma sampled_hold_none host config run q mine now blocked st b' :
  sampled_hold host config run q mine now blocked st = (st, Ok (None, b')) ->
  sample_spent now blocked /\ limit_hold host (stamps st) config run (granted_agents q mine) = Ok None.
Proof.
  unfold sampled_hold. cbn zeta. case_match eqn:E; [done|]. fold (granted_agents q mine). intros Hr. split.
  - intros at_ h ->. destruct (negb _ && _) eqn:Eb; [done|]. apply andb_false_iff in Eb as [Eb|Eb].
    + left. by apply negb_false_iff, bool_decide_eq_true in Eb.
    + right. by apply N.ltb_ge in Eb.
  - by destruct (limit_hold _ _ _ _ _) as [[h|]|e].
Qed.

Lemma answered_put host owner config run mine now blocked st st' r t place h (b' : sample) :
  stands owner run now (swept_queue host config now st) mine place t ->
  (h = None -> check_group_size config run = Ok tt /\
     clear host config run now blocked (swept_queue host config now st) mine place t (swept_files host config now st)) ->
  (let state := match h with Some _ => Waiting h | None => Granted end in
   let* _ :=
     match mine with
     | Some name =>
         if bool_decide (ticket_state t = state) then ret tt else write_ticket name (t <| ticket_state := state |>)
     | None => ret tt
     end in
   ret (match h with
        | None => Passes None
        | Some h => Holds (if is_empty (hold_kinds h) then with_kinds run h else h)
        end, b')) (swept_files host config now st) = (st', r) ->
  decided host owner config run mine now blocked st st' r.
Proof.
  intros Hs Hc. cbn zeta. set (state := match h with Some _ => _ | None => _ end).
  assert (Ha : forall st1, answered t state (swept_files host config now st) mine st1 ->
    decided host owner config run mine now blocked st st1
      (Ok (match h with
           | None => Passes None
           | Some h => Holds (if is_empty (hold_kinds h) then with_kinds run h else h)
           end, b'))).
  { intros st1 Ha. destruct h as [h|]; [by eapply decided_holds|].
    destruct Hc as [Hc Hc']; [done|]. by eapply decided_passes. }
  destruct mine as [name|]; cbn [bind ret].
  - case_bool_decide as E; intros Hr; injection Hr as <- <-; apply Ha; by constructor.
  - intros Hr; injection Hr as <- <-; apply Ha; constructor.
Qed.

Lemma pass_decided host owner config run mine now blocked st st' r : manual run = false ->
  pass host owner config run mine now blocked st = (st', r) -> decided host owner config run mine now blocked st st' r.
Proof.
  intros Hm. unfold pass. rewrite Hm. cbn [andb]. unfold bind at 1. unfold lift at 1.
  destruct (check_group_size config run) as [[]|e] eqn:Esz.
  2: { intros Hr; injection Hr as <- <-. by apply decided_size. }
  unfold bind at 1. unfold sweep at 1. cbn beta iota zeta.
  fold (turn_ceiling config). fold (swept_queue host config now st). fold (swept_files host config now st).
  unfold bind at 1. unfold lift at 1.
  assert (Hstands : forall place t, (match mine with
       | None => Ok (length (swept_queue host config now st), new_ticket owner run now)
       | Some name =>
           match position (fun e => bool_decide (e.1 = name)) (swept_queue host config now st) with
           | Some i => match swept_queue host config now st !! i with Some e => Ok (i, e.2) | None => Err (Vanished name) end
           | None => Err (Vanished name)
           end
       end) = Ok (place, t) -> stands owner run now (swept_queue host config now st) mine place t).
  { intros place t. destruct mine as [name|]; [|intros [= <- <-]; constructor].
    destruct (position _ _) as [i|] eqn:Ep; [|done]. pose proof Ep as (x & Hx & Hn%bool_decide_eq_true & _)%position_Some.
    rewrite Hx. intros [= <- <-]. apply stands_at; [done|]. rewrite Hx. destruct x; by cbn in *; subst. }
  match type of Hstands with forall place t, ?m = _ -> _ => destruct m as [[place t]|e] eqn:Em end.
  2: { intros Hr; injection Hr as <- <-. destruct mine as [name|]; [|done].
       destruct (position _ _) as [i|] eqn:Ep.
       - apply position_Some in Ep as (x & Hx & _). by rewrite Hx in Em.
       - injection Em as <-. by apply (decided_lost _ _ _ _ _ _ _ _ name). }
  specialize (Hstands _ _ eq_refl). unfold bind at 1.
  pose proof (limits_hold_read host run (swept_queue host config now st) t mine (swept_files host config now st))
    as [w Hw].
  rewrite Hw. cbn beta iota zeta.
  set (hold := if is_none w && machine_gated run then _ else _).
  assert (Hclear : hold = None ->
    (limits_hold host run (swept_queue host config now st) t mine (swept_files host config now st)).2 = Ok None
    /\ (machine_gated run = true -> queue_hold (swept_queue host config now st) place t = None)).
  { unfold hold. rewrite Hw. destruct w; [done|]. cbn. destruct (machine_gated run); [|done]. by intros ->. }
  destruct hold as [h|].
  - intros Hr. eapply (answered_put host owner config run mine now blocked st st' r t place (Some h) blocked); [done..|exact Hr].
  - destruct (Hclear eq_refl) as [Hlim Hqueue].
    destruct (sampled_hold_read host config run (swept_queue host config now st) mine now blocked
      (swept_files host config now st)) as (sampled & Hsm & Hst).
    unfold bind at 1. rewrite Hsm. destruct sampled as [[h b']|e].
    + cbn beta iota zeta. apply answered_put with (place := place); [done|]. intros ->. split; [done|].
      apply sampled_hold_none in Hsm as [? ?]. by constructor.
    + intros Hr; injection Hr as <- <-. eapply decided_error; [done|]. intros n. specialize (Hst n). congruence.
Qed.

(** A start that nothing holds back gets its turn. *)
Lemma pass_clear host owner config run mine now blocked st place t : manual run = false ->
  check_group_size config run = Ok tt -> stands owner run now (swept_queue host config now st) mine place t ->
  clear host config run now blocked (swept_queue host config now st) mine place t (swept_files host config now st) ->
  exists st' note b, pass host owner config run mine now blocked st = (st', Ok (Passes note, b)).
Proof.
  intros Hm Hsz Hs [Hb Hw Hq Hl]. unfold pass. rewrite Hm. cbn [andb]. unfold bind, lift, sweep. rewrite Hsz.
  cbn beta iota zeta.
  fold (turn_ceiling config). fold (swept_queue host config now st). fold (swept_files host config now st).
  assert (Hstands : (match mine with
       | None => Ok (length (swept_queue host config now st), new_ticket owner run now)
       | Some name =>
           match position (fun e => bool_decide (e.1 = name)) (swept_queue host config now st) with
           | Some i => match swept_queue host config now st !! i with Some e => Ok (i, e.2) | None => Err (Vanished name) end
           | None => Err (Vanished name)
           end
       end) = Ok (place, t)).
  { inversion Hs as [|name place' t' Hp Hi]; subst; [done|]. by rewrite Hp, Hi. }
  rewrite Hstands. destruct (limits_hold_read host run (swept_queue host config now st) t mine
    (swept_files host config now st)) as [w Ew].
  rewrite Ew in Hw |- *. cbn in Hw. injection Hw as ->. cbn [is_none andb].
  assert (Hn : (if machine_gated run then queue_hold (swept_queue host config now st) place t else None) = None)
    by (destruct (machine_gated run); auto).
  rewrite Hn. unfold sampled_hold. cbn beta iota zeta.
  assert (Hf : (match blocked with
    | Some (at_, h) =>
        if negb (bool_decide (hold_kind h = Stagger)) && (saturating_sub now at_ <? SAMPLE_EVERY_MS)%N
        then Some h else None
    | None => None
    end) = None).
  { destruct blocked as [[at_ h]|]; [|done]. destruct (Hb at_ h eq_refl) as [E|E].
    - by rewrite bool_decide_eq_true_2.
    - apply N.ltb_ge in E. by rewrite E, andb_false_r. }
  rewrite Hf. fold (granted_agents (swept_queue host config now st) mine).
  rewrite Hl. cbn. destruct mine as [name|]; [case_bool_decide|]; by do 3 eexists.
Qed.

Lemma evolves_swept_files host config now st : good (tickets st) ->
  evolves (owner_is_live host) None (tickets st) (tickets (swept_files host config now st)).
Proof. apply evolves_sweep. Qed.

Lemma state_self t : t <| ticket_state := ticket_state t |> = t.
Proof. by destruct t. Qed.

(** The ticket of a live process that waits or holds a turn is in the swept queue. *)
Lemma swept_keeps host config now st name t :
  (name, Some t) ∈ tickets st -> owner_is_live host (ticket_owner t) = true -> launched t = false ->
  (name, t) ∈ swept_queue host config now st.
Proof. intros Ht Hl Hn. apply elem_swept. exists t. split; [done|]. by apply sweep_ticket_live. Qed.

Lemma stands_own owner run now host config st name t place t' :
  listed (tickets st) ->
  (name, Some t) ∈ tickets st -> owner_is_live host (ticket_owner t) = true -> launched t = false ->
  stands owner run now (swept_queue host config now st) (Some name) place t' ->
  t' = t /\ swept_queue host config now st !! place = Some (name, t).
Proof.
  intros Hl Ht Hlv Hn Hs. inversion Hs as [|? ? ? Hp Hi]; subst.
  assert (t' = t) as ->; [|done].
  eapply (listed_unique (swept_queue host config now st) name); [by apply listed_swept| |by apply swept_keeps].
  by eapply list_elem_of_lookup_2.
Qed.

(** The answer of [pass] on the ticket of a live start that waits or holds its
    turn: no turn appears elsewhere, no live ticket is touched, and a granted
    turn of the machine is the only one. *)
Lemma pass_own host owner config run name now b st st' r t :
  good (tickets st) -> (name, Some t) ∈ tickets st -> owner_is_live host (ticket_owner t) = true ->
  launched t = false -> ticket_gated t = machine_gated run -> manual run = false ->
  pass host owner config run (Some name) now b st = (st', r) ->
  evolves (owner_is_live host) (Some name) (tickets st) (tickets st') /\ stays r /\
  exists s, (name, Some (t <| ticket_state := s |>)) ∈ tickets st' /\
    match r with
    | Err _ => s = ticket_state t
    | Ok (Holds _, _) => exists h, s = Waiting h
    | Ok (Passes _, _) => s = Granted /\ (machine_gated run = true -> alone (Some name) (tickets st'))
    end.
Proof.
  intros Hg Ht Hlv Hn Hgt Hm Hr. apply pass_decided in Hr; [|done].
  pose proof (swept_keeps host config now st name t Ht Hlv Hn) as Hq.
  pose proof (evolves_swept_files host config now st Hg) as He.
  assert (Hq' : (name, Some t) ∈ tickets (swept_files host config now st)) by (apply elem_whole; eauto).
  assert (Ha : forall s st1, answered t s (swept_files host config now st) (Some name) st1 ->
    evolves (owner_is_live host) (Some name) (tickets st) (tickets st1)
    /\ (name, Some (t <| ticket_state := s |>)) ∈ tickets st1).
  { intros s st1 Hans. apply (evolves_any _ (Some name)) in He. inversion Hans; subst; [by rewrite state_self|].
    split; [|by apply elem_put_ticket; [apply He|left]].
    eapply evolves_trans; [exact He|]. cbn. apply evolves_put, He. }
  destruct Hr as [e Hsz|n Hn' Hpos|place t' e Hs Hst|place t' h h' b' st' Hs Hans|place t' b' st' Hs Hsz Hc Hans].
  - split; [by apply evolves_refl|]. split; [intros n; pose proof (check_group_size_stays config run n); congruence|].
    exists (ticket_state t). by rewrite state_self.
  - injection Hn' as <-. exfalso.
    destruct (position_name _ name t (listed_swept host (Some (turn_ceiling config)) now _ (proj1 Hg)) Hq)
      as (i & Hi & _). unfold swept_queue in Hpos. congruence.
  - split; [by apply evolves_any|]. split; [intros n; specialize (Hst n); congruence|].
    exists (ticket_state t). by rewrite state_self.
  - destruct (stands_own _ _ _ _ _ _ _ _ _ _ (proj1 Hg) Ht Hlv Hn Hs) as [-> _].
    destruct (Ha _ _ Hans) as [Hev Hin]. split; [done|]. split; [done|]. eauto.
  - destruct (stands_own _ _ _ _ _ _ _ _ _ _ (proj1 Hg) Ht Hlv Hn Hs) as [-> Hi].
    destruct (Ha _ _ Hans) as [Hev Hin]. split; [done|]. split; [done|]. exists Granted. split_and!; [done..|].
    intros Hgm. assert (alone (Some name) (tickets (swept_files host config now st))) as Hal.
    { intros n t' (n' & t1 & [= <- <-] & Ht1)%elem_whole Hne.
      eapply (queue_hold_alone _ place name t); [by apply listed_swept, Hg|done|by apply Hc|congruence|exact Ht1|].
      congruence. }
    inversion Hans; subst; [done|]. cbn.
    eapply (alone_evolves (owner_is_live host)); [|exact Hal]. apply evolves_put, He.
Qed.

(** At the tail: the files only lose what the sweep removes. *)
Lemma pass_tail host owner config run now b st st' r : good (tickets st) -> manual run = false ->
  pass host owner config run None now b st = (st', r) ->
  evolves (owner_is_live host) None (tickets st) (tickets st') /\ stays r /\
  match r with
  | Ok (Passes _, _) => machine_gated run = true -> alone None (tickets st')
  | _ => True
  end.
Proof.
  intros Hg Hm Hr. apply pass_decided in Hr; [|done].
  pose proof (evolves_swept_files host config now st Hg) as He.
  destruct Hr as [e Hsz|n Hn' Hpos|place t' e Hs Hst|place t' h h' b' st' Hs Hans|place t' b' st' Hs Hsz Hc Hans];
    [..|inversion Hans; subst; by split_and!|inversion Hans; subst; split_and!; [done..|]].
  - split_and!; [by apply evolves_refl| |done]. intros n. pose proof (check_group_size_stays config run n). congruence.
  - done.
  - split_and!; [done| |done]. intros n. specialize (Hst n). congruence.
  - intros Hgm n t1 (n' & t2 & [= <- <-] & Ht2)%elem_whole _. inversion Hs; subst.
    eapply (queue_hold_alone _ (length (swept_queue host config now st)) [] (new_ticket owner run now)
      (new_ticket owner run now)); [by apply listed_swept, Hg| |by apply Hc|done|exact Ht2|];
      intros Hlt; exfalso; revert Hlt; apply Nat.lt_irrefl.
Qed.
End Decision.
