(* ===== verification/ThrottlingSpec.v ===== *)
(** * What a turn requires

    The declarative reading of a decision of the throttle: a start that may
    wait gets its turn exactly when its group fits the caps, its workflow and
    the queue leave it free, and the machine is within its limits. *)

From S2P Require Import Prelude.
From S2P Require Lifecycle Agents.
From S2P Require Import Units Workflow Run Throttling ThrottlingFacts.
Import HoldKind.

(** A count fits under a cap, in the saturating arithmetic of the source. *)
Definition fits (cap : option N) (count in_flight incoming_ : N) : Prop :=
  forall c, cap = Some c -> (saturating_add_u64 (saturating_add_u64 count in_flight) incoming_ <= c)%N.
(** The gap since the last launch is over. *)
Definition rested (gap : option N) (last : option N) (now : N) : Prop :=
  forall g at_, gap = Some g -> last = Some at_ -> (duration_ms g <= saturating_sub now at_)%N.

Section Spec.
Context `{Validators, Rendering}.
Implicit Types (host : Host) (config : ThrottleConfig) (run : StartRun) (start : WorkflowStart).

(** The machine is within the limits its configuration sets. *)
Record within_limits host (stamps_ : result text LaunchStamps) config run (in_flight : N) : Prop := {
  within_caps : caps config = true -> exists all auto, machine_counts host = Ok (all, auto)
    /\ fits (max_parallel_agents config) all.1 in_flight (incoming run)
    /\ fits (max_parallel_automation config) auto.1 in_flight (incoming run);
  within_stagger gap : machine_gated run = true -> config_gap config = Some gap ->
    exists all, stamps_ = Ok all /\ rested (Some gap) (stamp_machine all) (stagger_ms host);
  within_pressure r limit : machine_gated run = true -> resource_limit r config = Some limit ->
    exists p, pressure host r = Ok p /\ (worst p < 100 * Z.of_N limit)%Z;
  within_memory floor : machine_gated run = true -> min_memory_bytes config = Some floor ->
    exists available, memory_available host = Ok available /\ (floor <= available)%N;
  within_disk floor : machine_gated run = true -> min_disk_bytes config = Some floor ->
    exists free, disk_free host (start_disk run) = Ok free /\ (floor <= free)%N
}.

(** A workflow is within the limits of its definition. *)
Record within_workflow host (stamps_ : result text LaunchStamps) start (incoming_ : N) : Prop := {
  within_census : exists c, Limits.census host start = Ok c
    /\ Limits.earlier_workflow c = 0%N /\ Limits.earlier_step c = 0%N
    /\ fits (let! l := workflow_limit start else None in max_parallel l) (Limits.census_workflow c) 0 incoming_
    /\ fits (let! l := start_limit start else None in max_parallel l) (Limits.census_step c) 0 incoming_;
  within_gaps : is_some (let! l := workflow_limit start else None in stagger l)
      || is_some (let! l := start_limit start else None in stagger l) = true ->
    exists all of_workflow of_step, stamps_ = Ok all
    /\ Limits.gap_of (workflow_limit start) = Ok of_workflow /\ Limits.gap_of (start_limit start) = Ok of_step
    /\ rested of_workflow (option_map last_launch_ms (stamp_workflows all !! start_workflow start)) (stagger_ms host)
    /\ rested of_step (let! w := stamp_workflows all !! start_workflow start else None in
                       stamp_steps w !! start_step start) (stagger_ms host)
}.

Lemma cap_hold_none kind prefix cap count incoming_ in_flight names :
  cap_hold kind prefix cap count incoming_ in_flight names = None <->
  (saturating_add_u64 (saturating_add_u64 count in_flight) incoming_ <= cap)%N.
Proof. unfold cap_hold. destruct (_ <=? cap)%N eqn:E; rewrite N.leb_nle in E || rewrite N.leb_le in E; done. Qed.

Lemma or_else_none {A} (x y : option A) : or_else x y = None <-> x = None /\ y = None.
Proof. destruct x; cbn; intuition congruence. Qed.

Lemma fits_hold (mk : N -> option Hold) cap count in_flight incoming_ :
  (forall c, mk c = None <-> (saturating_add_u64 (saturating_add_u64 count in_flight) incoming_ <= c)%N) ->
  (let! c := cap else None in mk c) = None <-> fits cap count in_flight incoming_.
Proof.
  intros Hmk. unfold fits. destruct cap as [c|]; [|done]. rewrite Hmk. split; [by intros ? ? [= <-]|auto].
Qed.

Lemma remaining_none host gap stamp :
  Limits.remaining host gap stamp = None <-> rested (Some gap) stamp (stagger_ms host).
Proof.
  unfold Limits.remaining, rested. destruct stamp as [at_|]; [|by split; [intros _ ? ? _ [=]|]]. cbn zeta.
  unfold saturating_sub at 1. destruct (_ <? _)%N eqn:E.
  - apply N.ltb_lt in E. split; [done|]. intros Hr. specialize (Hr gap at_ eq_refl eq_refl). lia.
  - apply N.ltb_ge in E. split; [|done]. intros _ g a [= <-] [= <-]. lia.
Qed.

Lemma machine_hold_none host stamps_ gap : Limits.machine_hold host stamps_ gap = Ok None <->
  exists all, stamps_ = Ok all /\ rested (Some gap) (stamp_machine all) (stagger_ms host).
Proof.
  unfold Limits.machine_hold. destruct stamps_ as [all|d]; [|by split; [|intros (? & ? & ?)]]. split.
  - intros Hh. exists all. split; [done|]. apply remaining_none.
    by destruct (Limits.remaining host gap (stamp_machine all)).
  - intros (all' & [= <-] & Hr%remaining_none). cbn. by rewrite Hr.
Qed.

Lemma pressure_hold_none host config l : pressure_hold host config l = Ok None <->
  forall r limit, r ∈ l -> resource_limit r config = Some limit ->
    exists p, pressure host r = Ok p /\ (worst p < 100 * Z.of_N limit)%Z.
Proof.
  induction l as [|r l IH]; cbn [pressure_hold]; [by split; [intros _ ? ? ?%elem_of_nil|]|].
  transitivity ((forall limit, resource_limit r config = Some limit ->
    exists p, pressure host r = Ok p /\ (worst p < 100 * Z.of_N limit)%Z) /\ pressure_hold host config l = Ok None).
  2: { rewrite IH. split.
       - intros [Hr Hl] r' limit [->|Hr']%elem_of_cons; auto.
       - intros Hall. split; [intros limit; apply Hall; left|]. intros r' limit Hr'. apply Hall. by right. }
  destruct (resource_limit r config) as [limit|]; [|intuition congruence].
  destruct (pressure host r) as [p|d].
  - destruct (_ <=? _)%Z eqn:E.
    + apply Z.leb_le in E. split; [done|]. intros [Hp _]. destruct (Hp limit eq_refl) as (p' & [= <-] & ?). lia.
    + apply Z.leb_gt in E. split; [|by intros [_ ?]]. intros Hn. split; [|done]. intros ? [= <-]. eauto.
  - split; [done|]. intros [Hp _]. by destruct (Hp limit eq_refl) as (p' & ? & ?).
Qed.

Lemma memory_hold_none host config : memory_hold host config = Ok None <->
  forall floor, min_memory_bytes config = Some floor ->
    exists available, memory_available host = Ok available /\ (floor <= available)%N.
Proof.
  unfold memory_hold. destruct (min_memory_bytes config) as [floor|]; [|done].
  destruct (memory_available host) as [a|d]; [|split; [done|]; intros Hm; by destruct (Hm floor eq_refl) as (? & ? & ?)].
  destruct (_ <? _)%N eqn:E.
  - apply N.ltb_lt in E. split; [done|]. intros Hm. destruct (Hm floor eq_refl) as (a' & [= <-] & ?). lia.
  - apply N.ltb_ge in E. split; [|done]. intros _ ? [= <-]. eauto.
Qed.

Lemma disk_hold_none host floor path : disk_hold host floor path = Ok None <->
  exists free, disk_free host path = Ok free /\ (floor <= free)%N.
Proof.
  unfold disk_hold. destruct (disk_free host path) as [a|d]; [|split; [done|by intros (? & ? & ?)]].
  destruct (_ <? _)%N eqn:E.
  - apply N.ltb_lt in E. split; [done|]. intros (a' & [= <-] & ?). lia.
  - apply N.ltb_ge in E. split; [|done]. eauto.
Qed.

(** The limits of the machine hold nothing back exactly within them. *)
Lemma limit_hold_none host stamps_ config run in_flight :
  limit_hold host stamps_ config run in_flight = Ok None <-> within_limits host stamps_ config run in_flight.
Proof.
  assert (Hcaps : forall all auto,
    or_else (let! cap := max_parallel_agents config else None in
             cap_hold MachineCap [] cap all.1 (incoming run) in_flight all.2)
      (let! cap := max_parallel_automation config else None in
       cap_hold AutomationCap [] cap auto.1 (incoming run) in_flight auto.2) = None <->
    fits (max_parallel_agents config) all.1 in_flight (incoming run)
    /\ fits (max_parallel_automation config) auto.1 in_flight (incoming run)).
  { intros all auto. rewrite or_else_none. f_equiv; apply fits_hold; intros c; apply cap_hold_none. }
  assert (Hgap : (match config_gap config with None => Ok None | Some gap => Limits.machine_hold host stamps_ gap end)
      = Ok None <-> forall gap, config_gap config = Some gap ->
        exists all, stamps_ = Ok all /\ rested (Some gap) (stamp_machine all) (stagger_ms host)).
  { destruct (config_gap config) as [gap|]; [|done]. rewrite machine_hold_none.
    split; [by intros ? ? [= <-]|]. intros Hr. by apply Hr. }
  assert (Hdisk : (match min_disk_bytes config with Some floor => disk_hold host floor (start_disk run) | None => Ok None end)
      = Ok None <-> forall floor, min_disk_bytes config = Some floor ->
        exists free, disk_free host (start_disk run) = Ok free /\ (floor <= free)%N).
  { destruct (min_disk_bytes config) as [floor|]; [|done]. rewrite disk_hold_none.
    split; [by intros ? ? [= <-]|]. intros Hr. by apply Hr. }
  pose proof (memory_hold_none host config) as Hmem. pose proof (pressure_hold_none host config ALL) as Hpr.
  assert (Hall : forall r : Resource, r ∈ ALL) by (intros []; repeat constructor).
  unfold limit_hold. split.
  - intros Hn. destruct (if caps config then _ else _) as [[all auto]|d] eqn:Ec; [|done]. cbn zeta in Hn.
    destruct (or_else _ _) eqn:Eo; [done|]. apply Hcaps in Eo. constructor.
    1: { intros Hc. rewrite Hc in Ec. eauto. }
    all: intros *; intros Hg; rewrite Hg in Hn; cbn [negb] in Hn.
    all: destruct (match config_gap config with None => _ | Some _ => _ end) as [[h|]|d]; [done| |done].
    1: by apply Hgap.
    all: destruct (pressure_hold host config ALL) as [[h|]|e]; [done| |done].
    1: by apply Hpr.
    all: destruct (memory_hold host config) as [[h|]|e]; [done| |done].
    + by apply Hmem.
    + by apply Hdisk.
  - intros [Hc Hs Hp Hm Hd].
    assert (Hcount : exists all auto, (if caps config then machine_counts host else Ok ((0%N, []), (0%N, [])))
      = Ok (all, auto) /\ fits (max_parallel_agents config) all.1 in_flight (incoming run)
      /\ fits (max_parallel_automation config) auto.1 in_flight (incoming run)).
    { unfold caps in Hc |- *. destruct (max_parallel_agents config), (max_parallel_automation config);
        try (by apply Hc). by eexists _, _. }
    destruct Hcount as (all & auto & -> & Hf%Hcaps). cbn zeta. rewrite Hf.
    destruct (machine_gated run); [|done]. cbn [negb].
    rewrite (proj2 Hgap) by (intros; by apply Hs). rewrite (proj2 Hpr) by (intros; by apply Hp).
    rewrite (proj2 Hmem) by (intros; by apply Hm). apply Hdisk. intros; by apply Hd.
Qed.

(** The limits of a workflow hold nothing back exactly within them. *)
Lemma capped_none kind name limit count incoming_ names :
  Limits.capped kind name limit count incoming_ names = None <->
  fits (let! l := limit else None in max_parallel l) count 0 incoming_.
Proof.
  unfold Limits.capped. destruct limit as [l|]; [|done]. apply fits_hold. intros c. apply cap_hold_none.
Qed.

Lemma earlier_none kind name count : Limits.earlier kind name count = None <-> count = 0%N.
Proof.
  unfold Limits.earlier. destruct (_ <? _)%N eqn:E; [apply N.ltb_lt in E; split; [done|lia]|].
  apply N.ltb_ge in E. split; [lia|done].
Qed.

Lemma staggered_none host kind name limit stamp : Limits.staggered host kind name limit stamp = Ok None <->
  exists gap, Limits.gap_of limit = Ok gap /\ rested gap stamp (stagger_ms host).
Proof.
  unfold Limits.staggered. destruct (Limits.gap_of limit) as [[gap|]|e].
  - split.
    + intros Hh. exists (Some gap). split; [done|]. apply remaining_none.
      by destruct (Limits.remaining host gap stamp).
    + intros (g & [= <-] & Hr%remaining_none). cbn. by rewrite Hr.
  - split; [|done]. intros _. exists None. split; [done|]. by intros ? ?.
  - by split; [|intros (? & ? & ?)].
Qed.

Lemma evaluate_none host stamps_ start incoming_ :
  Limits.evaluate host stamps_ start incoming_ = Ok None <-> within_workflow host stamps_ start incoming_.
Proof.
  unfold Limits.evaluate. split.
  - destruct (Limits.census host start) as [c|e] eqn:Ec; [|done]. cbn zeta.
    destruct (or_else _ _) eqn:Eo; [done|]. rewrite !or_else_none, !earlier_none, !capped_none in Eo.
    destruct Eo as (He1 & He2 & Hc1 & Hc2). intros Hn. constructor; [by exists c|].
    intros Hg%orb_prop. destruct (_ && _) eqn:Eg; [|clear Eg].
    { apply andb_prop in Eg as [E1%negb_true_iff E2%negb_true_iff]. rewrite E1, E2 in Hg. by destruct Hg. }
    destruct stamps_ as [all|e]; [|done].
    destruct (Limits.staggered _ WorkflowLimit _ _ _) as [[h|]|e] eqn:E1; [done| |done].
    apply staggered_none in E1 as (g1 & Hg1 & Hr1). apply staggered_none in Hn as (g2 & Hg2 & Hr2).
    by exists all, g1, g2.
  - intros [(c & -> & He1 & He2 & Hc1 & Hc2) Hgaps]. cbn zeta.
    rewrite (proj2 (earlier_none _ _ _) He1), (proj2 (earlier_none _ _ _) He2). cbn [or_else].
    rewrite (proj2 (capped_none _ _ _ _ _ _) Hc1), (proj2 (capped_none _ _ _ _ _ _) Hc2). cbn [or_else].
    destruct (is_some (let! l := workflow_limit start else None in stagger l)) eqn:E1;
      [|destruct (is_some (let! l := start_limit start else None in stagger l)) eqn:E2]; cbn [negb andb]; [| |done].
    all: destruct Hgaps as (all & g1 & g2 & -> & Hg1 & Hg2 & Hr1 & Hr2);
      [done|]; rewrite (proj2 (staggered_none _ _ _ _ _)) by eauto; apply staggered_none; eauto.
Qed.

(** Free of the other starts of its scope: none of them holds a turn, and those
    of the machine ahead wait for providers it does not use. *)
Definition free_to_go (q : list (text * Ticket)) (place : nat) (mine : Ticket) : Prop :=
  (forall i n t, q !! i = Some (n, t) -> i <> place -> shares_scope t mine = true -> is_waiting t = true)
  /\ (forall i n t, i < place -> q !! i = Some (n, t) -> ticket_gated t = true -> ticket_gated mine = true ->
        steps_aside t mine).

Lemma limits_hold_none host run q t mine st : manual run = false ->
  (limits_hold host run q t mine st).2 = Ok None <->
  forall s, limits run = Some s ->
    launching q t mine = 0%N /\ within_workflow host (stamps st) s (incoming run).
Proof.
  intros Hm. unfold limits_hold. cbn [snd]. rewrite Hm. destruct (limits run) as [s|]; [|done]. cbn zeta.
  assert (Hone : forall P : WorkflowStart -> Prop, (forall s', Some s = Some s' -> P s') <-> P s).
  { intros P. split; [by intros HP; apply HP|by intros HP ? [= <-]]. }
  rewrite Hone. rewrite <- evaluate_none. destruct (_ <? _)%N eqn:E.
  - apply N.ltb_lt in E. split; [done|lia].
  - apply N.ltb_ge in E. destruct (Limits.evaluate _ _ _ _) as [[h|]|e]; split; try done; try lia; intros [_ [=]] || idtac.
    intros _. split; [lia|done].
Qed.

(** C7: whatever stands in the queue, one decision of it ([pass]) lets a start
    that may wait pass exactly when no cap is smaller than its group, its
    workflow and the machine are within their limits, no start of its scope
    holds a turn, the starts of the machine ahead wait for providers it does
    not use, and the start carries no hold of the machine it sampled less than
    five seconds ago, gaps apart ([sample_spent]).  A capacity check the
    configuration names is asked after this decision and answers for itself. *)
Theorem turn_granted_iff host owner config run mine now blocked st : manual run = false ->
  (exists st' note b, pass host owner config run mine now blocked st = (st', Ok (Passes note, b))) <->
  check_group_size config run = Ok tt /\ exists place t,
    let q := swept_queue host config now st in
    stands owner run now q mine place t
    /\ (machine_gated run = true -> free_to_go q place t)
    /\ (forall s, limits run = Some s ->
          launching q t mine = 0%N /\ within_workflow host (stamps st) s (incoming run))
    /\ sample_spent now blocked
    /\ within_limits host (stamps st) config run (granted_agents q mine).
Proof.
  intros Hm. cbn zeta. split.
  - intros (st' & note & b & Hp). apply pass_decided in Hp; [|done].
    inversion Hp as [| | | |place t b' st1 Hs Hsz [Hb Hw Hq Hl] Ha]; subst. split; [done|]. exists place, t.
    split_and!; [done|intros Hg; by apply queue_hold_none, Hq|exact (proj1 (limits_hold_none _ _ _ _ _ _ Hm) Hw)|done|by apply limit_hold_none].
  - intros (Hsz & place & t & Hs & Hq & Hw & Hb & Hl).
    apply (pass_clear host owner config run mine now blocked st place t); [done..|].
    constructor; [done|exact (proj2 (limits_hold_none _ _ _ _ _ (swept_files host config now st) Hm) Hw)|intros Hg; by apply queue_hold_none, Hq|by apply limit_hold_none].
Qed.

(** ** Order of arrival *)

Lemma text_cmp_app_lt a b x y : length a = length b -> text_cmp a b = Lt -> text_cmp (a ++ x) (b ++ y) = Lt.
Proof.
  revert b. induction a as [|c a IH]; intros [|d b] [=]; [done|]. cbn. destruct (c ?= d)%N; [|done..]. by apply IH.
Qed.

(** The directory lists by arrival: tickets enqueued earlier come first. *)
Lemma ticket_name_order e1 e2 n1 n2 : (e1 < e2)%N -> (e2 <= U64_MAX)%N ->
  text_ltb (ticket_name e1 n1) (ticket_name e2 n2) = true.
Proof.
  intros Hlt Hb. apply text_ltb_cmp, text_cmp_app_lt; [by rewrite !length_fixed_digits|].
  assert (U64_MAX < 10 ^ N.of_nat 20)%N by by vm_compute.
  rewrite fixed_digits_cmp by lia. by apply N.compare_lt_iff.
Qed.

Lemma listed_before {A} (l : list (text * A)) i j n m x y : listed l ->
  l !! i = Some (n, x) -> l !! j = Some (m, y) -> text_ltb n m = true -> i < j.
Proof.
  intros Hl Hi Hj Hlt. destruct (Nat.lt_trichotomy i j) as [?|[->|Hji]]; [done|exfalso..].
  - rewrite Hi in Hj. injection Hj as -> _. by rewrite text_ltb_irrefl in Hlt.
  - revert i j Hi Hj Hji. induction l as [|e l IH]; intros i j Hi Hj Hji; [done|]. destruct e as [k z].
    apply listed_cons in Hl as [Hl Hf]. destruct i as [|i]; [lia|]. destruct j as [|j].
    + injection Hj as -> ->. pose proof (Hf (n, x) (list_elem_of_lookup_2 l i _ Hi)) as Hc. cbn in Hc.
      pose proof (text_ltb_trans _ _ _ Hlt Hc) as He. by rewrite text_ltb_irrefl in He.
    + by apply (IH Hl i j Hi Hj); lia.
Qed.

(** C26: a start of the machine does not overtake one that arrived before it: when it gets its turn, every
    live start of the machine with an earlier ticket waits for a provider that its own agents do not use. *)
Theorem no_overtaking host owner config run now b st st' note b' e n t e0 n0 t0 :
  good (tickets st) -> manual run = false -> machine_gated run = true ->
  (ticket_name e n, Some t) ∈ tickets st -> owner_is_live host (ticket_owner t) = true -> launched t = false ->
  ticket_gated t = true ->
  pass host owner config run (Some (ticket_name e n)) now b st = (st', Ok (Passes note, b')) ->
  (ticket_name e0 n0, Some t0) ∈ tickets st -> owner_is_live host (ticket_owner t0) = true ->
  launched t0 = false -> ticket_gated t0 = true -> (e0 < e <= U64_MAX)%N ->
  steps_aside t0 t.
Proof.
  intros Hg Hm Hgm Ht Hlv Hn Hgt Hp Ht0 Hlv0 Hn0 Hgt0 Hlt. apply pass_decided in Hp; [|done].
  inversion Hp as [| | | |place t1 b1 st1 Hs Hsz [_ _ Hq _] Ha]; subst.
  destruct (stands_own _ _ _ _ _ _ _ _ _ _ (proj1 Hg) Ht Hlv Hn Hs) as [-> Hi].
  pose proof (swept_keeps host config now st _ _ Ht0 Hlv0 Hn0) as (i & Hi0)%list_elem_of_lookup.
  apply queue_hold_none in Hq as [_ Hq]; [|done]. eapply (Hq i); [|exact Hi0|done..].
  eapply (listed_before (swept_queue host config now st)); [by apply listed_swept, Hg|done..|].
  apply ticket_name_order; lia.
Qed.

(** ** Expiry *)

(** What a decision of any start leaves: the swept directory, with at most one
    answer written on a ticket the sweep kept. *)
Definition swept_into host config now st st' : Prop :=
  forall name, name ∈ map fst (tickets st') -> name ∈ map fst (swept_queue host config now st).

Lemma swept_into_swept host config now st : swept_into host config now st (swept_files host config now st).
Proof.
  intros name (e & -> & He)%list_elem_of_fmap. destruct e as [n t].
  apply elem_whole in He as (n' & t' & [= <- ->] & Hq). apply list_elem_of_fmap. by exists (n, t').
Qed.

Lemma swept_into_answered host owner config run mine now st st' place t ts :
  listed (tickets st) -> stands owner run now (swept_queue host config now st) mine place t ->
  answered t ts (swept_files host config now st) mine st' -> swept_into host config now st st'.
Proof.
  intros Hl Hs Ha. inversion Ha as [|name|name]; subst; [apply swept_into_swept..|].
  inversion Hs as [|n p t1 _ Hi]; subst. intros m (e & -> & He)%list_elem_of_fmap. cbn in He.
  apply elem_put_ticket in He as [->|[He _]].
  - apply list_elem_of_fmap. exists (name, t). split; [done|]. by eapply list_elem_of_lookup_2.
  - apply (swept_into_swept host config now st). apply list_elem_of_fmap. by exists e.
  - apply listed_whole. by apply listed_swept.
Qed.

(** A decision reaches its sweep unless a cap is smaller than the group, or the
    start neither may wait nor has a limit to look at. *)
Definition reaches_sweep config run : Prop :=
  if manual run then exists s, limits run = Some s /\ is_none (workflow_limit s) && is_none (start_limit s) = false
  else check_group_size config run = Ok tt.

Lemma pass_sweeps host owner config run mine now blocked st st' r :
  listed (tickets st) -> reaches_sweep config run ->
  pass host owner config run mine now blocked st = (st', r) -> swept_into host config now st st'.
Proof.
  intros Hl Hr Hp. unfold reaches_sweep in Hr. destruct (manual run) eqn:Hm.
  - destruct Hr as (s & Es & Hlim). unfold pass in Hp. rewrite Hm, Es in Hp. cbn [is_some_and] in Hp.
    rewrite Hlim in Hp. cbn [andb] in Hp. unfold bind, lift, sweep in Hp. cbn beta iota zeta in Hp.
    fold (turn_ceiling config) in Hp. fold (swept_queue host config now st) in Hp.
    fold (swept_files host config now st) in Hp.
    match type of Hp with match ?m with _ => _ end = _ => destruct m as [[place t]|e] end;
      injection Hp as <- _; apply swept_into_swept.
  - apply pass_decided in Hp; [|done].
    inversion Hp; subst; [congruence|apply swept_into_swept..|by eapply swept_into_answered|by eapply swept_into_answered].
Qed.

(** A ticket nobody is behind: its process died before the launch, or its
    launch was reported as long ago as the longest ceiling. *)
Definition dead_before_launch host (t : Ticket) : Prop :=
  launched t = false /\ owner_is_live host (ticket_owner t) = false.
Definition reported_long_ago (now : N) (t : Ticket) : Prop :=
  exists at_ workspace agent_, ticket_state t = Launched at_ workspace agent_
    /\ (at_ + duration_ms CHECK_CEILING <= now)%N.

Lemma dead_swept host ceiling now t : dead_before_launch host t -> sweep_ticket host ceiling now t = None.
Proof. unfold dead_before_launch, launched, sweep_ticket. intros [Hn Hd]. destruct (ticket_state t); by rewrite ?Hd. Qed.

Lemma swept_gone host ceiling now l name t : listed l -> (name, Some t) ∈ l ->
  sweep_ticket host ceiling now t = None -> name ∉ map fst (swept host ceiling now l).
Proof.
  intros Hl Ht Hgone (e & -> & He)%list_elem_of_fmap. destruct e as [n t1].
  apply elem_swept in He as (t0 & Ht0 & Hs).
  pose proof (listed_unique _ _ _ _ Hl Ht Ht0) as [= <-]. congruence.
Qed.

(** C29: a turn cannot be held for ever.  Every decision of any start that
    reaches the sweep ([reaches_sweep]: all but those of a start whose group
    does not fit a cap, and of one that neither may wait nor has a limit to
    look at), whatever it decides, leaves the directory without the tickets
    of processes that died before their launch and without those of launches
    reported as long ago as the longest ceiling; a reap leaves it without the
    former. *)
Theorem turn_expires host st name t : listed (tickets st) -> (name, Some t) ∈ tickets st ->
  (forall owner config run mine now blocked st' r, reaches_sweep config run ->
     pass host owner config run mine now blocked st = (st', r) ->
     dead_before_launch host t \/ reported_long_ago now t -> name ∉ map fst (tickets st'))
  /\ (forall st' r, reap host st = (st', r) -> dead_before_launch host t -> name ∉ map fst (tickets st')).
Proof.
  intros Hl Ht. split.
  - intros owner config run mine now blocked st' r Hr Hp Hover Hin.
    apply (pass_sweeps _ _ _ _ _ _ _ _ _ _ Hl Hr Hp) in Hin. revert Hin. apply (swept_gone _ _ _ _ _ t Hl Ht).
    destruct Hover as [Hd|(at_ & ws & ag & Es & Ha)]; [by apply dead_swept|].
    eapply launched_expires; [done| |done]. unfold turn_ceiling. by destruct (is_some _).
  - intros st' r Hp Hd. unfold reap, bind, sweep, ret in Hp. injection Hp as <- _. cbn.
    intros (e & -> & He)%list_elem_of_fmap. destruct e as [n t1].
    apply elem_whole in He as (n' & t' & [= <- ->] & Hq). revert Ht. intros Ht.
    apply (swept_gone host None (now_ms host) _ n t Hl Ht (dead_swept _ _ _ _ Hd)).
    apply list_elem_of_fmap. by exists (n, t').
Qed.
End Spec.
