(* ===== verification/ThrottlingSafety.v ===== *)
(** * The turn of the machine, over every interleaving

    The invariant of the asking processes and their tickets: a process that
    holds the turn has a granted ticket of its own, no two tickets of the
    machine are granted at once, and no ticket of a live process is lost. *)

From S2P Require Import Prelude.
From S2P Require Lifecycle Agents.
From S2P Require Import Units Workflow Run Throttling ThrottlingFacts.
Import HoldKind.

Section Safety.
Context `{Validators, Rendering}.
Implicit Types (p : Starter) (host : Host) (l : list (text * option Ticket)) (t : Ticket).

(** ** One process *)

(** The ticket of a process, in a state that [s] allows when it is of the machine. *)
Definition owns (s : TicketState -> Prop) p l : Prop :=
  exists name t, path p = Some name /\ (name, Some t) ∈ l /\ ticket_owner t = starter_owner p
    /\ ticket_gated t = machine_gated (starter_run p) /\ launched t = false
    /\ (ticket_gated t = true -> s (ticket_state t)).

Definition starter_ok p l : Prop :=
  match stage p with
  | Trying | Entering => path p = None
  | TryChecking | TryPassing | LoopChecking | LoopPassing | Deciding None | Turning => owns (eq Granted) p l
  | Looping | Writing _ | Deciding (Some _) => owns (fun _ => True) p l
  | Leaving a | Over a => forall n, a <> AFailed (Vanished n)
  end.

Definition same_start p p' : Prop :=
  starter_owner p' = starter_owner p /\ starter_run p' = starter_run p.

(** What one section of a process keeps. *)
Record keeps (live : Owner -> bool) p l p' l' : Prop := {
  keeps_files : evolves live (path p') l l';
  keeps_turn : exclusive l';
  keeps_starter : starter_ok p' l';
  keeps_start : same_start p p'
}.

Lemma owns_weaken (s s' : TicketState -> Prop) p l : (forall x, s x -> s' x) -> owns s p l -> owns s' p l.
Proof. intros Hs (name & t & ? & ? & ? & ? & ? & ?). exists name, t. split_and!; auto. Qed.

(** A section that leaves the files. *)
Lemma keeps_same live p p' l : good l -> exclusive l -> same_start p p' -> starter_ok p' l -> keeps live p l p' l.
Proof. intros Hg Hx Hs Ho. constructor; [by apply evolves_refl|done..]. Qed.

Lemma keeps_leave live p l a : good l -> exclusive l -> (forall n, a <> AFailed (Vanished n)) ->
  keeps live p l (leave p a) l.
Proof. intros Hg Hx Ha. by apply keeps_same. Qed.

Lemma stays_failed {A} (e : ThrottleError) n : stays (Err (A := A) e) -> AFailed e <> AFailed (Vanished n).
Proof. intros Hs [= ->]. by apply (Hs n). Qed.

(** Files that only lose tickets keep the turn exclusive. *)
Lemma exclusive_loses live mine l l' : evolves live None l l' -> exclusive l -> evolves live mine l l' /\ exclusive l'.
Proof. intros He Hx. split; [by apply evolves_any|]. by eapply exclusive_evolves. Qed.

(** A manual start only sweeps. *)
Lemma pass_manual host owner config run mine now b st st' r :
  good (tickets st) -> manual run = true ->
  (forall name, mine = Some name -> exists t, (name, Some t) ∈ tickets st
     /\ owner_is_live host (ticket_owner t) = true /\ launched t = false) ->
  pass host owner config run mine now b st = (st', r) ->
  evolves (owner_is_live host) None (tickets st) (tickets st') /\ exists note, r = Ok (Passes note, b).
Proof.
  intros Hg Hm Ht. unfold pass. rewrite Hm. destruct (_ && _).
  { intros Hr; injection Hr as <- <-. split; [by apply evolves_refl|eauto]. }
  unfold bind, lift, sweep. cbn beta iota zeta.
  fold (turn_ceiling config). fold (swept_queue host config now st). fold (swept_files host config now st).
  destruct mine as [name|].
  - destruct (Ht name eq_refl) as (t & Hin & Hl & Hn).
    destruct (position_name (swept_queue host config now st) name t) as (i & Hp & Hi);
      [by apply listed_swept, Hg|by apply swept_keeps|].
    rewrite Hp, Hi. unfold limits_hold. cbn beta iota zeta. intros Hr. injection Hr as <- <-.
    split; [by apply evolves_swept_files|eauto].
  - unfold limits_hold. cbn beta iota zeta. intros Hr. injection Hr as <- <-.
    split; [by apply evolves_swept_files|eauto].
Qed.

Lemma manual_ungated run : well_asked run -> manual run = true -> machine_gated run = false.
Proof.
  unfold well_asked, manual. destruct (limits run) as [s|]; [|done]. cbn. intros Hw Hm%negb_true_iff. by apply (Hw s).
Qed.

(** One decision on the ticket of the process. *)
Lemma owns_pass host config p now b st st' r :
  good (tickets st) -> exclusive (tickets st) -> well_asked (starter_run p) ->
  owner_is_live host (starter_owner p) = true -> owns (fun _ => True) p (tickets st) ->
  pass host (starter_owner p) config (starter_run p) (path p) now b st = (st', r) ->
  evolves (owner_is_live host) (path p) (tickets st) (tickets st') /\ exclusive (tickets st') /\ stays r
  /\ match r with
     | Ok (Passes _, _) => owns (eq Granted) p (tickets st')
     | _ => owns (fun _ => True) p (tickets st')
     end.
Proof.
  intros Hg Hx Hw Hlv (name & t & Hp & Ht & Ho & Hgt & Hn & _). rewrite Hp.
  destruct (manual (starter_run p)) eqn:Hm.
  - intros Hr. assert (Hung := manual_ungated _ Hw Hm).
    destruct (pass_manual host (starter_owner p) config (starter_run p) (Some name) now b st st' r)
      as [He [note ->]]; [done..|intros ? [= <-]; exists t; by rewrite Ho|done|].
    destruct (exclusive_loses _ (Some name) _ _ He Hx) as [He' Hx']. split_and!; [done..|].
    exists name, t. split_and!; try done; [|congruence].
    eapply (evolves_keep _ _ _ _ He); [done..|by rewrite Ho|done].
  - intros Hr. destruct (pass_own host _ _ _ _ _ _ _ _ _ t Hg Ht ltac:(by rewrite Ho) Hn Hgt Hm Hr)
      as (He & Hst & s & Hs & Hcase).
    assert (Hl : launched (t <| ticket_state := s |>) = false).
    { destruct r as [[[]]|]; [destruct Hcase as [-> _]|destruct Hcase as [? ->]|rewrite Hcase, state_self]; done. }
    assert (Hown : forall q : TicketState -> Prop, q s -> owns q p (tickets st')).
    { intros q Hq. exists name, (t <| ticket_state := s |>). split_and!; done. }
    split_and!; [done| |done|].
    + eapply exclusive_evolves; [exact He|exact Hx|]. intros n t1 [= <-] Ht1 Hh.
      assert (t1 = t <| ticket_state := s |>) as ->.
      { assert (Some t1 = Some (t <| ticket_state := s |>)) as [= ->]; [|done].
        eapply (listed_unique (tickets st')); [apply He|done..]. }
      destruct r as [[[note|h] b']|e].
      * right. apply Hcase. unfold holds_turn in Hh. cbn in Hh. apply andb_prop in Hh as [Hh _]. by rewrite <- Hgt.
      * destruct Hcase as [h' ->]. unfold holds_turn in Hh. cbn in Hh. by rewrite andb_false_r in Hh.
      * left. rewrite Hcase, state_self in Hh. eauto.
    + destruct r as [[[note|h] b']|e]; apply Hown; [|done..]. by destruct Hcase as [-> _].
Qed.

(** The capacity check leaves the queue and answers. *)
Lemma check_loop_answers hosts config run refresh gs kind held failing full st :
  exists st' h, check_loop hosts config run refresh gs kind held failing full st = (st', Ok h)
    /\ tickets st' = tickets st.
Proof.
  revert hosts kind held failing full st. induction gs as [|g gs IH]; intros hosts kind held failing full st.
  { by eexists _, _. }
  cbn [check_loop]. unfold bind.
  assert (Hgr : exists st1 v, check_group (hosts 0%nat) config run refresh g st = (st1, Ok v)
    /\ tickets st1 = tickets st).
  { unfold check_group. destruct (cached_verdict _ _ _ _); [by eexists _, _|]. cbn zeta.
    destruct (_ || _); [by eexists _, _|]. destruct (check_answer _ _) as [o d]. by eexists _, _. }
  destruct Hgr as (st1 & [v|] & -> & Ht); [|by eexists _, _].
  cbn zeta. destruct (check_outcome v);
    match goal with |- context [check_loop ?h _ _ _ gs ?k ?he ?fa ?fu st1] =>
      destruct (IH h k he fa fu st1) as (st' & h' & E & Ht') end;
    exists st', h'; (split; [exact E|congruence]).
Qed.

Lemma check_groups_answers hosts config run refresh st :
  exists st' h, check_groups hosts config run refresh st = (st', Ok h) /\ tickets st' = tickets st.
Proof. unfold check_groups. destruct (_ || _); [by eexists _, _|]. apply check_loop_answers. Qed.

(** *** The sections of [try_admit_in] *)

Lemma owned_put s name t p l : good l -> path p = Some name -> ticket_owner t = starter_owner p ->
  ticket_gated t = machine_gated (starter_run p) -> launched t = false ->
  (ticket_gated t = true -> s (ticket_state t)) -> owns s p (put_ticket name t l).
Proof.
  intros [Hl _] Hp Ho Hg Hn Hs. exists name, t. split_and!; try done. apply elem_put_ticket; [done|]. by left.
Qed.

(** A ticket with no turn, or with the only one, is written. *)
Lemma keeps_put live l name t : good l -> exclusive l ->
  (holds_turn t = true -> alone (Some name) l) ->
  evolves live (Some name) l (put_ticket name t l) /\ exclusive (put_ticket name t l).
Proof.
  intros Hg Hx Ha. pose proof (evolves_put live name t l Hg) as He. split; [done|].
  eapply exclusive_evolves; [exact He|done|]. intros n t1 [= <-] Ht1 Hh. right.
  eapply alone_evolves; [exact He|]. apply Ha. apply elem_put_ticket in Ht1; [|apply Hg].
  destruct Ht1 as [[= ->]|[_ Hne]]; [done|]. by cbn in Hne.
Qed.

Lemma try_first_keeps host p st st' p' :
  good (tickets st) -> exclusive (tickets st) -> well_asked (starter_run p) ->
  path p = None -> within p (try_first host p) st = (st', p') ->
  keeps (owner_is_live host) p (tickets st) p' (tickets st').
Proof.
  intros Hg Hx Hw Hp. unfold within, try_first. unfold bind at 1.
  destruct (pass host _ _ _ None _ None st) as [st1 r] eqn:Er.
  assert (Hs : evolves (owner_is_live host) None (tickets st) (tickets st1) /\ stays r /\
    match r with
    | Ok (Passes _, _) => machine_gated (starter_run p) = true -> alone None (tickets st1)
    | _ => True
    end).
  { destruct (manual (starter_run p)) eqn:Hm; [|by eapply pass_tail].
    destruct (pass_manual host _ _ _ None _ _ _ _ _ Hg Hm ltac:(done) Er) as [He [note ->]].
    split_and!; [done..|]. by rewrite (manual_ungated _ Hw Hm). }
  destruct Hs as (He & Hst & Hal). destruct (exclusive_loses _ None _ _ He Hx) as [_ Hx1].
  destruct r as [[[note|h] b]|e].
  - intros [= <- <-].
    destruct (keeps_put (owner_is_live host) (tickets st1) (ticket_name (now_ms host) (nonce host))
      (new_ticket (starter_owner p) (starter_run p) (now_ms host) <| ticket_state := Granted |>)) as [He2 Hx2];
      [apply He|done| |].
    { intros Hh. unfold holds_turn in Hh. cbn in Hh. rewrite andb_true_r in Hh. specialize (Hal Hh).
      intros n t Ht _. by apply (Hal n t). }
    constructor; [|done| |done].
    + cbn. eapply evolves_trans; [by apply evolves_any|exact He2].
    + cbn. apply owned_put; [apply He|done..].
  - intros [= <- <-]. constructor; [by apply evolves_any|done..].
  - intros [= <- <-]. constructor; [by apply evolves_any|done| |done]. intros n. by eapply (stays_failed e n Hst).
Qed.

(** A section that decides on the ticket of the process and moves on. *)
Lemma keeps_decides host config p0 p now b (next : Pass -> sample -> Starter) st st' p' :
  good (tickets st) -> exclusive (tickets st) -> well_asked (starter_run p) ->
  owner_is_live host (starter_owner p) = true ->
  owns (fun _ => True) p (tickets st) ->
  same_start p0 p -> path p = path p0 ->
  (forall a b', path (next a b') = path p /\ same_start p (next a b')) ->
  (forall a b' l, match a with Passes _ => owns (eq Granted) p l | Holds _ => owns (fun _ => True) p l end ->
     starter_ok (next a b') l) ->
  within p0 (let* (answer, b') := pass host (starter_owner p) config (starter_run p) (path p) now b in
            ret (next answer b')) st = (st', p') ->
  keeps (owner_is_live host) p0 (tickets st) p' (tickets st').
Proof.
  intros Hg Hx Hw Hlv Ho [Hs1 Hs2] Hp Hnext Hok. unfold within, bind.
  destruct (pass host _ _ _ _ _ _ st) as [st1 r] eqn:Er.
  destruct (owns_pass _ _ _ _ _ _ _ _ Hg Hx Hw Hlv Ho Er) as (He & Hx1 & Hst & Hown).
  destruct r as [[a b']|e]; intros [= <- <-].
  - destruct (Hnext a b') as [Hpath Hs]. constructor; [by rewrite Hpath|done| |destruct Hs; split; congruence].
    apply Hok. by destruct a.
  - constructor; [by cbn; rewrite <- Hp|done| |done]. intros n. by eapply (stays_failed e n Hst).
Qed.

(** A section that checks the capacity and moves on. *)
Lemma keeps_checks live hosts config p refresh (next : option Hold -> Starter) st st' p' :
  good (tickets st) -> exclusive (tickets st) ->
  (forall h, path (next h) = path p /\ same_start p (next h) /\ starter_ok (next h) (tickets st)) ->
  within p (let* h := check_groups hosts config (starter_run p) refresh in ret (next h)) st = (st', p') ->
  keeps live p (tickets st) p' (tickets st').
Proof.
  intros Hg Hx Hnext. unfold within, bind.
  destruct (check_groups_answers hosts config (starter_run p) refresh st) as (st1 & h & -> & Ht).
  intros [= <- <-]. rewrite Ht. destruct (Hnext h) as (Hpath & Hs & Hok). by apply keeps_same.
Qed.

Lemma try_check_keeps live hosts p st st' p' :
  good (tickets st) -> exclusive (tickets st) -> owns (eq Granted) p (tickets st) ->
  within p (try_check hosts p) st = (st', p') -> keeps live p (tickets st) p' (tickets st').
Proof.
  intros Hg Hx Ho Hr.
  eapply (keeps_checks live hosts (starter_config p) p false (fun h => match h with
    | Some h => leave p (AHeld h)
    | None =>
        if is_none_or (limits (starter_run p)) may_wait && expired (hosts 0%nat) p
        then leave p (AHeld {| hold_kind := Capacity; hold_text := str "wait deadline reached";
                               hold_kinds := kinds (starter_run p) |})
        else p <| stage := if checks_again p then TryPassing else Turning |>
    end)); [done|done| |].
  - intros [h|]; [by split_and!|]. destruct (_ && _); [by split_and!|]. split; [done|]. split; [done|].
    unfold starter_ok. cbn. by destruct (checks_again p).
  - rewrite <- Hr. unfold within, try_check, bind.
    destruct (check_groups hosts _ _ _ st) as [st1 [[h|]|e]]; [done| |done]. by destruct (_ && _).
Qed.

Lemma try_again_keeps host p st st' p' :
  good (tickets st) -> exclusive (tickets st) -> well_asked (starter_run p) ->
  owner_is_live host (starter_owner p) = true -> owns (eq Granted) p (tickets st) ->
  within p (try_again host p) st = (st', p') -> keeps (owner_is_live host) p (tickets st) p' (tickets st').
Proof.
  intros Hg Hx Hw Hlv Ho. apply (keeps_decides host (starter_config p) p p (now_ms host) None
    (fun a _ => match a with Holds h => leave p (AHeld h) | Passes _ => p <| stage := Turning |> end)); try done.
  - by eapply owns_weaken, Ho.
  - by intros [].
  - by intros [note|h] b' l Hl.
Qed.

(** *** The sections of the blocking wait *)

Lemma enqueue_keeps live host p st st' p' :
  good (tickets st) -> exclusive (tickets st) ->
  within p (enqueue host p) st = (st', p') -> keeps live p (tickets st) p' (tickets st').
Proof.
  intros Hg Hx. unfold within, enqueue. cbn [bind ret]. intros [= <- <-].
  destruct (keeps_put live (tickets st) (ticket_name (now_ms host) (nonce host))
    (new_ticket (starter_owner p) (starter_run p) (now_ms host))) as [He2 Hx2]; [done|done| |].
  { unfold holds_turn. cbn. by rewrite andb_false_r. }
  constructor; [done|done| |done]. by apply owned_put.
Qed.

Lemma reconfigure_start host p p' : reconfigure host p = inl p' ->
  same_start p p' /\ path p' = path p /\ stage p' = stage p.
Proof. unfold reconfigure. repeat case_match; try done; intros; simplify_eq; by split_and!. Qed.
Lemma reconfigure_error host p e : reconfigure host p = inr e -> stays (Err (A := unit) e).
Proof. unfold reconfigure. repeat case_match; try done; intros; simplify_eq; done. Qed.

Lemma owns_same s p p' l : same_start p p' -> path p' = path p -> owns s p l -> owns s p' l.
Proof. intros [Ho Hr] Hp (name & t & ?). exists name, t. by rewrite Hp, Ho, Hr. Qed.

Lemma round_keeps host p st st' p' :
  good (tickets st) -> exclusive (tickets st) -> well_asked (starter_run p) ->
  owner_is_live host (starter_owner p) = true -> owns (fun _ => True) p (tickets st) ->
  within p (round host p) st = (st', p') -> keeps (owner_is_live host) p (tickets st) p' (tickets st').
Proof.
  intros Hg Hx Hw Hlv Ho. unfold round. destruct (reconfigure host p) as [p1|e] eqn:Er.
  2: { unfold within, lift. intros [= <- <-]. apply keeps_leave; [done..|]. intros n.
       by eapply (stays_failed e n), reconfigure_error. }
  pose proof (reconfigure_start _ _ _ Er) as (Hs & Hp & _). apply (owns_same _ _ p1) in Ho; [|done..].
  assert (Hw1 : well_asked (starter_run p1)) by by destruct Hs as [_ ->].
  assert (Hl1 : owner_is_live host (starter_owner p1) = true) by by destruct Hs as [-> _].
  assert (Hleave : forall a, (forall n, a <> AFailed (Vanished n)) -> forall st2 p3,
    within p (ret (leave p1 a)) st = (st2, p3) -> keeps (owner_is_live host) p (tickets st) p3 (tickets st2)).
  { intros a Ha st2 p3. unfold within, ret. intros [= <- <-]. by apply keeps_same. }
  destruct (listening p1 && interrupted host); [by apply Hleave|].
  destruct (heard p1) as [reason|], (expired host p1); [by apply Hleave|..];
    (destruct (ungated p1); [by apply Hleave|]);
    (apply (keeps_decides host (starter_config p1) p p1 (now_ms host) (blocked p1)
      (fun answer b => p1 <| blocked := b |>
         <| stage := match answer with Holds h => Deciding (Some h) | Passes _ => LoopChecking end |>));
     [done..|by intros []]).
Qed.

Lemma round_check_keeps live hosts p st st' p' :
  good (tickets st) -> exclusive (tickets st) -> owns (eq Granted) p (tickets st) ->
  within p (round_check hosts p) st = (st', p') -> keeps live p (tickets st) p' (tickets st').
Proof.
  intros Hg Hx Ho. unfold round_check.
  apply (keeps_checks live hosts (starter_config p) p (refresh_check p) (fun h => p <| refresh_check := false |>
    <| stage := match h with
                | Some h => Writing h
                | None => if checks_again p then LoopPassing else Deciding None
                end |>)); [done|done|].
  intros h. split; [done|]. split; [done|]. unfold starter_ok. cbn.
  destruct h; [by eapply owns_weaken, Ho|]. by destruct (checks_again p).
Qed.

Lemma round_again_keeps host p st st' p' :
  good (tickets st) -> exclusive (tickets st) -> well_asked (starter_run p) ->
  owner_is_live host (starter_owner p) = true -> owns (eq Granted) p (tickets st) ->
  within p (round_again host p) st = (st', p') -> keeps (owner_is_live host) p (tickets st) p' (tickets st').
Proof.
  intros Hg Hx Hw Hlv Ho. apply (keeps_decides host (starter_config p) p p (now_ms host) None
    (fun answer _ => p <| stage := match answer with Holds h => Writing h | Passes _ => Deciding None end |>)); try done.
  - by eapply owns_weaken, Ho.
  - by intros [].
Qed.

Lemma round_write_keeps live p h st st' p' :
  good (tickets st) -> exclusive (tickets st) -> owns (fun _ => True) p (tickets st) ->
  within p (round_write p h) st = (st', p') -> keeps live p (tickets st) p' (tickets st').
Proof.
  intros Hg Hx (name & t & Hp & Ht & Ho & Hgt & Hn & _). unfold within, round_write. rewrite Hp.
  unfold bind, read_ticket. rewrite (find_listed _ name (Some t)) by (done || apply Hg). cbn.
  intros [= <- <-].
  destruct (keeps_put live (tickets st) name (t <| ticket_state := Waiting (Some h) |>)) as [He Hx2]; [done|done| |].
  { unfold holds_turn. cbn. by rewrite andb_false_r. }
  constructor; [by rewrite Hp|done| |done]. by apply owned_put.
Qed.

Lemma decide_round_keeps live host p h l :
  good l -> exclusive l ->
  match h with None => owns (eq Granted) p l | Some _ => owns (fun _ => True) p l end ->
  keeps live p l (decide_round host p h) l.
Proof.
  intros Hg Hx Ho. apply keeps_same; try done.
  - unfold decide_round. by repeat case_match.
  - unfold decide_round. repeat case_match; simplify_eq; try done.
Qed.

Lemma leaving_keeps live p a st :
  good (tickets st) -> exclusive (tickets st) -> (forall n, a <> AFailed (Vanished n)) ->
  keeps live p (tickets st) (p <| stage := Over a |>)
    (tickets (match path p with Some name => (remove_ticket name st).1 | None => st end)).
Proof.
  intros Hg Hx Ha. destruct (path p) as [name|] eqn:Hp; [|by apply keeps_same].
  pose proof (evolves_drop live name (tickets st) Hg) as He. constructor; [by cbn; rewrite Hp| |done..].
  eapply exclusive_evolves; [exact He|done|]. intros n t [= <-] [_ Hne]%elem_drop_ticket. by cbn in Hne.
Qed.

(** ** Steps *)

(** Every section keeps the files, the turn and its process. *)
Lemma stage_step_keeps hosts p st st' p' :
  good (tickets st) -> exclusive (tickets st) -> well_asked (starter_run p) ->
  owner_is_live (hosts 0%nat) (starter_owner p) = true -> starter_ok p (tickets st) ->
  stage_step hosts p st = (st', p') ->
  keeps (owner_is_live (hosts 0%nat)) p (tickets st) p' (tickets st').
Proof.
  intros Hg Hx Hw Hlv Hok. unfold stage_step. unfold starter_ok in Hok.
  destruct (stage p) as [| | | | | | |h|h| |a|a] eqn:Es; cbn zeta.
  - destruct (ungated p); [intros [= <- <-]; by apply keeps_same|].
    destruct (fails_fast _ _); [intros [= <- <-]; by apply keeps_same|by apply try_first_keeps].
  - by apply try_check_keeps.
  - by apply try_again_keeps.
  - destruct (ungated p); [intros [= <- <-]; by apply keeps_same|].
    destruct (fails_fast _ _); [intros [= <- <-]; by apply keeps_same|by apply enqueue_keeps].
  - by apply round_keeps.
  - by apply round_check_keeps.
  - by apply round_again_keeps.
  - by apply round_write_keeps.
  - intros [= <- <-]. apply decide_round_keeps; [done|done|]. by destruct h.
  - intros [= <- <-]. apply keeps_same; [done..|]. unfold starter_ok. by rewrite Es.
  - intros [= <- <-]. by apply leaving_keeps.
  - intros [= <- <-]. apply keeps_same; [done..|]. unfold starter_ok. by rewrite Es.
Qed.

Lemma report_launch_keeps live host name workspace agent_ t st :
  good (tickets st) -> exclusive (tickets st) -> (name, Some t) ∈ tickets st ->
  (ticket_gated t = true -> ticket_state t = Granted) ->
  evolves live (Some name) (tickets st) (tickets (report_launch host name workspace agent_ st).1)
  /\ exclusive (tickets (report_launch host name workspace agent_ st).1).
Proof.
  intros Hg Hx Ht Hgr. unfold report_launch, bind, read_ticket.
  rewrite (find_listed _ name (Some t)) by (done || apply Hg). cbn [snd].
  set (launch := t <| ticket_state := Launched (now_ms host) workspace agent_ |>).
  assert (Hput : evolves live (Some name) (tickets st) (put_ticket name launch (tickets st))
                 /\ exclusive (put_ticket name launch (tickets st))).
  { pose proof (evolves_put live name launch (tickets st) Hg) as He. split; [done|].
    eapply exclusive_evolves; [exact He|done|]. intros n t1 [= <-] Ht1 Hh. left. exists t. split; [done|].
    apply elem_put_ticket in Ht1 as [[= ->]|[_ Hne]]; [|by cbn in Hne|apply Hg].
    unfold holds_turn, is_waiting in Hh |- *. cbn in Hh. apply andb_prop in Hh as [Hh _]. by rewrite Hh, Hgr. }
  assert (Hdrop : evolves live (Some name) (tickets st) (drop_ticket name (tickets st))
                  /\ exclusive (drop_ticket name (tickets st))).
  { pose proof (evolves_drop live name (tickets st) Hg) as He. split; [done|].
    eapply exclusive_evolves; [exact He|done|]. intros n t1 [= <-] [_ Hne]%elem_drop_ticket. by cbn in Hne. }
  destruct (ticket_gated t || _); [|exact Hput]. unfold Limits.stamp.
  destruct (stamps st) as [all|d]; [exact Hput|exact Hdrop].
Qed.

(** ** The system *)

(** Every asking process stands as its stage says, each with its own ticket. *)
Record throttled (sys : ThrottleSystem) : Prop := {
  throttled_files : good (tickets (files sys));
  throttled_turn : exclusive (tickets (files sys));
  throttled_asked p : p ∈ starters sys -> well_asked (starter_run p);
  throttled_starters p : p ∈ starters sys -> starter_ok p (tickets (files sys));
  throttled_paths i j p q name : starters sys !! i = Some p -> starters sys !! j = Some q ->
    path p = Some name -> path q = Some name -> i = j
}.

(** The processes beside the one that acts. *)
Lemma starter_ok_evolves live mine q l l' : evolves live mine l l' ->
  live (starter_owner q) = true -> (forall name, path q = Some name -> mine <> Some name) ->
  starter_ok q l -> starter_ok q l'.
Proof.
  intros He Hlv Hne.
  assert (Ho : forall s, owns s q l -> owns s q l').
  { intros s (name & t & Hp & Ht & Ho & Hgt & Hn & Hs). exists name, t. split_and!; try done.
    eapply (evolves_keep _ _ _ _ He); [done|by apply Hne|by rewrite Ho|done]. }
  unfold starter_ok. destruct (stage q) as [| | | | | | |h|[h|]| |a|a]; auto.
Qed.

Lemma within_path (Q : Starter -> Prop) p m st st' p' :
  (forall a, Q (leave p a)) -> (forall st1 st2 p2, m st1 = (st2, Ok p2) -> Q p2) ->
  within p m st = (st', p') -> Q p'.
Proof.
  intros Hl Hm. unfold within. destruct (m st) as [st1 [p1|e]] eqn:E; intros [= <- <-]; [by eapply Hm|apply Hl].
Qed.

(** A process keeps the name of its ticket once it has one. *)
Lemma stage_step_path hosts p st st' p' : stage_step hosts p st = (st', p') ->
  path p' = path p \/ exists now, path p' = Some (ticket_name now (nonce (hosts 0%nat))).
Proof.
  set (Q := fun q => path q = path p \/ exists now, path q = Some (ticket_name now (nonce (hosts 0%nat)))).
  change (stage_step hosts p st = (st', p') -> Q p').
  assert (Hsame : forall q, path q = path p -> Q q) by by left.
  unfold stage_step. destruct (stage p) as [| | | | | | |h|h| |a|a]; cbn zeta.
  all: try (intros [= <- <-]; by apply Hsame).
  all: try (destruct (ungated p); [intros [= <- <-]; by apply Hsame|]).
  all: try (destruct (fails_fast _ _); [intros [= <- <-]; by apply Hsame|]).
  all: try (apply within_path; [intros a; by apply Hsame|]; intros st1 st2 p2).
  - unfold try_first, bind. destruct (pass _ _ _ _ _ _ _ _) as [st3 [[[note|h] b]|e]]; intros [= <- <-].
    + right. by eexists.
    + by apply Hsame.
  - unfold try_check, bind. destruct (check_groups _ _ _ _ _) as [st3 [[h|]|e]]; [| |done].
    + intros [= <- <-]. by apply Hsame.
    + destruct (_ && _); intros [= <- <-]; by apply Hsame.
  - unfold try_again, bind. destruct (pass _ _ _ _ _ _ _ _) as [st3 [[[note|h] b]|e]]; intros [= <- <-];
      by apply Hsame.
  - unfold enqueue, bind. intros [= <- <-]. right. by eexists.
  - unfold round. destruct (reconfigure _ _) as [p1|e] eqn:Er; [|done].
    apply reconfigure_start in Er as (_ & Hp & _). unfold bind.
    destruct (listening p1 && _); [intros [= <- <-]; by apply Hsame|].
    destruct (heard p1), (expired (hosts 0%nat) p1); try (intros [= <- <-]; by apply Hsame).
    all: destruct (ungated p1); [intros [= <- <-]; by apply Hsame|].
    all: destruct (pass _ _ _ _ _ _ _ _) as [st3 [[a b]|e]]; [|done]; intros [= <- <-]; by apply Hsame.
  - unfold round_check, bind. destruct (check_groups _ _ _ _ _) as [st3 [h|e]]; intros [= <- <-]; by apply Hsame.
  - unfold round_again, bind. destruct (pass _ _ _ _ _ _ _ _) as [st3 [[a b]|e]]; intros [= <- <-]; by apply Hsame.
  - unfold round_write, bind. destruct (path p) eqn:Hp; [|intros [= <- <-]; by apply Hsame]. unfold read_ticket.
    destruct (let! e := _ else None in _); intros [= <- <-]. by apply Hsame.
  - intros [= <- <-]. apply Hsame. unfold decide_round. by repeat case_match.
Qed.

(** The whole invariant, when one process acts. *)
Lemma throttled_acts live sys i p st' p' : throttled sys -> starters sys !! i = Some p ->
  keeps live p (tickets (files sys)) p' (tickets st') ->
  (forall q, q ∈ starters sys -> live (starter_owner q) = true) ->
  (path p' = path p \/ forall q, q ∈ starters sys -> path q <> path p') ->
  throttled {| files := st'; starters := <[i := p']> (starters sys) |}.
Proof.
  intros [Hg Hx Hw Hok Hd] Hi [He Hx' Hok' [Hso Hsr]] Hlv Hp.
  assert (Hpi : p ∈ starters sys) by by eapply list_elem_of_lookup_2.
  assert (Hcase : forall j q, <[i:=p']> (starters sys) !! j = Some q ->
    (j = i /\ q = p') \/ (j <> i /\ starters sys !! j = Some q)).
  { intros j q. destruct (decide (j = i)) as [->|Hne].
    - rewrite list_lookup_insert_eq by by eapply lookup_lt_Some. intros [= <-]. by left.
    - rewrite list_lookup_insert_ne by done. by right. }
  assert (Hother : forall j q name, j <> i -> starters sys !! j = Some q -> path q = Some name ->
    path p' <> Some name).
  { intros j q name Hne Hj Hq Hp'. destruct Hp as [Hp|Hp].
    - destruct Hne. apply (Hd j i q p name); [done..|by rewrite <- Hp].
    - apply (Hp q); [by eapply list_elem_of_lookup_2|congruence]. }
  constructor; cbn [files starters].
  - apply He.
  - done.
  - intros q (j & [[-> ->]|[_ Hj]]%Hcase)%list_elem_of_lookup.
    + rewrite Hsr. by apply Hw.
    + apply Hw. by eapply list_elem_of_lookup_2.
  - intros q (j & [[-> ->]|[Hne Hj]]%Hcase)%list_elem_of_lookup; [done|].
    eapply starter_ok_evolves; [exact He|apply Hlv; by eapply list_elem_of_lookup_2| |].
    + intros name Hq. by eapply Hother.
    + apply Hok. by eapply list_elem_of_lookup_2.
  - intros j k q q' name [[-> ->]|[Hj Hq]]%Hcase [[-> ->]|[Hk Hq']]%Hcase Hn Hn'; [done|..].
    + by destruct (Hother k q' name Hk Hq' Hn').
    + by destruct (Hother j q name Hj Hq Hn).
    + by eapply Hd.
Qed.

Lemma throttled_quiet live sys st' starters' : throttled sys -> evolves live None (tickets (files sys)) (tickets st') ->
  (forall q, q ∈ starters sys -> live (starter_owner q) = true) ->
  (forall q, q ∈ starters' -> q ∈ starters sys
     \/ (path q = None /\ well_asked (starter_run q) /\ forall l, starter_ok q l)) ->
  (forall i j p q name, starters' !! i = Some p -> starters' !! j = Some q ->
     path p = Some name -> path q = Some name -> i = j) ->
  throttled {| files := st'; starters := starters' |}.
Proof.
  intros [Hg Hx Hw Hok Hd] He Hlv Hs Hp. constructor; cbn [files starters].
  - apply He.
  - by apply (exclusive_loses _ None _ _ He Hx).
  - intros q [Hq|(_ & Hq & _)]%Hs; [by apply Hw|done].
  - intros q [Hq|(_ & _ & Hq)]%Hs; [|by apply Hq].
    eapply starter_ok_evolves; [exact He|by apply Hlv|done|by apply Hok].
  - done.
Qed.

Lemma delete_lookup {A} (l : list A) i j x : delete i l !! j = Some x ->
  l !! (if decide (j < i) then j else S j) = Some x.
Proof.
  destruct (decide (j < i)) as [Hj|Hj].
  - by rewrite list_lookup_delete_lt by lia.
  - by rewrite list_lookup_delete_ge by lia.
Qed.

Lemma throttled_step sys sys' : throttled sys -> system_step sys sys' -> throttled sys'.
Proof.
  intros Ht Hstep. pose proof Ht as [Hg Hx Hw Hok Hd].
  destruct Hstep as [sys owner run config lis s Hrun Hs|sys i p hosts st' p' Hi Htr Hst|
    sys i p host ws ag st' p' Hi Hr|sys i p Hi|sys i|sys host ow cf ru Htr Hrun|sys host Htr].
  - apply (throttled_quiet (fun _ => true) sys); [done|by apply evolves_refl|done|..].
    + intros q [Hq| ->%list_elem_of_singleton]%elem_of_app; [by left|right]. split_and!; [done..|].
      intros l. by destruct Hs as [-> | ->].
    + intros j k q q' name Hj Hk Hn Hn'.
      assert (Hold : forall j q, (starters sys ++ [starter owner run config lis s]) !! j = Some q ->
        path q = Some name -> starters sys !! j = Some q).
      { intros j0 q0 [Hq0|[_ Hq0]]%lookup_app_Some Hp; [done|].
        apply list_lookup_singleton_Some in Hq0 as [_ <-]. done. }
      by eapply Hd; try (by eapply Hold).
  - assert (Hpi : p ∈ starters sys) by by eapply list_elem_of_lookup_2.
    destruct (Htr 0%nat) as (Hlv & _ & Hfresh).
    eapply throttled_acts; [done|done| |exact Hlv|].
    + by apply stage_step_keeps; [..|apply Hw|apply Hlv|apply Hok|].
    + destruct (stage_step_path _ _ _ _ _ Hst) as [->|[now ->]]; [by left|right]. intros q Hq. by apply Hfresh.
  - assert (Hpi : p ∈ starters sys) by by eapply list_elem_of_lookup_2.
    pose proof (Hok p Hpi) as Hpk. unfold report in Hr.
    assert (Hsame : keeps (fun _ => true) p (tickets (files sys)) p (tickets (files sys))) by by apply keeps_same.
    destruct (stage p) eqn:Es;
      try (injection Hr as <- <-; apply (throttled_acts (fun _ => true) sys i p); [done..|by left]).
    destruct (path p) as [name|] eqn:Hp;
      [|injection Hr as <- <-; apply (throttled_acts (fun _ => true) sys i p); [done..|by left]].
    injection Hr as <- <-. apply (throttled_acts (fun _ => true) sys i p); [done|done| |done|by left].
    unfold starter_ok in Hpk. rewrite Es in Hpk. destruct Hpk as (name' & t & Hp' & Hin & _ & _ & _ & Hgr).
    assert (name' = name) as -> by congruence.
    destruct (report_launch_keeps (fun _ => true) host name ws ag t (files sys)) as [He Hx']; [done..| |].
    { intros Hgt. by rewrite (Hgr Hgt). }
    constructor; [by cbn; rewrite Hp|done..].
  - apply (throttled_acts (fun _ => true) sys i p); [done|done| |done|left; by unfold abandon; destruct (stage p)].
    assert (Hpi : p ∈ starters sys) by by eapply list_elem_of_lookup_2.
    unfold abandon. destruct (stage p) eqn:Es; apply keeps_same; try done; by apply Hok.
  - apply (throttled_quiet (fun _ => true) sys); [done|by apply evolves_refl|done|..].
    + intros q (j & Hj%delete_lookup)%list_elem_of_lookup. left. by eapply list_elem_of_lookup_2.
    + intros j k q q' name Hj%delete_lookup Hk%delete_lookup Hn Hn'.
      pose proof (Hd _ _ _ _ _ Hj Hk Hn Hn') as E. repeat case_decide; lia.
  - apply (throttled_quiet (owner_is_live host) sys); [done| |apply Htr|by left|done].
    destruct (pass host ow cf ru None (now_ms host) None (files sys)) as [st' r] eqn:Er.
    destruct (manual ru) eqn:Em; [|by eapply pass_tail].
    by eapply (pass_manual host ow cf ru None (now_ms host) None (files sys) st' r).
  - apply (throttled_quiet (owner_is_live host) sys); [done| |apply Htr|by left|done].
    unfold reap, bind, sweep. by apply evolves_sweep.
Qed.

Lemma throttled_reachable sys : reachable sys -> throttled sys.
Proof.
  induction 1 as [st Hn|sys sys' _ IH Hstep]; [|by eapply throttled_step].
  unfold no_tickets in Hn. constructor; cbn; rewrite ?Hn; try done; try by intros ? ?%elem_of_nil.
  - split; [constructor|]. by intros ? ?%elem_of_nil.
  - by intros ? ? ? ? ?%elem_of_nil.
Qed.

(** ** What the throttle promises *)

(** Waiting for its answer, or holding its turn. *)
Definition has_ticket (s : Stage) : bool :=
  match s with Trying | Entering | Leaving _ | Over _ => false | _ => true end.

(** C4: over any interleaving of asking processes, reports, crashes and reaps, at most one turn of the
    machine is held: a process that holds it owns the only granted or launched ticket of the machine. *)
Theorem one_turn_at_a_time sys i p : reachable sys ->
  starters sys !! i = Some p -> stage p = Turning -> machine_gated (starter_run p) = true ->
  (forall n t, (n, Some t) ∈ tickets (files sys) -> holds_turn t = true -> path p = Some n)
  /\ (forall j q, starters sys !! j = Some q -> stage q = Turning -> machine_gated (starter_run q) = true -> i = j).
Proof.
  intros Hr Hi Hs Hg. destruct (throttled_reachable sys Hr) as [_ Hx _ Hok Hd].
  assert (Hown : forall q, q ∈ starters sys -> stage q = Turning -> machine_gated (starter_run q) = true ->
    exists n t, path q = Some n /\ (n, Some t) ∈ tickets (files sys) /\ holds_turn t = true).
  { intros q Hq Hqs Hqg. pose proof (Hok q Hq) as Ho. unfold starter_ok in Ho. rewrite Hqs in Ho.
    destruct Ho as (n & t & Hp & Ht & _ & Hgt & _ & Hst). exists n, t. split_and!; [done..|].
    rewrite Hqg in Hgt. unfold holds_turn, is_waiting. by rewrite Hgt, <- Hst. }
  destruct (Hown p) as (n & t & Hp & Ht & Hh); [by eapply list_elem_of_lookup_2|done..|]. split.
  - intros n' t' Ht' Hh'. rewrite Hp. f_equal. by eapply Hx.
  - intros j q Hj Hqs Hqg. destruct (Hown q) as (m & u & Hq & Hu & Hhu); [by eapply list_elem_of_lookup_2|done..|].
    apply (Hd i j p q n); [done..|]. rewrite Hq. f_equal. by eapply Hx.
Qed.

(** C24: a live process never loses its ticket: as long as it waits or holds its turn the queue has a ticket
    of its own, which nobody else has, and asking never fails because the ticket vanished. *)
Theorem live_ticket_never_vanishes sys i p : reachable sys -> starters sys !! i = Some p ->
  (forall n, stage p <> Leaving (AFailed (Vanished n)) /\ stage p <> Over (AFailed (Vanished n)))
  /\ (has_ticket (stage p) = true ->
      exists name t, path p = Some name /\ (name, Some t) ∈ tickets (files sys)
        /\ ticket_owner t = starter_owner p /\ launched t = false
        /\ forall j q, starters sys !! j = Some q -> path q = Some name -> i = j).
Proof.
  intros Hr Hi. destruct (throttled_reachable sys Hr) as [_ _ _ Hok Hd].
  pose proof (Hok p (list_elem_of_lookup_2 _ _ _ Hi)) as Ho. unfold starter_ok in Ho. split.
  - intros n. by split; intros E; rewrite E in Ho; apply (Ho n).
  - assert (Hany : forall s, owns s p (tickets (files sys)) -> exists name t, path p = Some name
      /\ (name, Some t) ∈ tickets (files sys) /\ ticket_owner t = starter_owner p /\ launched t = false
      /\ forall j q, starters sys !! j = Some q -> path q = Some name -> i = j).
    { intros s (name & t & Hp & Ht & How & _ & Hn & _). exists name, t. split_and!; [done..|].
      intros j q Hj Hq. by apply (Hd i j p q name). }
    destruct (stage p) as [| | | | | | |h|[h|]| |a|a]; intros [=]; by eapply Hany.
Qed.

(** *** The end of a wait *)

(** The sections of one process, with what others do to the files in between. *)
Fixpoint asks (hosts : nat -> nat -> Host) (between : nat -> Files -> Files) (k : nat) p (st : Files) : Files * Starter :=
  match k with
  | 0 => (st, p)
  | S k' =>
      let '(st', p') := stage_step (hosts 0%nat) p (between 0%nat st) in
      asks (fun i => hosts (S i)) (fun i => between (S i)) k' p' st'
  end.

Definition in_wait (s : Stage) : bool :=
  match s with Looping | LoopChecking | LoopPassing | Writing _ | Deciding _ => true | _ => false end.
(** How many sections a process past its deadline has left. *)
Definition rank (s : Stage) : nat :=
  match s with
  | Looping => 6 | LoopChecking => 5 | LoopPassing => 4 | Writing _ => 3 | Deciding _ => 2 | Leaving _ => 1 | _ => 0
  end.
Definition ending (s : Stage) : bool := in_wait s || match s with Leaving _ | Over _ => true | _ => false end.

Lemma within_next (Q : Starter -> Prop) p m st st' p' :
  (forall a, Q (leave p a)) -> (forall st2 p2, m st = (st2, Ok p2) -> Q p2) -> within p m st = (st', p') -> Q p'.
Proof.
  intros Hl Hm. unfold within. destruct (m st) as [st1 [p1|e]] eqn:E; intros [= <- <-]; [by eapply Hm|apply Hl].
Qed.

(** Past the deadline every section is closer to the end. *)
Lemma late_step hosts p st st' p' until :
  gives_up_ms (starter_run p) = Some until -> (until <= now_ms (hosts 0%nat))%N ->
  ending (stage p) = true -> path p <> None -> stage_step hosts p st = (st', p') ->
  ending (stage p') = true /\ (rank (stage p') < rank (stage p) \/ rank (stage p) = 0 /\ p' = p)
  /\ path p' <> None /\ starter_run p' = starter_run p.
Proof.
  intros Hu Hnow Hend Hpath.
  assert (Hexp : forall q, starter_run q = starter_run p -> expired (hosts 0%nat) q = true).
  { intros q Hq. unfold expired. rewrite Hq, Hu. by apply N.leb_le. }
  set (Q := fun q => ending (stage q) = true
    /\ (rank (stage q) < rank (stage p) \/ rank (stage p) = 0 /\ q = p)
    /\ path q <> None /\ starter_run q = starter_run p).
  change (stage_step hosts p st = (st', p') -> Q p').
  assert (Hleave : forall q a, 1 < rank (stage p) -> path q = path p -> starter_run q = starter_run p -> Q (leave q a)).
  { intros q a Hr Hp Hq. unfold Q. cbn. rewrite Hp. split_and!; [done|by left|done|done]. }
  assert (Hnext : forall q, ending (stage q) = true -> rank (stage q) < rank (stage p) -> path q = path p ->
    starter_run q = starter_run p -> Q q).
  { intros q He Hlt Hp Hq. unfold Q. rewrite Hp. split_and!; [done|by left|done|done]. }
  unfold stage_step. destruct (stage p) as [| | | | | | |h|h| |a|a] eqn:Es; try done; cbn zeta.
  - apply within_next; [intros a; apply Hleave; [cbn; lia|done..]|]. intros st2 p2. unfold round.
    destruct (reconfigure _ _) as [p1|e] eqn:Er; [|done].
    apply reconfigure_start in Er as ([_ Hrun] & Hp & _).
    destruct (listening p1 && _); [intros [= _ <-]; apply Hleave; [cbn; lia|done..]|]. rewrite (Hexp p1) by done.
    destruct (heard p1); [intros [= _ <-]; apply Hleave; [cbn; lia|done..]|].
    destruct (ungated p1); [intros [= _ <-]; apply Hleave; [cbn; lia|done..]|]. unfold bind.
    destruct (pass _ _ _ _ _ _ _ _) as [st3 [[[note|h] b]|e]]; intros [= _ <-]; (apply Hnext; [done|cbn; lia|done..]).
  - apply within_next; [intros a; apply Hleave; [cbn; lia|done..]|]. intros st2 p2. unfold round_check, bind.
    destruct (check_groups _ _ _ _ _) as [st3 [[h|]|e]]; [| |done]; intros [= _ <-].
    + apply Hnext; [done|cbn; lia|done..].
    + apply Hnext; cbn; [by destruct (checks_again p)|destruct (checks_again p); cbn; lia|done..].
  - apply within_next; [intros a; apply Hleave; [cbn; lia|done..]|]. intros st2 p2. unfold round_again, bind.
    destruct (pass _ _ _ _ _ _ _ _) as [st3 [[[note|h] b]|e]]; intros [= _ <-]; (apply Hnext; [done|cbn; lia|done..]).
  - apply within_next; [intros a; apply Hleave; [cbn; lia|done..]|]. intros st2 p2. unfold round_write, bind.
    destruct (path p) as [name|] eqn:Ep; [|done]. unfold read_ticket.
    destruct (let! e := _ else None in _); intros [= _ <-]. apply Hnext; [done|cbn; lia|by rewrite <- Ep|done].
  - intros [= _ <-]. unfold decide_round. rewrite Hexp by done.
    destruct (_ && _); apply Hleave; (cbn; lia) || done.
  - intros [= _ <-]. apply Hnext; [done|cbn; lia|done..].
  - intros [= _ <-]. unfold Q. rewrite Es. split_and!; [done|by right|done|done].
Qed.

(** C28: a start gives up at its deadline: whatever other processes do to the queue in between its sections,
    a waiting start whose deadline is past never gets a turn any more, and is over after at most six of its
    sections. *)
Theorem wait_ends_at_deadline hosts between p st until :
  gives_up_ms (starter_run p) = Some until -> (forall k, (until <= now_ms (hosts k 0%nat))%N) ->
  in_wait (stage p) = true -> path p <> None ->
  (exists a, stage (asks hosts between 6 p st).2 = Over a)
  /\ forall k, stage (asks hosts between k p st).2 <> Turning.
Proof.
  intros Hu Hnow Hw Hpath.
  assert (He : ending (stage p) = true) by (unfold ending; by rewrite Hw).
  assert (Hk : forall k, ending (stage (asks hosts between k p st).2) = true
    /\ (rank (stage p) <= k -> rank (stage (asks hosts between k p st).2) = 0)).
  { clear Hw. intros k. revert hosts between p st Hu Hnow Hpath He.
    induction k as [|k IH]; intros hosts between p st Hu Hnow Hpath He; cbn [asks]; [split; [done|cbn; lia]|].
    destruct (stage_step (hosts 0%nat) p (between 0%nat st)) as [st' p'] eqn:Es.
    destruct (late_step _ _ _ _ _ _ Hu (Hnow 0%nat) He Hpath Es) as (He' & Hr & Hp' & Hrun).
    destruct (IH (fun i => hosts (S i)) (fun i => between (S i)) p' st') as [IH1 IH2];
      [by rewrite Hrun|intros i; apply Hnow|done|done|].
    split; [done|]. intros Hle. apply IH2. destruct Hr as [Hr|[Hr ->]]; lia. }
  split.
  - destruct (Hk 6) as [He6 Hr6]. assert (Hle : rank (stage p) <= 6) by (destruct (stage p); cbn; lia).
    specialize (Hr6 Hle). destruct (stage (asks _ _ 6 _ _).2) as [| | | | | | |h|h| |a|a]; try done. by exists a.
  - intros k Ht. destruct (Hk k) as [Hek _]. by rewrite Ht in Hek.
Qed.
End Safety.
