(* ===== verification/ThrottlingSample.v ===== *)
(** * Sample starts

    Two starts of one room that ask for the turn of the machine: the first one
    gets it, the second one waits behind it in the queue and gives up at its
    deadline.  They show that the hypotheses of the theorems about the throttle
    can hold, and evaluate it on concrete inputs. *)

From S2P Require Import Prelude.
From S2P Require Lifecycle Agents.
From S2P Require Import Units Workflow WorkflowFacts Run Throttling ThrottlingFacts ThrottlingSpec ThrottlingSafety.
Import HoldKind.

(** ** Schedules *)

Section Schedule.
Context `{Validators, Rendering}.

(** What holds of every reading, decided on the state. *)
Definition truthful_b (sys : ThrottleSystem) (host : Host) : bool :=
  forallb (fun p => owner_is_live host (starter_owner p)
                    && negb (bool_decide (option_map (drop 21) (path p) = Some (nonce host)))) (starters sys)
  && forallb (fun e => negb (bool_decide (drop 21 e.1 = nonce host))) (tickets (files sys)).

Lemma drop_ticket_name now nonce_ : drop 21 (ticket_name now nonce_) = nonce_.
Proof.
  unfold ticket_name. rewrite app_assoc. apply drop_app_length'. by rewrite length_app, length_fixed_digits.
Qed.

Lemma truthful_b_spec sys host : truthful_b sys host = true -> truthful sys host.
Proof.
  intros [Hp Ht]%andb_prop. rewrite forallb_forall in Hp, Ht. split_and!.
  - intros p Hin%list_elem_of_In. by apply Hp, andb_prop in Hin as [? _].
  - intros now (e & He & Hin%list_elem_of_In)%list_elem_of_fmap. apply Ht in Hin.
    rewrite <- He, drop_ticket_name, bool_decide_eq_true_2 in Hin; done.
  - intros now p Hin%list_elem_of_In Hpath. apply Hp, andb_prop in Hin as [_ Hin].
    rewrite Hpath in Hin. cbn [option_map] in Hin. by rewrite drop_ticket_name, bool_decide_eq_true_2 in Hin.
Qed.

(** One section of a process, when its reading is truthful. *)
Definition start_one (sys : ThrottleSystem) (turn : nat * Host) : ThrottleSystem :=
  let '(i, host) := turn in
  match starters sys !! i with
  | Some p =>
      if truthful_b sys host then
        let '(st', p') := stage_step (fun _ => host) p (files sys) in
        {| files := st'; starters := <[i := p']> (starters sys) |}
      else sys
  | None => sys
  end.

Lemma starts_reachable sys l : reachable sys -> reachable (fold_left start_one l sys).
Proof.
  revert sys. induction l as [|[i host] l IH]; intros sys Hr; [done|]. cbn [fold_left]. apply IH. unfold start_one.
  destruct (starters sys !! i) as [p|] eqn:Ep; [|done]. destruct (truthful_b sys host) eqn:Et; [|done].
  destruct (stage_step (fun _ => host) p (files sys)) as [st' p'] eqn:Es. eapply reachable_step; [exact Hr|].
  by apply (step_stage sys i p (fun _ => host) st' p'); [|intros _; apply truthful_b_spec|].
Qed.
End Schedule.

(** ** Two starts *)

#[local] Existing Instance WorkflowExample.lenient.
#[export] Instance plainly : Rendering := {
  decimal_bytes n := show_N n ++ str " B";
  show_percent z := show_N (Z.to_N z);
  agent_handle _ _ := str "agent"
}.

Module ThrottleExample.
Definition idle_config : ThrottleConfig := {|
  config_check := None; config_check_timeout := None; config_stagger := None; max_parallel_agents := Some 2%N;
  max_parallel_automation := None; cpu_pressure := Some 80%N; io_pressure := None; memory_pressure := None;
  min_memory := None; min_disk := None |}.

(** A quiet machine with no open agents at [now]. *)
Definition quiet (now : N) (drawn : text) : Host := {|
  now_ms := now; stagger_ms := now; check_ms := now; checked_ms := now;
  owner_is_live := fun _ => true; process_is_live := fun _ _ => true; throttle_config := None;
  interrupted := false; interrupts_error := None;
  capacity_check := fun _ => Err (str "no check");
  pressure := fun _ => Ok {| avg10 := 100; avg60 := 50 |};
  memory_available := Ok 1000%N; disk_free := fun _ => Ok 1000%N; workspaces := Ok [];
  agents := fun _ => Ok []; workflows := fun _ => Ok []; nonce := drawn |}.

Definition nightly (until : option N) : StartRun := {|
  start_task := str "nightly"; start_root := str "/room"; start_checkout := str "/room"; start_disk := str "/";
  groups := [{| group_kind := str "claude"; group_account := None; group_agents := 1 |}];
  gives_up_ms := until; machine_gated := true; limits := None |}.
Definition owner_of (pid : N) : Owner := {| owner_pid := pid; owner_start := None |}.

Definition nothing : Files := {| tickets := []; verdicts := []; stamps := Ok {| stamp_machine := None; stamp_workflows := ∅ |} |}.
Definition first := starter (owner_of 7) (nightly None) idle_config true Trying.
Definition second := starter (owner_of 8) (nightly (Some 5000%N)) idle_config true Entering.
Definition asked : ThrottleSystem := {| files := nothing; starters := [first; second] |}.

Lemma asked_reachable : reachable asked.
Proof.
  assert (Hask : forall u, well_asked (nightly u)) by by intros u s [=].
  apply (reachable_step {| files := nothing; starters := [first] |}).
  - apply (reachable_step {| files := nothing; starters := [] |}); [by constructor|].
    by apply (step_asks {| files := nothing; starters := [] |} (owner_of 7) (nightly None) idle_config true Trying); [|left].
  - by apply (step_asks {| files := nothing; starters := [first] |} (owner_of 8) (nightly (Some 5000%N)) idle_config true Entering); [|right].
Qed.

(** The first start has its turn and the second one waits. *)
Definition granted : ThrottleSystem :=
  fold_left start_one [(0, quiet 1000 (str "a")); (1, quiet 1001 (str "b")); (0, quiet 1002 (str "c"));
                      (1, quiet 1003 (str "d")); (1, quiet 1004 (str "e"))] asked.
Definition the_first : Starter := default first (starters granted !! 0).
Definition the_second : Starter := default second (starters granted !! 1).

Example first_has_its_turn : stage the_first = Turning /\ stage the_second = Looping
  /\ heard the_second = Some (str "queued: 1 start ahead").
Proof. by vm_compute. Qed.

Lemma granted_reachable : reachable granted.
Proof. apply starts_reachable, asked_reachable. Qed.

(** ** Witnesses *)

Lemma one_turn_at_a_time_witness : stage the_first = Turning
  /\ forall j q, starters granted !! j = Some q -> stage q = Turning -> machine_gated (starter_run q) = true -> 0 = j.
Proof.
  split; [by vm_compute|].
  exact (proj2 (one_turn_at_a_time granted 0 the_first granted_reachable
    ltac:(by vm_compute) ltac:(by vm_compute) ltac:(by vm_compute))).
Defined.

Lemma live_ticket_never_vanishes_witness : exists name t,
  path the_second = Some name /\ (name, Some t) ∈ tickets (files granted) /\ ticket_owner t = owner_of 8
  /\ launched t = false /\ forall j q, starters granted !! j = Some q -> path q = Some name -> 1 = j.
Proof.
  exact (proj2 (live_ticket_never_vanishes granted 1 the_second granted_reachable ltac:(by vm_compute))
    ltac:(by vm_compute)).
Defined.

Lemma wait_ends_at_deadline_witness :
  exists a, stage (asks (fun k _ => quiet (6000 + N.of_nat k) (str "z")) (fun _ st => st) 6 the_second (files granted)).2
    = Over a.
Proof.
  apply (wait_ends_at_deadline (fun k _ => quiet (6000 + N.of_nat k) (str "z")) (fun _ st => st) the_second
    (files granted) 5000); [by vm_compute|intros k; cbn; lia|by vm_compute|by vm_compute].
Defined.

(** At the tail of an empty queue, on a quiet machine. *)
Lemma turn_granted_iff_witness :
  check_group_size idle_config (nightly None) = Ok tt /\ exists place t,
    stands (owner_of 7) (nightly None) 1000 (swept_queue (quiet 1000 (str "a")) idle_config 1000 nothing) None place t.
Proof.
  destruct (proj1 (turn_granted_iff (quiet 1000 (str "a")) (owner_of 7) idle_config (nightly None) None 1000 None nothing
    ltac:(by vm_compute))) as (Hsz & place & t & Hs & _); [by do 3 eexists; vm_compute|]. eauto.
Defined.

(** Behind a start that waits for another provider. *)
Definition full (k : text) : Hold := {| hold_kind := Capacity; hold_text := k; hold_kinds := [k] |}.
Definition ahead : Ticket := new_ticket (owner_of 9) (nightly None) 900
  <| ticket_kinds := [str "codex"] |> <| ticket_state := Waiting (Some (full (str "codex"))) |>.
Definition mine : Ticket := new_ticket (owner_of 8) (nightly None) 1001.
Definition queued : Files := nothing <| tickets :=
  [(ticket_name 900 (str "x"), Some ahead); (ticket_name 1001 (str "y"), Some mine)] |>.

Lemma no_overtaking_witness : steps_aside ahead mine.
Proof.
  assert (Hp : exists st' note b', pass (quiet 1002 (str "c")) (owner_of 8) idle_config (nightly None)
    (Some (ticket_name 1001 (str "y"))) 1002 None queued = (st', Ok (Passes note, b'))) by by do 3 eexists; vm_compute.
  destruct Hp as (st' & note & b' & Hp).
  apply (no_overtaking (quiet 1002 (str "c")) (owner_of 8) idle_config (nightly None) 1002 None queued st' note b'
    1001 (str "y") mine 900 (str "x") ahead); [|reflexivity|reflexivity|right; left|reflexivity|reflexivity|reflexivity
    |exact Hp|left|reflexivity|reflexivity|reflexivity|split; [reflexivity|vm_compute; discriminate]].
  split; [repeat constructor|]. intros n Hin. apply elem_of_cons in Hin as [Hin|Hin]; [discriminate|].
  apply elem_of_cons in Hin as [Hin|Hin]; [discriminate|]. by apply elem_of_nil in Hin.
Defined.

(** A launch reported two minutes ago, and another start that decides. *)
Definition reported_queue : Files :=
  nothing <| tickets := [(ticket_name 900 (str "x"), Some (ahead <| ticket_state := Launched 1000 (str "w") (str "a") |>))] |>.
Lemma turn_expires_witness : exists st' r,
  pass (quiet 200000 (str "c")) (owner_of 8) idle_config (nightly None) None 200000 None reported_queue = (st', r)
  /\ ticket_name 900 (str "x") ∉ map fst (tickets st').
Proof.
  destruct (pass (quiet 200000 (str "c")) (owner_of 8) idle_config (nightly None) None 200000 None reported_queue)
    as [st' r] eqn:E.
  exists st', r. split; [done|].
  destruct (turn_expires (quiet 200000 (str "c")) reported_queue (ticket_name 900 (str "x"))
    (ahead <| ticket_state := Launched 1000 (str "w") (str "a") |>)) as [Hp _]; [repeat constructor|left|].
  eapply Hp; [|exact E|]; [by vm_compute|].
  right. exists 1000%N, (str "w"), (str "a"). split; [done|by vm_compute].
Defined.
End ThrottleExample.
