(* ===== verification/Transition.v ===== *)
(** * Transitions of a workflow run ([crates/rimz/src/harness/workflow/state.rs])

    A [Transition] is a run record under the lock with the journal entries of
    the change in progress; its methods route an outcome, record and end
    attempts, keep and close waits, and enforce the bounds of [inspect.rs].
    [&mut self] is state passing.  A method that can fail returns [fallible]:
    [Fault] separates the errors the code returns from [Panicked], its
    [expect]s and indexing.  The processes a method kills are not modelled. *)

From S2P Require Import Prelude.
From S2P Require Agents.
From S2P Require Import Workflow Run.

(** [jiff]'s reading and printing of instants, and of deadlines, which may be
    local times. *)
Class Rfc3339 := {
  parse_timestamp : text -> option Z;
  show_timestamp : Z -> text;
  parse_deadline : text -> option Z
}.

Inductive Fault := TimeInputErr (e : text) | Refused (e : text) | HostErr (e : text) | Panicked.
Abbreviation fallible := (result Fault).
Definition expect {A} (o : option A) : fallible A :=
  match o with Some a => Ok a | None => Err Panicked end.

Definition MILLISECOND : Z := 1000000.
Definition json (fields : list (string * Value)) : Value :=
  JObject (map (fun e => (str e.1, e.2)) fields).

Section Bounds.
Context `{Validators}.
Implicit Types (spec : WorkflowSpec) (r : RunRecord).

(** [spec.rs]'s [duration]. *)
Definition duration (raw : text) : fallible Z :=
  match parse_duration raw with Some d => Ok d | None => Err (TimeInputErr (duration_error raw)) end.

(** ** Bounds ([inspect.rs]) *)

Definition case_at (spec : WorkflowSpec) (node : text) (case : N) : option Case :=
  let! check := lookup_key node (checks spec) else None in
  Check.condition_cases check !! N.to_nat case.

Definition hold_until spec r (case : N) (now : Z) : fallible (option Z) :=
  match (let! c := case_at spec (run_node r) case else None in case_hold c) with
  | None => Ok None
  | Some hold =>
      let first :=
        match ofilter (wait r) (fun w => is_hold w && bool_decide (wait_case w = Some case)) with
        | Some w => wait_first w
        | None => now
        end in
      let? d := duration hold in Ok (Agents.ts_checked_add first d)
  end.

Definition timeout_at spec r : fallible (option Z) :=
  let from (timeout : option text) (start : Z) :=
    match timeout with
    | None => Ok None
    | Some raw => let? d := duration raw in Ok (Agents.ts_checked_add start d)
    end in
  match lookup_key (run_node r) (checks spec) with
  | Some check => from (timeout check) (entered_at r)
  | None =>
      let! a := attempt r else Ok None in
      if negb (Step.is_turn (attempt_lifecycle a)) || is_some (held_since a) || is_some (asking a)
      then Ok None
      else
        let! start := Agents.ts_checked_add (started_at a) (Z.of_N (asked_ms a) * MILLISECOND)
          else Ok None in
        from (let! s := lookup_key (run_node r) (steps spec) else None in step_timeout s) start
  end.

Definition first_bound spec r (hold : option N) (now : Z) : fallible (option (Z * text)) :=
  let deadline_ :=
    option_map (fun at_ => (at_, str "deadline"))
      (ofilter (run_deadline r) (fun _ => negb (deadline_fired r))) in
  let? timeout_ := timeout_at spec r in
  let? hold_ :=
    match hold with
    | None => Ok None
    | Some index =>
        let? at_ := hold_until spec r index now in
        Ok (let! at_ := at_ else None in
            let! c := case_at spec (run_node r) index else None in
            Some (at_, case_outcome c))
    end in
  Ok (min_by fst Z.ltb
        (omap id [deadline_; option_map (fun at_ => (at_, str "timeout")) timeout_; hold_])).

Definition next_bound spec r (hold : option N) (now : Z) : fallible (option (Z * text)) :=
  let? bound := first_bound spec r hold now in
  Ok (let! (at_, outcome) := bound else None in
      option_map (fun target => (at_, target)) (spec_target spec (run_node r) outcome)).

(** When a held closing verdict may close: [None] when it does not close. *)
Definition close_after spec r : fallible (option (Z * text)) :=
  let! h := held r else Ok None in
  let! v := held_verdict h else Ok None in
  if decide (verdict_target v = str "@wait" \/ verdict_target v = attempt_node (held_attempt h))
  then Ok None
  else
    let? step := expect (lookup_key (attempt_node (held_attempt h)) (steps spec)) in
    if decide (verdict_target v ∈ step_then step) then Ok None
    else
      Ok (let! check := lookup_key (verdict_node v) (checks spec) else None in
          let! outcome := str_at (str "outcome") (verdict_object v) else None in
          let! route := lookup_key outcome (check_on check) else None in
          let! raw := delay route else None in
          let! d := parse_duration raw else None in
          Some (default Agents.TIMESTAMP_MAX
                  (Agents.ts_checked_add (default (verdict_entered_at v) (verdict_at v)) d),
                verdict_target v)).
End Bounds.

(** ** Transitions ([state.rs]) *)

Record Transition := { record : RunRecord; now : Z; entries : list JournalEntry }.
#[export] Instance Transition_eta : Eta Transition := fun t =>
  {| record := record t; now := now t; entries := entries t |}.

(** The words of [Evaluation.failure]. *)
Module Failure.
Inductive Failure := Invalid | Died | Limited | Canceled.
Definition as_str (f : Failure) : text :=
  match f with
  | Invalid => str "invalid"
  | Died => str "died"
  | Limited => str "limited"
  | Canceled => str "canceled"
  end.
End Failure.
Record Evaluation := {
  object : result text Value; stderr_tail : option text; failure : Failure.Failure;
  evaluation_limited : option Limited
}.

Definition case_index (object : Value) : option N :=
  let! case := value_get (str "case") object else None in
  let! case := as_u64 case else None in
  if (case <=? U32_MAX)%N then Some case else None.

Definition current (t : Transition) (seq_ : N) : bool :=
  bool_decide (run_state (record t) = RunState.Active)
  && is_some_and (attempt (record t)) (fun a => (seq a =? seq_)%N).

Definition push_entry (t : Transition) (seq_ : option N) (event_ : Journal.JournalEvent) : Transition :=
  t <| entries := entries t
         ++ [{| entry_seq := seq_; entry_at := now t; entry_node := run_node (record t);
                event := event_ |}] |>.

Definition update (t : Transition) (f : RunRecord -> RunRecord) : Transition :=
  t <| record := f (record t) |>.

Definition close_wait (t : Transition) : Transition :=
  let t :=
    match wait (record t) with
    | Some w =>
        t <| record := record t <| wait := None |> |>
          <| entries := entries t
               ++ [{| entry_seq := None; entry_at := now t; entry_node := wait_node w;
                      event := Journal.Wait (wait_outcome w) (wait_detail w) (wait_hold w)
                                 (wait_first w) (wait_last w) (wait_count w) (wait_recheck_at w) |}] |>
    | None => t
    end in
  update t (fun r => r <| recheck_at := None |>).

Definition restore_session (t : Transition) : fallible Transition :=
  let? h := expect (held (record t)) in
  Ok (update t (fun r =>
        r <| held := None |> <| run_node := attempt_node (held_attempt h) |>
          <| entered_at := held_entered_at h |> <| attempt := Some (held_attempt h) |>
          <| check_retry := 0%N |> <| check_retry_context := None |> <| recheck_at := None |>)).

Definition turn_end (t : Transition) (a : LiveAttempt) (action : TurnEndAction.TurnEndAction)
    (verdict : option Verdict) (reason : option text) : fallible Transition :=
  let? turn := expect (judged a) in
  let pushed := bool_decide (action = TurnEndAction.Pushed) in
  Ok (t <| entries := entries t
        ++ [{| entry_seq := Some (seq a); entry_at := now t; entry_node := attempt_node a;
               event := Journal.TurnEnd action turn
                 (match verdict with Some v => verdict_node v | None => run_node (record t) end)
                 (let! v := verdict else None in str_at (str "outcome") (verdict_object v))
                 (option_map verdict_target verdict) reason
                 (if pushed then visit a else None)
                 (if pushed then option_map push_message (push a) else None) |}] |>).

(** [engine_object]. *)
Definition engine_object (t : Transition) (object : Value) : fallible Value :=
  match key (record t) with
  | Some k => expect (value_set (str "key") (value_of_key k) object)
  | None => Ok object
  end.

(** [Value::get("key").and_then(from_value)]. *)
Definition object_key (object : Value) : option Key :=
  let! v := value_get (str "key") object else None in key_of_value v.

Definition step_wait (t : Transition) (outcome : text) (detail : option text) : Transition :=
  let t :=
    if is_some_and (wait (record t)) (fun w => negb (bool_decide (wait_outcome w = outcome)))
    then close_wait t else t in
  let w := default
    {| wait_node := run_node (record t); wait_outcome := outcome; wait_case := None;
       wait_detail := None; wait_hold := None; wait_kinds := []; gives_up_at := None;
       wait_first := now t; wait_last := now t; wait_count := 0; wait_recheck_at := None |}
    (wait (record t)) in
  update t (fun r => r <| wait := Some
    (w <| wait_last := now t |> <| wait_count := (wait_count w + 1)%N |>
       <| wait_detail := detail |>) |>).

Definition reset_visits (t : Transition) (step outcome : text) : Transition :=
  push_entry (update t (fun r => r <| visits := delete step (visits r) |>)) None
    (Journal.VisitsReset step outcome true).

Definition restart_step (t : Transition) (step : text) (continued : bool) : Transition :=
  let t := reset_visits (close_wait t) step (str "restart") in
  push_entry (update t (fun r =>
    r <| run_node := step |> <| entered_at := now t |> <| park := None |>
      <| run_state := RunState.Active |> <| check_retry := 0%N |> <| check_retry_context := None |>))
    None (Journal.Restart step continued).

Definition abandon_check (t : Transition) (outcome : text) : Transition :=
  match attempt (record t) with
  | None => t
  | Some a =>
      push_entry (update t (fun r => r <| attempt := None |>)) (Some (seq a))
        (Journal.Evaluation EvaluationOrigin.Engine outcome Null (started_at a) (now t) None (retry a))
  end.

(** [previous_attempt]; indexing the visits panics when they are not counted. *)
Definition previous_attempt (t : Transition) (outcome : AttemptOutcome.AttemptOutcome)
  : fallible PreviousAttempt :=
  let r := record t in
  let? a := expect (attempt r) in
  let b := visit_bucket r in
  let? v :=
    match visit a with
    | Some v => Ok v
    | None => let? vs := expect (visits r !! attempt_node a) in Ok (for_bucket vs b)
    end in
  Ok {| prev_step := attempt_node a; prev_outcome := outcome; prev_seq := seq a; prev_visit := v;
        prev_key := b.2; prev_routed_by := b.1; prev_started_at := started_at a;
        prev_ended_at := now t; prev_handle := option_map handle (attempt_run a);
        prev_run_id := option_map run_id (attempt_run a); prev_code := None;
        prev_children := None; prev_limited := None; prev_asked := None |}.

(** What the host reports of a session ([mod.rs]). *)
Module RunStatus.
Inductive RunStatus :=
| Pending | Running | Completed | Failed | VerifyFailed | TimedOut | BudgetExceeded | Canceled.
#[global] Instance RunStatus_eq_dec : EqDecision RunStatus.
Proof. solve_decision. Defined.
End RunStatus.
Module StopKind.
Inductive StopKind := Limit | Error | Interrupt | Budget.
#[global] Instance StopKind_eq_dec : EqDecision StopKind.
Proof. solve_decision. Defined.
End StopKind.
Record Stopped := { stopped_since : Z; stop_kind : StopKind.StopKind }.
Record LeaderTurn := { turn_end_ : TurnEnd; at_rest : bool }.
Record Observed := {
  status : RunStatus.RunStatus;
  ask : option Asking;
  limited : option Limited;
  observed_stopped : option Stopped;
  children : Children;
  turn : option LeaderTurn
}.
#[export] Instance Observed_eta : Eta Observed := fun o =>
  {| status := status o; ask := ask o; limited := limited o;
     observed_stopped := observed_stopped o; children := children o; turn := turn o |}.

Section Methods.
Context `{Validators, Rfc3339} (spec : WorkflowSpec).

(** [engine_target] with its [expect]. *)
Definition target_of (node outcome : text) : fallible text :=
  expect (engine_target spec node outcome).

Definition bounded_recheck (t : Transition) (at_ : option Z) : fallible (option Z) :=
  let? bound := first_bound spec (record t) None (now t) in
  Ok (option_map (fun at_ => match bound with Some (limit, _) => Z.min at_ limit | None => at_ end) at_).

Definition merge_wait (t : Transition) (object : Value) (at_ : Z) (recheck : bool) : fallible Transition :=
  let r := record t in
  let outcome := default [] (str_at (str "outcome") object) in
  let case := if decide (outcome = str "hold") then case_index object else None in
  let? detail :=
    match case with
    | Some c => let? c := expect (case_at spec (run_node r) c) in Ok (Some (case_outcome c))
    | None => Ok (if decide (outcome = str "unknown") then str_at (str "reason") object else None)
    end in
  let? recheck_ :=
    if recheck then
      let? requested :=
        match case with
        | Some c => hold_until spec r c (now t)
        | None => Ok (let! s := str_at (str "recheck_at") object else None in parse_timestamp s)
        end in
      bounded_recheck t requested
    else Ok None in
  let t :=
    if is_some_and (wait r)
         (fun w => negb (bool_decide ((wait_outcome w, wait_case w) = (outcome, case))))
    then close_wait t else t in
  let w := default
    {| wait_node := run_node r; wait_outcome := outcome; wait_case := case; wait_detail := None;
       wait_hold := None; wait_kinds := []; gives_up_at := None; wait_first := at_; wait_last := at_;
       wait_count := 0; wait_recheck_at := recheck_ |} (wait (record t)) in
  Ok (update t (fun r =>
        r <| wait := Some (w <| wait_last := at_ |> <| wait_count := (wait_count w + 1)%N |>
                             <| wait_detail := detail |> <| wait_recheck_at := recheck_ |>) |>
          <| recheck_at := recheck_ |>)).

(** The end of [route]: the attempt is over and, unless the run keeps waiting
    on a sleep or a hold, the object is the input of the next node. *)
Definition deliver (t : Transition) (sleep : bool) (object : Value) : Transition :=
  let t := update t (fun r => r <| attempt := None |>) in
  if sleep || is_some_and (wait (record t)) is_hold then t
  else update t (fun r => r <| key := object_key object |> <| input := Some object |>).

Definition route (t : Transition) (target : text) (object : Value) (reason : ParkReason.ParkReason)
  : fallible Transition :=
  let r := record t in
  if RunState.is_terminal (run_state r) then Ok t
  else
    let sleep := is_some_and (lookup_key (run_node r) (checks spec)) Check.is_sleep in
    match held r with
    | Some h =>
        let verdict :=
          {| verdict_node := run_node r; verdict_entered_at := entered_at r;
             verdict_at := Some (now t); verdict_target := target; verdict_object := object;
             verdict_reason := reason |} in
        Ok (update t (fun r =>
              r <| held := Some (h <| held_verdict := Some verdict |>) |> <| attempt := None |>))
    | None =>
        if decide (target = str "@wait") then
          let? t := merge_wait t object (now t) true in Ok (deliver t sleep object)
        else
          let t := close_wait t in
          let t :=
            if decide (target = str "@done" \/ target = str "@failed") then
              let state :=
                if decide (target = str "@done") then RunState.Done else RunState.Failed in
              push_entry
                (update t (fun r => r <| run_state := state |> <| terminal_at := Some (now t) |>))
                None (Journal.Terminal state)
            else if decide (target = str "@user") then
              let text_ := str_at (str "reason") object in
              push_entry
                (update t (fun r =>
                   r <| run_state := RunState.Parked |>
                     <| park := Some {| park_reason := reason; park_text := text_; park_at := now t |} |>))
                None (Journal.Park reason text_)
            else
              update t (fun r =>
                r <| run_node := target |> <| entered_at := now t |> <| check_retry := 0%N |>
                  <| check_retry_context := None |>) in
          Ok (deliver t sleep object)
    end.

(** [push_entry] of a route, then [route]. *)
Definition engine_route (t : Transition) (outcome : text) (object : Value) (target : text)
    (reason : ParkReason.ParkReason) : fallible Transition :=
  let? object := engine_object t object in
  route (push_entry t None (Journal.Route outcome object)) target object reason.

Definition cap_route (t : Transition) (bound : text) (visits_ max : N) : fallible (Transition * Verdict) :=
  let r := record t in
  let? object := engine_object t (json
    [("outcome", JString (str "cap")); ("step", JString (run_node r)); ("bound", JString bound);
     ("visits", JNumber (PosInt visits_)); ("max", JNumber (PosInt max));
     ("routed_by", value_of_option JString (visit_bucket r).1)]%string) in
  let t := push_entry t None (Journal.Route (str "cap") object) in
  let? target := target_of (run_node r) (str "cap") in
  Ok (t, {| verdict_node := run_node r; verdict_entered_at := entered_at r;
            verdict_at := Some (now t); verdict_target := target; verdict_object := object;
            verdict_reason := ParkReason.Cap |}).

Definition stage_agent_end (t : Transition) (e : Ending) (observed : Observed) : fallible Transition :=
  let outcome := ending_outcome e in
  let? a := expect (attempt (record t)) in
  let t := update t (fun r => r <| attempt := Some
    (a <| asking := None |> <| held_since := None |> <| ending := Some e |>) |>) in
  let? p := previous_attempt t outcome in
  Ok (update t (fun r => r <| prev_attempt := Some
    (p <| prev_children := Some (children observed) |>
       <| prev_limited :=
            if decide (outcome = AttemptOutcome.Limited) then limited observed else None |>
       <| prev_asked :=
            if decide (outcome = AttemptOutcome.Asked)
            then option_map asking_ask (ask observed) else None |>) |>)).

(** Merge the children staged with the ending into those the stop reports. *)
Definition merge_children (saved current : list ChildRef) : list ChildRef :=
  fold_left (fun acc child => if bool_decide (child ∈ acc) then acc else acc ++ [child]) saved current.
Definition settle_children (staged : option Children) (c : Children) : Children :=
  let c :=
    match staged with
    | Some s => {| stopped := merge_children (stopped s) (stopped c);
                   live_children := merge_children (live_children s) (live_children c) |}
    | None => c
    end in
  {| stopped := stopped c;
     live_children := List.filter (fun child => negb (bool_decide (child ∈ stopped c))) (live_children c) |}.

Definition asked_value (a : Asked) : Value :=
  json [("text", JString (ask_text a)); ("kind", JString (ask_kind a));
        ("handle", JString (ask_handle a))]%string.

Definition cancel_run (t : Transition) (reason : option text) : Transition :=
  push_entry (push_entry (update t (fun r =>
      r <| run_state := RunState.Canceled |> <| terminal_at := Some (now t) |>))
    None (Journal.Cancel reason)) None (Journal.Terminal RunState.Canceled).

Definition attempt_entry (a : LiveAttempt) (p : PreviousAttempt) (t : Transition) (reason : option text) :=
  Journal.Attempt (prev_outcome p) (prev_visit p) (prev_key p) (prev_routed_by p)
    (prev_started_at p) (now t) (prev_handle p) (prev_run_id p) (prev_code p) (prev_children p)
    (prev_limited p) (prev_asked p) reason.

(** [settle_step]: the ways on from a step that has ended -- the verdict it
    ends with, the deadline, the question asked, the next node. *)
Definition settle_verdict (t : Transition) (a : LiveAttempt) (v : Verdict) : fallible Transition :=
  let? t := if is_some (judged a) then turn_end t a TurnEndAction.Closed (Some v) None else Ok t in
  let t := update t (fun r =>
    r <| run_node := verdict_node v |> <| entered_at := verdict_entered_at v |>) in
  route t (verdict_target v) (verdict_object v) (verdict_reason v).

Definition settle_deadline (t : Transition) : fallible Transition :=
  let t := update t (fun r => r <| deadline_fired := true |>) in
  let? target := target_of (run_node (record t)) (str "deadline") in
  engine_route t (str "deadline") (json
    [("outcome", JString (str "deadline"));
     ("deadline", value_of_option (fun d => JString (show_timestamp d)) (run_deadline (record t)))]%string)
    target ParkReason.Deadline.

Definition settle_asked (t : Transition) (asked_ : option Asked) : fallible Transition :=
  let? target := target_of (run_node (record t)) (str "asked") in
  engine_route t (str "asked") (json
    [("outcome", JString (str "asked"));
     ("reason", value_of_option (fun a => JString (ask_text a)) asked_);
     ("asked", value_of_option asked_value asked_)]%string)
    target ParkReason.Asked.

Definition settle_then (t : Transition) : fallible Transition :=
  let? target := target_of (run_node (record t)) (str "then") in
  let? object := engine_object t (default (json []) (input (record t))) in
  route t target object ParkReason.User.

Definition settle_step (t : Transition) (a : LiveAttempt) (e : Ending) (reason : option text)
  : fallible Transition :=
  let? p := expect (prev_attempt (record t)) in
  let t :=
    if decide ((let! rs := restart (record t) else None in settled rs) = Some (seq a)) then t
    else push_entry t (Some (seq a)) (attempt_entry a p t reason) in
  match ending_route e with
  | Some v => settle_verdict t a v
  | None =>
      match ending_cause e with
      | EndCause.Restart continued => Ok (restart_step t (attempt_node a) continued)
      | EndCause.Cancel =>
          let t := update (close_wait t) (fun r => r <| restart := None |>) in
          Ok (cancel_run t (ending_reason e))
      | EndCause.Deadline => settle_deadline t
      | _ =>
          if decide (ending_outcome e = AttemptOutcome.Asked) then settle_asked t (prev_asked p)
          else settle_then t
      end
  end.

Definition settle_agent (t : Transition) (children_ : Children) (reason : option text)
  : fallible Transition :=
  let? a := expect (attempt (record t)) in
  let? e := expect (ending a) in
  let? p := expect (prev_attempt (record t)) in
  let outcome := ending_outcome e in
  let p := p <| prev_outcome := outcome |> <| prev_handle := option_map handle (attempt_run a) |>
             <| prev_run_id := option_map run_id (attempt_run a) |> <| prev_ended_at := now t |>
             <| prev_children := Some (settle_children (prev_children p) children_) |> in
  let p := if decide (outcome = AttemptOutcome.Asked) then p else p <| prev_asked := None |> in
  let p := if decide (outcome = AttemptOutcome.Limited) then p else p <| prev_limited := None |> in
  settle_step (update t (fun r => r <| attempt := None |> <| prev_attempt := Some p |>)) a e reason.

(** [finish_script]: whether a live command step was settled. *)
Definition finish_script (t : Transition) (e : Ending) (code : option Z) (reason : option text)
  : fallible (Transition * bool) :=
  if negb (contains_key (run_node (record t)) (steps spec)) then
    Ok (abandon_check t
          (if decide (ending_outcome e = AttemptOutcome.Timeout) then str "timeout" else str "canceled"),
        false)
  else
    match attempt (record t) with
    | None => Ok (t, false)
    | Some a =>
        let? p := previous_attempt t (ending_outcome e) in
        let t := update t (fun r =>
          r <| attempt := None |> <| prev_attempt := Some (p <| prev_code := code |>) |>) in
        let? t := settle_step t a e reason in Ok (t, true)
    end.

Definition bare_ending (outcome : AttemptOutcome.AttemptOutcome) (cause : EndCause.EndCause) : Ending :=
  {| ending_outcome := outcome; ending_cause := cause; ending_route := None; ending_reason := None |}.

(** [host_owes_exit], over the process table. *)
Definition host_owes_exit (live : N -> option text -> bool) (t : Transition) : bool :=
  is_some_and (attempt (record t)) (fun a =>
    is_some_and (child a) (fun c =>
      contains_key (run_node (record t)) (steps spec)
      && negb (live (pid c) (host_start c)) && live (pid (host a)) (host_start (host a)))).

Definition bound (live : N -> option text -> bool) (t : Transition) : fallible (Transition * bool) :=
  let r := record t in
  if negb (bool_decide (run_state r = RunState.Active)) then Ok (t, false)
  else if is_some_and (attempt r) (fun a => bool_decide (attempt_kind a = AttemptKind.Agent))
          || host_owes_exit live t
  then Ok (t, false)
  else
    match (if is_none (held r) && negb (deadline_fired r)
           then ofilter (run_deadline r) (fun d => (d <=? now t)%Z) else None) with
    | Some d =>
        let? (t, settled_) :=
          finish_script t (bare_ending AttemptOutcome.Canceled EndCause.Deadline) None None in
        if settled_ then Ok (t, true)
        else
          let t := update t (fun r => r <| deadline_fired := true |>) in
          let? target := target_of (run_node (record t)) (str "deadline") in
          let? t := engine_route t (str "deadline") (json
            [("outcome", JString (str "deadline")); ("deadline", JString (show_timestamp d))]%string)
            target ParkReason.Deadline in
          Ok (t, true)
    | None =>
        let? at_ := timeout_at spec r in
        if negb (is_some_and at_ (fun at_ => (at_ <=? now t)%Z)) then Ok (t, false)
        else
          let? (t, settled_) :=
            finish_script t (bare_ending AttemptOutcome.Timeout EndCause.Timeout) None None in
          if settled_ then Ok (t, true)
          else
            let node := run_node (record t) in
            let? check := expect (lookup_key node (checks spec)) in
            let? target := target_of node (str "timeout") in
            let? t := engine_route t (str "timeout") (json
              [("outcome", JString (str "timeout")); ("node", JString node);
               ("timeout", value_of_option JString (timeout check))]%string)
              target ParkReason.Timeout in
            Ok (t, true)
    end.

Definition normalize_object (object : Value) (check : Check) (key_ : option Key) (edges_ : list Edge)
  : result text Value :=
  match object with
  | JObject fields =>
      let! outcome_ := str_at (str "outcome") object else Err (str "outcome must be a string") in
      if (reserved outcome_
          && negb (bool_decide (outcome_ = str "unknown") && (Check.is_condition check || Check.is_sleep check)))
         || negb (existsb (fun edge => bool_decide (outcome edge = outcome_)) edges_)
      then Err (str "reserved or unrouted outcome " ++ outcome_)
      else if is_some_and (value_get (str "reason") object) (fun v => is_none (as_str v))
      then Err (str "reason must be a string")
      else if is_some_and (value_get (str "recheck_at") object)
                (fun v => is_none (let! s := as_str v else None in parse_timestamp s))
      then Err (str "recheck_at must be an RFC 3339 instant")
      else
        match value_get (str "key") object with
        | Some v =>
            let! _ := key_of_value v else Err (str "key must be a string or integer") in Ok object
        | None =>
            Ok (JObject (match key_ with
                         | Some k => set_key (str "key") (value_of_key k) fields
                         | None => fields
                         end))
        end
  | _ => Err (str "stdout must contain one JSON object")
  end.

(** The loop of [finish_check] over [reset-on]. *)
Definition reset_outcomes (t : Transition) (seq_ : N) (outcome_ : text) : Transition :=
  fold_left (fun t '(name, step) =>
    match (let! cap := max_visits_per_outcome step else None in
           if bool_decide (outcome_ ∈ reset_on cap) then visits (record t) !! name else None) with
    | Some vs =>
        if is_empty (outcomes vs) then t
        else
          push_entry (update t (fun r =>
            r <| visits := <[name := {| total := total vs; outcomes := [] |}]> (visits r) |>))
            (Some seq_) (Journal.VisitsReset name outcome_ false)
    | None => t
    end) (steps spec) t.

(** What a check answers: its object, outcome and target, or that it is invalid. *)
Definition check_answer (t : Transition) (check : Check) (object_ : result text Value)
  : fallible (Value * text * text * ParkReason.ParkReason * EvaluationOrigin.EvaluationOrigin) :=
  let r := record t in
  let node := run_node r in
  let object_ :=
    match object_ with
    | Ok o => normalize_object o check (key r) (edges spec node)
    | Err e => Err e
    end in
  match object_ with
  | Ok o =>
      let outcome_ := default [] (str_at (str "outcome") o) in
      let? target_ := target_of node outcome_ in
      Ok (o, outcome_, target_, ParkReason.User, EvaluationOrigin.Check)
  | Err e =>
      let? o := engine_object t (json
        [("outcome", JString (str "invalid")); ("node", JString node); ("reason", JString e)]%string) in
      let? target_ := target_of node (str "invalid") in
      Ok (o, str "invalid", target_, ParkReason.Invalid, EvaluationOrigin.Engine)
  end.

(** Whether the case of a condition has yet to hold for its time. *)
Definition case_holds (t : Transition) (check : Check) (object_ : Value) : fallible bool :=
  match (if Check.is_condition check || Check.is_sleep check then case_index object_ else None) with
  | Some case =>
      if is_some_and (Check.condition_cases check !! N.to_nat case) (fun c => is_some (case_hold c))
      then let? until := hold_until spec (record t) case (now t) in
           Ok (negb (is_some_and until (fun u => (u <=? now t)%Z)))
      else Ok false
  | None => Ok false
  end.

Definition finish_check (t : Transition) (seq_ : N) (object_ : result text Value)
    (stderr : option text) : fallible Transition :=
  if negb (current t seq_) then Ok t
  else
    let r := record t in
    let? check := expect (lookup_key (run_node r) (checks spec)) in
    let? (object_, outcome_, target_, reason, origin) := check_answer t check object_ in
    let? holds := case_holds t check object_ in
    let? (object_, outcome_, target_) :=
      if holds then
        let? object_ := expect (value_set (str "outcome") (JString (str "hold")) object_) in
        Ok (object_, str "hold", str "@wait")
      else Ok (object_, outcome_, target_) in
    let? a := expect (attempt r) in
    let invalid := bool_decide (reason = ParkReason.Invalid) in
    let t := push_entry (update t (fun r => r <| attempt := None |>)) (Some seq_)
      (Journal.Evaluation origin outcome_ object_ (started_at a) (now t)
         (if invalid then stderr else None) None) in
    let t :=
      if bool_decide (origin = EvaluationOrigin.Check) && negb (bool_decide (outcome_ = str "hold"))
      then reset_outcomes t seq_ outcome_ else t in
    let t := if invalid then push_entry t (Some seq_) (Journal.Route outcome_ object_) else t in
    route t target_ object_ reason.

(** The evaluation entries of an attempt, given its retry. *)
Definition note_retry (seq_ : N) (retry_ : option Value) (e : JournalEntry) : JournalEntry :=
  match event e with
  | Journal.Evaluation origin outcome_ object_ started ended stderr _ =>
      if bool_decide (entry_seq e = Some seq_)
      then {| entry_seq := entry_seq e; entry_at := entry_at e; entry_node := entry_node e;
              event := Journal.Evaluation origin outcome_ object_ started ended stderr retry_ |}
      else e
  | _ => e
  end.

(** [finish_judge]: whether the judge is to be evaluated again at once. *)
Definition finish_judge (t : Transition) (seq_ : N) (result_ : Evaluation) : fallible (Transition * bool) :=
  if negb (current t seq_) then Ok (t, false)
  else
    let r := record t in
    let? a := expect (attempt r) in
    let? (object_, failure_) :=
      match object result_ with
      | Ok o =>
          let? check := expect (lookup_key (run_node r) (checks spec)) in
          Ok (normalize_object o check (key r) (edges spec (run_node r)), Failure.Invalid)
      | Err e => Ok (Err e, failure result_)
      end in
    match object_ with
    | Ok o =>
        let t := update t (fun r => r <| check_retry_context := None |>) in
        let? t := finish_check t seq_ (Ok o) (stderr_tail result_) in
        Ok (t <| entries := map (note_retry seq_ (retry a)) (entries t) |>, false)
    | Err reason =>
        let fields :=
          [("outcome", JString (Failure.as_str failure_)); ("reason", JString reason)]%string in
        let? o := engine_object t (json fields) in
        let t := close_wait t in
        let t := push_entry t (Some seq_)
          (Journal.Evaluation EvaluationOrigin.Engine (Failure.as_str failure_) o (started_at a) (now t)
             (stderr_tail result_) (retry a)) in
        let t := update t (fun r => r <| attempt := None |> <| recheck_at := None |>) in
        match failure_ with
        | Failure.Canceled => Ok (t, true)
        | Failure.Limited =>
            let? at_ := bounded_recheck t
              (let! l := evaluation_limited result_ else None in reset_at l) in
            Ok (update t (fun r => r <| recheck_at := at_ |>), false)
        | _ =>
            if (check_retry r =? 0)%N then
              Ok (update t (fun r =>
                    r <| check_retry := 1%N |> <| check_retry_context := Some (json fields) |>), true)
            else
              let? t := route t (str "@user") o ParkReason.Check in Ok (t, false)
        end
    end.
End Methods.
