(* ===== verification/Engine.v ===== *)
(** * The workflow engine ([crates/rimz/src/harness/workflow/engine.rs])

    Every change of a run record happens in a section that holds the workspace
    lock: it loads the record, transforms it and persists it with the journal
    entries of the change.  A section is a computation [M] on the [Store]; an
    error keeps what it had persisted.  [Env] is what one section reads from
    outside: clocks, the process table, the host of agent sessions, the
    throttle, and the results of the work done off the lock.

    [advance] is the loop of one process between its sections ([Process],
    [advance_body]); [system_step] interleaves any number of them with the
    commands [cancel], [restart], [resume] and [wake].  Modules [Agent] and
    [Until] model [engine/agent.rs] and [engine/until.rs]. *)

From S2P Require Import Prelude.
From S2P Require Agents.
From S2P Require Import Workflow Run Transition.

(** ** Sections *)

Record LiveContext := {
  live_step : text; live_seq : N; live_visit : N; live_visits : N; live_turn_end : option TurnEnd
}.
(** The [context.json] a check or a command reads. *)
Record Context_ := {
  context_node : text; context_seq : N; context_key : option Key; context_input : option Value;
  context_retry : option Value; context_prev : option PreviousAttempt;
  context_visits : option (N * N); context_live : option LiveContext
}.

Record Store := { stored : RunRecord; journal : list JournalEntry; context : option Context_ }.
#[export] Instance Store_eta : Eta Store := fun s =>
  {| stored := stored s; journal := journal s; context := context s |}.

Abbreviation M := (section Store Fault).

(** [persist]: the entries are appended and the record replaced. *)
Definition persist (t : Transition) : M Transition := fun st =>
  let t :=
    if decide (run_state (record t) = RunState.Active) then t
    else update t (fun r => r <| restart := None |>) in
  ({| stored := record t; journal := journal st ++ entries t; context := context st |}, Ok t).

(** Loading the record at the start of a section. *)
Definition load (now_ : Z) : M Transition := fun st =>
  (st, Ok {| record := stored st; now := now_; entries := [] |}).

(** ** What a section reads *)

Inductive Observation := OfAttempt | OfLeaderTurn.
Inductive Occupancy := Free | Occupied | Blocked.
Record StartGroup := { group_kind : text; group_account : option text; group_agents : N }.

Module Throttle.
Record Hold := { hold_kind : HoldKind.HoldKind; hold_text : text; hold_kinds : list text }.
Inductive Attempt := Open | Turn | Held (h : Hold).
Inductive Error := Oversized (message : text) | Other (message : text).
Definition show (e : Error) : text := match e with Oversized m | Other m => m end.
End Throttle.

Inductive CommandResult :=
| Exited (passed : bool) (code : option Z)
| Interrupted
| Failed (reason : text).

Record LaunchFailure := { launch_outcome : AttemptOutcome.AttemptOutcome; launch_reason : text }.

Record Env := {
  start_time : Z;
  observed_time : Z;
  admit_time : Z;
  launch_time : Z;
  process_is_live : N -> option text -> bool;
  identity : Host;
  observe : AttemptRun -> Observation -> result text Observed;
  launch_groups : text -> result text (list StartGroup);
  window_wait : text -> StartGroup -> result text (option text);
  occupancy : result text Occupancy;
  compose : result text text;
  new_message : text;
  throttle_answer : result Throttle.Error Throttle.Attempt;
  evict_error : option text;
  launched : result LaunchFailure AttemptRun;
  evaluation : Evaluation;
  command_result : CommandResult;
  pushed : result text bool;
  stop_result : result text Children;
  orphan : result text (option AttemptRun);
  spawned : Host
}.

(** The host's answer, its error passed on by [?]. *)
Definition host_answer {A} (r : result text A) : fallible A :=
  match r with Ok a => Ok a | Err e => Err (HostErr e) end.

(** ** Admission and decisions *)

Record Admission := {
  eviction : option (N * text * option text);
  capacity_answer : option (N * text * result Throttle.Error Throttle.Attempt)
}.
#[export] Instance Admission_eta : Eta Admission := fun a =>
  {| eviction := eviction a; capacity_answer := capacity_answer a |}.

(** A throttle request is named by the attempt it asks for. *)
Inductive Decision :=
| Stop
| Again
| Evaluate (r : RunRecord)
| Launch (r : RunRecord) (prompt : result text text)
| End_ (r : RunRecord)
| Push (r : RunRecord)
| Evict (r : RunRecord)
| Admit (seq_ : N) (node_ : text).

Definition has_pending_verdict (r : RunRecord) : bool :=
  is_some_and (held r) (fun h => is_some (held_verdict h)).


(** ** Agent sessions ([engine/agent.rs]) *)

Module Agent.
Definition empty_observation : Observed := {|
  status := RunStatus.Pending; ask := None; limited := None; observed_stopped := None;
  children := {| stopped := []; live_children := [] |}; turn := None |}.

Definition observed_outcome (o : Observed) (lifecycle : StepLifecycle) (on_asked : bool)
  : option AttemptOutcome.AttemptOutcome :=
  match status o with
  | RunStatus.Completed => Some AttemptOutcome.Ended
  | RunStatus.Failed | RunStatus.VerifyFailed | RunStatus.TimedOut => Some AttemptOutcome.Died
  | RunStatus.Canceled => Some AttemptOutcome.Canceled
  | RunStatus.BudgetExceeded => Some AttemptOutcome.Limited
  | RunStatus.Pending | RunStatus.Running =>
      if Step.is_turn lifecycle && on_asked && is_some (ask o) then Some AttemptOutcome.Asked else None
  end.

Definition fold_limited (o : Observed) (outcome : AttemptOutcome.AttemptOutcome) : Observed :=
  if bool_decide (outcome = AttemptOutcome.Limited)
     && (is_none (limited o) || bool_decide (status o = RunStatus.BudgetExceeded))
  then o <| limited := Some {| reset_at := None |} |> else o.

(** [hold]: fold the ask and the stop observed into the pause of an attempt,
    and whether the pause changed. *)
Definition hold (a : LiveAttempt) (ask_ : option Asking) (stopped_ : option Stopped) (now_ : Z)
  : LiveAttempt * bool :=
  let clamp (at_ : Z) := Z.min (Z.max at_ (started_at a)) now_ in
  let previous := or_else (held_since a) (option_map asking_since (asking a)) in
  let asking_ := option_map (fun seen =>
    {| asking_since :=
         match asking a with Some open => asking_since open | None => clamp (asking_since seen) end;
       asking_ask := asking_ask seen |}) ask_ in
  let since := min_of
    [option_map asking_since asking_;
     option_map stopped_since
       (ofilter stopped_ (fun s => negb (bool_decide (stop_kind s = StopKind.Interrupt))))] in
  let held_since_ := option_map (fun since =>
    clamp (match previous with Some p => Z.min p since | None => since end)) since in
  let changed := negb (bool_decide (asking a = asking_) && bool_decide (held_since a = held_since_)) in
  let a :=
    match held_since_, previous with
    | None, Some closed =>
        let paused := Z.quot (now_ - closed) MILLISECOND in
        let paused :=
          if (0 <=? paused)%Z && (paused <=? Z.of_N U64_MAX)%Z then Z.to_N paused else 0%N in
        a <| asked_ms := saturating_add_u64 (asked_ms a) paused |>
    | _, _ => a
    end in
  (a <| asking := asking_ |> <| held_since := held_since_ |>, changed).

(** [map_attempt]: a change of the live attempt, which the code expects. *)
Definition map_attempt (t : Transition) (f : LiveAttempt -> LiveAttempt) : fallible Transition :=
  let? a := expect (attempt (record t)) in
  Ok (update t (fun r => r <| attempt := Some (f a) |>)).
Definition set_host (env : Env) (t : Transition) : fallible Transition :=
  map_attempt t (fun a => a <| host := identity env |>).

Definition live_host (env : Env) (a : LiveAttempt) : bool :=
  process_is_live env (pid (host a)) (host_start (host a)).

(** [detaches]: a kept session that ends by itself is left running. *)
Definition detaches (spec : WorkflowSpec) (a : LiveAttempt) : fallible bool :=
  let? e := expect (ending a) in
  let? step := expect (lookup_key (attempt_node a) (steps spec)) in
  Ok (default false (keep step)
      && bool_decide (ending_cause e = EndCause.Lifecycle)
      && is_none_or (ending_route e) (fun route =>
           negb (bool_decide (verdict_reason route = ParkReason.Cap))
           || negb (bool_decide (verdict_target route = str "@user")))).
End Agent.

(** [context.json] of a published attempt; indexing the visits panics. *)
Definition write_context (spec : WorkflowSpec) (r : RunRecord) : M unit := fun st =>
  let context_ :=
    let? a := expect (attempt r) in
    let? visits_ :=
      if contains_key (run_node r) (steps spec) then
        let? vs := expect (visits r !! run_node r) in
        Ok (Some (total vs, default (for_bucket vs (visit_bucket r)) (visit a)))
      else Ok None in
    let session := ofilter (Some (match held r with Some h => held_attempt h | None => a end))
      (fun a => bool_decide (attempt_lifecycle a = Until) && is_none (ending a)) in
    let? live :=
      match session with
      | None => Ok None
      | Some s =>
          let? vs := expect (visits r !! attempt_node s) in
          Ok (Some {| live_step := attempt_node s; live_seq := seq s;
                      live_visit := default (for_bucket vs (visit_bucket r)) (visit s);
                      live_visits := total vs; live_turn_end := judged s |})
      end in
    Ok {| context_node := run_node r; context_seq := seq a; context_key := key r;
          context_input := input r; context_retry := retry a; context_prev := prev_attempt r;
          context_visits := visits_; context_live := live |} in
  match context_ with
  | Ok c => (st <| context := Some c |>, Ok tt)
  | Err e => (st, Err e)
  end.

(** One more visit of the current node, in its bucket. *)
Definition count_visit (t : Transition) : Transition :=
  update t (fun r =>
    r <| visits := <[run_node r :=
      bump (default {| total := 0; outcomes := [] |} (visits r !! run_node r)) (visit_bucket r)]>
      (visits r) |>).

(** [t.record.visits[&node].for_bucket(bucket)]. *)
Definition current_visit (r : RunRecord) : fallible N :=
  let? vs := expect (visits r !! run_node r) in Ok (for_bucket vs (visit_bucket r)).

Definition tripped (step : Step) (r : RunRecord) : option (text * N * N) :=
  tripped_visit_bound step (visits r !! run_node r) (visit_bucket r) (visit_grant r).

Definition due (t : Transition) : bool :=
  negb (deadline_fired (record t)) && is_some_and (run_deadline (record t)) (fun at_ => (at_ <=? now t)%Z).

Definition with_now (t : Transition) (now_ : Z) : Transition := t <| now := now_ |>.

(** ** Sessions held under a check ([engine/until.rs]) *)

Abbreviation seen_nodes := (gset text).

Module Until.
Section Until.
Context `{Validators, Rfc3339} (spec : WorkflowSpec) (env : Env).

Definition eligible (o : Observed) : option LeaderTurn :=
  ofilter (turn o) (fun t => at_rest t && is_none (ask o) && is_none (observed_stopped o)).

(** [begin]: hold the session whose turn has ended under its first check. *)
Definition begin_ (t : Transition) (o : Observed) : fallible (Transition * bool) :=
  let! turn_ := eligible o else Ok (t, false) in
  let r := record t in
  let? a := expect (attempt r) in
  if negb (bool_decide (attempt_lifecycle a = Until))
     || bool_decide (judged a = Some (turn_end_ turn_))
  then Ok (t, false)
  else
    let? step := expect (lookup_key (attempt_node a) (steps spec)) in
    let! check := head (step_then step)
      else Err (Refused (str "steps." ++ attempt_node a
                         ++ str ".then: an until step requires a then check")) in
    Ok (update t (fun r =>
          r <| held := Some {| held_attempt := a <| judged := Some (turn_end_ turn_) |>;
                               held_entered_at := entered_at r; held_verdict := None |} |>
            <| attempt := None |> <| run_node := check |> <| entered_at := now t |>
            <| check_retry := 0%N |> <| check_retry_context := None |>), true).

Definition interrupt (t : Transition) (reason : text) : fallible Transition :=
  let? h := expect (held (record t)) in
  let t := abandon_check t (str "canceled") in
  let? t := turn_end t (held_attempt h) TurnEndAction.Interrupted (held_verdict h) (Some reason) in
  restore_session t.

Definition outcome_reason (o : AttemptOutcome.AttemptOutcome) : text :=
  match o with
  | AttemptOutcome.Ended => str "ended"
  | AttemptOutcome.Died => str "died"
  | AttemptOutcome.Canceled => str "canceled"
  | AttemptOutcome.Limited => str "limited"
  | AttemptOutcome.Timeout => str "timeout"
  | AttemptOutcome.Asked => str "asked"
  end.

(** The end of a section that stages the ending of a restored session. *)
Definition end_session (t : Transition) (e : Ending) (o : Observed) (seen : seen_nodes)
  : M (Transition * seen_nodes * option Decision) :=
  let* t := lift (stage_agent_end t e o) in
  let* t := lift (Agent.set_host env t) in
  let* t := persist t in
  ret (t, seen, Some (End_ (record t))).

Definition restore (t : Transition) (action : TurnEndAction.TurnEndAction) (verdict : option Verdict)
    (reason : option text) : M (Transition * seen_nodes * option Decision) :=
  let* h := lift (expect (held (record t))) in
  let* t := lift (turn_end t (held_attempt h) action verdict reason) in
  let* t := lift (restore_session t) in
  let* t := persist t in
  let* _ := write_context spec (record t) in
  ret (t, ∅ : seen_nodes, Some Again).

(** [Stop], after persisting a changed pause. *)
Definition stop_held (t : Transition) (changed : bool) (seen : seen_nodes)
  : M (Transition * seen_nodes * option Decision) :=
  let* t := if changed then persist t else ret t in ret (t, seen, Some Stop).

(** The verdict sends the session back to its own step. *)
Definition push_back (t : Transition) (v : Verdict) (o : Observed)
  : M (Transition * seen_nodes * option Decision) :=
  let seen : seen_nodes := ∅ in
  let* t := lift (restore_session (close_wait t)) in
  let t := update t (fun r => r <| key := object_key (verdict_object v) |>
                               <| input := Some (verdict_object v) |>) in
  let* step := lift (expect (lookup_key (run_node (record t)) (steps spec))) in
  match tripped step (record t) with
  | Some (bound_, visits_, max) =>
      let* (t, route_) := lift (cap_route spec t bound_ visits_ max) in
      end_session t
        {| ending_outcome := AttemptOutcome.Ended; ending_cause := EndCause.Lifecycle;
           ending_route := Some route_; ending_reason := None |} o seen
  | None =>
      let t := count_visit t in
      let* visit_ := lift (current_visit (record t)) in
      let* a := lift (expect (attempt (record t))) in
      let closed_visit := visit a in
      let a := a <| visit := Some visit_ |>
                 <| push := Some {| push_message := new_message env; push_queued := false |} |> in
      let t := update t (fun r => r <| attempt := Some a |>) in
      let* t := lift (turn_end t (a <| visit := closed_visit |>) TurnEndAction.Pushed (Some v) None) in
      let* t := persist t in
      let* _ := write_context spec (record t) in
      ret (t, seen, Some (Push (record t)))
  end.

(** The verdict keeps the session waiting under its check. *)
Definition keep_waiting (t : Transition) (v : Verdict) (seen : seen_nodes)
  : M (Transition * seen_nodes * option Decision) :=
  let* t := lift (merge_wait spec t (verdict_object v) (default (now t) (verdict_at v)) true) in
  let* h := lift (expect (held (record t))) in
  let woken_ := woken (held_attempt h) in
  let a := held_attempt h <| woken := false |> in
  let t := update t (fun r =>
    r <| held := Some (h <| held_verdict := None |> <| held_attempt := a |>) |>) in
  let* t := lift (turn_end t a TurnEndAction.Kept (Some v) None) in
  let* t :=
    if woken_ then
      let* w := lift (expect (wait (record t))) in
      ret (update t (fun r =>
        r <| recheck_at := None |> <| wait := Some (w <| wait_recheck_at := None |>) |>))
    else ret t in
  let seen := if woken_ then seen ∖ {[ run_node (record t) ]} else seen in
  let* t := persist t in
  ret (t, seen, Some (if woken_ then Again else Stop)).

Definition prepare (t : Transition) (seen : seen_nodes) : M (Transition * seen_nodes * option Decision) :=
  let* h := lift (expect (held (record t))) in
  let* run_ := lift (expect (attempt_run (held_attempt h))) in
  let* observed := lift (host_answer (observe env run_ OfLeaderTurn)) in
  let t := with_now t (observed_time env) in
  let '(a, hold_changed) :=
    Agent.hold (held_attempt h) (ask observed) (observed_stopped observed) (now t) in
  let h := h <| held_attempt := a |> in
  let t := update t (fun r => r <| held := Some h |>) in
  let ending_ :=
    if due t then Some (AttemptOutcome.Canceled, EndCause.Deadline, str "deadline")
    else option_map (fun outcome => (outcome, EndCause.Lifecycle, outcome_reason outcome))
           (Agent.observed_outcome observed Until false) in
  match ending_ with
  | Some (outcome, cause, reason) =>
      let observed := Agent.fold_limited observed outcome in
      let* t := lift (interrupt t reason) in
      end_session t (bare_ending outcome cause) observed ∅
  | None =>
      let verdict := held_verdict h in
      let waiting := is_none_or verdict (fun v => bool_decide (verdict_target v = str "@wait")) in
      if negb (bool_decide (option_map turn_end_ (turn observed) = judged a))
         || (waiting && is_none (eligible observed))
      then
        restore (close_wait (abandon_check t (str "canceled"))) TurnEndAction.Discarded verdict
          (Some (str "leader turn moved on"))
      else
        match verdict with
        | None =>
            let* t := if hold_changed then persist t else ret t in
            ret (t, seen, None)
        | Some v =>
            if decide (verdict_target v = str "@wait") then keep_waiting t v seen
            else if decide (verdict_target v = attempt_node a) then
              if is_none (eligible observed) then stop_held t hold_changed seen
              else push_back t v observed
            else
              let* step := lift (expect (lookup_key (attempt_node a) (steps spec))) in
              if decide (verdict_target v ∈ step_then step) then
                if is_none (eligible observed) then stop_held t hold_changed seen
                else
                  let t := close_wait t in
                  let* t := lift (turn_end t a TurnEndAction.Kept (Some v) None) in
                  let t := update t (fun r =>
                    r <| held := Some (h <| held_verdict := None |>) |> <| run_node := verdict_target v |>
                      <| entered_at := now t |> <| check_retry := 0%N |>
                      <| check_retry_context := None |>) in
                  let* t := persist t in
                  ret (t, seen, Some Again)
              else
                let* after := lift (close_after spec (record t)) in
                if is_some_and after (fun '(at_, _) => (now t <? at_)%Z) || is_none (eligible observed)
                then stop_held t hold_changed seen
                else
                  let* t := lift (restore_session t) in
                  end_session t
                    {| ending_outcome := AttemptOutcome.Ended; ending_cause := EndCause.Lifecycle;
                       ending_route := Some v; ending_reason := None |} observed ∅
        end
  end.
End Until.
End Until.

(** ** [prepare] ([engine.rs]) *)

Section Prepare.
Context `{Validators, Rfc3339} (spec : WorkflowSpec) (env : Env).

(** [prepare_end], for a published agent attempt. *)
Definition prepare_end (t : Transition) : M (Transition * Decision) :=
  let* a := lift (expect (attempt (record t))) in
  let host_live := Agent.live_host env a in
  match ending a with
  | Some e =>
      if host_live then ret (t, Stop)
      else
        let* t :=
          if is_none_or (prev_attempt (record t)) (fun p => negb (prev_seq p =? seq a)%N) then
            let* observed := lift (match attempt_run a with
                                   | Some run_ => host_answer (observe env run_ OfAttempt)
                                   | None => Ok Agent.empty_observation
                                   end) in
            lift (stage_agent_end t e observed)
          else ret t in
        let* t := lift (Agent.set_host env t) in
        let* t := persist t in
        ret (t, End_ (record t))
  | None =>
      let* observed := lift (match attempt_run a with
        | Some run_ =>
            host_answer (observe env run_
              (if decide (attempt_lifecycle a = Until) then OfLeaderTurn else OfAttempt))
        | None => Ok Agent.empty_observation
        end) in
      let t := with_now t (observed_time env) in
      let missing_run := is_none (attempt_run a) in
      let on_asked :=
        existsb (fun edge => bool_decide (outcome edge = str "asked")) (edges spec (attempt_node a)) in
      let '(a, hold_changed) := Agent.hold a (ask observed) (observed_stopped observed) (now t) in
      let t := update t (fun r => r <| attempt := Some a |>) in
      let* ending_ :=
        if due t then ret (Some (bare_ending AttemptOutcome.Canceled EndCause.Deadline))
        else
          let* at_ := lift (timeout_at spec (record t)) in
          if is_some_and at_ (fun at_ => (at_ <=? now t)%Z)
          then ret (Some (bare_ending AttemptOutcome.Timeout EndCause.Timeout))
          else ret (option_map (fun outcome => bare_ending outcome EndCause.Lifecycle)
                      (or_else (Agent.observed_outcome observed (attempt_lifecycle a) on_asked)
                         (if missing_run && negb host_live then Some AttemptOutcome.Canceled else None))) in
      match ending_ with
      | None =>
          if is_some_and (push a) (fun p => negb (push_queued p)) then
            let* t := if hold_changed then persist t else ret t in
            ret (t, Push (record t))
          else
            let* (t, held_) := lift (Until.begin_ spec t observed) in
            if held_ : bool then let* t := persist t in ret (t, Again)
            else
              let* t := if hold_changed then persist t else ret t in
              ret (t, Stop)
      | Some e =>
          let observed := Agent.fold_limited observed (ending_outcome e) in
          let* t := lift (stage_agent_end t e observed) in
          if missing_run && host_live then let* t := persist t in ret (t, Stop)
          else
            let* t := lift (Agent.set_host env t) in
            let* t := persist t in
            ret (t, End_ (record t))
      end
  end.

Fixpoint window_wait_for_groups (raw : text) (groups : list StartGroup) : fallible (option text) :=
  match groups with
  | [] => Ok None
  | group :: groups' =>
      let? detail := host_answer (window_wait env raw group) in
      match detail with Some _ => Ok detail | None => window_wait_for_groups raw groups' end
  end.

Definition clear_capacity (adm : Admission) : Admission := adm <| capacity_answer := None |>.

(** [prepare_capacity]: [None] lets the attempt start. *)
Definition prepare_capacity (t : Transition) (step : Step) (groups : list StartGroup) (adm : Admission)
  : M (Transition * Admission * option Decision) :=
  let r := record t in
  let may_wait := is_some (task r) && negb (manual r) && is_none (restart r) in
  let limits :=
    is_some (header_limit (workflow spec)) || is_some (step_limit step) || is_some (restart r) in
  if negb may_wait && negb limits then ret (t, clear_capacity adm, None)
  else
    match ofilter (wait r) (fun w =>
            may_wait && bool_decide (wait_outcome w = str "capacity")
            && is_some_and (gives_up_at w) (fun at_ => (at_ <=? now t)%Z)) with
    | Some w =>
        let object := json
          [("outcome", JString (str "capacity")); ("step", JString (run_node r));
           ("reason", value_of_option JString (wait_detail w));
           ("kinds", JArray (map JString (wait_kinds w)));
           ("waited_ms", value_of_Z (Z.max (Z.quot (now t - wait_first w) MILLISECOND) 0))]%string in
        let* target_ := lift (target_of spec (run_node r) (str "capacity")) in
        let* t := lift (engine_route spec t (str "capacity") object target_ ParkReason.User) in
        let* t := persist t in
        ret (t, clear_capacity adm, Some Again)
    | None =>
        match capacity_answer adm with
        | None => ret (t, adm, Some (Admit (next_seq r) (run_node r)))
        | Some (_, _, Ok (Throttle.Held h)) =>
            let t := step_wait t (str "capacity") (Some (Throttle.hold_text h)) in
            let* w := lift (expect (wait (record t))) in
            let kinds :=
              if is_empty (Throttle.hold_kinds h)
              then btree_set (map group_kind groups) else Throttle.hold_kinds h in
            let gives_up :=
              match capacity_wait step with
              | Some (Duration d) => Agents.ts_checked_add (wait_first w) d
              | _ => None
              end in
            let t := update t (fun r => r <| wait := Some
              (w <| wait_kinds := kinds |> <| wait_hold := Some (Throttle.hold_kind h) |>
                 <| gives_up_at := gives_up |>) |>) in
            let* t := persist t in
            ret (t, adm, Some Stop)
        | Some _ => ret (t, adm, None)
        end
    end.

(** What [prepare] finds before it publishes an attempt: a decision, or that
    the attempt may start, with the error that will fail its launch. *)
Abbreviation gate := (Transition * seen_nodes * Admission * (Decision + option text))%type.

Definition gate_stop (t : Transition) (seen : seen_nodes) (adm : Admission) : M gate :=
  let* t := persist t in ret (t, seen, adm, inl Stop).

(** The gates of an agent step: window, occupancy and capacity. *)
Definition gate_agent (t : Transition) (step : Step) (profile : text) (seen : seen_nodes) (adm : Admission)
  : M gate :=
  let r := record t in
  let admits :=
    is_some (header_limit (workflow spec)) || is_some (step_limit step) || is_some (restart r)
    || (is_some (task r) && negb (manual r)) in
  let launch_error :=
    if admits then match capacity_answer adm with
                   | Some (_, _, Err e) => Some (Throttle.show e)
                   | _ => None
                   end
    else None in
  let '(groups, launch_error) :=
    if admits || is_some (step_window step) then
      match launch_groups env profile with
      | Ok groups => (groups, launch_error)
      | Err e => ([], Some e)
      end
    else ([], launch_error) in
  let* window_ := lift
    (match step_window step with
     | Some raw =>
         if is_none (restart r) && is_none launch_error
         then window_wait_for_groups raw groups else Ok None
     | None => Ok None
     end) in
  match window_ with
  | Some detail => gate_stop (step_wait t (str "window") (Some detail)) seen adm
  | None =>
      let evicted :=
        ofilter (eviction adm) (fun '(seq_, node_, _) =>
          (seq_ =? next_seq r)%N && bool_decide (node_ = run_node r)) in
      let adm := adm <| eviction := None |> in
      let* occupied := lift
        (match evicted, launch_error with
         | None, None => let? o := host_answer (occupancy env) in Ok (Some o)
         | _, _ => Ok None
         end) in
      let launch_error := match evicted with Some (_, _, e) => or_else launch_error e | None => launch_error end in
      match occupied with
      | Some Blocked => gate_stop (step_wait t (str "takeover") None) seen adm
      | _ =>
          let evict := match occupied with Some Occupied => true | _ => false end in
          if evict && negb (default false (takeover step))
          then gate_stop (step_wait t (str "occupied") None) seen adm
          else
            let t := with_now t (admit_time env) in
            if is_some launch_error then ret (t, seen, adm, inr launch_error)
            else
              let* (t, adm, decision) := prepare_capacity t step groups adm in
              match decision with
              | Some d => ret (t, seen, adm, inl d)
              | None =>
                  if evict then ret (t, seen, adm, inl (Evict (record t)))
                  else ret (t, seen, adm, inr None)
              end
      end
  end.

(** The gates of a check: the window of a judge, and one evaluation of each
    check between two attempts of steps. *)
Definition gate_check (t : Transition) (check : Check) (seen : seen_nodes) (adm : Admission) : M gate :=
  let* window_ := lift
    (match check_window check, Check.kind check with
     | Some raw, Some (KAgent profile) =>
         match launch_groups env profile with
         | Ok groups => window_wait_for_groups raw groups
         | Err e => Err (Refused e)
         end
     | _, _ => Ok None
     end) in
  match window_ with
  | Some detail => gate_stop (step_wait t (str "window") (Some detail)) seen adm
  | None =>
      let t :=
        if is_some (check_window check)
           && is_some_and (wait (record t)) (fun w => bool_decide (wait_outcome w = str "window"))
        then close_wait t else t in
      if bool_decide (run_node (record t) ∈ seen) then ret (t, seen, adm, inl Stop)
      else ret (t, {[ run_node (record t) ]} ∪ seen, adm, inr None)
  end.

Definition gate_node (t : Transition) (seen : seen_nodes) (adm : Admission) : M gate :=
  let node := run_node (record t) in
  match lookup_key node (steps spec) with
  | Some step =>
      match tripped step (record t) with
      | Some (bound_, visits_, max) =>
          if bool_decide (node ∈ seen) then ret (t, seen, adm, inl Stop)
          else
            let* (t, v) := lift (cap_route spec t bound_ visits_ max) in
            let* t := lift (route spec t (verdict_target v) (verdict_object v) (verdict_reason v)) in
            let* t := persist t in
            ret (t, {[ node ]} ∪ seen, clear_capacity adm, inl Again)
      | None =>
          match Step.kind step with
          | Some (SAgent profile) => gate_agent t step profile seen adm
          | _ => ret (t, seen, adm, inr None)
          end
      end
  | None =>
      match lookup_key node (checks spec) with
      | Some check => gate_check t check seen adm
      | None => lift (Err (Refused (str "unknown sealed workflow node " ++ node)))
      end
  end.

Definition node_kind (node : text) : fallible AttemptKind.AttemptKind :=
  match lookup_key node (steps spec) with
  | Some step => Ok (if Step.is_agent step then AttemptKind.Agent else AttemptKind.Script)
  | None =>
      let? check := expect (lookup_key node (checks spec)) in
      Ok (if Check.is_agent check then AttemptKind.Judge else AttemptKind.Script)
  end.

(** The end of [prepare]: publish the attempt of the current node. *)
Definition publish (t : Transition) (seen : seen_nodes) (adm : Admission) (launch_error : option text)
  : M (Transition * seen_nodes * Admission * Decision) :=
  let step := lookup_key (run_node (record t)) (steps spec) in
  let* kind := lift (node_kind (run_node (record t))) in
  let prompt := if decide (kind = AttemptKind.Agent) then Some (compose env) else None in
  let t := with_now t (launch_time env) in
  let* (t, bounded) := lift (bound spec (process_is_live env) t) in
  if bounded : bool then
    let* t := persist t in ret (t, seen, clear_capacity adm, Again)
  else
    let t :=
      if is_some step then
        update (count_visit (close_wait t)) (fun r => r <| entered_at := now t |>) else t in
    let seen := if is_some step then ∅ else seen in
    let* visit_ := lift (if is_some step
                         then let? v := current_visit (record t) in Ok (Some v) else Ok None) in
    let r := record t in
    let t := update t (fun r => r <| next_seq := (next_seq r + 1)%N |>
      <| held := option_map (fun h => h <| held_attempt := held_attempt h <| woken := false |> |>) (held r) |>
      <| attempt := Some
           {| attempt_kind := kind;
              attempt_lifecycle := match step with Some s => Step.lifecycle s | None => Workflow.Turn end;
              seq := next_seq r; attempt_node := run_node r; visit := visit_; started_at := now t;
              host := identity env; child := None; attempt_run := None; ending := None;
              retry := check_retry_context r; woken := false; asking := None; held_since := None;
              asked_ms := 0; judged := None; push := None |} |>) in
    let* t :=
      match capacity_answer adm with
      | Some (_, _, Err (Throttle.Oversized message)) =>
          lift (stage_agent_end t
            {| ending_outcome := AttemptOutcome.Died; ending_cause := EndCause.Lifecycle;
               ending_route := Some
                 {| verdict_node := run_node (record t); verdict_entered_at := entered_at (record t);
                    verdict_at := Some (now t); verdict_target := str "@failed";
                    verdict_object := json [("outcome", JString (str "died"));
                                            ("reason", JString message)]%string;
                    verdict_reason := ParkReason.User |};
               ending_reason := Some message |} Agent.empty_observation)
      | _ => ret t
      end in
    let* t := persist t in
    let* _ := write_context spec (record t) in
    match prompt with
    | Some prompt =>
        let prompt := match launch_error with Some reason => Err reason | None => prompt end in
        ret (t, seen, clear_capacity adm, Launch (record t) prompt)
    | None => ret (t, seen, adm, Evaluate (record t))
    end.

(** The section that opens each round of [advance]. *)
Definition prepare (seen : seen_nodes) (adm : Admission) : M (seen_nodes * Admission * Decision) :=
  let* t := load (start_time env) in
  if negb (bool_decide (run_state (record t) = RunState.Active)) then ret (seen, adm, Stop)
  else
    let adm :=
      if is_some_and (capacity_answer adm) (fun '(seq_, node_, _) =>
           negb (seq_ =? next_seq (record t))%N || negb (bool_decide (node_ = run_node (record t))))
      then clear_capacity adm else adm in
    let* (t, seen, decision) :=
      if is_some (held (record t)) then Until.prepare spec env t seen else ret (t, seen, None) in
    match decision with
    | Some d => ret (seen, adm, d)
    | None =>
        if is_some_and (attempt (record t)) (fun a => bool_decide (attempt_kind a = AttemptKind.Agent)) then
          let* (_, d) := prepare_end t in ret (seen, adm, d)
        else
          let* (t, bounded) := lift (bound spec (process_is_live env) t) in
          if bounded : bool then
            let* t := persist t in
            ret (seen, clear_capacity adm,
                 if negb (bool_decide (run_state (record t) = RunState.Active))
                    || (is_some (wait (record t)) && negb (has_pending_verdict (record t)))
                 then Stop else Again)
          else
            match attempt (record t) with
            | Some a =>
                if Agent.live_host env a then ret (seen, adm, Stop)
                else
                  let* (t, _) := lift (finish_script spec t
                    (bare_ending AttemptOutcome.Canceled EndCause.Lifecycle) None
                    (Some (str "lost command-step host " ++ show_N (pid (host a))))) in
                  let* _ := persist t in
                  ret (seen, adm, Again)
            | None =>
                let waiting :=
                  is_some_and (recheck_at (record t)) (fun at_ => (now t <? at_)%Z)
                  && negb (is_some_and (wait (record t)) is_hold) in
                if waiting then
                  let t :=
                    match held (record t), wait (record t) with
                    | None, Some w =>
                        update t (fun r => r <| wait := Some
                          (w <| wait_last := now t |> <| wait_count := (wait_count w + 1)%N |>) |>)
                    | _, _ => t
                    end in
                  let* _ := persist t in
                  ret (seen, adm, Stop)
                else
                  let* (t, seen, adm, verdict) := gate_node t seen adm in
                  match verdict with
                  | inl d => ret (seen, adm, d)
                  | inr launch_error =>
                      let* (_, seen, adm, d) := publish t seen adm launch_error in
                      ret (seen, adm, d)
                  end
            end
    end.
End Prepare.

(** ** [advance] *)

(** What a process does next: a section, after the work off the lock that the
    environment of the section reports. *)
Inductive Pending :=
| Preparing
| Evaluating (r : RunRecord)
| Launching (r : RunRecord) (prompt : result text text)
| Finishing (r : RunRecord) (reason : option text)
| Pushing (r : RunRecord)
| Evicting (r : RunRecord)
| Admitting (seq_ : N) (node_ : text)
| Stopped_.

(** A process running [advance], or the end of a [cancel] or a [restart],
    which only finishes the attempt it has staged. *)
Record Process := { seen : seen_nodes; admission : Admission; pending : Pending; looping : bool }.
#[export] Instance Process_eta : Eta Process := fun p =>
  {| seen := seen p; admission := admission p; pending := pending p; looping := looping p |}.

Definition advancing : Process := {|
  seen := ∅; admission := {| eviction := None; capacity_answer := None |};
  pending := Preparing; looping := true |}.
Definition finishing (r : RunRecord) : Process :=
  advancing <| pending := Finishing r None |> <| looping := false |>.

Definition pend (d : Decision) : Pending :=
  match d with
  | Stop => Stopped_
  | Again => Preparing
  | Evaluate r => Evaluating r
  | Launch r prompt => Launching r prompt
  | End_ r => Finishing r None
  | Push r => Pushing r
  | Evict r => Evicting r
  | Admit seq_ node_ => Admitting seq_ node_
  end.

Section Advance.
Context `{Validators, Rfc3339} (spec : WorkflowSpec) (env : Env).

(** The launch of a prepared agent and the section after [host.launch]. *)
Definition launch (r : RunRecord) (prompt : result text text) : M Pending :=
  let* a := lift (expect (attempt r)) in
  let* launched_ :=
    match prompt with
    | Ok _ =>
        (* Off the lock: the step's agent is in the definition. *)
        let* s := lift (expect (lookup_key (run_node r) (steps spec))) in
        let* _ := lift (expect (step_agent s)) in
        ret (launched env)
    | Err reason => ret (Err {| launch_outcome := AttemptOutcome.Died; launch_reason := reason |})
    end in
  let* t := load (start_time env) in
  if negb (current t (seq a)) then
    let* _ := lift (match launched_ with Ok _ => host_answer (stop_result env) | Err _ => Ok Agent.empty_observation.(children) end) in
    ret Stopped_
  else
    let t :=
      if is_some (restart r) && bool_decide (restart (record t) = restart r)
      then update t (fun r => r <| restart := None |>) else t in
    let finish (t : Transition) (reason : option text) : M Pending :=
      let* t := lift (Agent.set_host env t) in
      let* t := persist t in
      ret (Finishing (record t) reason) in
    match launched_ with
    | Ok run_ =>
        let* t := lift (Agent.map_attempt t (fun a => a <| attempt_run := Some run_ |>)) in
        let* t := persist t in
        if is_some_and (attempt (record t)) (fun a => is_none (ending a)) then
          let* (t, d) := prepare_end spec env t in
          match d with
          | Again => ret Preparing
          | End_ _ => finish t None
          | _ => ret Stopped_
          end
        else finish t None
    | Err failure_ =>
        let observed :=
          if decide (launch_outcome failure_ = AttemptOutcome.Limited)
          then Agent.empty_observation <| limited := Some {| reset_at := None |} |>
          else Agent.empty_observation in
        let* t :=
          if is_some_and (attempt (record t)) (fun a => is_none (ending a)) then
            lift (stage_agent_end t
              {| ending_outcome := launch_outcome failure_; ending_cause := EndCause.Lifecycle;
                 ending_route :=
                   if is_some_and (restart r) (fun rs => is_some (resume_session rs)) then
                     Some {| verdict_node := run_node r; verdict_entered_at := entered_at r;
                             verdict_at := Some (now t); verdict_target := str "@user";
                             verdict_object := json [("outcome", JString (str "died"));
                                                     ("reason", JString (launch_reason failure_))]%string;
                             verdict_reason := ParkReason.Invalid |}
                   else None;
                 ending_reason := None |} observed)
          else ret t in
        finish t (Some (launch_reason failure_))
    end.

(** [finish]: stop or detach the session off the lock, then settle it; [true]
    continues the loop. *)
Definition finish (r : RunRecord) (reason : option text) : M (Pending + bool) :=
  let* a := lift (expect (attempt r)) in
  let* detached := lift (Agent.detaches spec a) in
  let* run_ := lift (match attempt_run a with Some _ => Ok (attempt_run a) | None => host_answer (orphan env) end) in
  let* children_ := lift (match run_ with
                          | Some _ => host_answer (stop_result env)
                          | None => Ok Agent.empty_observation.(children)
                          end) in
  let* t := load (start_time env) in
  if negb (current t (seq a))
     || is_none_or (attempt (record t)) (fun a' => negb (bool_decide (host a' = host a)))
  then ret (inr false)
  else
    let* a' := lift (expect (attempt (record t))) in
    let* still := lift (if detached : bool then Agent.detaches spec a' else Ok true) in
    if detached && negb still then ret (inl (Finishing (record t) reason))
    else
      let* t := lift (Agent.map_attempt t (fun a => a <| attempt_run := run_ |>)) in
      let* t := lift (settle_agent spec t children_ reason) in
      let* t := persist t in
      ret (inr (bool_decide (run_state (record t) = RunState.Active) && is_none (wait (record t)))).

(** The section after the evaluation of a check. *)
Definition evaluated (r : RunRecord) (seen : seen_nodes) : M (Pending * seen_nodes) :=
  let* a := lift (expect (attempt r)) in
  let* t := load (start_time env) in
  if negb (current t (seq a)) then ret (Stopped_, seen)
  else
    let* (t, bounded) := lift (bound spec (process_is_live env) t) in
    let* (t, seen, recheck_woken) :=
      if bounded : bool then ret (t, seen, false)
      else
        let woken_ := is_some_and (attempt (record t)) woken in
        let* (t, retry_) :=
          if bool_decide (attempt_kind a = AttemptKind.Judge)
          then lift (finish_judge spec t (seq a) (evaluation env))
          else let* t := lift (finish_check spec t (seq a) (object (evaluation env))
                                 (stderr_tail (evaluation env))) in ret (t, false) in
        let seen := if retry_ : bool then seen ∖ {[ run_node r ]} else seen in
        match wait (record t) with
        | Some w =>
            if woken_ : bool then
              ret (update t (fun r => r <| wait := Some (w <| wait_recheck_at := None |>) |>
                                        <| recheck_at := None |>),
                   seen ∖ {[ run_node r ]}, true)
            else ret (t, seen, false)
        | None => ret (t, seen, false)
        end in
    let* t := persist t in
    if negb (bool_decide (run_state (record t) = RunState.Active))
       || (is_some (wait (record t)) && negb recheck_woken && negb (has_pending_verdict (record t)))
    then ret (Stopped_, seen) else ret (Preparing, seen).

(** The section after a command step has run. *)
Definition command_step (r : RunRecord) : M bool :=
  let* t := load (start_time env) in
  let* a := lift (expect (attempt r)) in
  if negb (current t (seq a)) then ret false
  else
    let '(outcome_, code, reason, interrupted) :=
      match command_result env with
      | Exited passed code =>
          (if passed : bool then AttemptOutcome.Ended else AttemptOutcome.Died, code,
           if passed : bool then None
           else Some (match code with
                      | None => str "killed by signal"
                      | Some code => str "exited " ++ (if (code <? 0)%Z then str "-" else [])
                                     ++ show_N (Z.to_N (Z.abs code))
                      end), false)
      | Interrupted => (AttemptOutcome.Canceled, None, None, true)
      | Failed reason => (AttemptOutcome.Died, None, Some reason, false)
      end in
    let* (outcome_, cause) :=
      if negb interrupted then ret (outcome_, EndCause.Lifecycle)
      else if due t then ret (outcome_, EndCause.Deadline)
      else
        let* at_ := lift (timeout_at spec (record t)) in
        if is_some_and at_ (fun at_ => (at_ <=? now t)%Z)
        then ret (AttemptOutcome.Timeout, EndCause.Timeout)
        else ret (outcome_, EndCause.Lifecycle) in
    let* (t, _) := lift (finish_script spec t (bare_ending outcome_ cause) code reason) in
    let* t := persist t in
    ret (bool_decide (run_state (record t) = RunState.Active)).

(** The section after [host.push]. *)
Definition push_queued_ (r : RunRecord) : M bool :=
  let* a := lift (expect (attempt r)) in
  let* p := lift (expect (push a)) in
  let* _ := lift (expect (attempt_run a)) in
  let* queued := lift (host_answer (pushed env)) in
  if negb queued then ret false
  else
    let* t := load (start_time env) in
    if negb (current t (seq a)) then ret false
    else
      let* a' := lift (expect (attempt (record t))) in
      match ofilter (push a') (fun p' => bool_decide (push_message p' = push_message p)) with
      | None => ret false
      | Some p' =>
          if push_queued p' then ret true
          else
            let* _ := persist (update t (fun r => r <| attempt := Some
              (a' <| push := Some {| push_message := push_message p'; push_queued := true |} |>) |>)) in
            ret true
      end.

Definition go_on (p : Process) (b : bool) : Process :=
  p <| pending := if b && looping p then Preparing else Stopped_ |>.

(** One turn of the loop. *)
Definition advance_body (p : Process) : M Process :=
  match pending p with
  | Stopped_ => ret p
  | Preparing =>
      let* (seen_, adm, d) := prepare spec env (seen p) (admission p) in
      ret (p <| seen := seen_ |> <| admission := adm |> <| pending := pend d |>)
  | Admitting seq_ node_ =>
      ret (p <| admission :=
             admission p <| capacity_answer := Some (seq_, node_, throttle_answer env) |> |>
             <| pending := Preparing |>)
  | Evicting r =>
      ret (p <| admission :=
             admission p <| eviction := Some (next_seq r, run_node r, evict_error env) |> |>
             <| pending := Preparing |>)
  | Launching r prompt => let* d := launch r prompt in ret (p <| pending := d |>)
  | Finishing r reason =>
      let* d := finish r reason in
      ret (match d with inl d => p <| pending := d |> | inr b => go_on p b end)
  | Pushing r => let* b := push_queued_ r in ret (go_on p b)
  | Evaluating r =>
      if contains_key (run_node r) (steps spec) then
        let* b := command_step r in ret (go_on p b)
      else
        let* (d, seen_) := evaluated r (seen p) in
        ret (p <| pending := d |> <| seen := seen_ |>)
  end.
End Advance.

(** ** Commands *)

Section Commands.
Context `{Validators, Rfc3339} (spec : WorkflowSpec) (env : Env).

(** Whether the process that owns an attempt is still at it. *)
Definition busy (a : LiveAttempt) : bool :=
  (is_some (ending a) || is_none (attempt_run a)) && Agent.live_host env a.

Definition observe_attempt (a : LiveAttempt) : fallible Observed :=
  match attempt_run a with
  | Some run_ => host_answer (observe env run_ OfAttempt)
  | None => Ok Agent.empty_observation
  end.

(** [cancel]: whether the run was live, and the process that finishes its
    attempt. *)
Definition cancel (reason : option text) : M (bool * option Process) :=
  let* t := load (start_time env) in
  if RunState.is_terminal (run_state (record t)) then ret (false, None)
  else
    let* t := if is_some (held (record t)) then lift (Until.interrupt t (str "cancel")) else ret t in
    let t := close_wait t in
    match ofilter (attempt (record t)) (fun a => bool_decide (attempt_kind a = AttemptKind.Agent)) with
    | Some a =>
        if busy a && is_some_and (ending a) (fun e => bool_decide (ending_cause e = EndCause.Cancel))
        then ret (true, None)
        else
          let* observed := lift (observe_attempt a) in
          let* t :=
            match (let! e := ending a else None in ending_route e) with
            | Some v => lift (turn_end t a TurnEndAction.Interrupted (Some v) (Some (str "cancel")))
            | None => ret t
            end in
          let* t := lift (stage_agent_end t
            {| ending_outcome := AttemptOutcome.Canceled; ending_cause := EndCause.Cancel;
               ending_route := None; ending_reason := reason |} observed) in
          let* t := if busy a then ret t else lift (Agent.set_host env t) in
          let* t := persist t in
          ret (true, if busy a then None else Some (finishing (record t)))
    | None =>
        let t := update t (fun r => r <| restart := None |>) in
        let* (t, settled_) := lift (finish_script spec t
          {| ending_outcome := AttemptOutcome.Canceled; ending_cause := EndCause.Cancel;
             ending_route := None; ending_reason := reason |} None None) in
        let* _ := persist (if settled_ : bool then t else cancel_run t reason) in
        ret (true, None)
    end.

Definition park_label (p : Park) : text :=
  let reason :=
    match park_reason p with
    | ParkReason.User => str "user"
    | ParkReason.Cap => str "cap"
    | ParkReason.Deadline => str "deadline"
    | ParkReason.Timeout => str "timeout"
    | ParkReason.Invalid => str "invalid"
    | ParkReason.Asked => str "asked"
    | ParkReason.Check => str "check"
    end in
  match park_text p with Some t => reason ++ str ": " ++ t | None => reason end.

Definition refuse {A} (reason : text) : M A := lift (Err (Refused reason)).

(** The previous attempt a parked run may continue, as a live attempt. *)
Definition continued_attempt (step_name : text) (step : Step) (r : RunRecord) : option LiveAttempt :=
  let! p := prev_attempt r else None in
  if is_none (attempt r) && bool_decide (run_state r = RunState.Parked)
     && bool_decide (prev_step p = step_name)
  then
    let! run_ := prev_run_id p else None in
    let! handle_ := prev_handle p else None in
    Some {| attempt_kind := AttemptKind.Agent; attempt_lifecycle := Step.lifecycle step;
            seq := prev_seq p; attempt_node := step_name; visit := Some (prev_visit p);
            started_at := prev_started_at p; host := identity env; child := None;
            attempt_run := Some {| run_id := run_; handle := handle_ |}; ending := None;
            retry := None; woken := false; asking := None; held_since := None; asked_ms := 0;
            judged := None; push := None |}
  else None.

(** [restart], with the attempt and session a [--continue] resumes. *)
Definition restart_run (resume : option (N * text)) : M (option Process) :=
  let* t := load (start_time env) in
  let r := record t in
  if RunState.is_terminal (run_state r) then refuse (str "run is terminal; cannot restart")
  else if is_some_and (session_attempt r) (fun a =>
            is_some_and (ending a) (fun e => bool_decide (ending_cause e = EndCause.Cancel)))
  then refuse (str "run is canceling; cannot restart")
  else
    let step_name :=
      match session_attempt r with Some a => attempt_node a | None => run_node r end in
    match ofilter (lookup_key step_name (steps spec)) Step.is_agent with
    | None =>
        refuse (str "node " ++ step_name
          ++ (if contains_key step_name (checks spec) then str " is a check" else str " is a command step")
          ++ match park r, wait r with
             | Some p, _ => str "; @user: " ++ park_label p
             | None, Some w => str "; waiting on " ++ wait_outcome w
             | None, None => []
             end ++ str "; restart requires an agent step")
    | Some step =>
        let live :=
          or_else (option_map seq (session_attempt r))
            (option_map prev_seq (ofilter (prev_attempt r) (fun p =>
               bool_decide (run_state r = RunState.Parked) && bool_decide (prev_step p = run_node r)))) in
        if is_some_and resume (fun '(seq_, _) => negb (bool_decide (live = Some seq_)))
        then refuse (str "the step attempt changed during --continue preflight; retry the restart")
        else if is_some (restart r) then refuse (str "this step is already restarting")
        else
          let continued := is_some resume in
          let* t := if is_some (held r) then lift (Until.interrupt t (str "restart")) else ret t in
          let restart_ := {| resume_session := option_map snd resume; settled := None |} in
          let t := update t (fun r => r <| Run.restart := Some restart_ |>) in
          let t :=
            match (if continued then continued_attempt step_name step (record t) else None) with
            | Some a =>
                update t (fun r =>
                  r <| Run.restart := Some (restart_ <| settled := Some (seq a) |>) |>
                    <| attempt := Some a |> <| run_state := RunState.Active |> <| park := None |>)
            | None => t
            end in
          match attempt (record t) with
          | Some a =>
              let* observed := lift (observe_attempt a) in
              let* t := lift (stage_agent_end t
                (bare_ending AttemptOutcome.Canceled (EndCause.Restart continued)) observed) in
              let* t := if busy a then ret t else lift (Agent.set_host env t) in
              let* t := persist t in
              ret (if busy a then None else Some (finishing (record t)))
          | None =>
              let* _ := persist (restart_step t step_name continued) in ret None
          end
    end.

(** The grants of [resume]: [visits=+N] and [deadline=<when>]. *)
Fixpoint extend_all (r : RunRecord) (extend : list text) : fallible RunRecord :=
  match extend with
  | [] => Ok r
  | grant :: extend' =>
      let? r :=
        match (let! n := strip_prefix (str "visits=+") grant else None in
               ofilter (parse_u64 n) (fun n => negb (n =? 0)%N)), strip_prefix (str "deadline=") grant with
        | Some n, _ =>
            if (visit_grant r + n <=? U64_MAX)%N
            then Ok (r <| visit_grant := (visit_grant r + n)%N |>)
            else Err (Refused (str "visit grant overflow"))
        | None, Some raw =>
            let! at_ := parse_deadline raw else Err (Refused (str "invalid deadline extension")) in
            Ok (r <| run_deadline := Some at_ |> <| deadline_fired := false |>)
        | None, None =>
            Err (Refused (str "invalid extension " ++ grant ++ str "; use visits=+N or deadline=<when>"))
        end in
      extend_all r extend'
  end.

Definition resume (at_ : option text) (extend : list text) : M unit :=
  let* t := load (start_time env) in
  let r := record t in
  if RunState.is_terminal (run_state r) then refuse (str "terminal workflow runs cannot resume")
  else if is_some_and at_ (fun node => negb (is_node spec node))
  then refuse (str "unknown sealed workflow node")
  else if bool_decide (run_state r = RunState.Active) && (is_some at_ || is_empty extend)
  then refuse (str "an active run accepts only --extend; park it before repositioning")
  else
    let* r := lift (extend_all r extend) in
    let t := t <| record := r |> in
    let t :=
      if decide (run_state r = RunState.Parked) then
        let t :=
          if is_some_and (park r) (fun p => bool_decide (park_reason p = ParkReason.Cap))
          then reset_visits t (run_node r) (str "cap") else t in
        update (close_wait t) (fun r =>
          r <| run_node := default (run_node r) at_ |> <| entered_at := now t |> <| check_retry := 0%N |>
            <| check_retry_context := None |> <| park := None |> <| run_state := RunState.Active |>)
      else t in
    let t := push_entry t None (Journal.Resume (visit_grant (record t)) (run_deadline (record t))) in
    let* _ := persist t in ret tt.

(** [wake] of one run, for a signal its check subscribes to. *)
Definition wake (signal : text) : M unit :=
  let* t := load (start_time env) in
  let r := record t in
  if negb (bool_decide (run_state r = RunState.Active)) || negb (contains_key (run_node r) (checks spec))
  then ret tt
  else
    let t := update t (fun r =>
      r <| recheck_at := None |>
        <| attempt := option_map (fun a => a <| woken := true |>) (attempt r) |>
        <| held := option_map (fun h => h <| held_attempt := held_attempt h <| woken := true |> |>) (held r) |>
        <| wait := option_map (fun w => w <| wait_recheck_at := None |>) (wait r) |>) in
    let* _ := persist (push_entry t None (Journal.Wake signal)) in ret tt.

(** [with_child]: publish the child of the attempt a process evaluates, when
    the run still wants it. *)
Definition publish_child (p : Process) : M unit :=
  match pending p with
  | Evaluating r =>
      let* a := lift (expect (attempt r)) in
      let* t := load (start_time env) in
      let expired :=
        match timeout_at spec (record t) with
        | Ok at_ => is_some_and at_ (fun at_ => (at_ <=? now t)%Z)
        | Err _ => true
        end in
      if negb (current t (seq a)) || expired || due t then ret tt
      else
        let* t := lift (Agent.map_attempt t (fun a => a <| child := Some (spawned env) |>)) in
        fun st => (st <| stored := record t |>, Ok tt)
  | _ => ret tt
  end.

(** [reassign_task] of one run. *)
Definition reassign_task (old : text) (new : option text) : M unit := fun st =>
  if started_by (stored st) old
  then (st <| stored := stored st <| task := new |> |>, Ok tt) else (st, Ok tt).

(** The record [create] initializes. *)
Definition initial_record (task_ : option text) (manual_ : bool) (deadline_ : option Z) : RunRecord := {|
  task := task_; manual := manual_; run_state := RunState.Active; park := None;
  run_node := start (workflow spec); entered_at := start_time env; input := None; key := None;
  recheck_at := None; wait := None; visits := ∅; visit_grant := 0; run_deadline := deadline_;
  deadline_fired := false; next_seq := 1; attempt := None; held := None; Run.restart := None;
  prev_attempt := None; terminal_at := None; check_retry := 0; check_retry_context := None |}.
End Commands.

(** ** The system *)

Inductive Command :=
| Advance
| Cancel (reason : option text)
| RestartRun (resume : option (N * text))
| Resume (at_ : option text) (extend : list text)
| WakeRun (signal : text)
| Reassign (old : text) (new : option text)
| PublishChild (i : nat).

Record System := { store : Store; processes : list Process }.

Section System.
Context `{Validators, Rfc3339} (spec : WorkflowSpec).

(** A command, with the process it starts. *)
Definition run_command (env : Env) (c : Command) (ps : list Process) : M (option Process) :=
  match c with
  | Advance => ret (Some advancing)
  | Cancel reason => let* (_, p) := cancel spec env reason in ret p
  | RestartRun resume_ => restart_run spec env resume_
  | Resume at_ extend => let* _ := resume spec env at_ extend in ret None
  | WakeRun signal => let* _ := wake spec env signal in ret None
  | Reassign old new => let* _ := reassign_task old new in ret None
  | PublishChild i =>
      match ps !! i with
      | Some p => let* _ := publish_child spec env p in ret None
      | None => ret None
      end
  end.

(** The commands the users of the run give. *)
Context (allow : Command -> Prop).

(** One section of any process, or one command; a process that fails is gone. *)
Inductive system_step : System -> System -> Prop :=
| step_process sys i p env st' res :
    processes sys !! i = Some p ->
    advance_body spec env p (store sys) = (st', res) ->
    system_step sys
      {| store := st';
         processes := match res with
                      | Ok p' => <[i := p']> (processes sys)
                      | Err _ => delete i (processes sys)
                      end |}
| step_command sys c env st' res :
    allow c ->
    run_command env c (processes sys) (store sys) = (st', res) ->
    system_step sys
      {| store := st';
         processes := processes sys ++ match res with Ok (Some p) => [p] | _ => [] end |}.

(** The states of a run from its creation. *)
Inductive reachable : System -> Prop :=
| reachable_start env task_ manual_ deadline_ :
    reachable {| store := {| stored := initial_record spec env task_ manual_ deadline_;
                             journal := []; context := None |};
                 processes := [] |}
| reachable_step sys sys' : reachable sys -> system_step sys sys' -> reachable sys'.
End System.

Definition any_command (c : Command) : Prop := True.
(** Commands that leave a run at the node it is at. *)
Definition in_place (c : Command) : Prop := match c with Resume (Some _) _ => False | _ => True end.
