(* ===== verification/TransitionFacts.v ===== *)
(** * Theorems about the transitions of a run ([Transition])

    [Sealed] states what the engine relies on a sealed definition for;
    [sealed_of_valid] discharges it for a cleaned and validated one.
    [WellFormed] is the invariant of a run record, relative to a set [V] of
    nodes closed under the routes, and [descends] how a change treats the
    attempts of the record it starts from.  Every method preserves the first,
    satisfies the second and does not panic: [post f Q] says that [f] does not
    panic and that a result satisfies [Q]. *)

From S2P Require Import Prelude.
From S2P Require Agents.
From S2P Require Import Workflow WorkflowFacts Run Transition.
Import Validate.

(** ** What the engine asks of a definition *)

Definition agent_step (spec : WorkflowSpec) (n : text) : Prop :=
  exists s, lookup_key n (steps spec) = Some s /\ Step.is_agent s = true.

Class Sealed `{Validators} (spec : WorkflowSpec) : Prop := {
  sealed_start : is_node spec (start (workflow spec)) = true;
  sealed_disjoint : forall n, contains_key n (steps spec) = true -> contains_key n (checks spec) = false;
  sealed_then : forall n s t, lookup_key n (steps spec) = Some s -> t ∈ step_then s ->
    contains_key t (checks spec) = true;
  sealed_step : forall n s o, lookup_key n (steps spec) = Some s -> o ∈ STEP_TRIGGERS ->
    is_Some (engine_target spec n o);
  sealed_check : forall n c o, lookup_key n (checks spec) = Some c ->
    o = str "deadline" \/ o = str "invalid" \/ (o = str "timeout" /\ timeout c <> None)
    \/ (exists e, e ∈ edges spec n /\ outcome e = o) ->
    is_Some (engine_target spec n o);
  sealed_target : forall n o t, engine_target spec n o = Some t -> ok_target spec t;
  sealed_special : forall t, t ∈ SPECIAL -> is_node spec t = false
}.

Lemma sealed_of_valid `{Validators} name spec0 :
  validate_spec name (Clean.apply spec0) = [] -> Sealed (Clean.apply spec0).
Proof.
  intros Hv. pose proof (validated name _ Hv) as Ha. split.
  - apply ad_start.
  - intros n (e & -> & Hin)%contains_key_spec%list_elem_of_fmap. destruct e as [n s]. by eapply step_not_check.
  - intros n s t Hs. eapply then_ok, lookup_key_elem; eauto.
  - intros n s o Hs Ho. eapply (step_resolves (Clean.apply spec0)); eauto using lookup_key_elem.
  - intros n c o Hc Ho. pose proof (contains_key_Some _ _ _ Hc) as Hk. destruct Ho as [->|[->|[[-> Ht]|(e & He & <-)]]].
    + eapply check_resolves; [done| |by left]. apply trigger_outcome; [by right; left|done].
    + eapply check_resolves; [done| |right; apply invalid_route]. apply trigger_outcome; [by left|done].
    + assert (Hs : Check.is_sleep c = false).
      { apply not_true_is_false. intros Hs. apply Ht, (clean_sleep spec0 n c); [by apply lookup_key_elem|done]. }
      eapply check_resolves; [done| |right; by apply timeout_route].
      unfold node_outcomes. rewrite Hc, Hs, !elem_of_app. do 3 right. by right; left.
    + by eapply edge_resolves.
  - intros n o t. apply (engine_target_ok (Clean.apply spec0)), clean_commands.
  - intros t. by apply (special_not_node (Clean.apply spec0)).
Qed.

(** A set of nodes closed under the routes of the engine. *)
Class Closed `{Validators} (spec : WorkflowSpec) (V : text -> Prop) : Prop := {
  closed_node : forall n, V n -> is_node spec n = true;
  closed_route : forall n out n', V n -> engine_target spec n out = Some n' ->
    is_node spec n' = true -> V n'
}.

(** ** Results that do not panic *)

Definition post {A} (f : fallible A) (Q : A -> Prop) : Prop :=
  match f with Ok a => Q a | Err Panicked => False | Err _ => True end.

Lemma post_weaken {A} (f : fallible A) (Q Q' : A -> Prop) :
  post f Q -> (forall a, Q a -> Q' a) -> post f Q'.
Proof. destruct f as [a|[]]; cbn; auto. Qed.

Lemma post_and {A} (f : fallible A) (Q Q' : A -> Prop) : post f Q -> post f Q' -> post f (fun a => Q a /\ Q' a).
Proof. destruct f as [a|[]]; cbn; auto. Qed.

(** Continue after a result known to satisfy [post]: the value and its fact. *)
Ltac post_step H x :=
  lazymatch type of H with
  | post ?f _ =>
      let E := fresh "E" in
      destruct f as [x|[]] eqn:E; cbn [post] in H; [|exact I|exact I|exact I|destruct H]
  end.

Lemma expect_post {A} (o : option A) (Q : A -> Prop) x : o = Some x -> Q x -> post (expect o) Q.
Proof. by intros ->. Qed.

(** ** Objects and verdicts *)

(** An object whose outcome is not the engine's [hold]. *)
Definition plain (o : Value) : Prop :=
  match o with JObject _ => str_at (str "outcome") o <> Some (str "hold") | _ => False end.

Lemma lookup_set_key {V} k k' (x : V) l :
  lookup_key k' (set_key k x l) = if decide (k' = k) then Some x else lookup_key k' l.
Proof.
  unfold lookup_key. induction l as [|[k0 y] l IH]; cbn.
  - repeat case_bool_decide; repeat case_decide; try congruence; done.
  - destruct (decide (k0 = k)) as [->|Hk]; cbn.
    + repeat case_bool_decide; repeat case_decide; congruence || done.
    + case_bool_decide; cbn; [|apply IH]. case_decide; congruence.
Qed.

Lemma value_set_object k x fields : exists o, value_set k x (JObject fields) = Some o
  /\ (exists fields', o = JObject fields') /\ forall k', k' <> k -> value_get k' o = lookup_key k' fields.
Proof.
  eexists. split; [done|]. split; [by eexists|]. intros k' Hk. cbn. rewrite lookup_set_key.
  by rewrite decide_False.
Qed.

Section WellFormed.
Context `{Validators} (spec : WorkflowSpec).
(** The nodes the run may be at. *)
Context (V : text -> Prop).

Definition node_kind_of (node : text) (k : AttemptKind.AttemptKind) : Prop :=
  match lookup_key node (steps spec) with
  | Some step => k = if Step.is_agent step then AttemptKind.Agent else AttemptKind.Script
  | None => exists check, lookup_key node (checks spec) = Some check
            /\ k = if Check.is_agent check then AttemptKind.Judge else AttemptKind.Script
  end.

Definition target_ok (t : text) : Prop := V t \/ t ∈ SPECIAL.

(** What a route carries: an object, and a [hold] only into a wait, with a
    case of the node. *)
Definition answer_ok (node target : text) (o : Value) : Prop :=
  target_ok target
  /\ (plain o \/ (exists fields, o = JObject fields) /\ target = str "@wait"
              /\ forall c, case_index o = Some c -> is_Some (case_at spec node c)).

Definition verdict_ok (v : Verdict) : Prop :=
  V (verdict_node v) /\ answer_ok (verdict_node v) (verdict_target v) (verdict_object v).

Definition within (s : Step) (vs : StepVisits) (grant : N) : Prop :=
  (forall m, max_visits s = Some m -> (total vs <= saturating_add_u64 m grant)%N)
  /\ (forall cap b, max_visits_per_outcome s = Some cap ->
        (for_bucket vs b <= saturating_add_u64 (cap_limit cap) grant)%N).

(** An attempt of a record: of the kind of its node, with its visit counted,
    and staged evidence once it is ending. *)
Record fits (r : RunRecord) (a : LiveAttempt) : Prop := {
  fit_node : V (attempt_node a);
  fit_kind : node_kind_of (attempt_node a) (attempt_kind a);
  fit_seq : (seq a < next_seq r)%N;
  fit_visit : contains_key (attempt_node a) (steps spec) = true -> visit a <> None;
  fit_visits : contains_key (attempt_node a) (steps spec) = true -> ending a = None ->
    is_Some (visits r !! attempt_node a);
  fit_ending : forall e, ending a = Some e ->
    attempt_kind a = AttemptKind.Agent /\ is_Some (prev_attempt r)
    /\ forall v, ending_route e = Some v -> verdict_ok v /\ plain (verdict_object v);
  fit_push : push a <> None -> attempt_run a <> None;
  fit_until : attempt_lifecycle a = Until -> contains_key (attempt_node a) (steps spec) = true
}.

Record held_ok (r : RunRecord) (h : HeldSession) : Prop := {
  held_fits : fits r (held_attempt h);
  held_agent : agent_step spec (attempt_node (held_attempt h));
  held_open : ending (held_attempt h) = None;
  held_judged : judged (held_attempt h) <> None;
  held_run : attempt_run (held_attempt h) <> None;
  held_check : contains_key (run_node r) (checks spec) = true;
  held_verdicts : forall v, held_verdict h = Some v ->
    attempt r = None /\ verdict_node v = run_node r /\ verdict_ok v
}.

Record WellFormed (r : RunRecord) : Prop := {
  wf_node : V (run_node r);
  wf_input : forall o, input r = Some o -> plain o;
  wf_attempt : forall a, attempt r = Some a ->
    run_state r = RunState.Active /\ attempt_node a = run_node r /\ fits r a;
  wf_held : forall h, held r = Some h -> run_state r = RunState.Active /\ held_ok r h;
  wf_active : run_state r = RunState.Active -> park r = None;
  wf_parked : run_state r = RunState.Parked -> is_Some (park r);
  wf_terminal : RunState.is_terminal (run_state r) = true <-> is_Some (terminal_at r);
  wf_prev : forall p, prev_attempt r = Some p -> (prev_seq p < next_seq r)%N;
  wf_distinct : forall a h, attempt r = Some a -> held r = Some h -> seq a <> seq (held_attempt h);
  wf_prev_live : forall a p, attempt r = Some a -> prev_attempt r = Some p ->
    prev_seq p = seq a -> prev_step p = attempt_node a /\ is_Some (ending a);
  wf_prev_held : forall h p, held r = Some h -> prev_attempt r = Some p ->
    prev_seq p <> seq (held_attempt h);
  wf_within : forall n s vs, lookup_key n (steps spec) = Some s -> visits r !! n = Some vs ->
    within s vs (visit_grant r)
}.

(** The attempts of a record, with whether each has an ending: the live one,
    the held session and the previous one. *)
Definition mark_of (a : LiveAttempt) : N * text * bool := (seq a, attempt_node a, is_some (ending a)).
Definition marks (r : RunRecord) : list (N * text * bool) :=
  option_list (option_map mark_of (attempt r))
  ++ option_list (option_map (fun h => mark_of (held_attempt h)) (held r))
  ++ option_list (option_map (fun p => (prev_seq p, prev_step p, true)) (prev_attempt r)).

(** Every attempt of [r'] is one of [r], still ending if it was, or newer. *)
Definition descends (r r' : RunRecord) : Prop :=
  (next_seq r <= next_seq r')%N
  /\ forall s n e, (s, n, e) ∈ marks r' ->
       (exists e0, (s, n, e0) ∈ marks r /\ (e0 = true -> e = true)) \/ (next_seq r <= s)%N.

(** An attempt read earlier still is what the record knows it by. *)
Definition agrees (a : LiveAttempt) (r : RunRecord) : Prop :=
  (seq a < next_seq r)%N
  /\ forall s n e, (s, n, e) ∈ marks r -> s = seq a ->
       n = attempt_node a /\ (is_some (ending a) = true -> e = true).
End WellFormed.

(** The fields of [WellFormed] that an update leaves alone or makes vacuous. *)
Ltac wf_auto := first [solve [auto] | solve [intros; congruence] | idtac].

(** ** Descent *)

Lemma descends_refl r : descends r r.
Proof. split; [lia|]. intros s n e He. left. by exists e. Qed.

Lemma descends_trans r1 r2 r3 : descends r1 r2 -> descends r2 r3 -> descends r1 r3.
Proof.
  intros [Hn1 H1] [Hn2 H2]. split; [lia|]. intros s n e [(e0 & He0 & Hc)|?]%H2; [|right; lia].
  apply H1 in He0 as [(e1 & He1 & Hc1)|?]; [left; eauto|by right].
Qed.
#[export] Instance descends_preorder : PreOrder descends.
Proof. split; [exact descends_refl|exact descends_trans]. Qed.

Lemma descends_agrees a r r' : descends r r' -> agrees a r -> agrees a r'.
Proof.
  intros [Hn Hd] [Hs Ha]. split; [lia|]. intros s n e [(e0 & He0 & Hc)|?]%Hd; [|lia].
  intros Hsa. destruct (Ha s n e0 He0 Hsa) as [-> He]. auto.
Qed.

Lemma descends_incl r r' : next_seq r = next_seq r' ->
  (forall s n e, (s, n, e) ∈ marks r' -> exists e0, (s, n, e0) ∈ marks r /\ (e0 = true -> e = true)) ->
  descends r r'.
Proof. intros Hn Hm. split; [lia|]. eauto. Qed.

Lemma elem_of_option_list {A} (x : A) o : x ∈ option_list o <-> o = Some x.
Proof.
  destruct o as [y|]; cbn; [rewrite list_elem_of_singleton|rewrite elem_of_nil].
  - split; congruence.
  - by split.
Qed.

Lemma elem_of_marks r m : m ∈ marks r <->
  (exists a, attempt r = Some a /\ m = mark_of a)
  \/ (exists h, held r = Some h /\ m = mark_of (held_attempt h))
  \/ (exists p, prev_attempt r = Some p /\ m = (prev_seq p, prev_step p, true)).
Proof.
  unfold marks. rewrite !elem_of_app, !elem_of_option_list, !fmap_Some. naive_solver.
Qed.

(** ** What the invariant reads *)

Definition core (r : RunRecord) :=
  (run_state r, park r, run_node r, input r, visits r, visit_grant r, attempt r, held r,
   prev_attempt r, terminal_at r, next_seq r).

Lemma core_inv r r' : core r = core r' ->
  run_state r' = run_state r /\ park r' = park r /\ run_node r' = run_node r /\ input r' = input r
  /\ visits r' = visits r /\ visit_grant r' = visit_grant r /\ attempt r' = attempt r
  /\ held r' = held r /\ prev_attempt r' = prev_attempt r /\ terminal_at r' = terminal_at r
  /\ next_seq r' = next_seq r.
Proof. unfold core. intros E. simplify_eq. by split_and!. Qed.

Lemma core_descends r r' : core r = core r' -> descends r r'.
Proof.
  intros (_ & _ & _ & _ & _ & _ & Ea & Eh & Ep & _ & En)%core_inv.
  apply descends_incl; [done|]. intros s n e He. exists e. split; [|done].
  rewrite elem_of_marks in *. by rewrite <- Ea, <- Eh, <- Ep.
Qed.

Section Core.
Context `{Validators} (spec : WorkflowSpec) (V : text -> Prop).

Lemma fits_same r r' a : next_seq r' = next_seq r -> visits r' = visits r ->
  (is_Some (prev_attempt r) -> is_Some (prev_attempt r')) ->
  fits spec V r a -> fits spec V r' a.
Proof.
  intros En Ev Ep []. split; rewrite ?En, ?Ev; auto. intros e He.
  destruct (fit_ending0 e He) as (? & ? & ?). auto.
Qed.

Lemma core_wf r r' : core r = core r' -> WellFormed spec V r -> WellFormed spec V r'.
Proof.
  intros (Es & Ek & En & Ei & Ev & Eg & Ea & Eh & Ep & Et & Eq)%core_inv [].
  assert (Hf : forall a, fits spec V r a -> fits spec V r' a)
    by (intros a; apply fits_same; congruence).
  split; rewrite ?Es, ?Ek, ?En, ?Ei, ?Ev, ?Eg, ?Et, ?Ep, ?Eq, ?Ea, ?Eh; auto.
  - intros a Ha. destruct (wf_attempt0 a Ha) as (? & ? & ?). auto.
  - intros h Hh. destruct (wf_held0 h Hh) as [? []]. split; [done|].
    split; auto; [congruence|]. intros v Hv. rewrite Ea, En. auto.
Qed.

Lemma wf_drop r : WellFormed spec V r -> WellFormed spec V (r <| attempt := None |>).
Proof.
  intros []. split; cbn; [auto|auto|done| |wf_auto..].
  intros h Hh. destruct (wf_held0 h Hh) as [? []]. split; [done|]. split; [|done..|].
  - by apply (fits_same r).
  - intros v Hv. by destruct (held_verdicts0 v Hv).
Qed.
End Core.

(** ** Bounds do not panic *)

Section BoundFacts.
Context `{Validators} (spec : WorkflowSpec).

Lemma duration_post raw : post (duration raw) (fun _ => True).
Proof. unfold duration. by destruct (parse_duration raw). Qed.

Lemma hold_until_post r case now_ : post (hold_until spec r case now_) (fun _ => True).
Proof.
  unfold hold_until. destruct (case_at spec (run_node r) case) as [c|]; cbn; [|done].
  destruct (case_hold c) as [raw|]; cbn; [|done].
  pose proof (duration_post raw) as Hd. by post_step Hd d.
Qed.

Lemma timeout_at_post r : post (timeout_at spec r) (fun o =>
  o <> None ->
  (exists c, lookup_key (run_node r) (checks spec) = Some c /\ timeout c <> None)
  \/ (lookup_key (run_node r) (checks spec) = None /\ attempt r <> None)).
Proof.
  unfold timeout_at. destruct (lookup_key (run_node r) (checks spec)) as [c|].
  - destruct (timeout c) as [raw|] eqn:Et; cbn; [|done].
    pose proof (duration_post raw) as Hd. post_step Hd d. intros _. left. exists c. by rewrite Et.
  - destruct (attempt r) as [a|]; cbn; [|done]. destruct (_ || _); cbn; [done|].
    destruct (Agents.ts_checked_add _ _); cbn; [|done].
    destruct (match lookup_key (run_node r) (steps spec) with Some s => step_timeout s | None => None end)
      as [raw|]; cbn; [|done].
    pose proof (duration_post raw) as Hd. post_step Hd d. intros _. by right.
Qed.

Lemma first_bound_post r hold_ now_ : post (first_bound spec r hold_ now_) (fun _ => True).
Proof.
  unfold first_bound. pose proof (timeout_at_post r) as Ht. post_step Ht timeout_.
  destruct hold_ as [index|]; cbn; [|done].
  pose proof (hold_until_post r index now_) as Hh. by post_step Hh until_.
Qed.

Lemma bounded_recheck_post t at_ : post (bounded_recheck spec t at_) (fun _ => True).
Proof.
  unfold bounded_recheck. pose proof (first_bound_post (record t) None (now t)) as Hb. by post_step Hb b.
Qed.
End BoundFacts.

(** ** Waits *)

(** The same record as far as the invariant reads it, at the same time. *)
Definition same (t t' : Transition) : Prop := core (record t) = core (record t') /\ now t' = now t.

#[export] Instance same_equiv : Equivalence same.
Proof.
  split; red; unfold same; [done|by intros ?? [-> ->]|].
  intros t1 t2 t3 [-> <-] [-> <-]. done.
Qed.

Lemma close_wait_same t : same t (close_wait t).
Proof. unfold close_wait. by destruct (wait (record t)). Qed.

Lemma step_wait_same t o d : same t (step_wait t o d).
Proof.
  unfold step_wait. case_match; [|done]. by destruct (close_wait_same t) as [? ?].
Qed.

Lemma step_wait_wait t o d : is_Some (wait (record (step_wait t o d))).
Proof. unfold step_wait. case_match; by eexists. Qed.

Section MergeWait.
Context `{Validators, Rfc3339} (spec : WorkflowSpec).

Lemma merge_wait_post t object_ at_ recheck :
  (str_at (str "outcome") object_ = Some (str "hold") ->
   forall c, case_index object_ = Some c -> is_Some (case_at spec (run_node (record t)) c)) ->
  post (merge_wait spec t object_ at_ recheck) (fun t' => same t t' /\ exists w,
    wait (record t') = Some w /\ wait_outcome w = default [] (str_at (str "outcome") object_)).
Proof.
  intros Hcase. unfold merge_wait.
  set (outcome_ := default [] (str_at (str "outcome") object_)).
  set (case := if decide (outcome_ = str "hold") then case_index object_ else None).
  assert (Hc : forall c, case = Some c -> is_Some (case_at spec (run_node (record t)) c)).
  { intros c. subst case. destruct (decide (outcome_ = str "hold")) as [Ho|]; [|done].
    apply Hcase. subst outcome_. destruct (str_at (str "outcome") object_); cbn in Ho; [by f_equal|done]. }
  set (detail := match case with Some c => _ | None => _ end).
  assert (Hd : post detail (fun _ => True)).
  { subst detail. destruct case as [c|] eqn:Ec; [|done]. by destruct (Hc c eq_refl) as [x ->]. }
  post_step Hd detail_. clear detail E Hd Hc Hcase.
  set (recheck_ := if recheck then _ else _).
  assert (Hr : post recheck_ (fun _ => True)).
  { subst recheck_. destruct recheck; [|done].
    destruct case as [c|].
    - pose proof (hold_until_post spec (record t) c (now t)) as Hh. post_step Hh u.
      apply bounded_recheck_post.
    - apply bounded_recheck_post. }
  post_step Hr recheck'. clear recheck_ E Hr. cbn [post].
  destruct (wait (record t)) as [w|] eqn:Ew; cbn [is_some_and].
  - case_bool_decide as Hw; cbn [negb].
    + split; [done|]. eexists. split; [done|]. cbn. rewrite Ew. cbn. by injection Hw.
    + split; [by destruct (close_wait_same t)|]. eexists. split; [done|]. cbn.
      unfold close_wait. by rewrite Ew.
  - split; [done|]. eexists. split; [done|]. cbn. by rewrite Ew.
Qed.
End MergeWait.

(** ** Routes *)

Lemma case_index_plain o c : plain o -> str_at (str "outcome") o = Some (str "hold") -> case_index o = Some c -> False.
Proof. unfold plain. by destruct o. Qed.

Lemma str_at_set k x fields o k' : value_set k x (JObject fields) = Some o -> k' <> k ->
  str_at k' o = str_at k' (JObject fields).
Proof.
  intros Ho Hk. destruct (value_set_object k x fields) as (o' & Ho' & _ & Hg). simplify_eq.
  unfold str_at. rewrite (Hg k' Hk). done.
Qed.

Section Routes.
Context `{Validators, Rfc3339} (spec : WorkflowSpec) (V : text -> Prop).
Implicit Types (t : Transition) (o : Value).
Local Abbreviation WF := (WellFormed spec V).

Lemma engine_object_post t o : plain o -> post (engine_object t o) (fun o' =>
  plain o' /\ forall k, k <> str "key" -> str_at k o' = str_at k o).
Proof.
  intros Ho. unfold engine_object. destruct (key (record t)) as [k|]; [|by split].
  destruct o as [| | | | |fields]; try done.
  destruct (value_set_object (str "key") (value_of_key k) fields) as (o' & Ho' & [f' ->] & Hg).
  rewrite Ho'. cbn [expect post].
  assert (Hk : forall k', k' <> str "key" -> str_at k' (JObject f') = str_at k' (JObject fields))
    by (intros k' Hk'; by eapply str_at_set).
  split; [|done]. unfold plain. by rewrite Hk.
Qed.

Lemma core_drop r r' : core r = core r' -> core (r <| attempt := None |>) = core (r' <| attempt := None |>).
Proof.
  intros (Es & Ek & En & Ei & Ev & Eg & Ea & Eh & Ep & Et & Eq)%core_inv. unfold core. cbn.
  by rewrite Es, Ek, En, Ei, Ev, Eg, Eh, Ep, Et, Eq.
Qed.

Lemma descends_same r r' : attempt r' = attempt r -> held r' = held r ->
  prev_attempt r' = prev_attempt r -> next_seq r' = next_seq r -> descends r r'.
Proof.
  intros Ea Eh Ep En. apply descends_incl; [done|]. intros s n e He. exists e. split; [|done].
  rewrite elem_of_marks in *. by rewrite Ea, Eh, Ep in He.
Qed.

(** Dropping the live attempt, changing nothing else that makes a mark. *)
Lemma descends_drop r r' : attempt r' = None -> held r' = held r -> prev_attempt r' = prev_attempt r ->
  next_seq r' = next_seq r -> descends r r'.
Proof.
  intros Ea Eh Ep En. apply descends_incl; [done|]. intros s n e He. exists e. split; [|done].
  rewrite elem_of_marks in *. rewrite Ea, Eh, Ep in He. naive_solver.
Qed.

Lemma wf_input_set r o : plain o -> WF r -> WF (r <| key := object_key o |> <| input := Some o |>).
Proof.
  intros Ho []. split; cbn; auto.
  - intros o' [= <-]. done.
  - intros a Ha. destruct (wf_attempt0 a Ha) as (? & ? & ?). split_and!; [done|done|]. by apply (fits_same _ _ r).
  - intros h Hh. destruct (wf_held0 h Hh) as [? []]. split; [done|]. split; auto. by apply (fits_same _ _ r).
Qed.

Lemma deliver_post t sleep o :
  WF (record t <| attempt := None |>) ->
  plain o \/ is_some_and (wait (record t)) is_hold = true ->
  WF (record (deliver t sleep o)) /\ descends (record t) (record (deliver t sleep o))
  /\ attempt (record (deliver t sleep o)) = None /\ now (deliver t sleep o) = now t
  /\ run_state (record (deliver t sleep o)) = run_state (record t).
Proof.
  intros Hwf Ho. unfold deliver. cbn [update record]. destruct (sleep || _) eqn:Hs.
  - split_and!; [done|by apply descends_drop|done..].
  - apply orb_false_iff in Hs as [_ Hs]. cbn in Hs. destruct Ho as [Ho|Ho]; [|congruence].
    split_and!; [by apply wf_input_set|by apply descends_drop|done..].
Qed.

(** What every method leaves behind: a well-formed record that descends from
    the one it started with. *)
Definition leaves (r : RunRecord) (t' : Transition) : Prop := WF (record t') /\ descends r (record t').

Lemma leaves_weaken r r' t' : descends r r' -> leaves r' t' -> leaves r t'.
Proof. intros Hd [Hw Hd']. split; [done|]. by etransitivity. Qed.

Lemma wf_enter r target_ : V target_ -> held r = None -> attempt r = None -> WF r ->
  forall now_, WF (r <| run_node := target_ |> <| entered_at := now_ |> <| check_retry := 0%N |>
                     <| check_retry_context := None |>).
Proof.
  intros Ht Hh Ha [] now_. split; cbn; [auto|auto|by rewrite Ha|by rewrite Hh|wf_auto..].
Qed.

Lemma wf_end r state now_ : RunState.is_terminal state = true -> held r = None -> attempt r = None -> WF r ->
  WF (r <| run_state := state |> <| terminal_at := Some now_ |>).
Proof.
  intros Ht Hh Ha []. split; cbn;
    [auto|auto|by rewrite Ha|by rewrite Hh|by destruct state|by destruct state| |wf_auto..].
  split; [by eexists|done].
Qed.

Lemma wf_park r p : held r = None -> attempt r = None -> run_state r = RunState.Active -> WF r ->
  WF (r <| run_state := RunState.Parked |> <| park := Some p |>).
Proof.
  intros Hh Ha Hs []. split; cbn; [auto|auto|by rewrite Ha|by rewrite Hh|done|by eexists| |wf_auto..].
  rewrite <- wf_terminal0, Hs. done.
Qed.

Lemma wf_verdict r h v : held r = Some h -> verdict_node v = run_node r -> verdict_ok spec V v ->
  WF (r <| attempt := None |>) ->
  WF (r <| held := Some (h <| held_verdict := Some v |>) |> <| attempt := None |>).
Proof.
  intros Hh Hn Hv []. split; cbn in *; [auto|auto|done| |wf_auto..].
  - intros h' [= <-]. destruct (wf_held0 h Hh) as [? []]. split; [done|]. split; auto.
    + by apply (fits_same _ _ (r <| attempt := None |>)).
    + intros v'. cbn. by intros [= <-].
  - intros h' p [= <-] Hp. by apply (wf_prev_held0 h p).
Qed.

Lemma special_cases (n : text) : n ∈ SPECIAL ->
  n = str "@wait" \/ (n = str "@done" \/ n = str "@failed") \/ n = str "@user".
Proof. unfold SPECIAL. rewrite !elem_of_cons, elem_of_nil. tauto. Qed.

Lemma route_post t target_ o reason :
  run_state (record t) = RunState.Active -> WF (record t <| attempt := None |>) ->
  answer_ok spec V (run_node (record t)) target_ o ->
  post (route spec t target_ o reason) (fun t' => leaves (record t) t'
    /\ attempt (record t') = None /\ now t' = now t).
Proof.
  intros Hs Hwf [Ht Ho]. unfold route. rewrite Hs. cbn [RunState.is_terminal].
  destruct (held (record t)) as [h|] eqn:Eh.
  { cbn [post]. split_and!; [split|done..].
    - apply (wf_verdict (record t) h _ Eh); [done| |done]. split; [apply Hwf|]. by split.
    - apply descends_incl; [done|]. intros s n e He. exists e. split; [|done].
      rewrite elem_of_marks in *. cbn in He. rewrite Eh. naive_solver. }
  destruct (decide (target_ = str "@wait")) as [Hw|Hw].
  - pose proof (merge_wait_post spec t o (now t) true) as Hm.
    assert (Hp : str_at (str "outcome") o = Some (str "hold") ->
      forall c, case_index o = Some c -> is_Some (case_at spec (run_node (record t)) c)).
    { intros Hh c Hc. destruct Ho as [Ho|(_ & _ & Ho)]; [|by apply Ho]. by destruct (case_index_plain o c). }
    specialize (Hm Hp). post_step Hm t1. destruct Hm as [[Hc Hn] (w & Ew & Hwo)]. cbn [post].
    destruct (deliver_post t1 (is_some_and (lookup_key (run_node (record t)) (checks spec)) Check.is_sleep) o)
      as (? & Hd & ? & ? & ?).
    + eapply core_wf; [by apply core_drop|done].
    + destruct Ho as [Ho|([fields ->] & _)]; [by left|].
      destruct (decide (str_at (str "outcome") (JObject fields) = Some (str "hold"))) as [Hh|Hh]; [right|by left].
      rewrite Ew. cbn. unfold is_hold. rewrite Hwo, Hh. by apply bool_decide_eq_true.
    + split_and!; [split; [done|]|done|congruence]. etransitivity; [by apply core_descends|done].
  - assert (Hpl : plain o) by (destruct Ho as [?|(_ & ? & _)]; [done|congruence]).
    destruct (close_wait_same t) as [Hc Hn]. pose proof (core_inv _ _ Hc) as (Ecs & _ & _ & _ & _ & _ & _ & Ech & _).
    set (t0 := close_wait t) in *. clearbody t0.
    assert (Hwf0 : WF (record t0 <| attempt := None |>)) by (eapply core_wf; [by apply core_drop|done]).
    set (t1 := if decide (target_ = str "@done" \/ _) then _ else _).
    assert (H1 : WF (record t1 <| attempt := None |>) /\ descends (record t0) (record t1) /\ now t1 = now t0).
    { subst t1. destruct (decide (target_ = str "@done" \/ target_ = str "@failed")) as [Hd|Hd].
      { split_and!; [|by apply descends_same|done].
        refine (wf_end (record t0 <| attempt := None |>) _ (now t0) _ _ _ _);
          [by destruct (decide _)|cbn; congruence|done..]. }
      destruct (decide (target_ = str "@user")) as [Hu|Hu].
      { split_and!; [|by apply descends_same|done].
        refine (wf_park (record t0 <| attempt := None |>) _ _ _ _ _); [cbn; congruence|done|cbn; congruence|done]. }
      split_and!; [|by apply descends_same|done].
      refine (wf_enter (record t0 <| attempt := None |>) _ _ _ _ _ (now t0)); [|cbn; congruence|done..].
      destruct Ht as [?|Ht%special_cases]; [done|tauto]. }
    cbn [post]. destruct H1 as (Hwf1 & Hd1 & Hn1).
    destruct (deliver_post t1 (is_some_and (lookup_key (run_node (record t)) (checks spec)) Check.is_sleep) o)
      as (? & Hd & ? & ? & ?); [done|by left|].
    split_and!; [split; [done|]|done|congruence].
    etransitivity; [by apply core_descends|]. by etransitivity.
Qed.

Lemma wf_delete_visits r n : attempt r = None -> held r = None -> WF r ->
  WF (r <| visits := delete n (visits r) |>).
Proof.
  intros Ha Hh []. split; cbn; [auto|auto|by rewrite Ha|by rewrite Hh|wf_auto..].
  intros n' s vs Hs [_ Hv]%lookup_delete_Some. eauto.
Qed.

Lemma wf_restart r step now_ : V step -> attempt r = None -> held r = None ->
  RunState.is_terminal (run_state r) = false -> WF r ->
  WF (r <| run_node := step |> <| entered_at := now_ |> <| park := None |>
        <| run_state := RunState.Active |> <| check_retry := 0%N |> <| check_retry_context := None |>).
Proof.
  intros Hv Ha Hh Hs []. split; cbn; [auto|auto|by rewrite Ha|by rewrite Hh|done|done| |wf_auto..].
  by rewrite <- wf_terminal0, Hs.
Qed.

Lemma restart_step_post t step continued :
  V step -> attempt (record t) = None -> held (record t) = None ->
  RunState.is_terminal (run_state (record t)) = false -> WF (record t) ->
  leaves (record t) (restart_step t step continued)
  /\ attempt (record (restart_step t step continued)) = None.
Proof.
  intros Hv Ha Hh Hs Hwf. unfold restart_step, reset_visits. destruct (close_wait_same t) as [Hc _].
  pose proof (core_inv _ _ Hc) as (Es & _ & _ & _ & _ & _ & Ea & Eh & Ep & _ & En).
  set (t0 := close_wait t) in *. clearbody t0. split; [split|cbn; congruence].
  - refine (wf_restart (record t0 <| visits := delete step (visits (record t0)) |>) step (now t0) Hv _ _ _ _);
      [cbn; congruence..|].
    apply wf_delete_visits; [congruence..|]. by eapply core_wf.
  - apply descends_same; cbn; congruence.
Qed.

Lemma cancel_run_post t reason :
  attempt (record t) = None -> held (record t) = None -> WF (record t) ->
  leaves (record t) (cancel_run t reason) /\ attempt (record (cancel_run t reason)) = None.
Proof.
  intros Ha Hh Hwf. split; [split|done].
  - by refine (wf_end (record t) RunState.Canceled (now t) _ _ _ _).
  - by apply descends_same.
Qed.

Lemma turn_end_record t a action v reason : judged a <> None ->
  post (turn_end t a action v reason) (fun t' => record t' = record t /\ now t' = now t).
Proof. unfold turn_end. by destruct (judged a). Qed.

Context `{!Sealed spec}.
Context `{!Closed spec V}.

Lemma target_of_ok n out : V n -> is_Some (engine_target spec n out) -> post (target_of spec n out) (target_ok V).
Proof.
  intros Hn [t' Ht]. unfold target_of. rewrite Ht. cbn.
  destruct (sealed_target _ _ _ Ht) as [?|?]; [left; by eapply closed_route|by right].
Qed.

Lemma step_target_ok n s out : V n -> lookup_key n (steps spec) = Some s -> out ∈ STEP_TRIGGERS ->
  post (target_of spec n out) (target_ok V).
Proof. intros Hn Hs Ho. apply target_of_ok; [done|]. by eapply sealed_step. Qed.

(** The deadline routes from every node. *)
Lemma deadline_target_ok n : V n -> post (target_of spec n (str "deadline")) (target_ok V).
Proof.
  intros Hn. apply target_of_ok; [done|]. pose proof (closed_node n Hn) as Hi.
  apply is_node_spec in Hi. unfold node_names in Hi. rewrite elem_of_app, <- !contains_key_spec in Hi.
  destruct (lookup_key n (checks spec)) as [c|] eqn:Ec.
  - eapply sealed_check; [done|by left].
  - destruct Hi as [Hi|Hi]; [unfold contains_key in Hi; by rewrite Ec in Hi|].
    unfold contains_key in Hi. destruct (lookup_key n (steps spec)) as [s|] eqn:Es; [|done].
    eapply sealed_step; [done|]. unfold STEP_TRIGGERS. rewrite !elem_of_cons. tauto.
Qed.

Lemma engine_route_post t outcome_ o target_ reason :
  run_state (record t) = RunState.Active -> WF (record t <| attempt := None |>) ->
  target_ok V target_ -> plain o ->
  post (engine_route spec t outcome_ o target_ reason) (fun t' => leaves (record t) t'
    /\ attempt (record t') = None /\ now t' = now t).
Proof.
  intros Hs Hwf Ht Ho. unfold engine_route. pose proof (engine_object_post t o Ho) as He.
  post_step He o'.
  destruct He as [He _]. apply (route_post (push_entry t _ _)); [done|done|]. split; [done|]. by left.
Qed.

(** ** Ends of attempts *)

(** A record between attempts. *)
Definition idle (r : RunRecord) : Prop :=
  WF r /\ run_state r = RunState.Active /\ attempt r = None /\ held r = None.

Definition settled_ok (r : RunRecord) (t' : Transition) : Prop :=
  leaves r t' /\ attempt (record t') = None.

Lemma idle_drop r : idle r -> WF (r <| attempt := None |>).
Proof. intros (Hwf & _). by apply wf_drop. Qed.

Lemma idle_core r r' : core r = core r' -> idle r -> idle r'.
Proof.
  intros Hc (Hwf & Hs & Ha & Hh). pose proof (core_inv _ _ Hc) as (Es & _ & _ & _ & _ & _ & Ea & Eh & _).
  split_and!; [by eapply core_wf|congruence..].
Qed.

Lemma json_plain (out : text) (fields : list (string * Value)) :
  out <> str "hold" -> plain (json (("outcome"%string, JString out) :: fields)).
Proof. intros Ho. change (Some out <> Some (str "hold")). congruence. Qed.

(** A routed transition, from a record that reads the same. *)
Lemma routed_settled r t t' : descends r (record t) ->
  leaves (record t) t' /\ attempt (record t') = None /\ now t' = now t -> settled_ok r t'.
Proof. intros Hd (Hl & ? & _). split; [by eapply leaves_weaken|done]. Qed.

Lemma settle_verdict_post t a v : idle (record t) -> verdict_ok spec V v -> plain (verdict_object v) ->
  post (settle_verdict spec t a v) (settled_ok (record t)).
Proof.
  intros (Hwf & Hs & Ha & Hh) [HVv [Ht Ho]] Hpl. unfold settle_verdict.
  set (ft := if is_some (judged a) then _ else _).
  assert (Hft : post ft (fun t' => record t' = record t /\ now t' = now t)).
  { subst ft. destruct (judged a) eqn:Ej; cbn [is_some]; [|done]. apply turn_end_record. by rewrite Ej. }
  clearbody ft. post_step Hft t1. destruct Hft as [E1 _].
  set (t2 := update t1 _).
  assert (E2 : record t2 = record t <| run_node := verdict_node v |> <| entered_at := verdict_entered_at v |>)
    by (subst t2; cbn [update]; by rewrite <- E1).
  clearbody t2. eapply post_weaken.
  - apply (route_post t2); rewrite E2; [done| |by split; [|left]].
    destruct Hwf. split; cbn; [done|auto|done|by rewrite Hh|wf_auto..].
  - intros t'. apply routed_settled. rewrite E2. by apply descends_same.
Qed.

Lemma settle_deadline_post t : idle (record t) -> post (settle_deadline spec t) (settled_ok (record t)).
Proof.
  intros Hi. unfold settle_deadline. set (t1 := update t _).
  assert (Hc : core (record t) = core (record t1)) by done. clearbody t1.
  pose proof (idle_core _ _ Hc Hi) as Hi1.
  pose proof (deadline_target_ok (run_node (record t1)) ltac:(apply Hi1)) as Ht. post_step Ht target_.
  eapply post_weaken; [apply engine_route_post; [apply Hi1|by apply idle_drop|done|by apply json_plain]|].
  intros t'. by apply routed_settled, core_descends.
Qed.

Lemma settle_asked_post t s asked_ : idle (record t) -> lookup_key (run_node (record t)) (steps spec) = Some s ->
  post (settle_asked spec t asked_) (settled_ok (record t)).
Proof.
  intros Hi Hs. unfold settle_asked.
  pose proof (step_target_ok _ s (str "asked") ltac:(apply Hi) Hs ltac:(unfold STEP_TRIGGERS; set_solver)) as Ht.
  post_step Ht target_.
  eapply post_weaken; [apply engine_route_post; [apply Hi|by apply idle_drop|done|by apply json_plain]|].
  intros t'. by apply routed_settled.
Qed.

Lemma settle_then_post t s : idle (record t) -> lookup_key (run_node (record t)) (steps spec) = Some s ->
  post (settle_then spec t) (settled_ok (record t)).
Proof.
  intros Hi Hs. unfold settle_then.
  pose proof (step_target_ok _ s (str "then") ltac:(apply Hi) Hs ltac:(unfold STEP_TRIGGERS; set_solver)) as Ht.
  post_step Ht target_.
  assert (Hpl : plain (default (json []) (input (record t)))).
  { destruct (input (record t)) as [o|] eqn:Ei; [|done]. eapply wf_input; [apply Hi|done]. }
  pose proof (engine_object_post t _ Hpl) as He. post_step He o. destruct He as [He _].
  eapply post_weaken; [apply route_post; [apply Hi|by apply idle_drop|by split; [|left]]|].
  intros t'. by apply routed_settled.
Qed.

Lemma settle_cancel_post t reason : idle (record t) ->
  settled_ok (record t) (cancel_run (update (close_wait t) (fun r => r <| restart := None |>)) reason).
Proof.
  intros Hi. set (t1 := update (close_wait t) _).
  assert (Hc : core (record t) = core (record t1)) by apply (close_wait_same t). clearbody t1.
  destruct (idle_core _ _ Hc Hi) as (Hwf & _ & Ha & Hh).
  destruct (cancel_run_post t1 reason Ha Hh Hwf) as [Hl Hat]. split; [|done].
  by eapply leaves_weaken; [apply core_descends|].
Qed.

(** The end of an attempt of the step the record is at. *)
Lemma settle_step_post t a s e reason :
  idle (record t) -> attempt_node a = run_node (record t) ->
  lookup_key (run_node (record t)) (steps spec) = Some s -> is_Some (prev_attempt (record t)) ->
  (forall v, ending_route e = Some v -> verdict_ok spec V v /\ plain (verdict_object v)) ->
  post (settle_step spec t a e reason) (settled_ok (record t)).
Proof.
  intros Hi Hn Hs [p Hp] Hr. unfold settle_step. rewrite Hp. cbn [expect].
  set (t0 := if decide _ then t else _).
  assert (E0 : record t0 = record t) by (subst t0; by destruct (decide _)). clearbody t0.
  rewrite <- E0 in *. destruct (ending_route e) as [v|] eqn:Er.
  { destruct (Hr v eq_refl). by apply settle_verdict_post. }
  assert (Htail : post (if decide (ending_outcome e = AttemptOutcome.Asked)
                        then settle_asked spec t0 (prev_asked p) else settle_then spec t0)
                    (settled_ok (record t0))).
  { case_decide; [by eapply settle_asked_post|by eapply settle_then_post]. }
  destruct (ending_cause e) as [| | | |continued]; [done|done|by apply settle_deadline_post|by apply settle_cancel_post|].
  rewrite Hn. destruct Hi as (Hwf & Hst & Ha & Hh).
  apply restart_step_post; [apply Hwf|done|done|by rewrite Hst|done].
Qed.

(** ** Agent sessions *)

Definition ending_ok (e : Ending) : Prop :=
  forall v, ending_route e = Some v -> verdict_ok spec V v /\ plain (verdict_object v).

(** The live attempt of the record is a session of the step it is at. *)
Record session (r : RunRecord) (a : LiveAttempt) : Prop := {
  session_live : attempt r = Some a;
  session_rest : WF (r <| attempt := None |>);
  session_active : run_state r = RunState.Active;
  session_free : held r = None;
  session_node : attempt_node a = run_node r;
  session_step : agent_step spec (attempt_node a);
  session_kind : attempt_kind a = AttemptKind.Agent;
  session_seq : (seq a < next_seq r)%N;
  session_visit : visit a <> None
}.

Lemma node_is_step_or_check n : V n ->
  (exists s, lookup_key n (steps spec) = Some s) \/ (exists c, lookup_key n (checks spec) = Some c).
Proof.
  intros Hn%closed_node%is_node_spec. unfold node_names in Hn. rewrite elem_of_app, <- !contains_key_spec in Hn.
  unfold contains_key in Hn. destruct Hn as [Hn|Hn]; [right|left]; destruct (lookup_key _ _); eauto; done.
Qed.

Lemma agent_step_contains n : agent_step spec n -> contains_key n (steps spec) = true.
Proof. intros (s & Hs & _). by eapply contains_key_Some. Qed.

Lemma kind_agent n : node_kind_of spec n AttemptKind.Agent -> agent_step spec n.
Proof.
  unfold node_kind_of, agent_step. destruct (lookup_key n (steps spec)) as [s|].
  - intros Hk. exists s. split; [done|]. by destruct (Step.is_agent s).
  - intros (c & _ & Hk). by destruct (Check.is_agent c).
Qed.

Lemma agent_step_kind n : agent_step spec n -> node_kind_of spec n AttemptKind.Agent.
Proof. unfold node_kind_of. intros (s & -> & Hs). by rewrite Hs. Qed.

(** A held session sits over a check, so nothing is held at a step. *)
Lemma held_not_step r : WF r -> contains_key (run_node r) (steps spec) = true -> held r = None.
Proof.
  intros Hwf Hs. destruct (held r) as [h|] eqn:Eh; [|done]. destruct (wf_held _ _ _ Hwf h Eh) as [_ Hh].
  apply held_check in Hh. by rewrite (sealed_disjoint _ Hs) in Hh.
Qed.

Lemma session_of_wf r a : WF r -> attempt r = Some a -> attempt_kind a = AttemptKind.Agent -> session r a.
Proof.
  intros Hwf Ha Hk. destruct (wf_attempt _ _ _ Hwf a Ha) as (Hs & Hn & Hf).
  assert (Hst : agent_step spec (attempt_node a)) by (apply kind_agent; rewrite <- Hk; apply Hf).
  pose proof (agent_step_contains _ Hst) as Hc.
  split; try done.
  - by apply wf_drop.
  - apply held_not_step; [done|]. by rewrite <- Hn.
  - apply Hf.
  - by apply Hf.
Qed.

Lemma previous_attempt_Some t a outcome_ : attempt (record t) = Some a -> visit a <> None ->
  exists p, previous_attempt t outcome_ = Ok p /\ prev_seq p = seq a /\ prev_step p = attempt_node a.
Proof.
  intros Ha Hv. unfold previous_attempt. rewrite Ha. cbn [expect].
  destruct (visit a) as [v|]; [|done]. eexists. split; [reflexivity|]. by split.
Qed.

(** [stage_agent_end]: the session is ending, with its evidence. *)
Lemma stage_post t a e observed : session (record t) a -> ending_ok e ->
  (push a <> None -> attempt_run a <> None) ->
  post (stage_agent_end t e observed) (fun t' => WF (record t')
    /\ (forall r0 e0, (next_seq r0 <= next_seq (record t))%N -> (seq a, attempt_node a, e0) ∈ marks r0 ->
          descends r0 (record t'))
    /\ session (record t') (a <| asking := None |> <| held_since := None |> <| ending := Some e |>)
    /\ now t' = now t /\ visits (record t') = visits (record t)).
Proof.
  intros [] He Hpush. unfold stage_agent_end. rewrite session_live0. cbn [expect].
  set (a' := a <| asking := None |> <| held_since := None |> <| ending := Some e |>).
  set (t0 := update t _).
  assert (E0 : record t0 = record t <| attempt := Some a' |>) by reflexivity.
  assert (En0 : now t0 = now t) by reflexivity. clearbody t0.
  destruct (previous_attempt_Some t0 a' (ending_outcome e)) as (p0 & -> & Hp0); [by rewrite E0|done|].
  cbn [post]. set (p := set_field prev_asked _ _).
  assert (Hp : prev_seq p = seq a /\ prev_step p = attempt_node a) by exact Hp0. clearbody p.
  set (t' := update t0 _).
  assert (Er : record t' = record t <| attempt := Some a' |> <| prev_attempt := Some p |>)
    by (cbn [t' update record]; by rewrite <- E0).
  assert (Hnow : now t' = now t) by exact En0. clearbody t'.
  assert (Hrest : WF (record t' <| attempt := None |>)).
  { rewrite Er. destruct session_rest0. split; cbn in *; [auto|auto|done|by rewrite session_free0|wf_auto..].
    intros p' [= <-]. destruct Hp as [-> _]. done. }
  split_and!; [| | |done|by rewrite Er].
  - rewrite Er in *. destruct Hrest. split; cbn in *; [auto|auto| |by rewrite session_free0|wf_auto..].
    + intros a0 [= <-]. split_and!; [done|done|].
      split; cbn; [by rewrite session_node0| |done|done|done| |done|by intros _; apply agent_step_contains].
      * rewrite session_kind0. by apply agent_step_kind.
      * intros e' [= <-]. split_and!; [done|by eexists|done].
    + intros a0 p' [= <-] [= <-] _. split; [apply Hp|by eexists].
  - intros r0 e0 Hn Hm0. split; [by rewrite Er|]. rewrite Er. intros s n b Hm. left.
    rewrite elem_of_marks in Hm. cbn in Hm. rewrite session_free0 in Hm.
    destruct Hm as [(? & [= <-] & [= -> -> ->])|[(? & ? & _)|(? & [= <-] & [= -> -> ->])]]; [|done|].
    + by exists e0.
    + destruct Hp as [-> ->]. by exists e0.
  - rewrite Er in *. by split.
Qed.

Lemma session_mark r a : session r a -> (seq a, attempt_node a, is_some (ending a)) ∈ marks r.
Proof. intros []. apply elem_of_marks. left. by exists a. Qed.

Lemma settle_agent_post t a e children_ reason :
  session (record t) a -> ending a = Some e -> is_Some (prev_attempt (record t)) -> ending_ok e ->
  post (settle_agent spec t children_ reason) (settled_ok (record t)).
Proof.
  intros [] Ha [p Hp] He. unfold settle_agent. rewrite session_live0. cbn [expect]. rewrite Ha, Hp. cbn [expect].
  set (p' := if decide (ending_outcome e = AttemptOutcome.Limited) then _ else _).
  assert (Ep : prev_seq p' = prev_seq p /\ prev_step p' = prev_step p)
    by (subst p'; by repeat destruct (decide _)). clearbody p'.
  set (t' := update t _).
  assert (Er : record t' = record t <| attempt := None |> <| prev_attempt := Some p' |>) by done. clearbody t'.
  assert (Hi : idle (record t')).
  { rewrite Er. split; [|done]. destruct session_rest0. split; cbn in *; [auto|auto|done|by rewrite session_free0|wf_auto..].
    intros p0 [= <-]. destruct Ep as [-> _]. auto. }
  destruct session_step0 as (s & Hs & _). rewrite session_node0 in Hs.
  eapply post_weaken.
  { apply (settle_step_post t' a s); [done|by rewrite Er|by rewrite Er|rewrite Er; by eexists|done]. }
  rewrite Er. intros t1 [Hl Hat]. split; [|done]. eapply leaves_weaken; [|exact Hl].
  apply descends_incl; [done|]. intros q n b Hm. rewrite elem_of_marks in Hm. cbn in Hm.
  setoid_rewrite elem_of_marks. rewrite session_free0, Hp in *.
  destruct Hm as [(? & ? & _)|[(? & ? & _)|(? & [= <-] & [= -> -> ->])]]; [done|done|].
  destruct Ep as [-> ->]. eexists. split; [right; right; by exists p|done].
Qed.

(** ** Command steps and checks *)

Lemma abandon_check_core t out : core (record (abandon_check t out)) = core (record t <| attempt := None |>)
  /\ now (abandon_check t out) = now t.
Proof.
  unfold abandon_check. destruct (attempt (record t)) as [a|] eqn:Ea; [done|]. split; [|done].
  unfold core. cbn. by rewrite Ea.
Qed.

Lemma leaves_drop t t' : WF (record t) -> core (record t') = core (record t <| attempt := None |>) ->
  leaves (record t) t' /\ attempt (record t') = None.
Proof.
  intros Hwf Hc. split; [split|].
  - eapply core_wf; [by symmetry|by apply wf_drop].
  - transitivity (record t <| attempt := None |>); [by apply descends_drop|by apply core_descends].
  - symmetry in Hc. by apply core_inv in Hc as (_ & _ & _ & _ & _ & _ & -> & _).
Qed.

Lemma finish_script_post t e code reason : WF (record t) -> ending_ok e ->
  post (finish_script spec t e code reason) (fun '(t', settled_) =>
    settled_ok (record t) t'
    /\ (settled_ = false -> core (record t') = core (record t <| attempt := None |>)
        /\ (contains_key (run_node (record t)) (steps spec) = true -> attempt (record t) = None))).
Proof.
  intros Hwf He. unfold finish_script. destruct (contains_key (run_node (record t)) (steps spec)) eqn:Hk; cbn [negb].
  2: { destruct (abandon_check_core t (if decide (ending_outcome e = AttemptOutcome.Timeout)
                                       then str "timeout" else str "canceled")) as [Hc _].
       cbn [post]. split; [by apply leaves_drop|]. intros _. by split. }
  destruct (attempt (record t)) as [a|] eqn:Ea.
  2: { cbn [post]. assert (Hc : core (record t) = core (record t <| attempt := None |>)).
       { unfold core. cbn. by rewrite Ea. }
       split; [by apply leaves_drop|]. intros _. by split. }
  destruct (wf_attempt _ _ _ Hwf a Ea) as (Hs & Hn & Hf).
  destruct (previous_attempt_Some t a (ending_outcome e) Ea) as (p & -> & Hps & Hpn).
  { apply Hf. by rewrite Hn. }
  cbn [post]. set (p' := p <| prev_code := code |>).
  assert (Hp : prev_seq p' = seq a /\ prev_step p' = attempt_node a) by done. clearbody p'.
  set (t' := update t _).
  assert (Er : record t' = record t <| attempt := None |> <| prev_attempt := Some p' |>) by done. clearbody t'.
  pose proof (held_not_step _ Hwf Hk) as Hh.
  assert (Hi : idle (record t')).
  { rewrite Er. split; [|done]. destruct (wf_drop _ _ _ Hwf).
    split; cbn in *; [auto|auto|done|by rewrite Hh|wf_auto..].
    intros p0 [= <-]. destruct Hp as [-> _]. apply Hf. }
  unfold contains_key in Hk. destruct (lookup_key (run_node (record t)) (steps spec)) as [s|] eqn:Es; [|done].
  assert (Hset : post (settle_step spec t' a e reason) (settled_ok (record t'))).
  { apply (settle_step_post t' a s); [done|by rewrite Er|by rewrite Er|rewrite Er; by eexists|done]. }
  post_step Hset t1. destruct Hset as [Hl Hat]. cbn [post]. split; [|done]. split; [|done].
  rewrite Er in Hl. eapply leaves_weaken; [|exact Hl].
  apply descends_incl; [done|]. intros q n b Hm. rewrite elem_of_marks in Hm. cbn in Hm.
  setoid_rewrite elem_of_marks. rewrite Hh, Ea in *.
  destruct Hm as [(? & ? & _)|[(? & ? & _)|(? & [= <-] & [= -> -> ->])]]; [done|done|].
  destruct Hp as [-> ->]. eexists. split; [left; by exists a|done].
Qed.

Lemma bare_ending_ok outcome_ cause : ending_ok (bare_ending outcome_ cause).
Proof. done. Qed.

(** An engine route of a node whose attempt is gone. *)
Lemma late_route_post t t1 t2 out o target_ reason :
  run_state (record t) = RunState.Active -> settled_ok (record t) t1 ->
  core (record t1) = core (record t <| attempt := None |>) -> core (record t1) = core (record t2) ->
  target_ok V target_ -> plain o ->
  post (engine_route spec t2 out o target_ reason) (settled_ok (record t)).
Proof.
  intros Hs [[Hw1 Hd1] _] Hc Hc2 Ht Ho.
  assert (Hs2 : run_state (record t2) = RunState.Active).
  { rewrite Hc in Hc2. apply core_inv in Hc2 as (-> & _). done. }
  eapply post_weaken; [apply engine_route_post; [done| |done|done]|].
  - by eapply wf_drop, core_wf.
  - intros t'. apply routed_settled. transitivity (record t1); [done|by apply core_descends].
Qed.

Lemma bound_deadline_post t d : run_state (record t) = RunState.Active -> WF (record t) ->
  post (let? (x, settled_) :=
          finish_script spec t (bare_ending AttemptOutcome.Canceled EndCause.Deadline) None None in
        if settled_ then Ok (x, true)
        else
          let x := update x (fun r => r <| deadline_fired := true |>) in
          let? target := target_of spec (run_node (record x)) (str "deadline") in
          let? x := engine_route spec x (str "deadline") (json
            [("outcome", JString (str "deadline")); ("deadline", JString (show_timestamp d))]%string)
            target ParkReason.Deadline in
          Ok (x, true))
    (fun '(t', bounded) => bounded = true /\ settled_ok (record t) t').
Proof.
  intros Hs Hwf.
  pose proof (finish_script_post t (bare_ending AttemptOutcome.Canceled EndCause.Deadline) None None Hwf
                (bare_ending_ok _ _)) as Hf.
  post_step Hf x. destruct x as [t1 settled_]. destruct settled_; cbn [post]; [split; [done|apply Hf]|].
  destruct Hf as [Hf [Hc _]]; [done|].
  set (t2 := update t1 _). assert (Hc2 : core (record t1) = core (record t2)) by done. clearbody t2.
  assert (HV : V (run_node (record t2))) by (eapply core_wf; [done|apply Hf]).
  pose proof (deadline_target_ok _ HV) as Ht. post_step Ht target_.
  pose proof (late_route_post t t1 t2 (str "deadline") (json
    [("outcome", JString (str "deadline")); ("deadline", JString (show_timestamp d))]%string)
    target_ ParkReason.Deadline Hs Hf Hc Hc2 Ht ltac:(by apply json_plain)) as Hr.
  by post_step Hr t3.
Qed.

Lemma bound_timeout_post t : run_state (record t) = RunState.Active -> WF (record t) ->
  (exists c, lookup_key (run_node (record t)) (checks spec) = Some c /\ timeout c <> None)
  \/ (lookup_key (run_node (record t)) (checks spec) = None /\ attempt (record t) <> None) ->
  post (let? (x, settled_) :=
          finish_script spec t (bare_ending AttemptOutcome.Timeout EndCause.Timeout) None None in
        if settled_ then Ok (x, true)
        else
          let node := run_node (record x) in
          let? check := expect (lookup_key node (checks spec)) in
          let? target := target_of spec node (str "timeout") in
          let? x := engine_route spec x (str "timeout") (json
            [("outcome", JString (str "timeout")); ("node", JString node);
             ("timeout", value_of_option JString (timeout check))]%string)
            target ParkReason.Timeout in
          Ok (x, true))
    (fun '(t', bounded) => bounded = true /\ settled_ok (record t) t').
Proof.
  intros Hs Hwf Hat.
  pose proof (finish_script_post t (bare_ending AttemptOutcome.Timeout EndCause.Timeout) None None Hwf
                (bare_ending_ok _ _)) as Hf.
  post_step Hf x. destruct x as [t1 settled_]. destruct settled_; cbn [post]; [split; [done|apply Hf]|].
  destruct Hf as [Hf [Hc Hst]]; [done|].
  pose proof (core_inv _ _ Hc) as (_ & _ & En & _). cbn in En.
  destruct Hat as [(c & Hck & Htm)|[Hck Hatt]].
  2: { destruct (node_is_step_or_check (run_node (record t)) ltac:(apply Hwf)) as [[s Hsk]|[c Hck']]; [|congruence].
       by rewrite Hst in Hatt by (by eapply contains_key_Some). }
  rewrite <- En, Hck. cbn [expect].
  assert (Ht : post (target_of spec (run_node (record t)) (str "timeout")) (target_ok V)).
  { apply target_of_ok; [apply Hwf|]. eapply sealed_check; [done|]. right. right. by left. }
  post_step Ht target_.
  pose proof (late_route_post t t1 t1 (str "timeout") (json
    [("outcome", JString (str "timeout")); ("node", JString (run_node (record t)));
     ("timeout", value_of_option JString (timeout c))]%string)
    target_ ParkReason.Timeout Hs Hf Hc eq_refl Ht ltac:(by apply json_plain)) as Hr.
  by post_step Hr t3.
Qed.

(** [bound]: the deadline or the timeout of the node, when due. *)
Lemma bound_post live t : WF (record t) ->
  post (bound spec live t) (fun '(t', bounded) =>
    if bounded : bool then settled_ok (record t) t' else t' = t).
Proof.
  intros Hwf. unfold bound. case_bool_decide as Hs; cbn [negb]; [|done].
  destruct (_ || host_owes_exit spec live t); [done|].
  destruct (if is_none (held (record t)) && _ then _ else _) as [d|].
  - eapply post_weaken; [by apply bound_deadline_post|]. by intros [t' b] [-> ?].
  - pose proof (timeout_at_post spec (record t)) as Hat. post_step Hat at_.
    destruct at_ as [at_|]; cbn [is_some_and negb]; [|done]. destruct (at_ <=? now t)%Z; cbn [negb]; [|done].
    eapply post_weaken; [apply bound_timeout_post; auto|]. by intros [t' b] [-> ?].
Qed.

(** ** Evaluations *)

Lemma normalize_ok o check key_ edges_ o' : normalize_object o check key_ edges_ = Ok o' ->
  plain o' /\ exists out e, str_at (str "outcome") o' = Some out /\ e ∈ edges_ /\ outcome e = out.
Proof.
  unfold normalize_object. destruct o as [| | | | |fields]; try done.
  destruct (str_at (str "outcome") (JObject fields)) as [out|] eqn:Eo; [|done].
  destruct (_ || _) eqn:Er; [done|]. apply orb_false_iff in Er as [Hres Hroute].
  do 2 (destruct (is_some_and _ _); [done|]).
  apply negb_false_iff, existsb_exists in Hroute as (e & He%list_elem_of_In & Ho%bool_decide_eq_true).
  assert (Hnh : out <> str "hold").
  { intros ->. apply andb_false_iff in Hres as [Hres|Hres]; [by vm_compute in Hres|].
    apply negb_false_iff, andb_true_iff in Hres as [Hres _]. by apply bool_decide_eq_true in Hres. }
  assert (Hok : forall o1, (exists f, o1 = JObject f) -> str_at (str "outcome") o1 = Some out ->
    plain o1 /\ exists out e, str_at (str "outcome") o1 = Some out /\ e ∈ edges_ /\ outcome e = out).
  { intros o1 [f ->] Ho1. split; [unfold plain; rewrite Ho1; congruence|]. by exists out, e. }
  destruct (value_get (str "key") (JObject fields)) as [v|].
  - destruct (key_of_value v); [|done]. intros [= <-]. apply Hok; eauto.
  - intros [= <-]. apply Hok; [by eexists|]. destruct key_ as [k|]; [|done].
    rewrite <- Eo. by eapply str_at_set.
Qed.

Lemma within_clear s vs grant : within s vs grant -> within s {| total := total vs; outcomes := [] |} grant.
Proof. intros [Ht Ho]. split; [done|]. intros cap b _. unfold for_bucket, bucket_index. cbn. lia. Qed.

Lemma wf_clear r n vs : visits r !! n = Some vs -> WF (r <| attempt := None |>) ->
  WF (r <| visits := <[n := {| total := total vs; outcomes := [] |}]> (visits r) |> <| attempt := None |>).
Proof.
  intros Hn [].
  assert (Hv : forall m, is_Some (visits r !! m) ->
    is_Some (<[n := {| total := total vs; outcomes := [] |}]> (visits r) !! m)).
  { intros m Hm. destruct (decide (m = n)) as [->|]; [rewrite lookup_insert_eq|rewrite lookup_insert_ne]; auto. }
  split; cbn in *; [auto|auto|done| |wf_auto..].
  - intros h Hh. destruct (wf_held0 h Hh) as [? []]. split; [done|]. split; auto.
    destruct held_fits0. split; cbn in *; auto.
  - intros m s vs' Hs. rewrite lookup_insert_Some. intros [[<- <-]|[_ Hm]]; [|eauto].
    apply within_clear. eauto.
Qed.

Lemma reset_outcomes_ok t q out : run_state (record t) = RunState.Active -> WF (record t <| attempt := None |>) ->
  let t' := reset_outcomes spec t q out in
  WF (record t' <| attempt := None |>) /\ run_state (record t') = RunState.Active
  /\ run_node (record t') = run_node (record t) /\ descends (record t) (record t').
Proof.
  unfold reset_outcomes. generalize (steps spec) as l. intros l. revert t.
  induction l as [|[n s] l IH]; intros t Hs Hwf; [done|]. cbn [fold_left].
  set (hit := match max_visits_per_outcome s with Some _ => _ | None => None end).
  assert (Hhit : forall vs, hit = Some vs -> visits (record t) !! n = Some vs).
  { subst hit. destruct (max_visits_per_outcome s); [|done]. by destruct (bool_decide _). }
  clearbody hit. destruct hit as [vs|]; [|by apply IH]. destruct (is_empty (outcomes vs)); [by apply IH|].
  match goal with |- context [fold_left _ l ?x] => set (t1 := x) end.
  assert (E1 : record t1 = record t <| visits := <[n := {| total := total vs; outcomes := [] |}]> (visits (record t)) |>)
    by done. clearbody t1.
  destruct (IH t1) as (Hw & Ha & -> & Hd); rewrite ?E1.
  - done.
  - apply wf_clear; [by apply Hhit|done].
  - rewrite E1 in Hd. split_and!; [done..|]. by etransitivity; [|exact Hd]; apply descends_same.
Qed.

Lemma check_answer_post t c obj : WF (record t) ->
  lookup_key (run_node (record t)) (checks spec) = Some c ->
  post (check_answer spec t c obj) (fun '(o, _, target_, _, _) => plain o /\ target_ok V target_).
Proof.
  intros Hwf Hc. unfold check_answer. assert (HV : V (run_node (record t))) by apply Hwf.
  destruct (match obj with Ok o => _ | Err e => Err e end) as [o|e] eqn:Eo.
  - destruct obj as [o0|]; [|done]. apply normalize_ok in Eo as (Hpl & out & e & Ho & He & Hoe).
    rewrite Ho. change (default [] (Some out)) with out.
    pose proof (target_of_ok _ out HV) as Ht. specialize (Ht ltac:(eapply sealed_check; eauto 6)).
    by post_step Ht target_.
  - pose proof (engine_object_post t (json
      [("outcome", JString (str "invalid")); ("node", JString (run_node (record t)));
       ("reason", JString e)]%string) ltac:(by apply json_plain)) as He.
    post_step He o. destruct He as [He _].
    pose proof (target_of_ok _ (str "invalid") HV) as Ht. specialize (Ht ltac:(eapply sealed_check; eauto)).
    by post_step Ht target_.
Qed.

Lemma case_holds_post t c o : lookup_key (run_node (record t)) (checks spec) = Some c ->
  post (case_holds spec t c o) (fun holds => holds = true ->
    exists case, case_index o = Some case /\ is_Some (case_at spec (run_node (record t)) case)).
Proof.
  intros Hc. unfold case_holds.
  destruct (Check.is_condition c || Check.is_sleep c); [|done].
  destruct (case_index o) as [case|]; [|done].
  destruct (Check.condition_cases c !! N.to_nat case) as [x|] eqn:Ex; cbn [is_some_and]; [|done].
  destruct (case_hold x); cbn [is_some]; [|done].
  pose proof (hold_until_post spec (record t) case (now t)) as Hh. post_step Hh u.
  intros _. exists case. split; [done|]. unfold case_at. rewrite Hc. by exists x.
Qed.

(** The answer a hold turns into a wait. *)
Lemma hold_answer node o o' case : plain o -> value_set (str "outcome") (JString (str "hold")) o = Some o' ->
  case_index o = Some case -> is_Some (case_at spec node case) -> answer_ok spec V node (str "@wait") o'.
Proof.
  intros Ho Hset Hcase Hc. destruct o as [| | | | |fields]; try done.
  destruct (value_set_object (str "outcome") (JString (str "hold")) fields) as (o1 & Ho1 & [f ->] & Hg).
  assert (o' = JObject f) as -> by congruence.
  split; [right; unfold SPECIAL; rewrite !elem_of_cons; auto|]. right. split_and!; [by eexists|done|].
  intros c Hc'. assert (c = case) as ->; [|done].
  unfold case_index in *. rewrite Hg in Hc' by done. cbn [value_get] in Hcase. congruence.
Qed.

Lemma finish_check_post t q obj stderr : WF (record t) ->
  (current t q = true -> contains_key (run_node (record t)) (checks spec) = true) ->
  post (finish_check spec t q obj stderr) (leaves (record t)).
Proof.
  intros Hwf Hck. unfold finish_check. destruct (current t q) eqn:Hcur; cbn [negb]; [|by split].
  specialize (Hck eq_refl). unfold contains_key in Hck.
  destruct (lookup_key (run_node (record t)) (checks spec)) as [c|] eqn:Ec; [|done]. cbn [expect].
  unfold current in Hcur. apply andb_true_iff in Hcur as [Hs%bool_decide_eq_true Ha].
  destruct (attempt (record t)) as [a|] eqn:Ea; [|done].
  pose proof (check_answer_post t c obj Hwf Ec) as Hans. post_step Hans x.
  destruct x as [[[[o out] target_] reason] origin]. destruct Hans as [Hpl Ht].
  pose proof (case_holds_post t c o Ec) as Hh. post_step Hh holds.
  set (fh := if holds then _ else _).
  assert (Hfh : post fh (fun '(o', _, target') => answer_ok spec V (run_node (record t)) target' o')).
  { subst fh. destruct holds; [|by split; [|left]]. destruct (Hh eq_refl) as (case & Hcase & Hc).
    destruct (value_set _ _ o) as [o'|] eqn:Eset; [by eapply hold_answer|].
    by destruct o. }
  clearbody fh. post_step Hfh x. destruct x as [[o' out'] target']. cbn [expect].
  match goal with |- context [push_entry (update t ?f) ?q ?e] => set (t1 := push_entry (update t f) q e) end.
  assert (Et1 : record t1 = record t <| attempt := None |>) by done. clearbody t1.
  set (t2 := if bool_decide (origin = EvaluationOrigin.Check) && _ then _ else t1).
  assert (H2 : WF (record t2 <| attempt := None |>) /\ run_state (record t2) = RunState.Active
    /\ run_node (record t2) = run_node (record t) /\ descends (record t) (record t2)).
  { assert (Hw1 : WF (record t1 <| attempt := None |>)) by (rewrite Et1; by apply wf_drop, wf_drop).
    assert (Hd1 : descends (record t) (record t1)) by (rewrite Et1; by apply descends_drop).
    subst t2. destruct (_ && _); [|by split_and!; [|rewrite Et1..|]].
    destruct (reset_outcomes_ok t1 q out') as (? & ? & En & Hd); [by rewrite Et1|done|].
    split_and!; [done..|by rewrite En, Et1|by transitivity (record t1)]. }
  clearbody t2. destruct H2 as (Hw2 & Hs2 & Hn2 & Hd2).
  set (t3 := if bool_decide (reason = ParkReason.Invalid) then _ else t2).
  assert (Et3 : record t3 = record t2) by (subst t3; by case_bool_decide). clearbody t3.
  eapply post_weaken; [apply route_post; rewrite Et3; [done|done|by rewrite Hn2]|].
  rewrite Et3. intros t' [Hl _]. by eapply leaves_weaken.
Qed.

(** The record a failed judge leaves, before the retry or the route. *)
Lemma judge_failed_ok t t1 : WF (record t) -> core (record t1) = core (record t <| attempt := None |>) ->
  forall t2, core (record t1) = core (record t2) -> leaves (record t) t2.
Proof.
  intros Hwf Hc t2 Hc2. destruct (leaves_drop _ _ Hwf Hc) as [[Hw Hd] _].
  split; [by eapply core_wf|]. transitivity (record t1); [done|by apply core_descends].
Qed.

Lemma judge_parked_post t t1 o : WF (record t) -> run_state (record t) = RunState.Active ->
  core (record t1) = core (record t <| attempt := None |>) -> plain o ->
  post (route spec t1 (str "@user") o ParkReason.Check) (leaves (record t)).
Proof.
  intros Hwf Hs Hc Ho. pose proof (judge_failed_ok t t1 Hwf Hc t1 eq_refl) as Hl.
  eapply post_weaken; [apply route_post|].
  - symmetry in Hc. by apply core_inv in Hc as (-> & _).
  - by apply wf_drop, Hl.
  - split; [right; unfold SPECIAL; rewrite !elem_of_cons; auto|by left].
  - intros t' [Hl' _]. eapply leaves_weaken; [|exact Hl']. apply Hl.
Qed.

Lemma finish_judge_post t q result_ : WF (record t) ->
  (current t q = true -> contains_key (run_node (record t)) (checks spec) = true) ->
  post (finish_judge spec t q result_) (fun '(t', _) => leaves (record t) t').
Proof.
  intros Hwf Hck. unfold finish_judge. destruct (current t q) eqn:Hcur; cbn [negb]; [|by split].
  pose proof (Hck eq_refl) as Hk. unfold contains_key in Hk.
  destruct (lookup_key (run_node (record t)) (checks spec)) as [c|] eqn:Ec; [|done].
  pose proof Hcur as Hcur'. unfold current in Hcur'. apply andb_true_iff in Hcur' as [Hs%bool_decide_eq_true Ha].
  destruct (attempt (record t)) as [a|] eqn:Ea; [|done]. cbn [expect].
  set (fo := match object result_ with Ok o => _ | Err e => _ end).
  assert (Hfo : post fo (fun _ => True)) by (subst fo; by destruct (object result_)).
  clearbody fo. post_step Hfo x. destruct x as [[o|reason] failure_].
  - set (t1 := update t _). assert (Hc : core (record t) = core (record t1)) by done.
    assert (Hcur1 : current t1 q = true -> contains_key (run_node (record t1)) (checks spec) = true)
      by (intros _; exact (Hck eq_refl)).
    clearbody t1.
    pose proof (finish_check_post t1 q (Ok o) (stderr_tail result_) (core_wf _ _ _ _ Hc Hwf) Hcur1) as Hf.
    post_step Hf t2. cbn [post]. apply (leaves_weaken _ (record t1)); [by apply core_descends|]. exact Hf.
  - pose proof (engine_object_post t (json
      [("outcome", JString (Failure.as_str failure_)); ("reason", JString reason)]%string)
      ltac:(apply json_plain; by destruct failure_)) as He.
    post_step He o. destruct He as [He _]. destruct (close_wait_same t) as [Hc _].
    set (t1 := update _ (fun r => r <| attempt := None |> <| recheck_at := None |>)).
    assert (Hc1 : core (record t1) = core (record t <| attempt := None |>)).
    { symmetry. etransitivity; [by apply core_drop, Hc|done]. }
    clearbody t1. pose proof (judge_failed_ok t t1 Hwf Hc1) as Hsame.
    assert (Hretry : post (if (check_retry (record t) =? 0)%N then
        Ok (update t1 (fun r => r <| check_retry := 1%N |> <| check_retry_context := Some (json
          [("outcome", JString (Failure.as_str failure_)); ("reason", JString reason)]%string) |>), true)
      else let? x := route spec t1 (str "@user") o ParkReason.Check in Ok (x, false))
      (fun '(t', _) => leaves (record t) t')).
    { destruct (check_retry (record t) =? 0)%N; [by apply Hsame|].
      pose proof (judge_parked_post t t1 o Hwf Hs Hc1 He) as Hr. by post_step Hr t2. }
    destruct failure_; [done|done| |by apply Hsame].
    pose proof (bounded_recheck_post spec t1 (let! l := evaluation_limited result_ else None in reset_at l)) as Hb.
    post_step Hb at_. by apply Hsame.
Qed.
End Routes.
