(* ===== verification/EngineFacts.v ===== *)
(** * Theorems about the workflow engine ([Engine])

    [wp r0 m st Q] says that a section [m] started on [st] does not panic,
    leaves a well-formed record that descends from [r0] whether it succeeds or
    fails, and that its result satisfies [Q].  The sections of a process keep
    what the process knows of the record true ([process_ok]), whatever other
    processes do in between, so the invariant of the system is inductive. *)

From S2P Require Import Prelude.
From S2P Require Agents.
From S2P Require Import Workflow WorkflowFacts Run Transition Engine TransitionFacts.

(** ** Visits *)

Lemma for_bucket_cons n row rows b :
  for_bucket {| total := n; outcomes := row :: rows |} b =
    if decide (row_bucket row = b) then row_visits row else for_bucket {| total := n; outcomes := rows |} b.
Proof.
  unfold for_bucket, bucket_index. cbn [outcomes position]. case_bool_decide; case_decide; try done.
  by destruct (position _ rows).
Qed.

Lemma bump_cons n row rows b :
  outcomes (bump {| total := n; outcomes := row :: rows |} b) =
    if decide (row_bucket row = b)
    then {| row_bucket := row_bucket row; row_visits := (row_visits row + 1)%N |} :: rows
    else row :: outcomes (bump {| total := n; outcomes := rows |} b).
Proof.
  unfold bump, bucket_index. cbn [outcomes position]. case_bool_decide; case_decide; try done.
  by destruct (position _ rows).
Qed.

(** A bump adds one to its own bucket only. *)
Lemma for_bucket_bump vs b b' :
  for_bucket (bump vs b) b' = (for_bucket vs b' + if decide (b' = b) then 1 else 0)%N.
Proof.
  destruct vs as [n rows]. transitivity (for_bucket {| total := n; outcomes := outcomes (bump {| total := n; outcomes := rows |} b) |} b'); [done|].
  induction rows as [|row rows IH].
  - cbn [bump outcomes bucket_index position app]. rewrite for_bucket_cons. cbn. repeat case_decide; congruence || done.
  - rewrite bump_cons, for_bucket_cons. repeat case_decide; subst; rewrite for_bucket_cons; cbn;
      rewrite ?decide_True by done; rewrite ?decide_False by done; try lia; done.
Qed.

Definition no_visits : StepVisits := {| total := 0; outcomes := [] |}.

Lemma untripped s vs b grant : tripped_visit_bound s vs b grant = None ->
  (forall m, max_visits s = Some m -> total (default no_visits vs) < saturating_add_u64 m grant)%N
  /\ (forall cap, max_visits_per_outcome s = Some cap ->
       for_bucket (default no_visits vs) b < saturating_add_u64 (cap_limit cap) grant)%N.
Proof.
  unfold tripped_visit_bound. intros Hf. pose proof (List.find_none _ _ Hf) as Hn. clear Hf.
  assert (Hb : forall row, row ∈ visit_bounds s vs b grant -> (row.1.2 < row.2)%N).
  { intros [[name used] max] Hrow%list_elem_of_In. apply Hn in Hrow. by apply N.leb_gt in Hrow. }
  unfold visit_bounds in Hb. split.
  - intros m Em. specialize (Hb (str "max-visits", total (default no_visits vs), saturating_add_u64 m grant)).
    apply Hb. apply list_elem_of_omap. eexists. split; [left|]. rewrite Em. by destruct vs.
  - intros cap Ec.
    specialize (Hb (str "max-visits-per-outcome", for_bucket (default no_visits vs) b, saturating_add_u64 (cap_limit cap) grant)).
    apply Hb. apply list_elem_of_omap. eexists. split; [right; left|]. rewrite Ec. by destruct vs.
Qed.

Lemma within_bump s vs b grant : within s (default no_visits vs) grant ->
  tripped_visit_bound s vs b grant = None -> within s (bump (default no_visits vs) b) grant.
Proof.
  intros [Ht Ho] [Hm Hc]%untripped. split.
  - intros m Em. specialize (Hm m Em). change (total (bump (default no_visits vs) b)) with (total (default no_visits vs) + 1)%N. lia.
  - intros cap b' Ec. specialize (Ho cap b' Ec). specialize (Hc cap Ec). rewrite for_bucket_bump. case_decide as Hb; [subst b'|]; lia.
Qed.

Lemma within_grant s vs g g' : (g <= g')%N -> within s vs g -> within s vs g'.
Proof.
  unfold within, saturating_add_u64. intros Hg [Ht Ho]. split.
  - intros m Em. specialize (Ht m Em). lia.
  - intros cap b Ec. specialize (Ho cap b Ec). lia.
Qed.

Section Engine.
Context `{Validators, Rfc3339} (spec : WorkflowSpec) `{!Sealed spec}.
Context (V : text -> Prop) `{!Closed spec V}.
Implicit Types (r : RunRecord) (st : Store).
Local Abbreviation WF := (WellFormed spec V).
Local Abbreviation leaves := (leaves spec V).
Local Abbreviation session := (session spec V).

(** ** Sections *)

Definition inv r0 st : Prop := WF (stored st) /\ descends r0 (stored st).

Definition wp {A} r0 (m : M A) st (Q : A -> Store -> Prop) : Prop :=
  let '(st', res) := m st in inv r0 st' /\ post res (fun a => Q a st').

Lemma wp_ret {A} r0 (a : A) st Q : inv r0 st -> Q a st -> wp r0 (ret a) st Q.
Proof. by split. Qed.

Lemma wp_bind {A B} r0 (m : M A) (k : A -> M B) st Q :
  wp r0 m st (fun a st' => wp r0 (k a) st' Q) -> wp r0 (bind m k) st Q.
Proof. unfold wp, bind. destruct (m st) as [st' [a|[]]]; cbn; tauto. Qed.

Lemma wp_weaken {A} r0 (m : M A) st (Q Q' : A -> Store -> Prop) :
  wp r0 m st Q -> (forall a st', inv r0 st' -> Q a st' -> Q' a st') -> wp r0 m st Q'.
Proof. unfold wp. destruct (m st) as [st' [a|[]]]; cbn; intros [? ?]; split; auto. Qed.

Lemma wp_lift {A} r0 (f : fallible A) st Q : inv r0 st -> post f (fun a => Q a st) -> wp r0 (lift f) st Q.
Proof. by split. Qed.

Lemma wp_load r0 now_ st Q : inv r0 st ->
  Q {| record := stored st; now := now_; entries := [] |} st -> wp r0 (load now_) st Q.
Proof. by split. Qed.

(** [persist] stores the record, without its restart once it is not active. *)
Lemma wp_persist r0 t st (Q : Transition -> Store -> Prop) : leaves r0 t ->
  (forall t' st', core (record t') = core (record t) ->
     (run_state (record t) = RunState.Active -> t' = t) ->
     stored st' = record t' -> leaves r0 t' -> inv r0 st' -> Q t' st') ->
  wp r0 (persist t) st Q.
Proof.
  intros [Hw Hd] HQ. unfold wp, persist.
  set (t' := if decide _ then t else _).
  assert (Hc : core (record t') = core (record t)) by (subst t'; by destruct (decide _)).
  assert (Ht : run_state (record t) = RunState.Active -> t' = t) by (subst t'; by destruct (decide _)).
  clearbody t'.
  assert (Hl : leaves r0 t').
  { split; [by eapply core_wf|]. transitivity (record t); [done|by apply core_descends]. }
  split; [exact Hl|]. cbn [post]. by apply HQ.
Qed.

(** Continue after a call known to satisfy [post], or after [persist]. *)
Ltac wp_call H x := apply wp_bind, wp_lift; [assumption|]; post_step H x; cbn [post].
Ltac wp_persist_as t' Hc Hact Hst Hl :=
  apply wp_bind, wp_persist; [assumption|]; intros t' ?st Hc Hact Hst Hl ?.

(** ** Sessions of a record *)

(** Two states of one attempt, as far as the invariant reads them. *)
Definition alike (a a' : LiveAttempt) : Prop :=
  attempt_kind a' = attempt_kind a /\ seq a' = seq a /\ attempt_node a' = attempt_node a
  /\ (visit a <> None -> visit a' <> None) /\ attempt_lifecycle a' = attempt_lifecycle a /\ ending a' = ending a
  /\ (push a' <> None -> attempt_run a' <> None)
  /\ (attempt_run a <> None -> attempt_run a' <> None) /\ (judged a <> None -> judged a' <> None).

Lemma alike_mark a a' : alike a a' -> mark_of a' = mark_of a.
Proof. intros (_ & Es & En & _ & _ & Ee & _). unfold mark_of. by rewrite Es, En, Ee. Qed.

Lemma fits_alike r a a' : alike a a' -> fits spec V r a -> fits spec V r a'.
Proof. intros (Ek & Es & En & Ev & El & Ee & Ep & _) []. split; rewrite ?Ek, ?Es, ?En, ?Ev, ?El, ?Ee; auto. Qed.

Lemma hold_alike a ask_ stopped_ now_ : (push a <> None -> attempt_run a <> None) ->
  alike a (Agent.hold a ask_ stopped_ now_).1.
Proof. intros Hp. unfold Agent.hold. cbn [fst]. by repeat case_match. Qed.

Lemma wf_set_attempt r a a' : attempt r = Some a -> alike a a' -> WF r -> WF (r <| attempt := Some a' |>).
Proof.
  intros Ha Hal []. destruct (wf_attempt a Ha) as (Hs & Hn & Hf).
  pose proof Hal as (_ & Es & En & _ & _ & Ee & _).
  split; cbn; [auto|auto| | |wf_auto..].
  - intros a0 [= <-]. split_and!; [done|congruence|]. by apply (fits_same _ _ r), (fits_alike _ a).
  - intros h Hh. destruct (wf_held h Hh) as [? []]. split; [done|]. split; auto.
    + by apply (fits_same _ _ r).
    + intros v Hv. destruct (held_verdicts v Hv) as (? & _). congruence.
  - intros a0 h [= <-] Hh. rewrite Es. eauto.
  - intros a0 p [= <-] Hp. rewrite Es, En, Ee. eauto.
Qed.

Lemma descends_set_attempt r a a' : attempt r = Some a -> mark_of a' = mark_of a ->
  descends r (r <| attempt := Some a' |>).
Proof.
  intros Ha Hm'. apply descends_incl; [done|]. intros s n e Hm. exists e. split; [|done].
  rewrite elem_of_marks in *. cbn in Hm. destruct Hm as [(? & [= <-] & ->)|?]; [|by right].
  left. exists a. by rewrite Hm'.
Qed.

Lemma leaves_set_attempt r0 t a a' : leaves r0 t -> attempt (record t) = Some a -> alike a a' ->
  leaves r0 (update t (fun r => r <| attempt := Some a' |>)).
Proof.
  intros [Hw Hd] Ha Hal. split; [by eapply wf_set_attempt|].
  transitivity (record t); [done|by eapply descends_set_attempt, alike_mark].
Qed.

Lemma wf_set_held r h h' : held r = Some h -> alike (held_attempt h) (held_attempt h') ->
  held_verdict h' = held_verdict h \/ held_verdict h' = None -> WF r -> WF (r <| held := Some h' |>).
Proof.
  intros Hh Hal Hv []. destruct (wf_held h Hh) as [Hs []].
  pose proof Hal as (_ & Es & En & _ & _ & Ee & _ & Hrun & Hj).
  split; cbn; [auto|auto| | |wf_auto..].
  - intros a Ha. destruct (wf_attempt a Ha) as (? & ? & ?). split_and!; [done|done|]. by apply (fits_same _ _ r).
  - intros h0 [= <-]. split; [done|]. split; [|by rewrite En|congruence|auto|auto|done|].
    + by apply (fits_same _ _ r), (fits_alike _ (held_attempt h)).
    + intros v Hv'. apply held_verdicts. destruct Hv as [<-|Hv]; congruence.
  - intros a h0 Ha [= <-]. rewrite Es. eauto.
  - intros h0 p [= <-] Hp. rewrite Es. eauto.
Qed.

Lemma leaves_set_held r0 t h h' : leaves r0 t -> held (record t) = Some h ->
  alike (held_attempt h) (held_attempt h') ->
  held_verdict h' = held_verdict h \/ held_verdict h' = None ->
  leaves r0 (update t (fun r => r <| held := Some h' |>)).
Proof.
  intros [Hw Hd] Hh Hal Hv. split; [by eapply wf_set_held|].
  transitivity (record t); [done|]. apply alike_mark in Hal.
  apply descends_incl; [done|]. intros s n e Hm. exists e. split; [|done].
  rewrite elem_of_marks in *. cbn in Hm. destruct Hm as [?|[(? & [= <-] & ->)|?]]; [by left| |by right; right].
  right; left. exists h. by rewrite Hal.
Qed.

Lemma agent_kind_inv n k : agent_step spec n -> node_kind_of spec n k -> k = AttemptKind.Agent.
Proof. unfold node_kind_of. intros (x & -> & Hx). by rewrite Hx. Qed.

Lemma step_no_check n : contains_key n (steps spec) = true -> lookup_key n (checks spec) = None.
Proof. intros Hs%sealed_disjoint. unfold contains_key in Hs. by destruct (lookup_key n (checks spec)). Qed.

(** The route a step takes after its session. *)
Lemma then_target n s : lookup_key n (steps spec) = Some s ->
  forall next, head (step_then s) = Some next -> engine_target spec n (str "then") = Some next.
Proof.
  intros Hs next Ht. pose proof (contains_key_Some _ _ _ Hs) as Hk. pose proof (step_no_check n Hk) as Hc.
  unfold engine_target, spec_target.
  erewrite own_resolved by (unfold own_edges; rewrite Hc; by exists s).
  replace (contains_key n (checks spec)) with false by (by rewrite sealed_disjoint).
  rewrite decide_False by (rewrite !elem_of_cons, elem_of_nil; by vm_compute; intuition congruence).
  rewrite find_target_resolve. unfold node_outcomes. rewrite Hc, decide_True by (left).
  rewrite lookup_insert_ne by done.
  assert (He : step_edges s !! str "then" = Some (next, true)).
  { unfold step_edges. rewrite Ht. destruct (asked (step_on s)), (cap (step_on s)), (capacity (step_on s)); done. }
  by rewrite He.
Qed.

Lemma then_node n s : V n -> lookup_key n (steps spec) = Some s ->
  forall next, head (step_then s) = Some next -> V next /\ contains_key next (checks spec) = true.
Proof.
  intros Hn Hs next Ht. assert (Hc : contains_key next (checks spec) = true).
  { eapply sealed_then; [done|]. destruct (step_then s); [done|]. injection Ht as ->. by left. }
  split; [|done]. eapply closed_route; [done|by eapply then_target|]. unfold is_node. by rewrite Hc.
Qed.

(** ** The end of a hold *)

Lemma held_kind r h : WF r -> held r = Some h -> attempt_kind (held_attempt h) = AttemptKind.Agent.
Proof.
  intros Hwf Hh. destruct (wf_held _ _ _ Hwf h Hh) as [_ []]. eapply agent_kind_inv; [done|]. apply held_fits.
Qed.

(** The session of a hold is the live one again. *)
Definition restored r0 (h : HeldSession) t' : Prop :=
  leaves r0 t' /\ session (record t') (held_attempt h) /\ visits (record t') = visits r0
  /\ visit_grant (record t') = visit_grant r0 /\ held (record t') = None.

Lemma restore_post t h : WF (record t) -> held (record t) = Some h ->
  post (restore_session t) (restored (record t) h).
Proof.
  intros Hwf Hh. unfold restore_session. rewrite Hh. cbn [expect post].
  set (t' := update t _).
  assert (Er : record t' = record t <| held := None |> <| run_node := attempt_node (held_attempt h) |>
    <| entered_at := held_entered_at h |> <| attempt := Some (held_attempt h) |>
    <| check_retry := 0%N |> <| check_retry_context := None |> <| recheck_at := None |>) by done. clearbody t'.
  pose proof (held_kind _ _ Hwf Hh) as Hk. destruct (wf_held _ _ _ Hwf h Hh) as [Hs []].
  assert (Hw : WF (record t')).
  { rewrite Er. destruct Hwf. split; cbn; [by destruct held_fits|auto| |done|wf_auto..].
    - intros a [= <-]. split_and!; [done|done|]. by apply (fits_same _ _ (record t)).
    - intros a p [= <-] Hp Hq. by destruct (wf_prev_held h p Hh Hp). }
  split_and!; [split; [done|]|apply session_of_wf; [done|done|by rewrite Er|done]|by rewrite Er..].
  apply descends_incl; [by rewrite Er|]. rewrite Er. intros q n e Hm. exists e. split; [|done].
  rewrite elem_of_marks in *. cbn in Hm. destruct Hm as [(? & [= <-] & ->)|[(? & ? & _)|?]]; [|done|by right; right].
  right; left. by exists h.
Qed.

Lemma core_visits r r' : core r = core r' -> visits r' = visits r /\ visit_grant r' = visit_grant r /\ held r' = held r.
Proof. intros (_ & _ & _ & _ & ? & ? & _ & ? & _)%core_inv. done. Qed.

Lemma restored_core r0 r h t' : descends r0 r -> visits r = visits r0 -> visit_grant r = visit_grant r0 ->
  restored r h t' -> restored r0 h t'.
Proof. intros Hd Ev Eg (Hl & ? & ? & ? & ?). split_and!; [by eapply leaves_weaken|done|congruence..]. Qed.

Lemma interrupt_post t h reason : WF (record t) -> held (record t) = Some h ->
  post (Until.interrupt t reason) (restored (record t) h).
Proof.
  intros Hwf Hh. unfold Until.interrupt. rewrite Hh. cbn [expect].
  destruct (abandon_check_core t (str "canceled")) as [Hc _].
  set (t1 := abandon_check t _) in *. clearbody t1.
  pose proof (core_wf _ _ _ _ (eq_sym Hc) (wf_drop _ _ _ Hwf)) as Hw1.
  pose proof (core_visits _ _ (eq_sym Hc)) as (Ev & Eg & Eh). cbn in Ev, Eg, Eh.
  destruct (wf_held _ _ _ Hwf h Hh) as [_ Hho].
  pose proof (turn_end_record t1 (held_attempt h) TurnEndAction.Interrupted (held_verdict h) (Some reason)
    (held_judged _ _ _ _ Hho)) as Ht.
  post_step Ht t2. destruct Ht as [E2 _]. rewrite <- E2 in *.
  eapply post_weaken; [by apply restore_post; [|rewrite Eh]|].
  intros t'. apply restored_core; [|done..].
  transitivity (record t <| attempt := None |>); [by apply descends_drop|by apply core_descends].
Qed.

Lemma cap_route_post t s bound_ visits_ max : WF (record t) ->
  lookup_key (run_node (record t)) (steps spec) = Some s ->
  post (cap_route spec t bound_ visits_ max) (fun '(t', v) => record t' = record t /\ now t' = now t
    /\ verdict_ok spec V v /\ plain (verdict_object v) /\ verdict_node v = run_node (record t)).
Proof.
  intros Hwf Hs. unfold cap_route.
  match goal with |- context [engine_object t ?x] => set (o0 := x) end.
  assert (Ho : plain o0) by (subst o0; by apply json_plain). clearbody o0.
  pose proof (engine_object_post t o0 Ho) as He. post_step He o. destruct He as [He _].
  assert (HV : V (run_node (record t))) by apply Hwf.
  pose proof (step_target_ok spec V _ s (str "cap") HV Hs ltac:(unfold STEP_TRIGGERS; set_solver)) as Ht.
  post_step Ht target_. split_and!; [done..| |done|done].
  split; [done|]. split; [done|by left].
Qed.

(** ** What a process knows *)

(** The record has an agent attempt with an ending. *)
Definition ending_at r : Prop :=
  exists a e, attempt r = Some a /\ attempt_kind a = AttemptKind.Agent /\ ending a = Some e.

(** What the pending work of a process, prepared under an earlier lock, still
    says of the record [R]. *)
Definition pending_ok (R : RunRecord) (p : Pending) : Prop :=
  match p with
  | Evaluating r => V (run_node r)
      /\ exists a, attempt r = Some a /\ attempt_node a = run_node r /\ agrees a R
  | Launching r _ => V (run_node r)
      /\ exists a, attempt r = Some a /\ attempt_node a = run_node r
         /\ agent_step spec (attempt_node a) /\ agrees a R
  | Finishing r _ => exists a e, attempt r = Some a /\ ending a = Some e
      /\ agent_step spec (attempt_node a) /\ agrees a R
  | Pushing r => exists a, attempt r = Some a /\ push a <> None /\ attempt_run a <> None
  | Admitting _ n => agent_step spec n
  | Preparing | Evicting _ | Stopped_ => True
  end.

(** A throttle answers only for agent steps. *)
Definition admission_ok (adm : Admission) : Prop :=
  forall q n x, capacity_answer adm = Some (q, n, x) -> agent_step spec n.

Definition process_ok (R : RunRecord) (p : Process) : Prop :=
  pending_ok R (pending p) /\ admission_ok (admission p).

Definition decided (d : option Decision) st : Prop :=
  exists x, d = Some x /\ pending_ok (stored st) (pend x).

Lemma pending_stable R R' p : descends R R' -> pending_ok R p -> pending_ok R' p.
Proof.
  intros Hd. destruct p; cbn; try done.
  - intros (? & a & ? & ? & ?). split; [done|]. exists a. eauto using descends_agrees.
  - intros (? & a & ? & ? & ? & ?). split; [done|]. exists a. eauto using descends_agrees.
  - intros (a & e & ? & ? & ? & ?). exists a, e. eauto using descends_agrees.
Qed.

Lemma agrees_live r a : WF r -> attempt r = Some a -> agrees a r.
Proof.
  intros Hwf Ha. pose proof (wf_attempt _ _ _ Hwf a Ha) as (_ & _ & Hf). split; [apply Hf|].
  intros q n e Hm Hq. rewrite elem_of_marks in Hm.
  destruct Hm as [(a' & Ha' & [= -> -> ->])|[(h & Hh & [= -> _ _])|(p & Hp & [= -> -> ->])]].
  - rewrite Ha in Ha'. by injection Ha' as <-.
  - by destruct (wf_distinct _ _ _ Hwf a h Ha Hh).
  - split; [|done]. by apply (wf_prev_live _ _ _ Hwf a p Ha Hp).
Qed.

(** The live attempt an earlier one is current for. *)
Lemma agrees_current a r a' : agrees a r -> attempt r = Some a' -> seq a' = seq a ->
  attempt_node a' = attempt_node a /\ (is_some (ending a) = true -> is_some (ending a') = true).
Proof. intros [_ Ha] Hr Hs. apply (Ha (seq a')); [|done]. apply elem_of_marks. left. by exists a'. Qed.

Lemma finishing_ok r reason : WF r -> ending_at r -> pending_ok r (Finishing r reason).
Proof.
  intros Hwf (a & e & Ha & Hk & He). exists a, e. split_and!; [done..| |by apply agrees_live].
  pose proof (wf_attempt _ _ _ Hwf a Ha) as (_ & _ & Hf). apply kind_agent. rewrite <- Hk. apply Hf.
Qed.

Lemma ending_core r r' : core r = core r' -> ending_at r -> ending_at r'.
Proof.
  intros (_ & _ & _ & _ & _ & _ & Ea & _)%core_inv (a & e & Ha & ?). exists a, e. by rewrite Ea.
Qed.

(** ** The live session *)

Lemma map_attempt_post r0 t a f : leaves r0 t -> attempt (record t) = Some a -> alike a (f a) ->
  post (Agent.map_attempt t f) (fun t' => leaves r0 t' /\ now t' = now t
    /\ record t' = record t <| attempt := Some (f a) |>).
Proof.
  intros Hl Ha Hal. unfold Agent.map_attempt. rewrite Ha. cbn [expect post].
  split_and!; [|done|done]. by eapply leaves_set_attempt.
Qed.

Lemma alike_host a h : (push a <> None -> attempt_run a <> None) -> alike a (a <| host := h |>).
Proof. intros Hp. by split_and!. Qed.

Lemma live_push r a : WF r -> attempt r = Some a -> push a <> None -> attempt_run a <> None.
Proof. intros Hwf Ha. pose proof (wf_attempt _ _ _ Hwf a Ha) as (_ & _ & []). done. Qed.

Lemma set_host_post r0 env t : leaves r0 t -> ending_at (record t) ->
  post (Agent.set_host env t) (fun t' => leaves r0 t' /\ ending_at (record t')).
Proof.
  intros Hl (a & e & Ha & Hk & He). unfold Agent.set_host.
  pose proof (map_attempt_post r0 t a (fun a => a <| host := identity env |>) Hl Ha
    (alike_host a _ (live_push _ a (proj1 Hl) Ha))) as Hm.
  post_step Hm t'. destruct Hm as (Hl' & _ & Er). split; [done|]. rewrite Er.
  by exists (a <| host := identity env |>), e.
Qed.

Lemma stage_leaves r0 t a e o : leaves r0 t -> session (record t) a -> ending_ok spec V e ->
  post (stage_agent_end t e o) (fun t' => leaves r0 t' /\ ending_at (record t')
    /\ visits (record t') = visits (record t) /\ run_node (record t') = run_node (record t)).
Proof.
  intros [Hw Hd] Hs He. pose proof (stage_post spec V t a e o Hs He (live_push _ a Hw (session_live _ _ _ _ Hs))) as Hp.
  post_step Hp t'.
  destruct Hp as (Hw' & Hd' & Hs' & _ & Hv). split_and!; [split; [done|]| |done|].
  - transitivity (record t); [done|]. by eapply Hd', session_mark.
  - eexists _, e. split_and!; [apply Hs'|apply Hs'|done].
  - by rewrite <- (session_node _ _ _ _ Hs), <- (session_node _ _ _ _ Hs').
Qed.

(** The section that stages an ending ends with its record to finish. *)
Lemma wp_ending r0 t st (Q : Transition -> Store -> Prop) : leaves r0 t -> ending_at (record t) ->
  (forall t' st', inv r0 st' -> (forall reason, pending_ok (stored st') (Finishing (record t') reason)) ->
     ending_at (record t') -> leaves r0 t' -> stored st' = record t' -> Q t' st') ->
  wp r0 (persist t) st Q.
Proof.
  intros Hl He HQ. apply wp_persist; [done|]. intros t' st' Hc _ Hst Hl' Hi.
  assert (He' : ending_at (record t')) by by eapply ending_core.
  apply HQ; try done. intros reason. rewrite Hst. apply finishing_ok; [apply Hl'|done].
Qed.

Lemma wp_end_session r0 env t a e o seen_ st : inv r0 st -> leaves r0 t -> session (record t) a -> ending_ok spec V e ->
  wp r0 (Until.end_session env t e o seen_) st (fun '(_, _, d) => decided d).
Proof.
  intros Hi Hl Hs He. unfold Until.end_session.
  pose proof (stage_leaves r0 t a e o Hl Hs He) as Hp. wp_call Hp t1. destruct Hp as (Hl1 & He1 & _).
  pose proof (set_host_post r0 env t1 Hl1 He1) as Hh. wp_call Hh t2. destruct Hh as [Hl2 He2].
  apply wp_bind, wp_ending; [done..|]. intros t3 st3 Hi3 Hf _ _ _. apply wp_ret; [done|].
  eexists. split; [done|]. exact (Hf None).
Qed.

Lemma wp_persist_if r0 (t : Transition) (b : bool) st (Q : Transition -> Store -> Prop) :
  inv r0 st -> leaves r0 t -> run_state (record t) = RunState.Active ->
  (forall st', inv r0 st' -> Q t st') -> wp r0 (if b then persist t else ret t) st Q.
Proof.
  intros Hi Hl Hs HQ. destruct b; [|apply wp_ret; auto].
  apply wp_persist; [done|]. intros t' st' _ -> _ _ Hi'; auto.
Qed.

(** ** Holds *)

Lemma begin_post r0 t a o : leaves r0 t -> session (record t) a -> ending a = None ->
  (attempt_run a = None -> turn o = None) ->
  post (Until.begin_ spec t o) (fun '(t', b) => leaves r0 t' /\ (b = false -> t' = t)).
Proof.
  intros Hl Hs He Hrun. unfold Until.begin_, Until.eligible.
  destruct (ofilter (turn o) _) as [turn_|] eqn:Et; [|by split].
  assert (Hr : attempt_run a <> None) by (intros Hn; rewrite (Hrun Hn) in Et; done).
  rewrite (session_live _ _ _ _ Hs). cbn [expect]. destruct (_ || _); [by split|].
  destruct (session_step _ _ _ _ Hs) as (s & Es & Hag). rewrite Es. cbn [expect].
  destruct (head (step_then s)) as [check|] eqn:Eh; [|done].
  assert (HVn : V (attempt_node a)) by (rewrite (session_node _ _ _ _ Hs); apply Hl).
  destruct (then_node _ s HVn Es check Eh) as [HVc Hck]. cbn [post]. split; [|done].
  set (t' := update t _).
  assert (Er : record t' = record t
    <| held := Some {| held_attempt := a <| judged := Some (turn_end_ turn_) |>;
                       held_entered_at := entered_at (record t); held_verdict := None |} |>
    <| attempt := None |> <| run_node := check |> <| entered_at := now t |>
    <| check_retry := 0%N |> <| check_retry_context := None |>) by done. clearbody t'.
  destruct Hl as [Hw Hd]. pose proof (wf_attempt _ _ _ Hw a (session_live _ _ _ _ Hs)) as (Hst & Hn & Hf).
  assert (Hal : alike a (a <| judged := Some (turn_end_ turn_) |>)) by (by split_and!).
  split.
  - rewrite Er. pose proof (wf_prev_live _ _ _ Hw a) as Hpl. destruct Hw.
    split; cbn; [auto|auto|done| |auto|auto|auto|auto|done|done| |auto].
    + intros h [= <-]. split; [done|]. split; cbn; [|by eapply session_step|done..].
      apply (fits_same _ _ (record t)); [done..|]. by apply (fits_alike _ a).
    + intros h p [= <-] Hp Hq. cbn in Hq. destruct (Hpl p (session_live _ _ _ _ Hs) Hp Hq) as [_ [e' He']].
      by rewrite He in He'.
  - transitivity (record t); [done|]. rewrite Er. apply descends_incl; [done|]. intros q n e Hm.
    exists e. split; [|done]. rewrite elem_of_marks in *. cbn in Hm.
    destruct Hm as [(? & ? & _)|[(? & [= <-] & ->)|?]]; [done| |by right; right].
    left. exists a. split; [by apply Hs|done].
Qed.

(** *** Visits of the current step *)

Lemma wf_visits r vs : (forall n, is_Some (visits r !! n) -> is_Some (vs !! n)) ->
  (forall n s v, lookup_key n (steps spec) = Some s -> vs !! n = Some v -> within s v (visit_grant r)) ->
  WF r -> WF (r <| visits := vs |>).
Proof.
  intros Hv Hw []. split; cbn; [auto|auto| | |auto..].
  - intros a Ha. destruct (wf_attempt a Ha) as (? & ? & []). split_and!; [done|done|]. split; cbn; auto.
  - intros h Hh. destruct (wf_held h Hh) as [? []]. split; [done|]. split; auto.
    destruct held_fits. split; cbn; auto.
Qed.

Lemma count_visit_leaves r0 t s : leaves r0 t -> lookup_key (run_node (record t)) (steps spec) = Some s ->
  tripped s (record t) = None -> leaves r0 (count_visit t).
Proof.
  intros [Hw Hd] Hs Ht. unfold count_visit. split; [|by transitivity (record t); [|apply descends_same]].
  pose proof (wf_within _ _ _ Hw) as Hin.
  refine (wf_visits _ _ _ _ Hw).
  - intros n Hn. destruct (decide (n = run_node (record t))) as [->|]; [rewrite lookup_insert_eq; by eexists|].
    by rewrite lookup_insert_ne.
  - intros n s' v Hs' [[<- <-]|[_ Hv]]%lookup_insert_Some; [|by eapply Hin].
    rewrite Hs in Hs'. injection Hs' as <-. apply within_bump; [|done].
    destruct (visits (record t) !! run_node (record t)) as [v|] eqn:Ev; cbn; [by eapply Hin|].
    split; [intros; unfold saturating_add_u64; cbn; lia|]. intros cap b _. unfold for_bucket, bucket_index. cbn. lia.
Qed.

Lemma current_visit_counted t : exists v, current_visit (record (count_visit t)) = Ok v.
Proof. unfold current_visit, count_visit. cbn. rewrite lookup_insert_eq. by eexists. Qed.

(** *** [context.json] *)

Lemma wp_context r0 r st (Q : unit -> Store -> Prop) : WF r -> inv r0 st -> is_Some (attempt r) ->
  (contains_key (run_node r) (steps spec) = true -> is_Some (visits r !! run_node r)) ->
  (forall st', stored st' = stored st -> journal st' = journal st -> inv r0 st' -> Q tt st') ->
  wp r0 (write_context spec r) st Q.
Proof.
  intros Hw Hi [a Ha] Hv HQ. unfold write_context, wp. rewrite Ha. cbn [expect].
  set (fv := if contains_key (run_node r) (steps spec) then _ else _).
  assert (Hfv : exists v, fv = Ok v).
  { subst fv. destruct (contains_key _ _); [|by eexists]. destruct (Hv eq_refl) as [vs ->]. by eexists. }
  clearbody fv. destruct Hfv as [v ->].
  set (s := ofilter _ _).
  assert (Hs : forall a', s = Some a' -> is_Some (visits r !! attempt_node a')).
  { subst s. destruct (held r) as [h|] eqn:Eh; cbn; destruct (_ && _) eqn:Ec; try done; intros a' [= <-].
    - destruct (wf_held _ _ _ Hw h Eh) as [_ [Hf Hag Ho]]. apply Hf; [by apply agent_step_contains|done].
    - apply andb_true_iff in Ec as [El%bool_decide_eq_true Hn].
      pose proof (wf_attempt _ _ _ Hw a Ha) as (_ & _ & Hf). apply Hf; [by apply Hf|].
      by destruct (ending a). }
  clearbody s. destruct s as [a'|].
  - destruct (Hs a' eq_refl) as [vs ->]. cbn. split; [done|]. by apply HQ.
  - cbn. split; [done|]. by apply HQ.
Qed.

Lemma live_visits r a : WF r -> attempt r = Some a -> ending a = None ->
  contains_key (run_node r) (steps spec) = true -> is_Some (visits r !! run_node r).
Proof.
  intros Hw Ha He Hk. pose proof (wf_attempt _ _ _ Hw a Ha) as (_ & En & Hf). rewrite <- En in *. by apply Hf.
Qed.

(** *** Until sessions *)

Lemma wp_restore r0 t h action v reason st : inv r0 st -> leaves r0 t -> held (record t) = Some h ->
  wp r0 (Until.restore spec t action v reason) st (fun '(_, _, d) => decided d).
Proof.
  intros Hi [Hw Hd] Hh. unfold Until.restore. rewrite Hh. apply wp_bind, wp_lift; [done|]. cbn [expect post].
  destruct (wf_held _ _ _ Hw h Hh) as [Hst Hho].
  pose proof (turn_end_record t (held_attempt h) action v reason (held_judged _ _ _ _ Hho)) as Ht.
  wp_call Ht t1. destruct Ht as [E1 _]. rewrite <- E1 in Hw, Hd, Hh, Hst, Hho.
  pose proof (restore_post t1 h Hw Hh) as Hr. wp_call Hr t2. destruct Hr as (Hl2 & Hs2 & _).
  assert (Hl : leaves r0 t2) by by eapply leaves_weaken.
  wp_persist_as t3 Hc Hact Est Hl3. rewrite Hact in * by apply Hs2.
  apply wp_bind, wp_context; [apply Hl|done|eexists; apply Hs2| |].
  - eapply live_visits; [apply Hl|apply Hs2|apply Hho].
  - intros st4 _ _ Hi4. apply wp_ret; [done|]. by eexists.
Qed.

Lemma verdict_plain v : verdict_ok spec V v -> verdict_target v <> str "@wait" -> plain (verdict_object v).
Proof. intros (_ & _ & [?|(_ & ? & _)]) Hn; [done|by destruct Hn]. Qed.

Lemma special_not_V n : V n -> n ∉ SPECIAL.
Proof. intros Hn Hs. apply closed_node in Hn. by rewrite sealed_special in Hn. Qed.

Lemma wp_push_back r0 env t h v o st : inv r0 st -> leaves r0 t -> held (record t) = Some h ->
  verdict_ok spec V v -> plain (verdict_object v) ->
  wp r0 (Until.push_back spec env t v o) st (fun '(_, _, d) => decided d).
Proof.
  intros Hi Hl Hh Hv Hpl. unfold Until.push_back. destruct (close_wait_same t) as [Hc0 _].
  set (t0 := close_wait t) in *. clearbody t0.
  pose proof (core_wf _ _ _ _ Hc0 (proj1 Hl)) as Hw0. pose proof (core_visits _ _ Hc0) as (_ & _ & Eh).
  rewrite Hh in Eh. destruct (wf_held _ _ _ Hw0 h Eh) as [_ Hho].
  pose proof (restore_post t0 h Hw0 Eh) as Hr. wp_call Hr t1. destruct Hr as (Hl1 & Hs1 & _).
  assert (Hd1 : descends r0 (record t1)).
  { transitivity (record t); [apply Hl|]. transitivity (record t0); [by apply core_descends|apply Hl1]. }
  set (t2 := update t1 _).
  assert (E2 : record t2 = record t1 <| key := object_key (verdict_object v) |> <| input := Some (verdict_object v) |>)
    by done.
  clearbody t2. assert (Ha2 : attempt (record t2) = Some (held_attempt h)) by (rewrite E2; apply Hs1).
  assert (Hl2 : leaves r0 t2).
  { split; rewrite E2; [by apply wf_input_set, Hl1|]. transitivity (record t1); [done|by apply descends_same]. }
  assert (Hs2 : session (record t2) (held_attempt h))
    by (apply session_of_wf; [done|apply Hl2|done|by apply Hs1]).
  destruct (session_step _ _ _ _ Hs2) as (s & Es & _). rewrite (session_node _ _ _ _ Hs2) in Es.
  rewrite Es. apply wp_bind, wp_lift; [done|]. cbn [expect post].
  destruct (tripped s (record t2)) as [[[bound_ visits_] max]|] eqn:Etr.
  - pose proof (cap_route_post t2 s bound_ visits_ max (proj1 Hl2) Es) as Hp. wp_call Hp x. destruct x as [t3 v3].
    destruct Hp as (E3 & _ & Hv3 & Hpl3 & _).
    eapply (wp_end_session r0 env t3 (held_attempt h)); [done|unfold TransitionFacts.leaves; by rewrite E3|by rewrite E3|].
    by intros v' [= <-].
  - pose proof (count_visit_leaves r0 t2 s Hl2 Es Etr) as Hl3. destruct (current_visit_counted t2) as [n En].
    set (t3 := count_visit t2) in *.
    assert (Ha3 : attempt (record t3) = Some (held_attempt h)) by exact Ha2.
    assert (Hv3 : is_Some (visits (record t3) !! run_node (record t3))).
    { subst t3. unfold count_visit. cbn. rewrite lookup_insert_eq. by eexists. }
    clearbody t3. rewrite En. apply wp_bind, wp_lift; [done|]. cbn [post].
    rewrite Ha3. apply wp_bind, wp_lift; [done|]. cbn [expect post].
    set (a := held_attempt h <| visit := Some n |> <| push := _ |>).
    assert (Hal : alike (held_attempt h) a).
    { split_and!; try done. intros _. exact (held_run _ _ _ _ Hho). }
    pose proof (leaves_set_attempt r0 t3 _ a Hl3 Ha3 Hal) as Hl4. set (t4 := update t3 _) in *.
    assert (E4 : record t4 = record t3 <| attempt := Some a |>) by done. clearbody t4.
    match goal with |- context [turn_end t4 ?x _ _ _] => set (a5 := x) end.
    assert (Hj : judged a5 <> None) by exact (held_judged _ _ _ _ Hho). clearbody a5.
    pose proof (turn_end_record t4 a5 TurnEndAction.Pushed (Some v) None Hj) as Ht.
    wp_call Ht t5. destruct Ht as [E5 _].
    assert (Hl5 : leaves r0 t5) by (unfold TransitionFacts.leaves; by rewrite E5).
    assert (Ha5 : attempt (record t5) = Some a) by (by rewrite E5, E4).
    wp_persist_as t6 Hc6 Hact6 Est6 Hl6.
    rewrite Hact6 in * by (apply (wf_attempt _ _ _ (proj1 Hl5) a Ha5)).
    apply wp_bind, wp_context; [apply Hl5|done|by eexists|intros _; by rewrite E5, E4|].
    intros st7 _ _ Hi7. apply wp_ret; [done|]. eexists. split; [done|]. exists a. split_and!; [done|done|exact (held_run _ _ _ _ Hho)].
Qed.

Lemma same_leaves r0 t t' : same t t' -> leaves r0 t -> leaves r0 t'.
Proof.
  intros [Hc _] [Hw Hd]. split; [by eapply core_wf|]. transitivity (record t); [done|by apply core_descends].
Qed.

Lemma wp_keep_waiting r0 t h v seen_ st : inv r0 st -> leaves r0 t -> held (record t) = Some h ->
  verdict_node v = run_node (record t) -> verdict_ok spec V v ->
  wp r0 (Until.keep_waiting spec t v seen_) st (fun '(_, _, d) => decided d).
Proof.
  intros Hi Hl Hh Hn Hv. unfold Until.keep_waiting.
  assert (Hcase : str_at (str "outcome") (verdict_object v) = Some (str "hold") ->
    forall c, case_index (verdict_object v) = Some c -> is_Some (case_at spec (run_node (record t)) c)).
  { intros Ho c Hc. destruct Hv as (_ & _ & [Hpl|(_ & _ & Hx)]); [by destruct (case_index_plain _ c Hpl Ho)|].
    rewrite <- Hn. by apply Hx. }
  pose proof (merge_wait_post spec t (verdict_object v) (default (now t) (verdict_at v)) true Hcase) as Hm.
  wp_call Hm t1. destruct Hm as [Hsame (w & Ew & _)].
  pose proof (same_leaves r0 _ _ Hsame Hl) as Hl1. destruct (core_visits _ _ (proj1 Hsame)) as (_ & _ & Eh).
  rewrite Eh, Hh. apply wp_bind, wp_lift; [done|]. cbn [expect post].
  destruct (wf_held _ _ _ (proj1 Hl) h Hh) as [Hst Hho].
  set (a := held_attempt h <| woken := false |>).
  assert (Hal : alike (held_attempt h) a) by (split_and!; try done; intros _; exact (held_run _ _ _ _ Hho)).
  set (h' := h <| held_verdict := None |> <| held_attempt := a |>).
  pose proof (leaves_set_held r0 t1 h h' Hl1 (eq_trans Eh Hh) Hal ltac:(by right)) as Hl2.
  set (t2 := update t1 _) in *. assert (Ew2 : wait (record t2) = Some w) by exact Ew. clearbody t2.
  pose proof (turn_end_record t2 a TurnEndAction.Kept (Some v) None (held_judged _ _ _ _ Hho)) as Ht.
  wp_call Ht t3. destruct Ht as [E3 En3].
  apply wp_bind, (wp_weaken _ _ _ (fun t' _ => leaves r0 t')).
  - destruct (woken (held_attempt h)).
    + rewrite E3, Ew2. apply wp_bind, wp_lift; [done|]. cbn [expect post]. apply wp_ret; [done|].
      apply (same_leaves r0 t2); [|done]. split; [by rewrite <- E3|exact En3].
    + apply wp_ret; [done|]. unfold TransitionFacts.leaves. by rewrite E3.
  - intros t4 st4 Hi4 Hl4. wp_persist_as t5 Hc5 Hact5 Est5 Hl5. apply wp_ret; [done|].
    eexists. split; [done|]. by destruct (woken (held_attempt h)).
Qed.

Lemma close_after_post r : (forall h, held r = Some h -> agent_step spec (attempt_node (held_attempt h))) ->
  post (close_after spec r) (fun _ => True).
Proof.
  intros Hh. unfold close_after. destruct (held r) as [h|]; [|done]. destruct (held_verdict h) as [v|]; [|done].
  destruct (decide _); [done|]. destruct (Hh h eq_refl) as (s & -> & _). cbn. by destruct (decide _).
Qed.

(** A held session moved on to the next of its checks. *)
Lemma held_next_leaves r0 t h h' target_ : leaves r0 t -> held (record t) = Some h -> attempt (record t) = None ->
  held_attempt h' = held_attempt h -> held_verdict h' = None -> V target_ ->
  contains_key target_ (checks spec) = true ->
  leaves r0 (update t (fun r => r <| held := Some h' |> <| run_node := target_ |>
    <| entered_at := now t |> <| check_retry := 0%N |> <| check_retry_context := None |>)).
Proof.
  intros [Hw Hd] Hh Ha Ea Ev HV Hk. split.
  - destruct (wf_held _ _ _ Hw h Hh) as [Hst Hho]. destruct Hw.
    split; cbn; [auto|auto|by rewrite Ha| |auto..].
    + intros h0 [= <-]. split; [done|]. destruct Hho. split; rewrite ?Ea; cbn; [|done..|by rewrite Ev].
      by apply (fits_same _ _ (record t)).
    + intros a h0. by rewrite Ha.
    + intros h0 p [= <-] Hp. rewrite Ea. exact (wf_prev_held h p Hh Hp).
  - transitivity (record t); [done|]. apply descends_incl; [done|]. intros q n e Hm. exists e. split; [|done].
    rewrite elem_of_marks in *. cbn in Hm. destruct Hm as [?|[(? & [= <-] & ->)|?]]; [by left| |by right; right].
    right; left. exists h. by rewrite Ea.
Qed.

Lemma alike_hold r a ask_ stopped_ now_ : fits spec V r a -> alike a (Agent.hold a ask_ stopped_ now_).1.
Proof. intros Hf. apply hold_alike, Hf. Qed.

Lemma wp_stop_held r0 (t : Transition) (changed : bool) (seen_ : seen_nodes) st (Q : Transition * seen_nodes * option Decision -> Store -> Prop) :
  inv r0 st -> leaves r0 t -> (forall t' st', inv r0 st' -> Q (t', seen_, Some Stop) st') ->
  wp r0 (Until.stop_held t changed seen_) st Q.
Proof.
  intros Hi Hl HQ. unfold Until.stop_held. destruct changed.
  - wp_persist_as t' Hc Hact Hst Hl'. apply wp_ret; [done|]. by apply HQ.
  - apply wp_bind, wp_ret; [done|]. apply wp_ret; [done|]. by apply HQ.
Qed.

(** Running a verdict on the session it judges. *)
Lemma wp_verdict r0 (env : Env) (t : Transition) (h : HeldSession) (v : Verdict) (o : Observed) (hold_changed : bool) (seen_ : seen_nodes) st :
  inv r0 st -> leaves r0 t -> held (record t) = Some h -> held_verdict h = Some v ->
  wp r0
    (if decide (verdict_target v = str "@wait") then Until.keep_waiting spec t v seen_
     else if decide (verdict_target v = attempt_node (held_attempt h)) then
       if is_none (Until.eligible o) then Until.stop_held t hold_changed seen_
       else Until.push_back spec env t v o
     else
       let* step := lift (expect (lookup_key (attempt_node (held_attempt h)) (steps spec))) in
       if decide (verdict_target v ∈ step_then step) then
         if is_none (Until.eligible o) then Until.stop_held t hold_changed seen_
         else
           let t := close_wait t in
           let* t := lift (turn_end t (held_attempt h) TurnEndAction.Kept (Some v) None) in
           let t := update t (fun r =>
             r <| held := Some (h <| held_verdict := None |>) |> <| run_node := verdict_target v |>
               <| entered_at := now t |> <| check_retry := 0%N |>
               <| check_retry_context := None |>) in
           let* t := persist t in
           ret (t, seen_, Some Again)
       else
         let* after := lift (close_after spec (record t)) in
         if is_some_and after (fun '(at_, _) => (now t <? at_)%Z) || is_none (Until.eligible o)
         then Until.stop_held t hold_changed seen_
         else
           let* t := lift (restore_session t) in
           Until.end_session env t
             {| ending_outcome := AttemptOutcome.Ended; ending_cause := EndCause.Lifecycle;
                ending_route := Some v; ending_reason := None |} o ∅)
    st (fun '(_, _, d) => decided d).
Proof.
  intros Hi Hl Hh Ev. destruct (wf_held _ _ _ (proj1 Hl) h Hh) as [Hst Hho].
  destruct (held_verdicts _ _ _ _ Hho v Ev) as (Ha & Hn & Hv).
  assert (Hstop : wp r0 (Until.stop_held t hold_changed seen_) st (fun '(_, _, d) => decided d)).
  { apply wp_stop_held; [done..|]. intros t' st' _. by eexists. }
  destruct (decide (verdict_target v = str "@wait")) as [Hw|Hw]; [by apply (wp_keep_waiting r0 t h)|].
  pose proof (verdict_plain v Hv Hw) as Hpl.
  destruct (decide (verdict_target v = attempt_node (held_attempt h))).
  { destruct (is_none _); [done|]. by apply (wp_push_back r0 env t h). }
  destruct (held_agent _ _ _ _ Hho) as (s & Es & _). rewrite Es. apply wp_bind, wp_lift; [done|]. cbn [expect post].
  destruct (decide (verdict_target v ∈ step_then s)) as [Hin|Hin].
  - destruct (is_none _); [done|]. pose proof (sealed_then _ _ _ Es Hin) as Hck.
    assert (HV : V (verdict_target v)).
    { destruct Hv as (_ & [?|Hsp] & _); [done|]. apply sealed_special in Hsp. unfold is_node in Hsp. by rewrite Hck in Hsp. }
    pose proof (same_leaves r0 _ _ (close_wait_same t) Hl) as Hl1. destruct (close_wait_same t) as [Hc _].
    pose proof (core_inv _ _ Hc) as (_ & _ & _ & _ & _ & _ & Ea1 & Eh1 & _). set (t1 := close_wait t) in *. clearbody t1.
    cbv zeta.
    pose proof (turn_end_record t1 (held_attempt h) TurnEndAction.Kept (Some v) None (held_judged _ _ _ _ Hho)) as Ht.
    wp_call Ht t2. destruct Ht as [E2 _].
    assert (Hl2 : leaves r0 t2) by (unfold TransitionFacts.leaves; by rewrite E2).
    pose proof (held_next_leaves r0 t2 h (h <| held_verdict := None |>) (verdict_target v) Hl2
      ltac:(by rewrite E2, Eh1) ltac:(by rewrite E2, Ea1) eq_refl eq_refl HV Hck) as Hl3.
    wp_persist_as t3 Hc3 Hact3 Est3 Hl4. apply wp_ret; [done|]. by eexists.
  - pose proof (close_after_post (record t)) as Hca.
    assert (Hag : forall h0, held (record t) = Some h0 -> agent_step spec (attempt_node (held_attempt h0))).
    { intros h0 Hh0. by destruct (wf_held _ _ _ (proj1 Hl) h0 Hh0) as [_ []]. }
    specialize (Hca Hag). wp_call Hca after. destruct (_ || _); [done|].
    pose proof (restore_post t h (proj1 Hl) Hh) as Hr. wp_call Hr t1. destruct Hr as (Hl1 & Hs1 & _).
    eapply (wp_end_session r0 env t1 (held_attempt h)); [done| |done|].
    + eapply leaves_weaken; [apply Hl|done].
    + by intros v' [= <-].
Qed.

Lemma wp_until_prepare r0 (env : Env) (t : Transition) (h : HeldSession) (seen_ : seen_nodes) st :
  inv r0 st -> leaves r0 t -> held (record t) = Some h ->
  wp r0 (Until.prepare spec env t seen_) st (fun '(t', _, d) st' => decided d st'
    \/ (d = None /\ leaves r0 t' /\ run_node (record t') = run_node (record t)
        /\ next_seq (record t') = next_seq (record t) /\ run_state (record t') = RunState.Active
        /\ forall h', held (record t') = Some h' -> held_verdict h' = None)).
Proof.
  intros Hi Hl Hh. destruct (wf_held _ _ _ (proj1 Hl) h Hh) as [Hst Hho].
  unfold Until.prepare. rewrite Hh. apply wp_bind, wp_lift; [done|]. cbn [expect post].
  destruct (attempt_run (held_attempt h)) as [run_|] eqn:Er; [|by destruct (held_run _ _ _ _ Hho)].
  apply wp_bind, wp_lift; [done|]. cbn [expect post].
  destruct (observe env run_ OfLeaderTurn) as [observed|]; [|by apply wp_bind, wp_lift].
  apply wp_bind, wp_lift; [done|]. cbn [host_answer post].
  pose proof (alike_hold _ _ (ask observed) (observed_stopped observed) (now (with_now t (observed_time env)))
    (held_fits _ _ _ _ Hho)) as Hal.
  destruct (Agent.hold _ _ _ _) as [a hold_changed]. cbn [fst] in Hal.
  set (h' := h <| held_attempt := a |>).
  pose proof (leaves_set_held r0 (with_now t (observed_time env)) h h' Hl Hh Hal ltac:(by left)) as Hl1.
  set (t1 := update (with_now t (observed_time env)) (fun r => r <| held := Some h' |>)) in *.
  assert (Hh1 : held (record t1) = Some h') by done.
  assert (Hst1 : run_state (record t1) = RunState.Active) by done.
  assert (Hn1 : run_node (record t1) = run_node (record t)) by done.
  assert (Hq1 : next_seq (record t1) = next_seq (record t)) by done. clearbody t1.
  destruct (if due t1 then _ else _) as [[[outcome_ cause] reason]|].
  { pose proof (interrupt_post t1 h' reason (proj1 Hl1) Hh1) as Hr. wp_call Hr t2. destruct Hr as (Hl2 & Hs2 & _).
    eapply wp_weaken; [eapply (wp_end_session r0 env t2 (held_attempt h'))|].
    - done.
    - eapply leaves_weaken; [apply Hl1|done].
    - done.
    - done.
    - intros [[t' s'] d] st' _ Hd. by left. }
  destruct (_ || _).
  { eapply wp_weaken; [apply (wp_restore r0 _ h'); [done| |]|].
    - apply (same_leaves r0 (abandon_check t1 (str "canceled"))); [apply close_wait_same|].
      destruct (abandon_check_core t1 (str "canceled")) as [Hc _].
      destruct (leaves_drop spec V t1 _ (proj1 Hl1) Hc) as [Hx _]. eapply leaves_weaken; [apply Hl1|done].
    - destruct (close_wait_same (abandon_check t1 (str "canceled"))) as [Hc _].
      destruct (abandon_check_core t1 (str "canceled")) as [Hc' _].
      apply core_visits in Hc as (_ & _ & ->). symmetry in Hc'. apply core_visits in Hc' as (_ & _ & ->). done.
    - intros [[t' s'] d] st' _ Hd. by left. }
  destruct (held_verdict h') as [v|] eqn:Ev.
  { eapply wp_weaken; [exact (wp_verdict r0 env t1 h' v observed hold_changed seen_ st Hi Hl1 Hh1 Ev)|].
    intros [[t' s'] d] st' _ Hd. by left. }
  assert (Hopen : forall h0, held (record t1) = Some h0 -> held_verdict h0 = None) by congruence.
  apply wp_bind, wp_persist_if; [done..|]. intros st' Hi'. apply wp_ret; [done|]. by right.
Qed.

(** ** [prepare] *)

Lemma hold_run a ask_ stopped_ now_ : attempt_run (Agent.hold a ask_ stopped_ now_).1 = attempt_run a.
Proof. unfold Agent.hold. cbn [fst]. by repeat case_match. Qed.

(** What is known of the transition that staged an ending. *)
Definition staged r0 (t : Transition) (d : Decision) : Prop :=
  match d with End_ _ => leaves r0 t /\ ending_at (record t) | _ => True end.

Lemma wp_prepare_end r0 (env : Env) (t : Transition) (a : LiveAttempt) st :
  inv r0 st -> leaves r0 t -> attempt (record t) = Some a -> attempt_kind a = AttemptKind.Agent ->
  wp r0 (prepare_end spec env t) st (fun '(t', d) st' => pending_ok (stored st') (pend d) /\ staged r0 t' d).
Proof.
  intros Hi Hl Ha Hk. unfold prepare_end. rewrite Ha. apply wp_bind, wp_lift; [done|]. cbn [expect post].
  pose proof (session_of_wf spec V _ _ (proj1 Hl) Ha Hk) as Hs.
  destruct (wf_attempt _ _ _ (proj1 Hl) a Ha) as (Hst & Hn & Hf).
  assert (Hfin : forall t1, leaves r0 t1 -> ending_at (record t1) ->
    wp r0 (let* t := lift (Agent.set_host env t1) in let* t := persist t in ret (t, End_ (record t))) st
      (fun '(t', d) st' => pending_ok (stored st') (pend d) /\ staged r0 t' d)).
  { intros t1 Hl1 He1. pose proof (set_host_post r0 env t1 Hl1 He1) as Hh. wp_call Hh t2. destruct Hh as [Hl2 He2].
    apply wp_bind, wp_ending; [done..|]. intros t3 st3 Hi3 Hp3 He3 Hl3 _. apply wp_ret; [done|].
    split; [exact (Hp3 None)|done]. }
  destruct (ending a) as [e|] eqn:He.
  { destruct (Agent.live_host env a); [by apply wp_ret|].
    assert (He0 : ending_at (record t)) by (by exists a, e).
    destruct (fit_ending _ _ _ _ Hf e He) as (_ & _ & Hro).
    apply wp_bind. destruct (is_none_or _ _); [|apply wp_ret; [done|]; by apply Hfin].
    apply wp_bind, wp_lift; [done|].
    destruct (match attempt_run a with Some _ => _ | None => _ end) as [observed|er] eqn:Eo.
    2: { destruct (attempt_run a); [|done]. destruct (observe _ _ _); [done|]. by injection Eo as <-. }
    cbn [post]. pose proof (stage_leaves r0 t a e observed Hl Hs Hro) as Hp.
    apply wp_lift; [done|]. post_step Hp t1. cbn [post]. apply Hfin; apply Hp. }
  apply wp_bind, wp_lift; [done|].
  destruct (match attempt_run a with Some _ => _ | None => _ end) as [observed|er] eqn:Eo.
  2: { destruct (attempt_run a); [|done]. destruct (observe _ _ _); [done|]. by injection Eo as <-. }
  assert (Hturn : attempt_run a = None -> turn observed = None).
  { intros Hr. rewrite Hr in Eo. by injection Eo as <-. }
  cbn [post]. clear Eo. set (t0 := with_now t (observed_time env)).
  pose proof (alike_hold _ _ (ask observed) (observed_stopped observed) (now t0) Hf) as Hal.
  pose proof (hold_run a (ask observed) (observed_stopped observed) (now t0)) as Hrun.
  destruct (Agent.hold _ _ _ _) as [a' hold_changed]. cbn [fst] in Hal, Hrun. cbv zeta.
  assert (Ha0 : attempt (record t0) = Some a) by exact Ha.
  pose proof (leaves_set_attempt r0 t0 a a' Hl Ha0 Hal) as Hl1.
  set (t1 := update t0 (fun r => r <| attempt := Some a' |>)) in *.
  assert (Ha1 : attempt (record t1) = Some a') by done.
  assert (Hst1 : run_state (record t1) = RunState.Active) by done. clearbody t1.
  assert (Hk' : attempt_kind a' = AttemptKind.Agent) by (destruct Hal; congruence).
  assert (He' : ending a' = None) by (destruct Hal as (_ & _ & _ & _ & _ & Hx & _); congruence).
  pose proof (session_of_wf spec V _ _ (proj1 Hl1) Ha1 Hk') as Hs1.
  apply wp_bind, (wp_weaken _ _ _ (fun x st' => st' = st /\ forall e, x = Some e -> ending_route e = None)).
  { destruct (due t1); [apply wp_ret; [done|]; split; [done|by intros e [= <-]]|].
    pose proof (timeout_at_post spec (record t1)) as Ht. wp_call Ht at_.
    destruct (is_some_and _ _); (apply wp_ret; [done|]; split; [done|]); [by intros e [= <-]|].
    intros e. by destruct (or_else _ _) as [o|]; cbn; intros [= <-]. }
  intros ending_ st1 _ [-> Hroute]. destruct ending_ as [e|].
  - pose proof (stage_leaves r0 t1 a' e (Agent.fold_limited observed (ending_outcome e)) Hl1 Hs1) as Hp.
    assert (Hok : ending_ok spec V e) by (intros v; by rewrite Hroute). specialize (Hp Hok).
    wp_call Hp t2. destruct Hp as (Hl2 & He2 & _). destruct (_ && _); [|by apply Hfin].
    apply wp_bind, wp_ending; [done..|]. intros t3 st3 Hi3 _ _ _ _. by apply wp_ret.
  - destruct (is_some_and (push a') _) eqn:Hpush.
    + apply wp_bind, wp_persist_if; [done..|]. intros st2 Hi2. apply wp_ret; [done|]. split; [|done].
      assert (Hne : push a' <> None) by (by destruct (push a')).
      exists a'. split_and!; [done..|]. by eapply live_push; [apply Hl1|..].
    + pose proof (begin_post r0 t1 a' observed Hl1 Hs1 He' ltac:(rewrite Hrun; done)) as Hb.
      wp_call Hb x. destruct x as [t2 b]. destruct Hb as [Hl2 Hsame]. destruct b.
      * wp_persist_as t3 Hc Hact Est Hl3. by apply wp_ret.
      * rewrite Hsame in * by done. apply wp_bind, wp_persist_if; [done..|]. intros st2 Hi2. by apply wp_ret.
Qed.

(** *** Gates *)

(** A throttle answer is for the agent step the run is at. *)
Definition adm_at (n : text) (adm : Admission) : Prop :=
  forall q n' x, capacity_answer adm = Some (q, n', x) -> n' = n /\ agent_step spec n.

Lemma adm_at_ok n adm : adm_at n adm -> admission_ok adm.
Proof. intros Ha q n' x Hx. by destruct (Ha q n' x Hx) as [-> ?]. Qed.

Lemma adm_at_clear n adm : adm_at n (clear_capacity adm).
Proof. by intros q n' x. Qed.

(** A record between attempts, of an active run. *)
Record ready r0 (t : Transition) : Prop := {
  ready_leaves : leaves r0 t;
  ready_free : attempt (record t) = None;
  ready_active : run_state (record t) = RunState.Active;
  ready_open : forall h, held (record t) = Some h -> held_verdict h = None
}.

Lemma ready_core r0 t t' : core (record t) = core (record t') -> ready r0 t -> ready r0 t'.
Proof.
  intros Hc []. pose proof (core_inv _ _ Hc) as (Es & _ & _ & _ & _ & _ & Ea & Eh & _).
  split; [|congruence..|by rewrite Eh]. destruct ready_leaves0 as [Hw Hd]. split; [by eapply core_wf|].
  transitivity (record t); [done|by apply core_descends].
Qed.

Lemma ready_drop r0 t : ready r0 t -> WF (record t <| attempt := None |>).
Proof. intros []. by apply wf_drop, ready_leaves0. Qed.

(** A gate decides, or lets the attempt of the node [n] start. *)
Definition gated r0 (n : text) (g : Transition * seen_nodes * Admission * (Decision + option text)) st : Prop :=
  let '(t, _, adm, v) := g in
  match v with
  | inl d => admission_ok adm /\ pending_ok (stored st) (pend d)
  | inr _ => adm_at n adm /\ ready r0 t /\ run_node (record t) = n
             /\ forall s, lookup_key n (steps spec) = Some s -> tripped s (record t) = None
  end.

Lemma wp_gate_stop r0 (t : Transition) (seen_ : seen_nodes) adm n st : inv r0 st -> leaves r0 t -> adm_at n adm ->
  wp r0 (gate_stop t seen_ adm) st (gated r0 n).
Proof.
  intros Hi Hl Hadm. unfold gate_stop. wp_persist_as t' Hc Hact Est Hl'. apply wp_ret; [done|].
  split; [by eapply adm_at_ok|done].
Qed.

Lemma wp_step_wait r0 (t : Transition) (o : text) (d : option text) (seen_ : seen_nodes) adm n st : inv r0 st -> ready r0 t -> adm_at n adm ->
  wp r0 (gate_stop (step_wait t o d) seen_ adm) st (gated r0 n).
Proof.
  intros Hi Hr Hadm. apply wp_gate_stop; [done| |done]. eapply same_leaves; [apply step_wait_same|apply Hr].
Qed.

Lemma window_groups_post env raw groups : post (window_wait_for_groups env raw groups) (fun _ => True).
Proof.
  induction groups as [|g groups IH]; cbn; [done|]. destruct (window_wait env raw g) as [[]|]; cbn; done.
Qed.

Lemma wp_capacity r0 (t : Transition) (s : Step) groups adm n st :
  inv r0 st -> ready r0 t -> run_node (record t) = n -> adm_at n adm ->
  lookup_key n (steps spec) = Some s -> agent_step spec n ->
  wp r0 (prepare_capacity spec t s groups adm) st (fun '(t', adm', d) st' => adm_at n adm'
    /\ match d with Some d => pending_ok (stored st') (pend d) | None => t' = t end).
Proof.
  intros Hi Hr Hn Hadm Hs Hag. pose proof Hr as [Hl Hfree Hact _]. unfold prepare_capacity.
  destruct (_ && _); [apply wp_ret; [done|]; split; [apply adm_at_clear|done]|].
  destruct (ofilter (wait (record t)) _) as [w|].
  - assert (HV : V (run_node (record t))) by apply Hl.
    pose proof (step_target_ok spec V _ s (str "capacity") HV) as Ht. rewrite Hn in Ht |- *.
    specialize (Ht Hs ltac:(unfold STEP_TRIGGERS; set_solver)). wp_call Ht target_.
    match goal with |- context [engine_route spec t _ ?x _ _] => set (o := x) end.
    assert (Ho : plain o) by (subst o; by apply json_plain). clearbody o.
    pose proof (engine_route_post spec V t (str "capacity") o target_ ParkReason.User Hact (ready_drop _ _ Hr) Ht Ho) as Hro.
    wp_call Hro t1. destruct Hro as (Hl1 & _). assert (leaves r0 t1) by (eapply leaves_weaken; [apply Hl|done]).
    wp_persist_as t2 Hc Hact2 Est Hl2. apply wp_ret; [done|]. split; [apply adm_at_clear|done].
  - destruct (capacity_answer adm) as [[[q n'] [[| |h]|e]]|]; try (apply wp_ret; [done|]; split; done).
    + destruct (step_wait_same t (str "capacity") (Some (Throttle.hold_text h))) as [Hc _].
      destruct (step_wait_wait t (str "capacity") (Some (Throttle.hold_text h))) as [w Ew].
      set (t1 := step_wait t _ _) in *. clearbody t1. rewrite Ew. apply wp_bind, wp_lift; [done|]. cbn [expect post].
      pose proof (ready_leaves _ _ (ready_core _ _ _ Hc Hr)) as Hl1. set (t2 := update t1 _).
      assert (Hl2 : leaves r0 t2).
      { apply (ready_leaves _ _ (ready_core r0 t1 t2 eq_refl (ready_core _ _ _ Hc Hr))). }
      clearbody t2. wp_persist_as t3 Hc3 Hact3 Est3 Hl3. apply wp_ret; [done|]. split; done.
    + apply wp_ret; [done|]. split; [done|]. cbn. by rewrite Hn.
Qed.

Lemma wp_gate_agent r0 (env : Env) (t : Transition) (s : Step) (profile : text) (seen_ : seen_nodes) adm n st :
  inv r0 st -> ready r0 t -> run_node (record t) = n -> adm_at n adm ->
  lookup_key n (steps spec) = Some s -> agent_step spec n -> tripped s (record t) = None ->
  wp r0 (gate_agent spec env t s profile seen_ adm) st (gated r0 n).
Proof.
  intros Hi Hr Hn Hadm Hs Hag Htr. unfold gate_agent.
  destruct (if _ || is_some (step_window s) then _ else _) as [groups launch_error].
  set (window_ := match step_window s with Some _ => _ | None => _ end).
  assert (Hw : post window_ (fun _ => True)).
  { subst window_. destruct (step_window s); [|done]. destruct (_ && _); [|done]. apply window_groups_post. }
  clearbody window_. wp_call Hw detail. destruct detail as [detail|]; [by apply wp_step_wait|].
  set (adm1 := adm <| eviction := None |>). assert (Hadm1 : adm_at n adm1) by exact Hadm. clearbody adm1.
  set (evicted := ofilter _ _). clearbody evicted.
  set (fo := match evicted with Some _ => _ | None => _ end).
  assert (Hfo : post fo (fun _ => True)).
  { subst fo. destruct evicted, launch_error; try done. by destruct (occupancy env). }
  clearbody fo. cbv zeta. wp_call Hfo occupied.
  set (launch_error' := match evicted with Some _ => _ | None => _ end). clearbody launch_error'.
  assert (Hgo : wp r0
    (let evict := match occupied with Some Occupied => true | _ => false end in
     if evict && negb (default false (takeover s))
     then gate_stop (step_wait t (str "occupied") None) seen_ adm1
     else
       let t := with_now t (admit_time env) in
       if is_some launch_error' then ret (t, seen_, adm1, inr launch_error')
       else
         let* (t, adm, decision) := prepare_capacity spec t s groups adm1 in
         match decision with
         | Some d => ret (t, seen_, adm, inl d)
         | None =>
             if evict then ret (t, seen_, adm, inl (Evict (record t)))
             else ret (t, seen_, adm, inr None)
         end) st (gated r0 n)).
  { cbv zeta. set (evict := match occupied with Some Occupied => true | _ => false end). clearbody evict.
    destruct (evict && _); [by apply wp_step_wait|].
    assert (Hr1 : ready r0 (with_now t (admit_time env))) by by apply (ready_core r0 t).
    assert (Hstart : forall s', lookup_key n (steps spec) = Some s' -> tripped s' (record (with_now t (admit_time env))) = None).
    { intros s' Hs'. rewrite Hs in Hs'. by injection Hs' as <-. }
    destruct (is_some launch_error'); [by apply wp_ret|].
    apply wp_bind. eapply wp_weaken; [by apply wp_capacity|].
    intros [[t' adm'] d] st' Hi' [Hadm' Hd]. destruct d as [d|].
    - apply wp_ret; [done|]. split; [by eapply adm_at_ok|done].
    - subst t'. destruct evict; apply wp_ret; try done. split; [by eapply adm_at_ok|done]. }
  destruct occupied as [[]|]; [exact Hgo|exact Hgo|by apply wp_step_wait|exact Hgo].
Qed.

Lemma wp_gate_check r0 (env : Env) (t : Transition) (c : Check) (seen_ : seen_nodes) adm n st :
  inv r0 st -> ready r0 t -> run_node (record t) = n -> adm_at n adm ->
  lookup_key n (checks spec) = Some c -> lookup_key n (steps spec) = None ->
  wp r0 (gate_check env t c seen_ adm) st (gated r0 n).
Proof.
  intros Hi Hr Hn Hadm Hc Hs. unfold gate_check.
  set (window_ := match check_window c with Some _ => _ | None => _ end).
  assert (Hw : post window_ (fun _ => True)).
  { subst window_. destruct (check_window c); [|done]. destruct (Check.kind c) as [[]|]; try done.
    destruct (launch_groups env _); [apply window_groups_post|done]. }
  clearbody window_. wp_call Hw detail. destruct detail as [detail|]; [by apply wp_step_wait|].
  set (t1 := if _ && _ then close_wait t else t).
  assert (Hr1 : ready r0 t1 /\ run_node (record t1) = n).
  { subst t1. destruct (_ && _); [|done]. destruct (close_wait_same t) as [Hx _].
    split; [by eapply ready_core|]. by apply core_inv in Hx as (_ & _ & -> & _). }
  clearbody t1. destruct Hr1 as [Hr1 Hn1]. case_bool_decide; (apply wp_ret; [done|]).
  - split; [by eapply adm_at_ok|done].
  - split_and!; [done..|]. intros s. by rewrite Hs.
Qed.

Lemma wp_gate_node r0 (env : Env) (t : Transition) (seen_ : seen_nodes) adm st :
  inv r0 st -> ready r0 t -> adm_at (run_node (record t)) adm ->
  wp r0 (gate_node spec env t seen_ adm) st (gated r0 (run_node (record t))).
Proof.
  intros Hi Hr Hadm. pose proof Hr as [Hl Hfree Hact _]. unfold gate_node.
  assert (HV : V (run_node (record t))) by apply Hl.
  destruct (lookup_key (run_node (record t)) (steps spec)) as [s|] eqn:Es.
  - destruct (tripped s (record t)) as [[[bound_ visits_] max]|] eqn:Etr.
    + case_bool_decide.
      { apply wp_ret; [done|]. split; [by eapply adm_at_ok|done]. }
      pose proof (cap_route_post t s bound_ visits_ max (proj1 Hl) Es) as Hp. wp_call Hp x. destruct x as [t1 v].
      destruct Hp as (E1 & _ & Hv & Hpl & Hnv).
      assert (Hans : answer_ok spec V (run_node (record t1)) (verdict_target v) (verdict_object v)).
      { rewrite E1, <- Hnv. apply Hv. }
      pose proof (route_post spec V t1 (verdict_target v) (verdict_object v) (verdict_reason v)
        ltac:(by rewrite E1) ltac:(rewrite E1; by eapply ready_drop) Hans) as Hro.
      wp_call Hro t2. destruct Hro as (Hl2 & _).
      assert (leaves r0 t2) by (eapply leaves_weaken; [|exact Hl2]; rewrite E1; apply Hl).
      wp_persist_as t3 Hc Hact3 Est Hl3. apply wp_ret; [done|]. split; [eapply adm_at_ok, (adm_at_clear (run_node (record t)))|done].
    + assert (Hcmd : wp r0 (ret (t, seen_, adm, inr None)) st (gated r0 (run_node (record t)))).
      { apply wp_ret; [done|]. split_and!; [done..|]. intros s' Hs'. rewrite Es in Hs'. by injection Hs' as <-. }
      destruct (Step.kind s) as [[profile| |]|] eqn:Ek; try exact Hcmd.
      apply wp_gate_agent; try done. exists s. split; [done|]. unfold Step.is_agent. by rewrite Ek.
  - destruct (node_is_step_or_check spec V _ HV) as [[s Hs]|[c Hc]]; [congruence|]. rewrite Hc.
    by apply wp_gate_check.
Qed.

(** *** Publishing *)

Lemma node_kind_post n : V n -> post (node_kind spec n) (node_kind_of spec n).
Proof.
  intros HV. unfold node_kind, node_kind_of. destruct (lookup_key n (steps spec)) as [s|] eqn:Es; [done|].
  destruct (node_is_step_or_check spec V n HV) as [[s Hs]|[c Hc]]; [congruence|]. rewrite Hc. by exists c.
Qed.

(** A new attempt of the current node. *)
Lemma new_attempt_leaves r0 (t : Transition) (a : LiveAttempt) : ready r0 t -> seq a = next_seq (record t) ->
  attempt_node a = run_node (record t) -> node_kind_of spec (attempt_node a) (attempt_kind a) ->
  ending a = None -> push a = None ->
  (contains_key (attempt_node a) (steps spec) = true ->
     visit a <> None /\ is_Some (visits (record t) !! attempt_node a)) ->
  (attempt_lifecycle a = Until -> contains_key (attempt_node a) (steps spec) = true) ->
  leaves r0 (update t (fun r => r <| next_seq := (next_seq r + 1)%N |>
    <| held := option_map (fun h => h <| held_attempt := held_attempt h <| woken := false |> |>) (held r) |>
    <| attempt := Some a |>)).
Proof.
  intros [[Hw Hd] Hfree Hact Hopen] Hq Hn Hk He Hp Hv Hu. set (t' := update t _).
  assert (Er : record t' = record t <| next_seq := (next_seq (record t) + 1)%N |>
    <| held := option_map (fun h => h <| held_attempt := held_attempt h <| woken := false |> |>) (held (record t)) |>
    <| attempt := Some a |>) by done. clearbody t'.
  assert (Hfit : forall b, fits spec V (record t) b -> fits spec V (record t') b).
  { intros b []. rewrite Er. split; cbn; auto. lia. }
  split.
  - rewrite Er in *. destruct Hw. split; cbn in *; [auto|auto| | |auto|auto|auto| | | | |auto].
    + intros a0 [= <-]. split_and!; [done|done|]. split; cbn; try congruence; [lia|apply Hv| |done].
      intros Hc _. by apply Hv.
    + intros h Hh. destruct (held (record t)) as [h0|] eqn:Eh; [|done]. injection Hh as <-.
      destruct (wf_held h0 eq_refl) as [? []]. split; [done|].
      assert (Hal : alike (held_attempt h0) (held_attempt h0 <| woken := false |>)) by by split_and!.
      split; cbn; [|done..|].
      * eapply fits_alike; [exact Hal|]. by apply Hfit.
      * rewrite (Hopen h0 eq_refl). done.
    + intros p Hp'. apply wf_prev in Hp'. lia.
    + intros a0 h [= <-] Hh. destruct (held (record t)) as [h0|] eqn:Eh; [|done]. injection Hh as <-.
      destruct (wf_held h0 eq_refl) as [_ []]. destruct held_fits. cbn. lia.
    + intros a0 p [= <-] Hp'. apply wf_prev in Hp'. lia.
    + intros h p Hh Hp'. destruct (held (record t)) as [h0|] eqn:Eh; [|done]. injection Hh as <-.
      exact (wf_prev_held h0 p eq_refl Hp').
  - transitivity (record t); [done|]. rewrite Er. split; [cbn; lia|]. intros q n e Hm.
    rewrite elem_of_marks in Hm. cbn in Hm. setoid_rewrite elem_of_marks.
    destruct Hm as [(? & [= <-] & [= -> _ _])|[(h & Hh & [= -> -> ->])|?]].
    + right. lia.
    + left. destruct (held (record t)) as [h0|] eqn:Eh; [|done]. injection Hh as <-. eexists. split; [right; left; by exists h0|done].
    + left. exists e. auto.
Qed.

Lemma tripped_close s t : tripped s (record (close_wait t)) = tripped s (record t).
Proof. unfold close_wait. by destruct (wait (record t)). Qed.

(** The visit of a step is counted as its attempt starts. *)
Lemma start_visit r0 t s : ready r0 t -> lookup_key (run_node (record t)) (steps spec) = Some s ->
  tripped s (record t) = None ->
  let t' := update (count_visit (close_wait t)) (fun r => r <| entered_at := now t |>) in
  ready r0 t' /\ run_node (record t') = run_node (record t)
  /\ is_Some (visits (record t') !! run_node (record t'))
  /\ exists n, current_visit (record t') = Ok n.
Proof.
  intros Hr Hs Htr t'. destruct (close_wait_same t) as [Hc _].
  pose proof (core_inv _ _ Hc) as (_ & _ & En & _). pose proof (ready_core _ _ _ Hc Hr) as Hr0.
  rewrite <- tripped_close in Htr. rewrite <- En in Hs. subst t'. set (t0 := close_wait t) in *. clearbody t0.
  pose proof (count_visit_leaves r0 t0 s (ready_leaves _ _ Hr0) Hs Htr) as Hl.
  destruct (current_visit_counted t0) as [n Hn].
  assert (Hv : is_Some (visits (record (count_visit t0)) !! run_node (record (count_visit t0)))).
  { unfold count_visit. cbn. rewrite lookup_insert_eq. by eexists. }
  assert (Hr1 : ready r0 (count_visit t0)) by (split; [done|apply Hr0..]).
  assert (En1 : run_node (record (count_visit t0)) = run_node (record t0)) by done.
  set (t1 := count_visit t0) in *. clearbody t1.
  split_and!; [by apply (ready_core r0 t1)|by rewrite <- En, <- En1|done|by exists n].
Qed.

(** The record of a published attempt is what its process starts from. *)
Lemma published r a : WF r -> attempt r = Some a ->
  pending_ok r (Evaluating r)
  /\ (attempt_kind a = AttemptKind.Agent -> forall prompt, pending_ok r (Launching r prompt)).
Proof.
  intros Hw Ha. pose proof (wf_attempt _ _ _ Hw a Ha) as (_ & Hn & Hf).
  assert (HV : V (run_node r)) by apply Hw. split.
  - split; [done|]. exists a. split_and!; [done..|by apply agrees_live].
  - intros Hk prompt. split; [done|]. exists a. split_and!; [done|done| |by apply agrees_live].
    apply kind_agent. rewrite <- Hk. apply Hf.
Qed.

Lemma wp_publish r0 (env : Env) (t : Transition) (seen_ : seen_nodes) adm (launch_error : option text) st :
  inv r0 st -> ready r0 t -> adm_at (run_node (record t)) adm ->
  (forall s, lookup_key (run_node (record t)) (steps spec) = Some s -> tripped s (record t) = None) ->
  wp r0 (publish spec env t seen_ adm launch_error) st
    (fun '(_, _, adm', d) st' => admission_ok adm' /\ pending_ok (stored st') (pend d)).
Proof.
  intros Hi Hr Hadm Htr. unfold publish. set (step := lookup_key (run_node (record t)) (steps spec)) in *.
  assert (HV : V (run_node (record t))) by apply Hr.
  pose proof (node_kind_post _ HV) as Hk. wp_call Hk kind. clear E.
  set (prompt := if decide (kind = AttemptKind.Agent) then Some (compose env) else None).
  assert (Hprompt : is_Some prompt <-> kind = AttemptKind.Agent).
  { subst prompt. destruct (decide _); split; try done; by eexists. }
  clearbody prompt. set (t0 := with_now t (launch_time env)).
  assert (Hr0 : ready r0 t0) by by apply (ready_core r0 t). assert (E0 : record t0 = record t) by done.
  clearbody t0. rewrite <- E0 in *.
  assert (Estep : lookup_key (run_node (record t0)) (steps spec) = step) by (subst step; by rewrite E0). clearbody step.
  pose proof (bound_post spec V (process_is_live env) t0 (proj1 (ready_leaves _ _ Hr0))) as Hb.
  wp_call Hb x. destruct x as [t1 bounded]. clear E. destruct bounded.
  { destruct Hb as [Hl _]. assert (leaves r0 t1) by (eapply leaves_weaken; [apply Hr0|done]).
    wp_persist_as t2 Hc Hact Est Hl2. apply wp_ret; [done|]. split; [eapply adm_at_ok, (adm_at_clear [])|done]. }
  subst t1. set (t1 := if is_some step then _ else t0).
  assert (H1 : ready r0 t1 /\ run_node (record t1) = run_node (record t0)
    /\ (is_some step = true -> is_Some (visits (record t1) !! run_node (record t1))
                               /\ exists n, current_visit (record t1) = Ok n)).
  { subst t1. destruct step as [s|]; cbn [is_some]; [|done].
    destruct (start_visit r0 t0 s Hr0 Estep (Htr s eq_refl)) as (? & ? & ? & ?). split_and!; done. }
  clearbody t1. destruct H1 as (Hr1 & En1 & Hv1).
  apply wp_bind, (wp_weaken _ _ _ (fun v st' => st' = st /\ (is_some step = true -> v <> None))).
  { apply wp_lift; [done|]. destruct (is_some step); [|done]. destruct (Hv1 eq_refl) as [_ [n ->]]. done. }
  intros visit_ st' _ [-> Hvisit]. cbv zeta.
  set (t2 := update t1 _).
  assert (H2 : exists a, record t2 = record t1 <| next_seq := (next_seq (record t1) + 1)%N |>
      <| held := option_map (fun h => h <| held_attempt := held_attempt h <| woken := false |> |>) (held (record t1)) |>
      <| attempt := Some a |>
    /\ seq a = next_seq (record t1) /\ attempt_node a = run_node (record t1) /\ attempt_kind a = kind
    /\ ending a = None /\ push a = None /\ visit a = visit_
    /\ (attempt_lifecycle a = Until -> is_some step = true)).
  { eexists. split; [reflexivity|]. split_and!; [reflexivity..|]. by destruct step. }
  clearbody t2. destruct H2 as (a & E2 & Hqa & Hna & Hka & Hea & Hpa & Hva & Hua).
  assert (Hsk : contains_key (attempt_node a) (steps spec) = is_some step).
  { unfold contains_key. rewrite Hna, En1, Estep. by destruct step. }
  assert (Hl2 : leaves r0 t2).
  { unfold TransitionFacts.leaves. rewrite E2. apply (new_attempt_leaves r0 t1 a Hr1); try done.
    - by rewrite Hna, En1, Hka.
    - rewrite Hsk, Hva, Hna. intros Hx. split; [by apply Hvisit|by apply Hv1].
    - by rewrite Hsk. }
  assert (Ha2 : attempt (record t2) = Some a) by (by rewrite E2).
  assert (Hn2 : run_node (record t2) = run_node (record t0)) by (by rewrite E2).
  assert (Hv2 : is_some step = true -> is_Some (visits (record t2) !! run_node (record t2)))
    by (rewrite E2; intros Hx; by apply Hv1).
  clear E2 Hqa Hea Hpa Hva Hua.
  apply wp_bind, (wp_weaken _ _ _ (fun t' st' => leaves r0 t' /\ visits (record t') = visits (record t2)
    /\ run_node (record t') = run_node (record t2)
    /\ exists a', attempt (record t') = Some a' /\ attempt_kind a' = kind)).
  { assert (Hsame : wp r0 (ret t2) st (fun t' st' => leaves r0 t' /\ visits (record t') = visits (record t2)
    /\ run_node (record t') = run_node (record t2)
      /\ exists a', attempt (record t') = Some a' /\ attempt_kind a' = kind)).
    { apply wp_ret; [done|]. split_and!; [done..|]. by exists a. }
    destruct (capacity_answer adm) as [[[q n] [ans|[m|m]]]|] eqn:Ecap; try exact Hsame.
    destruct (Hadm _ _ _ Ecap) as [_ Hag].
    assert (Hkind : kind = AttemptKind.Agent) by by eapply agent_kind_inv. rewrite Hkind in Hka.
    pose proof (session_of_wf spec V _ _ (proj1 Hl2) Ha2 Hka) as Hs2.
    match goal with |- context [stage_agent_end t2 ?x _] => set (e := x) end.
    assert (He : ending_ok spec V e).
    { intros v [= <-]. split; [split; [cbn; by rewrite Hn2|]|by apply json_plain].
      split; [right; cbn; unfold SPECIAL; rewrite !elem_of_cons; auto|left; by apply json_plain]. }
    clearbody e. pose proof (stage_leaves r0 t2 a e Agent.empty_observation Hl2 Hs2 He) as Hp.
    apply wp_lift; [done|]. post_step Hp t3. cbn [post]. destruct Hp as (Hl3 & (a' & e' & Ha' & Hk' & _) & Hv3 & Hn3).
    split_and!; [done..|]. exists a'. by rewrite Hk'. }
  intros t3 st3 Hi3 (Hl3 & Hv3 & Hn3 & a' & Ha3 & Hk3).
  assert (Hact3 : run_state (record t3) = RunState.Active) by apply (wf_attempt _ _ _ (proj1 Hl3) a' Ha3).
  wp_persist_as t4 Hc4 Hact4 Est4 Hl4. rewrite Hact4 in * by done. clear Hact4 Hc4 t4.
  apply wp_bind, wp_context; [apply Hl3|done|by eexists| |].
  { rewrite Hv3, Hn3. intros Hx. apply Hv2. unfold contains_key in Hx. rewrite Hn2, Estep in Hx. by destruct step. }
  intros st5 Est5 _ Hi5. rewrite Est4 in Est5. destruct (published _ _ (proj1 Hl3) Ha3) as [Hev Hla].
  destruct prompt as [prompt|].
  - apply wp_ret; [done|]. rewrite Est5. split; [eapply adm_at_ok, (adm_at_clear [])|].
    apply Hla. rewrite Hk3. apply Hprompt. by eexists.
  - apply wp_ret; [done|]. rewrite Est5. split; [by eapply adm_at_ok|exact Hev].
Qed.

(** What the end of a preparation leaves a process with. *)
Definition prepared (x : seen_nodes * Admission * Decision) st : Prop :=
  let '(_, adm, d) := x in admission_ok adm /\ pending_ok (stored st) (pend d).

(** [prepare] once nothing is live: the wait, the gates and the publication. *)
Lemma wp_prepare_idle r0 (env : Env) (t : Transition) (seen_ : seen_nodes) adm st :
  inv r0 st -> ready r0 t -> adm_at (run_node (record t)) adm ->
  wp r0
    (if is_some_and (recheck_at (record t)) (fun at_ => (now t <? at_)%Z)
        && negb (is_some_and (wait (record t)) is_hold)
     then
       let t :=
         match held (record t), wait (record t) with
         | None, Some w =>
             update t (fun r => r <| wait := Some
               (w <| wait_last := now t |> <| wait_count := (wait_count w + 1)%N |>) |>)
         | _, _ => t
         end in
       let* _ := persist t in
       ret (seen_, adm, Stop)
     else
       let* (t, seen_, adm, verdict) := gate_node spec env t seen_ adm in
       match verdict with
       | inl d => ret (seen_, adm, d)
       | inr launch_error =>
           let* (_, seen_, adm, d) := publish spec env t seen_ adm launch_error in
           ret (seen_, adm, d)
       end) st prepared.
Proof.
  intros Hi Hr Hadm. destruct (_ && _).
  - set (t1 := match held (record t) with Some _ => t | None => _ end).
    assert (Hl1 : leaves r0 t1).
    { subst t1. destruct (held (record t)); [apply Hr|]. destruct (wait (record t)); [|apply Hr].
      apply ready_leaves. by apply (ready_core r0 t). }
    clearbody t1. cbv zeta. wp_persist_as t2 Hc Hact Est Hl2. apply wp_ret; [done|].
    split; [by eapply adm_at_ok|done].
  - apply wp_bind. eapply wp_weaken; [by apply wp_gate_node|].
    intros [[[t1 seen1] adm1] [d|launch_error]] st1 Hi1 Hg; cbn [gated] in Hg.
    + by apply wp_ret.
    + destruct Hg as (Hadm1 & Hr1 & Hn1 & Htr1). rewrite <- Hn1 in Hadm1, Htr1.
      apply wp_bind. eapply wp_weaken; [by apply wp_publish|].
      intros [[[t2 seen2] adm2] d] st2 Hi2 Hp. by apply wp_ret.
Qed.

Lemma wp_prepare_free r0 (env : Env) (t : Transition) (seen_ : seen_nodes) adm st :
  inv r0 st -> leaves r0 t -> run_state (record t) = RunState.Active -> adm_at (run_node (record t)) adm ->
  (forall h, held (record t) = Some h -> held_verdict h = None) ->
  wp r0
    (if is_some_and (attempt (record t)) (fun a => bool_decide (attempt_kind a = AttemptKind.Agent)) then
       let* (_, d) := prepare_end spec env t in ret (seen_, adm, d)
     else
       let* (t, bounded) := lift (bound spec (process_is_live env) t) in
       if bounded : bool then
         let* t := persist t in
         ret (seen_, clear_capacity adm,
              if negb (bool_decide (run_state (record t) = RunState.Active))
                 || (is_some (wait (record t)) && negb (has_pending_verdict (record t)))
              then Stop else Again)
       else
         match attempt (record t) with
         | Some a =>
             if Agent.live_host env a then ret (seen_, adm, Stop)
             else
               let* (t, _) := lift (finish_script spec t
                 (bare_ending AttemptOutcome.Canceled EndCause.Lifecycle) None
                 (Some (str "lost command-step host " ++ show_N (pid (host a))))) in
               let* _ := persist t in
               ret (seen_, adm, Again)
         | None =>
             let waiting :=
               is_some_and (recheck_at (record t)) (fun at_ => (now t <? at_)%Z)
               && negb (is_some_and (wait (record t)) is_hold) in
             if waiting then
               let t :=
                 match held (record t), wait (record t) with
                 | None, Some w =>
                     update t (fun r => r <| wait := Some
                       (w <| wait_last := now t |> <| wait_count := (wait_count w + 1)%N |>) |>)
                 | _, _ => t
                 end in
               let* _ := persist t in
               ret (seen_, adm, Stop)
             else
               let* (t, seen_, adm, verdict) := gate_node spec env t seen_ adm in
               match verdict with
               | inl d => ret (seen_, adm, d)
               | inr launch_error =>
                   let* (_, seen_, adm, d) := publish spec env t seen_ adm launch_error in
                   ret (seen_, adm, d)
               end
         end) st prepared.
Proof.
  intros Hi Hl Hact Hadm Hopen. pose proof (adm_at_ok _ _ Hadm) as Hok.
  destruct (is_some_and (attempt (record t)) _) eqn:Hag.
  { destruct (attempt (record t)) as [a|] eqn:Ha; [|done]. apply bool_decide_eq_true in Hag.
    apply wp_bind. eapply wp_weaken; [by apply (wp_prepare_end r0 env t a)|].
    intros [t1 d] st1 Hi1 [Hd _]. by apply wp_ret. }
  pose proof (bound_post spec V (process_is_live env) t (proj1 Hl)) as Hb.
  wp_call Hb x. destruct x as [t1 bounded]. destruct bounded.
  { destruct Hb as [Hl1 _]. assert (leaves r0 t1) by (eapply leaves_weaken; [apply Hl|done]).
    wp_persist_as t2 Hc Hact2 Est Hl2. apply wp_ret; [done|].
    split; [eapply adm_at_ok, (adm_at_clear [])|]. by destruct (_ || _). }
  subst t1. destruct (attempt (record t)) as [a|] eqn:Ha.
  - destruct (Agent.live_host env a); [by apply wp_ret|].
    pose proof (finish_script_post spec V t (bare_ending AttemptOutcome.Canceled EndCause.Lifecycle) None
      (Some (str "lost command-step host " ++ show_N (pid (host a)))) (proj1 Hl) (bare_ending_ok _ _ _ _)) as Hf.
    wp_call Hf x. destruct x as [t2 b]. destruct Hf as [[Hl2 _] _].
    assert (leaves r0 t2) by (eapply leaves_weaken; [apply Hl|done]).
    wp_persist_as t3 Hc Hact2 Est Hl3. by apply wp_ret.
  - by apply wp_prepare_idle.
Qed.

Lemma wp_prepare r0 (env : Env) (seen_ : seen_nodes) adm st : inv r0 st -> admission_ok adm ->
  wp r0 (prepare spec env seen_ adm) st prepared.
Proof.
  intros Hi Hadm. unfold prepare. apply wp_bind, wp_load; [done|].
  set (t := {| record := stored st; now := start_time env; entries := [] |}).
  assert (Hl : leaves r0 t) by done. clearbody t.
  case_bool_decide as Hact; cbn [negb]; [|by apply wp_ret].
  set (adm1 := if is_some_and (capacity_answer adm) _ then clear_capacity adm else adm).
  assert (Hadm1 : adm_at (run_node (record t)) adm1).
  { subst adm1. destruct (is_some_and _ _) eqn:Ec; [apply adm_at_clear|].
    intros q n x Hx. rewrite Hx in Ec. cbn in Ec. apply orb_false_iff in Ec as [_ Ec].
    apply negb_false_iff, bool_decide_eq_true in Ec as ->. split; [done|by eapply Hadm]. }
  clearbody adm1. cbv zeta.
  apply wp_bind, (wp_weaken _ _ _ (fun '(t', _, d) st' => decided d st'
    \/ (d = None /\ leaves r0 t' /\ run_node (record t') = run_node (record t)
        /\ next_seq (record t') = next_seq (record t) /\ run_state (record t') = RunState.Active
        /\ forall h', held (record t') = Some h' -> held_verdict h' = None))).
  { destruct (held (record t)) as [h|] eqn:Eh; cbn [is_some]; [by apply (wp_until_prepare r0 env t h)|].
    apply wp_ret; [done|]. right. rewrite Eh. done. }
  intros [[t1 seen1] d] st1 Hi1 [(x & -> & Hx)|(-> & Hl1 & Hn1 & _ & Hact1 & Hopen)].
  - apply wp_ret; [done|]. split; [by eapply adm_at_ok|done].
  - apply wp_prepare_free; try done. by rewrite Hn1.
Qed.

(** ** The sections of a process *)

Definition pends (p : Pending) st : Prop := pending_ok (stored st) p.

(** The attempt a section was told to act on is the live one. *)
Lemma current_attempt t a : WF (record t) -> agrees a (record t) -> current t (seq a) = true ->
  exists a', attempt (record t) = Some a' /\ run_state (record t) = RunState.Active
    /\ attempt_node a' = attempt_node a /\ attempt_node a = run_node (record t)
    /\ (is_some (ending a) = true -> is_some (ending a') = true).
Proof.
  intros Hw Hag Hc. unfold current in Hc. apply andb_true_iff in Hc as [Hs%bool_decide_eq_true Hc].
  destruct (attempt (record t)) as [a'|] eqn:Ea; [|done]. cbn in Hc. apply N.eqb_eq in Hc.
  destruct (agrees_current _ _ _ Hag Ea Hc) as [Hn He]. exists a'. split_and!; [done..| |done].
  rewrite <- Hn. apply (wf_attempt _ _ _ Hw a' Ea).
Qed.

Lemma current_session t a : WF (record t) -> agrees a (record t) -> current t (seq a) = true ->
  agent_step spec (attempt_node a) ->
  exists a', session (record t) a' /\ (is_some (ending a) = true -> is_some (ending a') = true).
Proof.
  intros Hw Hag Hc Hst. destruct (current_attempt t a Hw Hag Hc) as (a' & Ha & _ & Hn & _ & He).
  exists a'. split; [|done]. apply session_of_wf; [done|done|done|]. rewrite <- Hn in Hst.
  eapply agent_kind_inv; [exact Hst|]. apply (wf_attempt _ _ _ Hw a' Ha).
Qed.

Lemma wp_host_persist r0 (env : Env) (t : Transition) (reason : option text) st :
  inv r0 st -> leaves r0 t -> ending_at (record t) ->
  wp r0 (let* t := lift (Agent.set_host env t) in let* t := persist t in ret (Finishing (record t) reason)) st pends.
Proof.
  intros Hi Hl He. pose proof (set_host_post r0 env t Hl He) as Hh. wp_call Hh t1. destruct Hh as [Hl1 He1].
  apply wp_bind, wp_ending; [done..|]. intros t2 st2 Hi2 Hp _ _ _. apply wp_ret; [done|]. exact (Hp reason).
Qed.

Lemma session_ending r a : session r a -> is_some (ending a) = true -> ending_at r.
Proof. intros [] He. destruct (ending a) as [e|] eqn:Ee; [|done]. by exists a, e. Qed.

Lemma wp_launch r0 (env : Env) r (prompt : result text text) st :
  inv r0 st -> pending_ok (stored st) (Launching r prompt) ->
  wp r0 (launch spec env r prompt) st pends.
Proof.
  intros Hi (HV & a & Ha & Hna & Hst & Hag). unfold launch. rewrite Ha. apply wp_bind, wp_lift; [done|]. cbn [expect post].
  apply wp_bind, (wp_weaken _ _ _ (fun _ st' => st' = st)).
  { destruct prompt as [text_|reason]; [|by apply wp_ret].
    destruct Hst as (s & Hs & Hagent). rewrite Hna in Hs. rewrite Hs.
    apply wp_bind, wp_lift; [done|]. cbn [expect post].
    destruct (step_agent s) as [name_|] eqn:En; [|exfalso; unfold Step.is_agent, Step.kind in Hagent; rewrite En in Hagent; by destruct (step_run s), (step_shell s)].
    apply wp_bind, wp_lift; [done|]. cbn [expect post]. by apply wp_ret. }
  intros launched_ st' _ ->. cbv zeta.
  apply wp_bind, wp_load; [done|]. set (t := {| record := stored st; now := start_time env; entries := [] |}).
  assert (Hl : leaves r0 t) by done. assert (Et : record t = stored st) by done. rewrite <- Et in Hag. clearbody t.
  destruct (current t (seq a)) eqn:Hc; cbn [negb].
  2: { apply wp_bind, (wp_weaken _ _ _ (fun _ _ => True)); [|intros ? st1 ? _; by apply wp_ret].
       apply wp_lift; [done|]. destruct launched_; [by destruct (stop_result env)|done]. }
  destruct (current_session t a (proj1 Hl) Hag Hc Hst) as (a' & Hs & He).
  set (t1 := if is_some (restart r) && _ then _ else t).
  assert (H1 : core (record t) = core (record t1)) by (subst t1; by destruct (_ && _)). clearbody t1.
  assert (Hl1 : leaves r0 t1).
  { destruct Hl as [Hw Hd]. split; [by eapply core_wf|]. transitivity (record t); [done|by apply core_descends]. }
  assert (Ha1 : attempt (record t1) = Some a').
  { pose proof (core_inv _ _ H1) as (_ & _ & _ & _ & _ & _ & -> & _). apply Hs. }
  pose proof (session_kind _ _ _ _ Hs) as Hk. pose proof (session_of_wf spec V _ _ (proj1 Hl1) Ha1 Hk) as Hs1.
  destruct launched_ as [run_|failure_].
  - assert (Hal : alike a' (a' <| attempt_run := Some run_ |>)) by by split_and!.
    pose proof (map_attempt_post r0 t1 a' (fun a => a <| attempt_run := Some run_ |>) Hl1 Ha1 Hal) as Hm.
    wp_call Hm t2. destruct Hm as (Hl2 & _ & E2).
    assert (Hact : run_state (record t2) = RunState.Active) by (rewrite E2; apply Hs1).
    wp_persist_as t3 Hc3 Hact3 Est3 Hl3. rewrite Hact3 in * by done. clear Hact3 Hc3 t3.
    assert (Ha2 : attempt (record t2) = Some (a' <| attempt_run := Some run_ |>)) by (by rewrite E2).
    assert (Hk2 : attempt_kind (a' <| attempt_run := Some run_ |>) = AttemptKind.Agent) by exact Hk.
    assert (He2 : ending (a' <| attempt_run := Some run_ |>) = ending a') by done.
    set (a2 := a' <| attempt_run := Some run_ |>) in *. clearbody a2.
    rewrite Ha2. cbn [is_some_and]. rewrite He2. destruct (ending a') as [e|] eqn:Ee; cbn [is_none].
    + apply wp_host_persist; [done..|]. by exists a2, e.
    + apply wp_bind. eapply wp_weaken; [by apply (wp_prepare_end r0 env t2 a2)|].
      intros [t4 d] st4 Hi4 [_ Hd]. destruct d; cbn [staged] in Hd; try by apply wp_ret.
      destruct Hd as [Hl4 He4]. by apply wp_host_persist.
  - set (observed := if decide _ then _ else _). clearbody observed. rewrite Ha1. cbn [is_some_and].
    destruct (ending a') as [e|] eqn:Ee; cbn [is_none].
    + apply wp_bind, wp_ret; [done|]. apply wp_host_persist; [done..|]. by exists a', e.
    + match goal with |- context [stage_agent_end t1 ?x _] => set (e := x) end.
      assert (Hok : ending_ok spec V e).
      { intros v Hv. subst e. cbn [ending_route] in Hv. destruct (is_some_and (restart r) _); [|done].
        injection Hv as <-. split; [split; [done|]|by apply json_plain].
        split; [right; cbn; unfold SPECIAL; rewrite !elem_of_cons; auto|left; by apply json_plain]. }
      clearbody e. pose proof (stage_leaves r0 t1 a' e observed Hl1 Hs1 Hok) as Hp.
      wp_call Hp t2. destruct Hp as (Hl2 & He2 & _). by apply wp_host_persist.
Qed.

Lemma session_run r a run_ : session r a ->
  session (r <| attempt := Some (a <| attempt_run := run_ |>) |>) (a <| attempt_run := run_ |>).
Proof. intros []. by split. Qed.

Lemma detaches_post a : is_some (ending a) = true -> agent_step spec (attempt_node a) ->
  post (Agent.detaches spec a) (fun _ => True).
Proof.
  intros He (s & Hs & _). unfold Agent.detaches. destruct (ending a); [|done]. cbn [expect]. by rewrite Hs.
Qed.

Lemma wp_finish r0 (env : Env) r (reason : option text) st :
  inv r0 st -> pending_ok (stored st) (Finishing r reason) ->
  wp r0 (finish spec env r reason) st (fun d st' => match d with inl p => pends p st' | inr _ => True end).
Proof.
  intros Hi (a & e & Ha & He & Hst & Hag). unfold finish. rewrite Ha. apply wp_bind, wp_lift; [done|]. cbn [expect post].
  assert (Hea : is_some (ending a) = true) by by rewrite He.
  pose proof (detaches_post a Hea Hst) as Hd. wp_call Hd detached. clear E.
  set (frun := match attempt_run a with Some _ => _ | None => _ end).
  assert (Hfr : post frun (fun _ => True)) by (subst frun; destruct (attempt_run a); [done|]; by destruct (orphan env)).
  clearbody frun. wp_call Hfr run_. clear E.
  set (fch := match run_ with Some _ => _ | None => _ end).
  assert (Hfc : post fch (fun _ => True)) by (subst fch; destruct run_; [|done]; by destruct (stop_result env)).
  clearbody fch. wp_call Hfc children_. clear E.
  apply wp_bind, wp_load; [done|]. set (t := {| record := stored st; now := start_time env; entries := [] |}).
  assert (Hl : leaves r0 t) by done. assert (Et : record t = stored st) by done. rewrite <- Et in Hag.
  assert (Hfin : ending_at (record t) -> pends (Finishing (record t) reason) st).
  { intros Hx. unfold pends. rewrite <- Et. apply finishing_ok; [apply Hl|done]. }
  clearbody t. clear Et.
  destruct (negb (current t (seq a)) || _) eqn:Hc; [by apply wp_ret|].
  apply orb_false_iff in Hc as [Hc _]. apply negb_false_iff in Hc.
  destruct (current_session t a (proj1 Hl) Hag Hc Hst) as (a' & Hs & He'). specialize (He' Hea).
  pose proof (session_live _ _ _ _ Hs) as Ha'. rewrite Ha'. apply wp_bind, wp_lift; [done|]. cbn [expect post].
  apply wp_bind, (wp_weaken _ _ _ (fun _ st' => st' = st)).
  { apply wp_lift; [done|]. destruct detached; [|done].
    pose proof (detaches_post a' He' (session_step _ _ _ _ Hs)) as Hd'. by post_step Hd' still. }
  intros still st1 Hi1 ->. destruct (detached && negb still); [apply wp_ret; [done|]; by eapply Hfin, session_ending|].
  unfold Agent.map_attempt. rewrite Ha'. apply wp_bind, wp_lift; [done|]. cbn [expect post].
  set (t1 := update t _).
  assert (E1 : record t1 = record t <| attempt := Some (a' <| attempt_run := run_ |>) |>) by done. clearbody t1.
  pose proof (session_run _ _ run_ Hs) as Hs1. rewrite <- E1 in Hs1.
  destruct (ending a') as [e'|] eqn:Ee'; [|done].
  destruct (wf_attempt _ _ _ (proj1 Hl) a' Ha') as (_ & _ & Hf).
  destruct (fit_ending _ _ _ _ Hf e' Ee') as (_ & Hp & Hok).
  pose proof (settle_agent_post spec V t1 _ e' children_ reason Hs1 Ee' ltac:(by rewrite E1) Hok) as Hset.
  wp_call Hset t2. destruct Hset as [Hl2 _].
  assert (leaves r0 t2).
  { eapply leaves_weaken; [|exact Hl2]. rewrite E1. transitivity (record t); [apply Hl|].
    by eapply descends_set_attempt. }
  wp_persist_as t3 Hc3 Hact3 Est3 Hl3. by apply wp_ret.
Qed.

Lemma check_at r n a : WF r -> attempt r = Some a -> attempt_node a = n -> contains_key n (steps spec) = false ->
  contains_key (run_node r) (checks spec) = true.
Proof.
  intros Hw Ha Hn Hk. destruct (wf_attempt _ _ _ Hw a Ha) as (_ & <- & Hf). rewrite Hn.
  destruct (node_is_step_or_check spec V n) as [[s Hs]|[c Hc]].
  - rewrite <- Hn. apply Hf.
  - by rewrite (contains_key_Some _ _ _ Hs) in Hk.
  - by eapply contains_key_Some.
Qed.

Lemma wp_evaluated r0 (env : Env) r (seen_ : seen_nodes) st :
  inv r0 st -> pending_ok (stored st) (Evaluating r) -> contains_key (run_node r) (steps spec) = false ->
  wp r0 (evaluated spec env r seen_) st (fun '(p, _) => pends p).
Proof.
  intros Hi (HV & a & Ha & Hn & Hag) Hk. unfold evaluated. rewrite Ha. apply wp_bind, wp_lift; [done|]. cbn [expect post].
  apply wp_bind, wp_load; [done|]. set (t := {| record := stored st; now := start_time env; entries := [] |}).
  assert (Hl : leaves r0 t) by done. assert (Et : record t = stored st) by done. rewrite <- Et in Hag. clearbody t.
  destruct (current t (seq a)) eqn:Hc; cbn [negb]; [|by apply wp_ret].
  destruct (current_attempt t a (proj1 Hl) Hag Hc) as (a' & Ha' & Hact & Hn' & _).
  assert (Hck : contains_key (run_node (record t)) (checks spec) = true).
  { eapply check_at; [apply Hl|exact Ha'|reflexivity|]. by rewrite Hn', Hn. }
  pose proof (bound_post spec V (process_is_live env) t (proj1 Hl)) as Hb.
  wp_call Hb x. destruct x as [t1 bounded].
  apply wp_bind, (wp_weaken _ _ _ (fun '(t', _, _) _ => leaves r0 t')).
  - destruct bounded.
    { apply wp_ret; [done|]. eapply leaves_weaken; [apply Hl|apply Hb]. }
    subst t1. cbv zeta. apply wp_bind, (wp_weaken _ _ _ (fun '(t', _) _ => leaves r0 t')).
    + case_bool_decide.
      * pose proof (finish_judge_post spec V t (seq a) (evaluation env) (proj1 Hl) (fun _ => Hck)) as Hj.
        apply wp_lift; [done|]. post_step Hj x. destruct x as [t2 b]. cbn [post]. eapply leaves_weaken; [apply Hl|done].
      * pose proof (finish_check_post spec V t (seq a) (object (evaluation env)) (stderr_tail (evaluation env))
          (proj1 Hl) (fun _ => Hck)) as Hj.
        wp_call Hj t2. apply wp_ret; [done|]. eapply leaves_weaken; [apply Hl|done].
    + intros [t2 b] st2 Hi2 Hl2. destruct (wait (record t2)) as [w|]; [|by apply wp_ret].
      destruct (is_some_and _ woken); [|by apply wp_ret].
      apply wp_ret; [done|]. by apply (same_leaves r0 t2).
  - intros [[t2 seen2] recheck_woken] st2 Hi2 Hl2. wp_persist_as t3 Hc3 Hact3 Est3 Hl3.
    destruct (_ || _); by apply wp_ret.
Qed.

Lemma wp_command_step r0 (env : Env) r st :
  inv r0 st -> pending_ok (stored st) (Evaluating r) ->
  wp r0 (command_step spec env r) st (fun _ _ => True).
Proof.
  intros Hi (HV & a & Ha & Hn & Hag). unfold command_step. apply wp_bind, wp_load; [done|].
  set (t := {| record := stored st; now := start_time env; entries := [] |}).
  assert (Hl : leaves r0 t) by done. clearbody t.
  rewrite Ha. apply wp_bind, wp_lift; [done|]. cbn [expect post].
  destruct (current t (seq a)) eqn:Hc; cbn [negb]; [|by apply wp_ret].
  destruct (match command_result env with Exited _ _ => _ | _ => _ end) as [[[outcome_ code] reason] interrupted].
  apply wp_bind, (wp_weaken _ _ _ (fun _ _ => True)).
  { destruct (negb interrupted); [by apply wp_ret|]. destruct (due t); [by apply wp_ret|].
    pose proof (timeout_at_post spec (record t)) as Ht. wp_call Ht at_.
    destruct (is_some_and _ _); by apply wp_ret. }
  intros [o cause] st1 Hi1 _.
  pose proof (finish_script_post spec V t (bare_ending o cause) code reason (proj1 Hl) (bare_ending_ok _ _ _ _)) as Hf.
  wp_call Hf x. destruct x as [t2 b]. destruct Hf as [[Hl2 _] _].
  assert (leaves r0 t2) by (eapply leaves_weaken; [apply Hl|done]).
  wp_persist_as t3 Hc3 Hact3 Est3 Hl3. by apply wp_ret.
Qed.

Lemma wp_push_queued r0 (env : Env) r st :
  inv r0 st -> pending_ok (stored st) (Pushing r) -> wp r0 (push_queued_ env r) st (fun _ _ => True).
Proof.
  intros Hi (a & Ha & Hp & Hr). unfold push_queued_. rewrite Ha. apply wp_bind, wp_lift; [done|]. cbn [expect post].
  destruct (push a) as [p|]; [|done]. destruct (attempt_run a) as [run_|]; [|done].
  apply wp_bind, wp_lift; [done|]. cbn [expect post]. apply wp_bind, wp_lift; [done|]. cbn [expect post].
  destruct (pushed env) as [queued|]; [|by apply wp_bind, wp_lift].
  apply wp_bind, wp_lift; [done|]. cbn [host_answer post]. destruct queued; cbn [negb]; [|by apply wp_ret].
  apply wp_bind, wp_load; [done|]. set (t := {| record := stored st; now := start_time env; entries := [] |}).
  assert (Hl : leaves r0 t) by done. clearbody t.
  destruct (current t (seq a)) eqn:Hc; cbn [negb]; [|by apply wp_ret].
  unfold current in Hc. apply andb_true_iff in Hc as [_ Hc]. destruct (attempt (record t)) as [a'|] eqn:Ha'; [|done].
  apply wp_bind, wp_lift; [done|]. cbn [expect post].
  destruct (ofilter (push a') _) as [p'|] eqn:Ep; [|by apply wp_ret]. destruct (push_queued p'); [by apply wp_ret|].
  assert (Hp' : push a' <> None) by (intros Hx; rewrite Hx in Ep; done).
  pose proof (live_push _ a' (proj1 Hl) Ha' Hp') as Hr'.
  assert (Hl1 : leaves r0 (update t (fun r => r <| attempt := Some
    (a' <| push := Some {| push_message := push_message p'; push_queued := true |} |>) |>))).
  { eapply leaves_set_attempt; [done|done|]. by split_and!. }
  wp_persist_as t2 Hc2 Hact2 Est2 Hl2. by apply wp_ret.
Qed.

(** One turn of the loop, from a process that knows its record. *)
Lemma wp_advance r0 (env : Env) p st : inv r0 st -> process_ok (stored st) p ->
  wp r0 (advance_body spec env p) st (fun p' st' => process_ok (stored st') p').
Proof.
  intros Hi [Hp Hadm]. unfold advance_body. destruct (pending p) as [|r|r prompt|r reason|r|r|q n|] eqn:Ep; cbn in Hp.
  - apply wp_bind. eapply wp_weaken; [by apply wp_prepare|]. intros [[seen1 adm1] d] st1 Hi1 [Hx Hy]. by apply wp_ret.
  - destruct (contains_key (run_node r) (steps spec)) eqn:Hk.
    + apply wp_bind. eapply wp_weaken; [by apply wp_command_step|]. intros b st1 Hi1 _. apply wp_ret; [done|].
      split; [|done]. cbn. by destruct (_ && _).
    + apply wp_bind. eapply wp_weaken; [by apply wp_evaluated|]. intros [d seen1] st1 Hi1 Hd. by apply wp_ret.
  - apply wp_bind. eapply wp_weaken; [by apply wp_launch|]. intros d st1 Hi1 Hd. by apply wp_ret.
  - apply wp_bind. eapply wp_weaken; [by apply wp_finish|]. intros [d|b] st1 Hi1 Hd; (apply wp_ret; [done|]); [done|].
    split; [|done]. cbn. by destruct (_ && _).
  - apply wp_bind. eapply wp_weaken; [by apply wp_push_queued|]. intros b st1 Hi1 _. apply wp_ret; [done|].
    split; [|done]. cbn. by destruct (_ && _).
  - by apply wp_ret.
  - apply wp_ret; [done|]. split; [done|]. intros q' n' x [= <- <- <-]. done.
  - apply wp_ret; [done|]. split; [by rewrite Ep|done].
Qed.

(** ** Commands *)

Definition starts (p : option Process) st : Prop := forall q, p = Some q -> process_ok (stored st) q.

Lemma wp_none {A} r0 (m : M A) st : wp r0 m st (fun _ _ => True) -> wp r0 (let* _ := m in ret None) st starts.
Proof. intros Hm. apply wp_bind. eapply wp_weaken; [exact Hm|]. intros a st' Hi _. by apply wp_ret. Qed.

Lemma wp_refuse {A} r0 reason st (Q : A -> Store -> Prop) : inv r0 st -> wp r0 (refuse reason) st Q.
Proof. by split. Qed.

Lemma observe_attempt_post env a : post (observe_attempt env a) (fun _ => True).
Proof. unfold observe_attempt. destruct (attempt_run a); [|done]. by destruct (observe env _ _). Qed.

Lemma finishing_process R : WF R -> ending_at R -> process_ok R (finishing R).
Proof. intros Hw He. split; [by apply finishing_ok|]. by intros q n x. Qed.

(** The end a command stages on the live session. *)
Lemma wp_command_end {A} r0 (env : Env) (t : Transition) (b : bool) (k : Transition -> M A) st Q :
  inv r0 st -> leaves r0 t -> ending_at (record t) ->
  (forall t' st', inv r0 st' -> process_ok (stored st') (finishing (record t')) -> wp r0 (k t') st' Q) ->
  wp r0 (let* t := if b then ret t else lift (Agent.set_host env t) in let* t := persist t in k t) st Q.
Proof.
  intros Hi Hl He Hk. apply wp_bind, (wp_weaken _ _ _ (fun t' _ => leaves r0 t' /\ ending_at (record t'))).
  { destruct b; [by apply wp_ret|]. apply wp_lift; [done|]. by apply set_host_post. }
  intros t1 st1 Hi1 [Hl1 He1]. apply wp_bind, wp_ending; [done..|]. intros t2 st2 Hi2 _ He2 Hl2 Est.
  apply Hk; [done|]. rewrite Est. by apply finishing_process; [apply Hl2|].
Qed.

(** A route staged with an ending has consumed its turn end. *)
Definition consumed r : Prop :=
  forall a e v, attempt r = Some a -> ending a = Some e -> ending_route e = Some v -> judged a <> None.

Lemma interrupt_consumed r0 t h reason : leaves r0 t -> held (record t) = Some h ->
  post (Until.interrupt t reason) (fun t' => leaves r0 t' /\ consumed (record t') /\ held (record t') = None).
Proof.
  intros Hl Hh. pose proof (interrupt_post t h reason (proj1 Hl) Hh) as Hr.
  destruct (wf_held _ _ _ (proj1 Hl) h Hh) as [_ Hho].
  eapply post_weaken; [exact Hr|]. intros t' (Hl' & Hs & _ & _ & Hnone). split_and!; [|  |done].
  - eapply leaves_weaken; [apply Hl|done].
  - intros a e v Ha He. rewrite (session_live _ _ _ _ Hs) in Ha. injection Ha as <-.
    by rewrite (held_open _ _ _ _ Hho) in He.
Qed.

Lemma wp_interrupted r0 (t : Transition) reason st : inv r0 st -> leaves r0 t -> consumed (record t) ->
  wp r0 (if is_some (held (record t)) then lift (Until.interrupt t reason) else ret t) st
    (fun t' st' => st' = st /\ leaves r0 t' /\ consumed (record t') /\ held (record t') = None
                   /\ (held (record t) = None -> t' = t)).
Proof.
  intros Hi Hl Hc. destruct (held (record t)) as [h|] eqn:Eh; cbn [is_some]; [|by apply wp_ret].
  pose proof (interrupt_consumed r0 t h reason Hl Eh) as Hp. apply wp_lift; [done|]. post_step Hp t1.
  destruct Hp as (? & ? & ?). done.
Qed.

Lemma consumed_core r r' : core r = core r' -> consumed r -> consumed r'.
Proof. intros (_ & _ & _ & _ & _ & _ & Ea & _)%core_inv Hc a e v Ha. rewrite Ea in Ha. by eapply Hc. Qed.

Lemma wp_cancel r0 (env : Env) (reason : option text) st : inv r0 st -> consumed (stored st) ->
  wp r0 (cancel spec env reason) st (fun '(_, p) => starts p).
Proof.
  intros Hi Hcons. unfold cancel. apply wp_bind, wp_load; [done|].
  set (t := {| record := stored st; now := start_time env; entries := [] |}).
  assert (Hl : leaves r0 t) by done. assert (Hcons0 : consumed (record t)) by done. clearbody t.
  destruct (RunState.is_terminal (run_state (record t))); [by apply wp_ret|].
  apply wp_bind. eapply wp_weaken; [by apply wp_interrupted|]. intros t1 st1 Hi1 (-> & Hl1 & Hcons1 & Hheld & _). clear Hi1.
  destruct (close_wait_same t1) as [Hc2 _]. pose proof (same_leaves r0 _ _ (close_wait_same t1) Hl1) as Hl2.
  pose proof (consumed_core _ _ Hc2 Hcons1) as Hcons2. pose proof (core_visits _ _ Hc2) as (_ & _ & Eh2). rewrite Hheld in Eh2.
  set (t2 := close_wait t1) in *. clearbody t2. cbv zeta.
  destruct (ofilter (attempt (record t2)) _) as [a|] eqn:Ea.
  - assert (Ha : attempt (record t2) = Some a /\ attempt_kind a = AttemptKind.Agent).
    { destruct (attempt (record t2)); cbn in Ea; [|done]. case_bool_decide; [|done]. by injection Ea as <-. }
    destruct Ha as [Ha Hk]. pose proof (session_of_wf spec V _ _ (proj1 Hl2) Ha Hk) as Hs.
    destruct (busy env a && _); [by apply wp_ret|].
    pose proof (observe_attempt_post env a) as Ho. wp_call Ho observed.
    apply wp_bind, (wp_weaken _ _ _ (fun t' st' => st' = st /\ record t' = record t2)).
    { destruct (let! e := ending a else None in ending_route e) as [v|] eqn:Ev; [|by apply wp_ret].
      destruct (ending a) as [e|] eqn:Ee; [|done].
      pose proof (turn_end_record t2 a TurnEndAction.Interrupted (Some v) (Some (str "cancel")) (Hcons2 a e v Ha Ee Ev)) as Ht.
      apply wp_lift; [done|]. post_step Ht t3. by destruct Ht. }
    intros t3 st3 Hi3 [-> E3]. rewrite <- E3 in Hs.
    assert (Hl3 : leaves r0 t3) by (unfold TransitionFacts.leaves; by rewrite E3).
    match goal with |- context [stage_agent_end t3 ?x _] => set (e := x) end.
    assert (He : ending_ok spec V e) by done. clearbody e.
    pose proof (stage_leaves r0 t3 a e observed Hl3 Hs He) as Hp. wp_call Hp t4. destruct Hp as (Hl4 & He4 & _).
    apply wp_command_end; [done..|]. intros t5 st5 Hi5 Hp5. apply wp_ret; [done|].
    destruct (busy env a); [done|]. by intros q [= <-].
  - set (t3 := update t2 _). assert (Hc3 : core (record t2) = core (record t3)) by done.
    assert (Hl3 : leaves r0 t3) by (apply (same_leaves r0 t2); done).
    pose proof (core_visits _ _ Hc3) as (_ & _ & Eh3). rewrite Eh2 in Eh3. clearbody t3.
    match goal with |- context [finish_script spec t3 ?x None None] => set (e := x) end.
    assert (He : ending_ok spec V e) by done. clearbody e.
    pose proof (finish_script_post spec V t3 e None None (proj1 Hl3) He) as Hf.
    wp_call Hf x. destruct x as [t4 settled_]. destruct Hf as [[Hl4 Ha4] Hcore].
    assert (Hl5 : leaves r0 (if settled_ then t4 else cancel_run t4 reason)).
    { destruct settled_; [eapply leaves_weaken; [apply Hl3|done]|]. destruct (Hcore eq_refl) as [Hc4 _].
      symmetry in Hc4. pose proof (core_visits _ _ Hc4) as (_ & _ & Eh4). cbn in Eh4. rewrite Eh3 in Eh4.
      eapply leaves_weaken; [apply Hl3|]. eapply leaves_weaken; [apply Hl4|].
      apply cancel_run_post; [done..|apply Hl4]. }
    wp_persist_as t5 Hc5 Hact5 Est5 Hl6. by apply wp_ret.
Qed.

Lemma consumed_cases r : consumed r \/ exists a e v, attempt r = Some a /\ ending a = Some e
  /\ ending_route e = Some v /\ judged a = None.
Proof.
  destruct (attempt r) as [a|] eqn:Ea; [|left; intros a e v; congruence].
  destruct (ending a) as [e|] eqn:Ee; [|left; intros a' e v; congruence].
  destruct (ending_route e) as [v|] eqn:Ev; [|left; intros a' e' v; congruence].
  destruct (judged a) eqn:Ej; [left|right; eauto 8].
  intros a' e' v' Ha' _ _. rewrite Ea in Ha'. injection Ha' as <-. congruence.
Qed.

(** What [cancel] does with a route no turn end was consumed for. *)
Lemma cancel_unconsumed r0 (env : Env) (reason : option text) st a e v : inv r0 st ->
  attempt (stored st) = Some a -> ending a = Some e -> ending_route e = Some v -> judged a = None ->
  cancel spec env reason st =
    (st, if busy env a && bool_decide (ending_cause e = EndCause.Cancel) then Ok (true, None)
         else match observe_attempt env a with Ok _ => Err Panicked | Err er => Err er end).
Proof.
  intros [Hw _] Ha He Hv Hj.
  destruct (wf_attempt _ _ _ Hw a Ha) as (Hact & _ & Hf). destruct (fit_ending _ _ _ _ Hf e He) as (Hk & _).
  pose proof (session_free _ _ _ _ (session_of_wf spec V _ _ Hw Ha Hk)) as Hh.
  unfold cancel, load, bind. cbn [record]. rewrite Hact. cbn [RunState.is_terminal]. rewrite Hh. cbn [is_some ret].
  destruct (close_wait_same {| record := stored st; now := start_time env; entries := [] |}) as [Hc _].
  pose proof (core_inv _ _ Hc) as (_ & _ & _ & _ & _ & _ & Ea & _). cbn [record] in Ea. rewrite Ha in Ea.
  assert (Eo : ofilter (Some a) (fun a => bool_decide (attempt_kind a = AttemptKind.Agent)) = Some a)
    by (cbn; by rewrite Hk).
  rewrite Ea, Eo, He. cbn [is_some_and]. destruct (busy env a && _); [done|].
  unfold lift. destruct (observe_attempt env a); [|done]. rewrite Hv. unfold turn_end. by rewrite Hj.
Qed.

(** Whatever it finds, [cancel] keeps the record well formed. *)
Lemma cancel_keeps r0 (env : Env) (reason : option text) st : inv r0 st ->
  let '(st', res) := cancel spec env reason st in
  inv r0 st' /\ match res with Ok (_, p) => starts p st' | Err _ => True end.
Proof.
  intros Hi. destruct (consumed_cases (stored st)) as [Hc|(a & e & v & Ha & He & Hv & Hj)].
  - pose proof (wp_cancel r0 env reason st Hi Hc) as Hwp. unfold wp in Hwp.
    destruct (cancel spec env reason st) as [st' [[b p]|er]]; cbn in Hwp; [done|]. by destruct Hwp.
  - rewrite (cancel_unconsumed r0 env reason st a e v Hi Ha He Hv Hj). destruct (_ && _); [done|].
    by destruct (observe_attempt env a).
Qed.

(** *** [restart] *)

Lemma session_attempt_node r : WF r -> V (match session_attempt r with Some a => attempt_node a | None => run_node r end).
Proof.
  intros Hw. unfold session_attempt.
  destruct (ofilter _ _) as [a|] eqn:Es; [|apply Hw].
  destruct (held r) as [h|] eqn:Eh; cbn in Es.
  - destruct (bool_decide _); [|done]. injection Es as <-. by apply (wf_held _ _ _ Hw h Eh).
  - destruct (attempt r) as [b|] eqn:Ea; cbn in Es; [|done]. destruct (bool_decide _); [|done]. injection Es as <-.
    by apply (wf_attempt _ _ _ Hw b Ea).
Qed.

(** A parked run continued from its previous attempt. *)
Lemma continued_session r0 (env : Env) (t t' : Transition) n s a : leaves r0 t ->
  continued_attempt env n s (record t) = Some a -> n = run_node (record t) -> agent_step spec n ->
  record t' = record t <| Run.restart := Run.restart (record t') |> <| attempt := Some a |>
    <| run_state := RunState.Active |> <| park := None |> ->
  session (record t') a /\ push a = None
  /\ exists e0, (seq a, attempt_node a, e0) ∈ marks (record t) /\ next_seq (record t') = next_seq (record t).
Proof.
  intros [Hw _] Hc Hn Hag Er. unfold continued_attempt in Hc.
  destruct (prev_attempt (record t)) as [p|] eqn:Ep; [|done].
  destruct (is_none (attempt (record t)) && _ && _) eqn:Ec; [|done].
  destruct (prev_run_id p); [|done]. destruct (prev_handle p); [|done]. injection Hc as <-.
  apply andb_true_iff in Ec as [Ec Hpn%bool_decide_eq_true]. apply andb_true_iff in Ec as [Hfree Hst%bool_decide_eq_true].
  assert (Ha : attempt (record t) = None) by by destruct (attempt (record t)).
  assert (Hh : held (record t) = None).
  { destruct (held (record t)) as [h|] eqn:Eh; [|done]. destruct (wf_held _ _ _ Hw h Eh). congruence. }
  pose proof (wf_prev _ _ _ Hw p Ep) as Hq.
  assert (Hrest : WF (record t' <| attempt := None |>)).
  { rewrite Er. destruct Hw. split; cbn in *; [auto|auto|done|by rewrite Hh|done|done| |auto|done|done|by rewrite Hh|auto].
    by rewrite <- wf_terminal, Hst. }
  split_and!; [|done|].
  - rewrite Er in *. split; try done; cbn in *; congruence.
  - exists true. rewrite Er. split; [|done]. apply elem_of_marks. right; right. exists p. split; [done|]. cbn. by rewrite Hpn.
Qed.

Lemma wp_restart r0 (env : Env) (resume_ : option (N * text)) st : inv r0 st ->
  wp r0 (restart_run spec env resume_) st starts.
Proof.
  intros Hi. unfold restart_run. apply wp_bind, wp_load; [done|].
  set (t := {| record := stored st; now := start_time env; entries := [] |}).
  assert (Hl : leaves r0 t) by done. clearbody t. cbv zeta.
  destruct (RunState.is_terminal (run_state (record t))) eqn:Eterm; [by apply wp_refuse|].
  destruct (is_some_and (session_attempt (record t)) _); [by apply wp_refuse|].
  pose proof (session_attempt_node _ (proj1 Hl)) as HV.
  destruct (ofilter (lookup_key _ (steps spec)) Step.is_agent) as [s|] eqn:Es; [|by apply wp_refuse].
  destruct (is_some_and resume_ _); [by apply wp_refuse|].
  destruct (is_some (restart (record t))); [by apply wp_refuse|].
  assert (Hag : agent_step spec (match session_attempt (record t) with Some a => attempt_node a | None => run_node (record t) end)).
  { destruct (lookup_key _ (steps spec)) as [s'|] eqn:El; cbn in Es; [|done]. destruct (Step.is_agent s') eqn:Ek; [|done].
    injection Es as <-. by exists s'. }
  set (n := match session_attempt (record t) with Some a => attempt_node a | None => run_node (record t) end) in *.
  assert (Hn : attempt (record t) = None -> held (record t) = None -> n = run_node (record t)).
  { intros Ha Hh. subst n. unfold session_attempt. by rewrite Ha, Hh. }
  assert (Hkind : forall a, attempt (record t) = Some a -> held (record t) = None -> attempt_kind a = AttemptKind.Agent).
  { intros a Ha Hh. destruct (wf_attempt _ _ _ (proj1 Hl) a Ha) as (_ & Hna & Hf).
    assert (Hna' : n = attempt_node a).
    { subst n. unfold session_attempt. rewrite Ha, Hh. cbn. by case_bool_decide. }
    rewrite Hna' in Hag. eapply agent_kind_inv; [exact Hag|apply Hf]. }
  clearbody n. clear Es.
  apply wp_bind, (wp_weaken _ _ _ (fun t' st' => st' = st /\ leaves r0 t' /\ held (record t') = None
    /\ RunState.is_terminal (run_state (record t')) = false
    /\ (attempt (record t') = None -> n = run_node (record t'))
    /\ forall a, attempt (record t') = Some a -> attempt_kind a = AttemptKind.Agent)).
  { destruct (held (record t)) as [h|] eqn:Eh; cbn [is_some].
    - pose proof (interrupt_post t h (str "restart") (proj1 Hl) Eh) as Hr. apply wp_lift; [done|]. post_step Hr t1.
      destruct Hr as (Hl1 & Hs1 & _ & _ & Hh1). cbn [post]. split_and!; [done| |done| | |].
      + eapply leaves_weaken; [apply Hl|done].
      + by rewrite (session_active _ _ _ _ Hs1).
      + intros Ha. by rewrite (session_live _ _ _ _ Hs1) in Ha.
      + intros a Ha. rewrite (session_live _ _ _ _ Hs1) in Ha. injection Ha as <-. apply Hs1.
    - apply wp_ret; [done|]. split_and!; try done; auto. }
  intros t1 st1 Hi1 (-> & Hl1 & Hh1 & Hterm1 & Hn1 & Hk1). clear Hi1.
  set (t2 := update t1 _). assert (Hl2 : leaves r0 t2) by (apply (same_leaves r0 t1); done).
  assert (Hh2 : held (record t2) = None) by exact Hh1.
  assert (Hterm2 : RunState.is_terminal (run_state (record t2)) = false) by exact Hterm1.
  assert (Hn2 : attempt (record t2) = None -> n = run_node (record t2)) by exact Hn1.
  assert (Hk2 : forall a, attempt (record t2) = Some a -> attempt_kind a = AttemptKind.Agent) by exact Hk1.
  clearbody t2. clear t1 Hl1 Hh1 Hterm1 Hn1 Hk1.
  destruct (if is_some resume_ then continued_attempt env n s (record t2) else None) as [a|] eqn:Ec.
  - destruct (is_some resume_); [|done].
    assert (Hfree : attempt (record t2) = None).
    { unfold continued_attempt in Ec. destruct (prev_attempt (record t2)); [|done].
      by destruct (attempt (record t2)). }
    set (t3 := update t2 _).
    destruct (continued_session r0 env t2 t3 n s a Hl2 Ec (Hn2 Hfree) Hag ltac:(done)) as (Hs3 & Hp3 & e0 & Hm & Hq).
    clearbody t3. rewrite (session_live _ _ _ _ Hs3).
    pose proof (observe_attempt_post env a) as Ho. wp_call Ho observed.
    pose proof (stage_post spec V t3 a (bare_ending AttemptOutcome.Canceled (EndCause.Restart true)) observed Hs3
      (bare_ending_ok _ _ _ _)) as Hst. specialize (Hst ltac:(rewrite Hp3; done)).
    wp_call Hst t4. destruct Hst as (Hw4 & Hd4 & Hs4 & _).
    apply wp_command_end; [done| | |].
    + split; [done|]. transitivity (record t2); [apply Hl2|]. eapply Hd4; [by rewrite Hq|exact Hm].
    + eexists _, _. split_and!; [apply Hs4|apply Hs4|reflexivity].
    + intros t5 st5 Hi5 Hp5. apply wp_ret; [done|]. destruct (busy env a); [done|]. by intros q [= <-].
  - destruct (attempt (record t2)) as [a|] eqn:Ea.
    + pose proof (session_of_wf spec V _ _ (proj1 Hl2) Ea (Hk2 a eq_refl)) as Hs2.
      pose proof (observe_attempt_post env a) as Ho. wp_call Ho observed.
      pose proof (stage_leaves r0 t2 a (bare_ending AttemptOutcome.Canceled (EndCause.Restart (is_some resume_))) observed
        Hl2 Hs2 (bare_ending_ok _ _ _ _)) as Hst.
      wp_call Hst t4. destruct Hst as (Hl4 & He4 & _). apply wp_command_end; [done..|].
      intros t5 st5 Hi5 Hp5. apply wp_ret; [done|]. destruct (busy env a); [done|]. by intros q [= <-].
    + destruct (restart_step_post spec V t2 n (is_some resume_) HV Ea Hh2 Hterm2 (proj1 Hl2)) as [Hl3 _].
      assert (leaves r0 (restart_step t2 n (is_some resume_))) by (eapply leaves_weaken; [apply Hl2|done]).
      wp_persist_as t4 Hc4 Hact4 Est4 Hl4. by apply wp_ret.
Qed.

(** *** [resume], [wake], [with_child] and [reassign_task] *)

Definition granted r r' : Prop :=
  (visit_grant r <= visit_grant r')%N /\ core r' = core (r <| visit_grant := visit_grant r' |>).

Lemma extend_all_post r extend : post (extend_all r extend) (granted r).
Proof.
  revert r. induction extend as [|g extend IH]; intros r; cbn [extend_all]; [split; [lia|]; by destruct r|].
  set (fr := match _, strip_prefix (str "deadline=") g with Some _, _ => _ | None, _ => _ end).
  assert (Hf : post fr (granted r)).
  { subst fr. destruct (let! n := _ else None in _) as [n|].
    - destruct (_ <=? U64_MAX)%N; [|done]. split; [cbn; lia|done].
    - destruct (strip_prefix (str "deadline=") g) as [raw|]; [|done]. destruct (parse_deadline raw); [|done].
      split; [cbn; lia|done]. }
  clearbody fr. post_step Hf r1. destruct Hf as [Hg Hc].
  eapply post_weaken; [apply IH|]. intros r2 [Hg2 Hc2]. split; [lia|]. rewrite Hc2.
  apply core_inv in Hc as (Es & Ek & En & Ei & Ev & Eg & Ea & Eh & Ep & Et & Eq). cbn in *.
  unfold core. cbn. congruence.
Qed.

Lemma granted_leaves r0 r r' : WF r -> descends r0 r -> granted r r' -> WF r' /\ descends r0 r'.
Proof.
  intros Hw Hd [Hg Hc].
  assert (Hw' : WF (r <| visit_grant := visit_grant r' |>)).
  { destruct Hw. split; cbn; [auto|auto| | |auto..|].
    - intros a Ha. destruct (wf_attempt a Ha) as (? & ? & ?). split_and!; [done|done|]. by apply (fits_same _ _ r).
    - intros h Hh. destruct (wf_held h Hh) as [? []]. split; [done|]. split; auto. by apply (fits_same _ _ r).
    - intros n s vs Hs Hv. eapply within_grant; [exact Hg|]. by eapply wf_within. }
  split; [by eapply core_wf|]. transitivity r; [done|].
  transitivity (r <| visit_grant := visit_grant r' |>); [by apply descends_same|by apply core_descends].
Qed.

(** A parked run set active at a node. *)
Lemma wf_activate r n now_ : V n -> run_state r = RunState.Parked -> WF r ->
  WF (r <| run_node := n |> <| entered_at := now_ |> <| check_retry := 0%N |> <| check_retry_context := None |>
        <| park := None |> <| run_state := RunState.Active |>).
Proof.
  intros HV Hst Hw.
  assert (Ha : attempt r = None).
  { destruct (attempt r) as [a|] eqn:Ea; [|done]. destruct (wf_attempt _ _ _ Hw a Ea). congruence. }
  assert (Hh : held r = None).
  { destruct (held r) as [h|] eqn:Eh; [|done]. destruct (wf_held _ _ _ Hw h Eh). congruence. }
  destruct Hw. split; cbn; [auto|auto|by rewrite Ha|by rewrite Hh|done|done| |auto..].
  by rewrite <- wf_terminal, Hst.
Qed.

Lemma wp_resume r0 (env : Env) (at_ : option text) extend st : inv r0 st ->
  (forall n, at_ = Some n -> is_node spec n = true -> V n) ->
  wp r0 (resume spec env at_ extend) st (fun _ _ => True).
Proof.
  intros Hi HV. unfold resume. apply wp_bind, wp_load; [done|].
  set (t := {| record := stored st; now := start_time env; entries := [] |}).
  assert (Hl : leaves r0 t) by done. clearbody t. cbv zeta.
  destruct (RunState.is_terminal _); [by apply wp_refuse|].
  destruct (is_some_and at_ _) eqn:Hat; [by apply wp_refuse|]. destruct (_ && _); [by apply wp_refuse|].
  pose proof (extend_all_post (record t) extend) as He. wp_call He r1.
  destruct (granted_leaves r0 _ _ (proj1 Hl) (proj2 Hl) He) as [Hw1 Hd1].
  set (t1 := t <| record := r1 |>). assert (E1 : record t1 = r1) by done. clearbody t1. rewrite <- E1 in *. clear E1 r1 He E.
  set (t2 := if decide (run_state (record t1) = RunState.Parked) then _ else t1).
  assert (Hl2 : leaves r0 t2).
  { subst t2. destruct (decide _) as [Hst|]; [|by split].
    set (t3 := if is_some_and (park (record t1)) _ then _ else t1).
    assert (H3 : leaves r0 t3 /\ run_state (record t3) = RunState.Parked /\ run_node (record t3) = run_node (record t1)).
    { subst t3. destruct (is_some_and (park (record t1)) _); [|by split_and!]. split; [|done].
      split; [|transitivity (record t1); [done|by apply descends_same]].
      assert (Ha : attempt (record t1) = None).
      { destruct (attempt (record t1)) as [a|] eqn:Ea; [|done]. destruct (wf_attempt _ _ _ Hw1 a Ea). congruence. }
      assert (Hh : held (record t1) = None).
      { destruct (held (record t1)) as [h|] eqn:Eh; [|done]. destruct (wf_held _ _ _ Hw1 h Eh). congruence. }
      by refine (wf_delete_visits _ _ _ (run_node (record t1)) Ha Hh Hw1). }
    clearbody t3. destruct H3 as (Hl3 & Hst3 & _).
    destruct (close_wait_same t3) as [Hc4 _]. pose proof (same_leaves r0 _ _ (close_wait_same t3) Hl3) as Hl4.
    pose proof (core_inv _ _ Hc4) as (Hst4 & _). rewrite Hst3 in Hst4. set (t4 := close_wait t3) in *. clearbody t4.
    split; [|transitivity (record t4); [apply Hl4|by apply descends_same]].
    refine (wf_activate _ _ (now t3) _ Hst4 (proj1 Hl4)).
    destruct at_ as [n|]; cbn; [|apply Hl4]. apply HV; [done|]. cbn in Hat. by destruct (is_node spec n). }
  clearbody t2. set (t5 := push_entry t2 _ _). assert (Hl5 : leaves r0 t5) by exact Hl2. clearbody t5.
  wp_persist_as t6 Hc6 Hact6 Est6 Hl6. by apply wp_ret.
Qed.

Lemma wp_wake r0 (env : Env) signal st : inv r0 st -> wp r0 (wake spec env signal) st (fun _ _ => True).
Proof.
  intros Hi. unfold wake. apply wp_bind, wp_load; [done|].
  set (t := {| record := stored st; now := start_time env; entries := [] |}).
  assert (Hl : leaves r0 t) by done. clearbody t. cbv zeta. destruct (_ || _); [by apply wp_ret|].
  set (ta := update t (fun r => r <| attempt := option_map (fun a => a <| woken := true |>) (attempt r) |>)).
  assert (Hla : leaves r0 ta /\ held (record ta) = held (record t)).
  { subst ta. split; [|done]. destruct (attempt (record t)) as [a|] eqn:Ea.
    - pose proof (leaves_set_attempt r0 t a (a <| woken := true |>) Hl Ea) as Hx.
      assert (Hal : alike a (a <| woken := true |>)) by (split_and!; try done; by apply (live_push _ a (proj1 Hl))).
      specialize (Hx Hal). unfold TransitionFacts.leaves in *. cbn [update record] in *. cbn. rewrite Ea. exact Hx.
    - apply (same_leaves r0 t); [|done]. split; [|done]. unfold core. cbn. by rewrite Ea. }
  destruct Hla as [Hla _].
  assert (Eta : record ta = record t <| attempt := option_map (fun a => a <| woken := true |>) (attempt (record t)) |>) by done.
  clearbody ta.
  set (tb := update ta (fun r => r <| held := option_map (fun h => h <| held_attempt := held_attempt h <| woken := true |> |>) (held r) |>)).
  assert (Hlb : leaves r0 tb).
  { subst tb. destruct (held (record ta)) as [h|] eqn:Eh.
    - destruct (wf_held _ _ _ (proj1 Hla) h Eh) as [_ Hho].
      pose proof (leaves_set_held r0 ta h (h <| held_attempt := held_attempt h <| woken := true |> |>) Hla Eh) as Hx.
      assert (Hal : alike (held_attempt h) (held_attempt h <| woken := true |>))
        by (split_and!; try done; intros _; exact (held_run _ _ _ _ Hho)).
      specialize (Hx Hal ltac:(by left)). unfold TransitionFacts.leaves in *. cbn in Hx |- *. rewrite Eh. exact Hx.
    - apply (same_leaves r0 ta); [|done]. split; [|done]. unfold core. cbn in Eh |- *. by rewrite Eh. }
  assert (Etb : record tb = record ta
    <| held := option_map (fun h => h <| held_attempt := held_attempt h <| woken := true |> |>) (held (record ta)) |>) by done.
  clearbody tb. rewrite Eta in Etb.
  set (tc := push_entry _ _ _).
  assert (Hlc : leaves r0 tc).
  { destruct Hlb as [Hwb Hdb]. assert (Hcc : core (record tb) = core (record tc)) by (by rewrite Etb).
    split; [by eapply core_wf|]. transitivity (record tb); [done|by apply core_descends]. }
  clearbody tc.
  wp_persist_as t6 Hc6 Hact6 Est6 Hl6. by apply wp_ret.
Qed.

Lemma wp_publish_child r0 (env : Env) p st : inv r0 st -> process_ok (stored st) p ->
  wp r0 (publish_child spec env p) st (fun _ _ => True).
Proof.
  intros Hi [Hp _]. unfold publish_child. destruct (pending p) as [|r| | | | | |]; try by apply wp_ret.
  destruct Hp as (_ & a & Ha & _). rewrite Ha. apply wp_bind, wp_lift; [done|]. cbn [expect post].
  apply wp_bind, wp_load; [done|]. set (t := {| record := stored st; now := start_time env; entries := [] |}).
  assert (Hl : leaves r0 t) by done. clearbody t. cbv zeta.
  destruct (current t (seq a)) eqn:Hc; cbn [negb orb]; [|by apply wp_ret]. destruct (_ || _); [by apply wp_ret|].
  unfold current in Hc. apply andb_true_iff in Hc as [_ Hc]. destruct (attempt (record t)) as [a'|] eqn:Ha'; [|done].
  assert (Hal : alike a' (a' <| child := Some (spawned env) |>))
    by (split_and!; try done; by apply (live_push _ a' (proj1 Hl))).
  pose proof (map_attempt_post r0 t a' (fun a => a <| child := Some (spawned env) |>) Hl Ha' Hal) as Hm.
  wp_call Hm t1. destruct Hm as (Hl1 & _). split; [exact Hl1|done].
Qed.

Lemma wp_reassign r0 old new st : inv r0 st -> wp r0 (reassign_task old new) st (fun _ _ => True).
Proof.
  intros [Hw Hd]. unfold reassign_task, wp. destruct (started_by (stored st) old); (split; [|done]); [|done].
  split; cbn; [by apply (core_wf _ _ (stored st))|]. transitivity (stored st); [done|by apply core_descends].
Qed.
End Engine.
