(* ===== verification/SystemFacts.v ===== *)
(** * Theorems about a run under concurrent processes ([Engine])

    A run is its store, the processes that advance it and the commands of its
    users, interleaved section by section ([system_step]).  The invariant
    [sys_ok] holds in every reachable state of a validated definition: the
    record is well formed and each process knows true things of it. *)

From S2P Require Import Prelude.
From S2P Require Agents.
From S2P Require Import Workflow WorkflowFacts Run Transition Engine TransitionFacts EngineFacts.
Import Validate.

Section System.
Context `{Validators, Rfc3339} (spec : WorkflowSpec) `{!Sealed spec}.
Context (V : text -> Prop) `{!Closed spec V}.
Context (allow : Command -> Prop).

Definition sys_ok (sys : System) : Prop :=
  WellFormed spec V (stored (store sys))
  /\ forall i p, processes sys !! i = Some p -> process_ok spec V (stored (store sys)) p.

(** A command that repositions the run names a node of [V]. *)
Definition enters (c : Command) : Prop :=
  match c with Resume (Some n) _ => is_node spec n = true -> V n | _ => True end.

Lemma inv_self st : WellFormed spec V (stored st) -> inv spec V (stored st) st.
Proof. by split. Qed.

Lemma wp_run_command r0 env c ps st : inv spec V r0 st -> enters c ->
  (forall i p, ps !! i = Some p -> process_ok spec V (stored st) p) ->
  (forall reason, c = Cancel reason -> consumed (stored st)) ->
  wp spec V r0 (run_command spec env c ps) st (starts spec V).
Proof.
  intros Hi He Hps Hc. destruct c as [|reason|resume_|at_ extend|signal|old new|i]; cbn [run_command].
  - apply wp_ret; [done|]. intros q [= <-]. split; [done|]. by intros q n x.
  - apply wp_bind. eapply wp_weaken; [apply wp_cancel; [done..|by eapply Hc]|].
    intros [b p] st' Hi' Hp. by apply wp_ret.
  - by apply wp_restart.
  - apply wp_none; [done..|]. apply wp_resume; [done..|]. intros n -> Hn. by apply He.
  - apply wp_none; [done..|]. by apply wp_wake.
  - apply wp_none; [done..|]. by apply wp_reassign.
  - destruct (ps !! i) as [p|] eqn:Ep; [|by apply wp_ret]. apply wp_none; [done..|].
    apply wp_publish_child; [done..|]. by eapply Hps.
Qed.

(** A command keeps the record well formed, a cancel that panics included. *)
Lemma run_command_keeps r0 env c ps st : inv spec V r0 st -> enters c ->
  (forall i p, ps !! i = Some p -> process_ok spec V (stored st) p) ->
  let '(st', res) := run_command spec env c ps st in
  inv spec V r0 st' /\ match res with Ok p => starts spec V p st' | Err _ => True end.
Proof.
  intros Hi He Hps. assert (Hother : (forall reason, c <> Cancel reason) ->
    let '(st', res) := run_command spec env c ps st in
    inv spec V r0 st' /\ match res with Ok p => starts spec V p st' | Err _ => True end).
  { intros Hc. pose proof (wp_run_command r0 env c ps st Hi He Hps) as Hw.
    specialize (Hw ltac:(intros reason ->; by destruct (Hc reason))). unfold wp in Hw.
    destruct (run_command spec env c ps st) as [st' [p|e]]; [done|]. by destruct Hw. }
  destruct c as [|reason| | | | |]; try by apply Hother. clear Hother. cbn [run_command]. unfold bind.
  pose proof (cancel_keeps spec V r0 env reason st Hi) as Hk.
  destruct (cancel spec env reason st) as [st' [[b p]|e]]; [|done]. destruct Hk as [Hi' Hp]. by split.
Qed.

Lemma step_keeps sys sys' : (forall c, allow c -> enters c) -> sys_ok sys -> system_step spec allow sys sys' ->
  sys_ok sys' /\ descends (stored (store sys)) (stored (store sys')).
Proof.
  intros Henter [Hw Hps] Hstep. pose proof (inv_self _ Hw) as Hi.
  assert (Hstable : forall st', inv spec V (stored (store sys)) st' ->
    forall p, process_ok spec V (stored (store sys)) p -> process_ok spec V (stored st') p).
  { intros st' [_ Hd] p [Hp Ha]. split; [|done]. by eapply pending_stable. }
  destruct Hstep as [sys i p env st' res Hp Hrun|sys c env st' res Hc Hrun].
  - pose proof (wp_advance spec V _ env p _ Hi (Hps i p Hp)) as Ha. unfold wp in Ha. rewrite Hrun in Ha.
    destruct Ha as [Hi' Hres]. split; [|apply Hi']. split; [apply Hi'|]. intros j q Hq.
    destruct res as [p'|e]; cbn in Hq.
    + apply list_lookup_insert_Some in Hq as [(<- & <- & _)|[_ Hq]]; [exact Hres|by eapply Hstable, Hps].
    + destruct (decide (j < i)) as [Hj|Hj].
      * rewrite list_lookup_delete_lt in Hq by done. by eapply Hstable, Hps.
      * rewrite list_lookup_delete_ge in Hq by lia. by eapply Hstable, Hps.
  - pose proof (run_command_keeps _ env c (processes sys) _ Hi (Henter c Hc) Hps) as Ha. rewrite Hrun in Ha.
    destruct Ha as [Hi' Hres]. split; [|apply Hi']. split; [apply Hi'|]. intros j q Hq. cbn in Hq.
    apply lookup_app_Some in Hq as [Hq|[_ Hq]]; [by eapply Hstable, Hps|].
    destruct res as [[p|]|e]; cbn in Hq; try done. apply list_lookup_singleton_Some in Hq as [_ <-]. by apply Hres.
Qed.

Lemma initial_ok env task_ manual_ deadline_ : V (start (workflow spec)) ->
  WellFormed spec V (initial_record spec env task_ manual_ deadline_).
Proof.
  intros HV. split; try done. cbn. split; [done|by intros []].
Qed.

(** The invariant of the system. *)
Lemma run_reachable_ok sys : V (start (workflow spec)) -> (forall c, allow c -> enters c) ->
  reachable spec allow sys -> sys_ok sys.
Proof.
  intros HV He Hr. induction Hr as [env task_ manual_ deadline_|sys sys' _ IH Hstep].
  - split; [by apply initial_ok|]. by intros i p Hp.
  - by apply (step_keeps sys sys').
Qed.
End System.

(** *** Sets of nodes *)

#[export] Instance nodes_closed `{Validators} spec : Closed spec (fun n => is_node spec n = true).
Proof. by split. Qed.

(** The nodes the routes reach from the start. *)
Inductive routed `{Validators} (spec : WorkflowSpec) : text -> Prop :=
| routed_start : is_node spec (start (workflow spec)) = true -> routed spec (start (workflow spec))
| routed_next n out n' : routed spec n -> engine_target spec n out = Some n' ->
    is_node spec n' = true -> routed spec n'.

#[export] Instance routed_closed `{Validators} spec : Closed spec (routed spec).
Proof.
  split.
  - by intros n [].
  - intros n out n' Hn Ht Hi. by eapply routed_next.
Qed.

Lemma any_enters `{Validators} spec c : any_command c -> enters spec (fun n => is_node spec n = true) c.
Proof. destruct c as [| | |[n|] extend| | |]; cbn; auto. Qed.

Lemma place_enters `{Validators} spec c : in_place c -> enters spec (routed spec) c.
Proof. by destruct c as [| | |[]| | |]. Qed.

(** *** The states of a validated definition *)

Lemma validated_ok `{Validators, Rfc3339} name spec0 sys :
  validate_spec name (Clean.apply spec0) = [] -> reachable (Clean.apply spec0) any_command sys ->
  sys_ok (Clean.apply spec0) (fun n => is_node (Clean.apply spec0) n = true) sys.
Proof.
  intros Hv Hr. pose proof (sealed_of_valid name spec0 Hv) as Hs.
  eapply (run_reachable_ok (Clean.apply spec0)); [apply _|apply sealed_start|intros c; apply any_enters|done].
Qed.

(** ** Theorems *)

(** C13: The record of a run is well formed in every state it reaches, whatever the
    interleaving of its processes and commands: the current node and the nodes
    of its attempts are nodes of the definition, a live attempt is of the kind
    of its node and exists only in an active run, a held session sits over a
    check, a terminal state has its time and a parked one its reason. *)
Theorem run_record_well_formed `{Validators, Rfc3339} name spec0 sys :
  validate_spec name (Clean.apply spec0) = [] -> reachable (Clean.apply spec0) any_command sys ->
  WellFormed (Clean.apply spec0) (fun n => is_node (Clean.apply spec0) n = true) (stored (store sys)).
Proof. intros Hv Hr. by apply (validated_ok name spec0 sys). Qed.

(** C2: The engine does not panic: no section of a process, and no command but a
    cancel, reaches a failing [expect] or a missing index in any state a run of
    a validated definition can reach. *)
Theorem engine_never_panics `{Validators, Rfc3339} name spec0 sys :
  validate_spec name (Clean.apply spec0) = [] -> reachable (Clean.apply spec0) any_command sys ->
  (forall i p env, processes sys !! i = Some p ->
     (advance_body (Clean.apply spec0) env p (store sys)).2 <> Err Panicked)
  /\ (forall env c, (forall reason, c <> Cancel reason) ->
     (run_command (Clean.apply spec0) env c (processes sys) (store sys)).2 <> Err Panicked).
Proof.
  intros Hv Hr. pose proof (sealed_of_valid name spec0 Hv) as Hs.
  destruct (validated_ok name spec0 sys Hv Hr) as [Hw Hps]. pose proof (inv_self _ _ _ Hw) as Hi. split.
  - intros i p env Hp. pose proof (wp_advance _ _ _ env p _ Hi (Hps i p Hp)) as Ha. unfold wp in Ha.
    destruct (advance_body _ _ _ _) as [st' [p'|[]]]; cbn in *; try done. by destruct Ha.
  - intros env c Hc. pose proof (wp_run_command _ _ _ env c _ _ Hi (any_enters _ c I) Hps) as Ha.
    specialize (Ha ltac:(intros reason ->; by destruct (Hc reason))). unfold wp in Ha.
    destruct (run_command _ _ _ _ _) as [st' [p'|[]]]; cbn in *; try done. by destruct Ha.
Qed.

(** C8: Visits stay within bounds: in every state a run reaches, the counted
    visits of a step are at most its [max-visits] plus the grant of the run,
    and those of each outcome at most the cap per outcome plus the grant. *)
Theorem run_visits_bounded `{Validators, Rfc3339} name spec0 sys n s vs :
  validate_spec name (Clean.apply spec0) = [] -> reachable (Clean.apply spec0) any_command sys ->
  lookup_key n (steps (Clean.apply spec0)) = Some s -> visits (stored (store sys)) !! n = Some vs ->
  (forall m, max_visits s = Some m ->
     total vs <= saturating_add_u64 m (visit_grant (stored (store sys))))%N
  /\ (forall cap b, max_visits_per_outcome s = Some cap ->
     for_bucket vs b <= saturating_add_u64 (cap_limit cap) (visit_grant (stored (store sys))))%N.
Proof.
  intros Hv Hr Hs Hvs. destruct (validated_ok name spec0 sys Hv Hr) as [Hw _].
  exact (wf_within _ _ _ Hw n s vs Hs Hvs).
Qed.

(** C14: A run goes where its routes lead: without a repositioning [resume], the
    current node and the nodes of the live and the held attempt are reached
    from the start by the routes of the definition. *)
Theorem run_follows_routes `{Validators, Rfc3339} name spec0 sys :
  validate_spec name (Clean.apply spec0) = [] -> reachable (Clean.apply spec0) in_place sys ->
  let r := stored (store sys) in
  routed (Clean.apply spec0) (run_node r)
  /\ (forall a, attempt r = Some a -> routed (Clean.apply spec0) (attempt_node a))
  /\ (forall h, held r = Some h -> routed (Clean.apply spec0) (attempt_node (held_attempt h))).
Proof.
  intros Hv Hr r. pose proof (sealed_of_valid name spec0 Hv) as Hs.
  assert (Hok : sys_ok (Clean.apply spec0) (routed (Clean.apply spec0)) sys).
  { eapply (run_reachable_ok (Clean.apply spec0)); [apply _| |intros c; apply place_enters|done].
    constructor. apply sealed_start. }
  destruct Hok as [Hw _]. split_and!.
  - apply Hw.
  - intros a Ha. by apply (wf_attempt _ _ _ Hw a Ha).
  - intros h Hh. by apply (wf_held _ _ _ Hw h Hh).
Qed.

Lemma steps_descend `{Validators, Rfc3339} name spec0 sys sys' :
  validate_spec name (Clean.apply spec0) = [] -> reachable (Clean.apply spec0) any_command sys ->
  rtc (system_step (Clean.apply spec0) any_command) sys sys' ->
  reachable (Clean.apply spec0) any_command sys' /\ descends (stored (store sys)) (stored (store sys')).
Proof.
  intros Hv Hr Hsteps. pose proof (sealed_of_valid name spec0 Hv) as Hs.
  induction Hsteps as [sys|sys sys1 sys2 Hstep _ IH]; [done|].
  destruct (step_keeps (Clean.apply spec0) _ any_command sys sys1 (fun c => any_enters _ c)
    (validated_ok name spec0 sys Hv Hr) Hstep) as [_ Hd].
  destruct IH as [Hr2 Hd2]; [by eapply reachable_step|]. split; [done|]. by etransitivity.
Qed.

(** A sequence number names one attempt for good: in any later state of a run,
    the live attempt with the same number is at the same node, and once it is
    ending it stays ending. *)
Theorem attempt_ends_once `{Validators, Rfc3339} name spec0 sys sys' a a' :
  validate_spec name (Clean.apply spec0) = [] -> reachable (Clean.apply spec0) any_command sys ->
  rtc (system_step (Clean.apply spec0) any_command) sys sys' ->
  attempt (stored (store sys)) = Some a -> attempt (stored (store sys')) = Some a' -> seq a' = seq a ->
  attempt_node a' = attempt_node a /\ (ending a <> None -> ending a' <> None).
Proof.
  intros Hv Hr Hsteps Ha Ha' Hq. destruct (steps_descend name spec0 sys sys' Hv Hr Hsteps) as [_ Hd].
  destruct (validated_ok name spec0 sys Hv Hr) as [Hw _].
  pose proof (descends_agrees a _ _ Hd (agrees_live _ _ _ a Hw Ha)) as Hag.
  destruct (agrees_current a _ a' Hag Ha' Hq) as [Hn He]. split; [done|].
  destruct (ending a), (ending a'); try done. by specialize (He eq_refl).
Qed.

(** ** Runs that are not active *)

Section Inactive.
Context `{Validators, Rfc3339} (spec : WorkflowSpec).

Definition keeps {A} (st : Store) (m : M A) : Prop := (m st).1 = st.

Lemma keeps_bind {A B} st (m : M A) (k : A -> M B) : keeps st m ->
  (forall a, (m st).2 = Ok a -> keeps st (k a)) -> keeps st (bind m k).
Proof.
  unfold keeps, bind. destruct (m st) as [st' [a|e]]; cbn; intros -> Hk; [|done]. by apply Hk.
Qed.

Lemma keeps_ret {A} st (a : A) : keeps st (ret a).
Proof. done. Qed.
Lemma keeps_lift {A} st (f : fallible A) : keeps st (lift f).
Proof. done. Qed.
Lemma keeps_load st now_ : keeps st (load now_).
Proof. done. Qed.

Lemma inactive_current st now_ q : run_state (stored st) <> RunState.Active ->
  current {| record := stored st; now := now_; entries := [] |} q = false.
Proof. intros Hs. unfold current. cbn. by rewrite bool_decide_eq_false_2. Qed.

Ltac keeps_step :=
  first [apply keeps_ret | apply keeps_lift | apply keeps_load
        |apply keeps_bind; [first [apply keeps_lift|apply keeps_load|apply keeps_ret]|intros ? ?]].

(** A process leaves the record of a run that is not active alone. *)
Lemma inactive_process env p st : run_state (stored st) <> RunState.Active -> keeps st (advance_body spec env p).
Proof.
  intros Hs. assert (Hc : forall t q, (load (start_time env) st).2 = Ok t -> current t q = false).
  { intros t q [= <-]. by apply inactive_current. }
  unfold advance_body. destruct (pending p) as [|r|r prompt|r reason|r|r|q n|]; try done.
  - apply keeps_bind; [|intros [[? ?] ?] _; done]. unfold prepare. keeps_step.
    match goal with H : _ = Ok ?t |- _ => injection H as <- end. cbn [record].
    by rewrite bool_decide_eq_false_2.
  - destruct (contains_key (run_node r) (steps spec)).
    + apply keeps_bind; [|done]. unfold command_step. repeat keeps_step. rewrite Hc by done. done.
    + apply keeps_bind; [|intros [? ?] _; done]. unfold evaluated. repeat keeps_step. rewrite Hc by done. done.
  - apply keeps_bind; [|done]. unfold launch. keeps_step. apply keeps_bind.
    { destruct prompt; [|done]. repeat keeps_step. }
    intros ? _. keeps_step. rewrite Hc by done. cbn. repeat keeps_step.
  - apply keeps_bind; [|intros [?|?] _; done]. unfold finish. repeat keeps_step. rewrite Hc by done. done.
  - apply keeps_bind; [|done]. unfold push_queued_. repeat keeps_step.
    destruct (negb _); [done|]. keeps_step. rewrite Hc by done. done.
Qed.
End Inactive.
