(* ===== verification/RunSpec.v ===== *)
(** * What a run promises: its abstract life, and the refinement

    The abstract view of a run is its state and, for each sequence number, the
    life of the attempt that has it.  [view_step] says which changes of the
    view a section of a process or a command may make; [run_refines_view]
    proves that every section and every command of the engine is such a step. *)

From S2P Require Import Prelude.
From S2P Require Agents.
From S2P Require Import Workflow WorkflowFacts Run Transition Engine TransitionFacts EngineFacts SystemFacts.
Import Validate.

(** ** The abstract machine *)

(** Who acts. *)
Inductive Action := Section_ | Issue (c : Command).

(** The state of a run: a process moves only an active run, a terminal run
    stays, and a parked one moves by a command. *)
Inductive phase_step : Action -> RunState.RunState -> RunState.RunState -> Prop :=
| phase_stays x s : phase_step x s s
| phase_works s : phase_step Section_ RunState.Active s
| phase_canceled reason s : RunState.is_terminal s = false ->
    phase_step (Issue (Cancel reason)) s RunState.Canceled
| phase_restarted x s : RunState.is_terminal s = false ->
    phase_step (Issue (RestartRun x)) s RunState.Active
| phase_resumed at_ extend : phase_step (Issue (Resume at_ extend)) RunState.Parked RunState.Active.

(** The life of the attempt with a sequence number. *)
Inductive Life := Unborn | Open_ (node : text) | Ended_ (node : text) | Gone.

Inductive life_step : Life -> Life -> Prop :=
| life_stays l : life_step l l
| life_born n : life_step Unborn (Open_ n)
| life_stillborn n : life_step Unborn (Ended_ n)
| life_ends n : life_step (Open_ n) (Ended_ n)
| life_gone l : life_step l Gone.

Record View := { view_state : RunState.RunState; view_life : N -> Life }.

Definition view_step (x : Action) (v v' : View) : Prop :=
  phase_step x (view_state v) (view_state v') /\ forall q, life_step (view_life v q) (view_life v' q).

(** ** The view of a record *)

Definition life (r : RunRecord) (q : N) : Life :=
  match List.find (fun '(s, _, _) => (s =? q)%N) (marks r) with
  | Some (_, n, e) => if e : bool then Ended_ n else Open_ n
  | None => if (next_seq r <=? q)%N then Unborn else Gone
  end.

Definition view (st : Store) : View :=
  {| view_state := run_state (stored st); view_life := life (stored st) |}.

Section Life.
Context `{Validators} (spec : WorkflowSpec) (V : text -> Prop).

Lemma marks_next r q n e : WellFormed spec V r -> (q, n, e) ∈ marks r -> (q < next_seq r)%N.
Proof.
  intros Hw [(a & Ha & [= -> _ _])|[(h & Hh & [= -> _ _])|(p & Hp & [= -> _ _])]]%elem_of_marks.
  - by apply (wf_attempt _ _ _ Hw a Ha).
  - by apply (wf_held _ _ _ Hw h Hh).
  - by apply (wf_prev _ _ _ Hw p Hp).
Qed.

(** The marks of a record are a function of the sequence number. *)
Lemma marks_unique r q n e n' e' : WellFormed spec V r -> (q, n, e) ∈ marks r -> (q, n', e') ∈ marks r ->
  n = n' /\ e = e'.
Proof.
  intros Hw. rewrite !elem_of_marks.
  assert (Hap : forall a p, attempt r = Some a -> prev_attempt r = Some p -> seq a = prev_seq p ->
    attempt_node a = prev_step p /\ is_some (ending a) = true).
  { intros a p Ha Hp Hq. destruct (wf_prev_live _ _ _ Hw a p Ha Hp (eq_sym Hq)) as [-> [e0 ->]]. done. }
  intros [(a & Ha & [= -> -> ->])|[(h & Hh & [= -> -> ->])|(p & Hp & [= -> -> ->])]]
         [(a' & Ha' & [= Hq -> ->])|[(h' & Hh' & [= Hq -> ->])|(p' & Hp' & [= Hq -> ->])]].
  - rewrite Ha in Ha'. by injection Ha' as <-.
  - by destruct (wf_distinct _ _ _ Hw a h' Ha Hh').
  - by apply Hap.
  - by destruct (wf_distinct _ _ _ Hw a' h Ha' Hh).
  - rewrite Hh in Hh'. by injection Hh' as <-.
  - by destruct (wf_prev_held _ _ _ Hw h p' Hh Hp').
  - destruct (Hap a' p Ha' Hp (eq_sym Hq)) as [-> ->]. done.
  - by destruct (wf_prev_held _ _ _ Hw h' p Hh' Hp).
  - rewrite Hp in Hp'. by injection Hp' as <-.
Qed.

(** The life of a number is what its mark says. *)
Lemma life_mark r q n (e : bool) : WellFormed spec V r -> (q, n, e) ∈ marks r ->
  life r q = if e then Ended_ n else Open_ n.
Proof.
  intros Hw Hm. unfold life. destruct (List.find _ (marks r)) as [[[s n'] e']|] eqn:Ef.
  - apply List.find_some in Ef as [Hm'%list_elem_of_In Hs%N.eqb_eq]. subst s.
    by destruct (marks_unique r q n e n' e' Hw Hm Hm') as [-> ->].
  - apply list_elem_of_In in Hm. pose proof (List.find_none _ _ Ef _ Hm) as Hn. cbn in Hn.
    by rewrite N.eqb_refl in Hn.
Qed.

Lemma life_cases r q :
  (exists n e, (q, n, e) ∈ marks r) \/ life r q = (if (next_seq r <=? q)%N then Unborn else Gone).
Proof.
  unfold life. destruct (List.find _ (marks r)) as [[[s n'] e']|] eqn:Ef; [left|by right].
  apply List.find_some in Ef as [Hm%list_elem_of_In Hs%N.eqb_eq]. subst s. eauto.
Qed.

Lemma life_unborn r q : WellFormed spec V r -> (next_seq r <= q)%N -> life r q = Unborn.
Proof.
  intros Hw Hq. destruct (life_cases r q) as [(n & e & Hm)| ->].
  - apply marks_next in Hm; [lia|done].
  - by apply N.leb_le in Hq as ->.
Qed.

Lemma descends_life r r' q : WellFormed spec V r -> WellFormed spec V r' -> descends r r' ->
  life_step (life r q) (life r' q).
Proof.
  intros Hw Hw' [Hn Hd]. destruct (life_cases r' q) as [(n & e & Hm)|El].
  - rewrite (life_mark r' q n e Hw' Hm). destruct (Hd q n e Hm) as [(e0 & Hm0 & He)|Hq].
    + rewrite (life_mark r q n e0 Hw Hm0). destruct e0, e; try constructor. by specialize (He eq_refl).
    + rewrite (life_unborn r q Hw Hq). destruct e; constructor.
  - rewrite El. destruct (next_seq r' <=? q)%N eqn:Eq; [|constructor].
    apply N.leb_le in Eq. rewrite (life_unborn r q Hw) by (by etransitivity). constructor.
Qed.
End Life.

(** ** Commands and the state of a run *)

Section Phases.
Context `{Validators, Rfc3339} (spec : WorkflowSpec).
Implicit Types (st : Store).

(** The state a section leaves. *)
Definition leaves_state {A} st (m : M A) (P : RunState.RunState -> Prop) : Prop :=
  P (run_state (stored (m st).1)).

Lemma state_quiet {A} st (m : M A) (P : RunState.RunState -> Prop) :
  keeps st m -> P (run_state (stored st)) -> leaves_state st m P.
Proof. unfold leaves_state. by intros ->. Qed.

Lemma state_bind {A B} st (m : M A) (k : A -> M B) (P : RunState.RunState -> Prop) :
  keeps st m -> P (run_state (stored st)) -> (forall a, (m st).2 = Ok a -> leaves_state st (k a) P) ->
  leaves_state st (bind m k) P.
Proof.
  unfold keeps, leaves_state, bind. destruct (m st) as [st' [a|e]]; cbn; intros -> HP Hk; [|done]. by apply Hk.
Qed.

Lemma state_persist {A} st t (k : Transition -> M A) (P : RunState.RunState -> Prop) :
  P (run_state (record t)) -> (forall t' st', keeps st' (k t')) -> leaves_state st (let* t := persist t in k t) P.
Proof.
  intros HP Hk. unfold leaves_state, bind, persist.
  set (t' := if decide _ then t else _). rewrite Hk. cbn. subst t'. by destruct (decide _).
Qed.

Lemma map_attempt_state t f t' : Agent.map_attempt t f = Ok t' -> run_state (record t') = run_state (record t).
Proof. unfold Agent.map_attempt. destruct (attempt (record t)); [|done]. by intros [= <-]. Qed.

Lemma stage_state t e o t' : stage_agent_end t e o = Ok t' -> run_state (record t') = run_state (record t).
Proof.
  unfold stage_agent_end. destruct (attempt (record t)); [|done]. cbn [expect].
  destruct (previous_attempt _ _); [|done]. by intros [= <-].
Qed.

Lemma turn_end_state t a action v reason t' : turn_end t a action v reason = Ok t' ->
  run_state (record t') = run_state (record t).
Proof. unfold turn_end. destruct (judged a); [|done]. by intros [= <-]. Qed.

Lemma close_wait_state t : run_state (record (close_wait t)) = run_state (record t).
Proof. destruct (close_wait_same t) as [Hc _]. by apply core_inv in Hc as (-> & _). Qed.

Lemma interrupt_state t reason t' : Until.interrupt t reason = Ok t' -> run_state (record t') = run_state (record t).
Proof.
  unfold Until.interrupt. destruct (held (record t)) as [h|]; [|done]. cbn [expect].
  destruct (turn_end _ _ _ _ _) as [t1|] eqn:Et; [|done]. apply turn_end_state in Et.
  unfold restore_session. destruct (held (record t1)); [|done]. intros [= <-]. cbn. rewrite Et.
  unfold abandon_check. by destruct (attempt (record t)).
Qed.

(** A settled cancel cancels the run. *)
Lemma finish_cancel_state t e code reason t' : ending_cause e = EndCause.Cancel -> ending_route e = None ->
  finish_script spec t e code reason = Ok (t', true) -> run_state (record t') = RunState.Canceled.
Proof.
  intros Hc Hr. unfold finish_script. destruct (negb _); [done|]. destruct (attempt (record t)) as [a|]; [|done].
  destruct (previous_attempt _ _) as [p|]; [|done]. unfold settle_step. rewrite Hc, Hr.
  match goal with |- context [expect (prev_attempt ?r)] => change (prev_attempt r) with (Some (p <| prev_code := code |>)) end.
  cbn [expect]. by intros [= <-].
Qed.

(** The end of a command on a live session keeps the state of the run. *)
Lemma state_command_end {A} st env t b (k : Transition -> M A) (P : RunState.RunState -> Prop) :
  P (run_state (stored st)) -> P (run_state (record t)) -> (forall t' st', keeps st' (k t')) ->
  leaves_state st (let* t := if b : bool then ret t else lift (Agent.set_host env t) in let* t := persist t in k t) P.
Proof.
  intros HP Ht Hk. apply state_bind; [by destruct b|done|]. intros t1 Ht1. apply state_persist; [|done].
  destruct b; cbn in Ht1; [by injection Ht1 as <-|]. by rewrite (map_attempt_state _ _ _ Ht1).
Qed.

Lemma state_if {A} st (b : bool) (m m' : M A) P : (b = true -> leaves_state st m P) ->
  (b = false -> leaves_state st m' P) -> leaves_state st (if b then m else m') P.
Proof. destruct b; auto. Qed.

Lemma interrupted_state st t reason t' :
  (((if is_some (held (record t)) then lift (Until.interrupt t reason) else ret t) : M Transition) st).2 = Ok t' ->
  run_state (record t') = run_state (record t).
Proof. destruct (is_some _); cbn; [apply interrupt_state|by intros [= <-]]. Qed.

Lemma cancel_state env reason st : leaves_state st (cancel spec env reason)
  (fun s => s = run_state (stored st)
            \/ (s = RunState.Canceled /\ RunState.is_terminal (run_state (stored st)) = false)).
Proof.
  unfold cancel. apply state_bind; [done|by left|]. intros t [= <-]. set (t := {| record := stored st |}).
  assert (Est : run_state (record t) = run_state (stored st)) by done. clearbody t.
  apply state_if; [intros _; apply state_quiet; [done|by left]|]. rewrite Est. intros Hterm.
  apply state_bind; [by destruct (is_some _)|by left|]. intros t1 Ht1%interrupted_state. cbv zeta.
  pose proof (close_wait_state t1) as Ec. rewrite Ht1, Est in Ec. set (t2 := close_wait t1) in *. clearbody t2.
  destruct (ofilter (attempt (record t2)) _) as [a|].
  - apply state_if; [intros _; apply state_quiet; [done|by left]|]. intros _.
    apply state_bind; [done|by left|]. intros observed _.
    apply state_bind; [by destruct (let! e := ending a else None in ending_route e)|by left|]. intros t3 Ht3.
    assert (E3 : run_state (record t3) = run_state (stored st)).
    { rewrite <- Ec. destruct (let! e := ending a else None in ending_route e); [exact (turn_end_state _ _ _ _ _ _ Ht3)|].
      by injection Ht3 as <-. }
    apply state_bind; [done|by left|]. intros t4 Ht4%stage_state.
    apply state_command_end; [by left|left; congruence|]. intros t' st'. done.
  - apply state_bind; [done|by left|]. intros [t3 settled_] Ht3. apply state_persist; [|done]. right. split; [|done].
    destruct settled_; [|done]. by eapply finish_cancel_state in Ht3.
Qed.

Lemma restart_state env resume_ st : leaves_state st (restart_run spec env resume_)
  (fun s => s = run_state (stored st)
            \/ (s = RunState.Active /\ RunState.is_terminal (run_state (stored st)) = false)).
Proof.
  unfold restart_run. apply state_bind; [done|by left|]. intros t [= <-]. set (t := {| record := stored st |}).
  assert (Est : run_state (record t) = run_state (stored st)) by done. clearbody t. cbv zeta.
  apply state_if; [intros _; apply state_quiet; [done|by left]|]. rewrite Est. intros Hterm.
  apply state_if; [intros _; apply state_quiet; [done|by left]|]. intros _.
  destruct (ofilter (lookup_key _ (steps spec)) Step.is_agent) as [s|]; [|apply state_quiet; [done|by left]].
  apply state_if; [intros _; apply state_quiet; [done|by left]|]. intros _.
  apply state_if; [intros _; apply state_quiet; [done|by left]|]. intros _.
  apply state_bind; [by destruct (is_some (held (record t)))|by left|]. intros t1 Ht1%interrupted_state.
  rewrite Est in Ht1.
  set (t2 := update t1 _). assert (E2 : run_state (record t2) = run_state (stored st)) by exact Ht1. clearbody t2.
  destruct (if is_some resume_ then _ else None) as [a|]; cbn [record].
  - set (t3 := update t2 _). assert (E3 : run_state (record t3) = RunState.Active) by done. clearbody t3.
    destruct (attempt (record t3)) as [a'|].
    + apply state_bind; [done|by left|]. intros observed _. apply state_bind; [done|by left|].
      intros t4 Ht4%stage_state. apply state_command_end; [by left| |done]. right. by rewrite Ht4.
    + apply state_persist; [|done]. by right.
  - destruct (attempt (record t2)) as [a'|].
    + apply state_bind; [done|by left|]. intros observed _. apply state_bind; [done|by left|].
      intros t4 Ht4%stage_state. apply state_command_end; [by left| |done]. left. by rewrite Ht4.
    + apply state_persist; [|done]. by right.
Qed.

Lemma extend_all_state r extend r' : extend_all r extend = Ok r' -> run_state r' = run_state r.
Proof. intros He. pose proof (extend_all_post r extend) as Hp. rewrite He in Hp. destruct Hp as [_ Hc]. by apply core_inv in Hc as (<- & _). Qed.

Lemma resume_state env at_ extend st : leaves_state st (resume spec env at_ extend)
  (fun s => s = run_state (stored st) \/ (s = RunState.Active /\ run_state (stored st) = RunState.Parked)).
Proof.
  unfold resume. apply state_bind; [done|by left|]. intros t [= <-]. set (t := {| record := stored st |}).
  assert (Est : run_state (record t) = run_state (stored st)) by done. clearbody t. cbv zeta.
  do 3 (apply state_if; [intros _; apply state_quiet; [done|by left]|]; intros _).
  apply state_bind; [done|by left|]. intros r Hr%extend_all_state. rewrite Est in Hr.
  apply state_persist; [|done]. rewrite <- Hr. destruct (decide (run_state r = RunState.Parked)); [by right|by left].
Qed.

Lemma wake_state env signal st : leaves_state st (wake spec env signal) (fun s => s = run_state (stored st)).
Proof.
  unfold wake. apply state_bind; [done..|]. intros t [= <-]. cbv zeta. apply state_if; [done|]. intros _.
  by apply state_persist.
Qed.

Lemma publish_child_state env p st : leaves_state st (publish_child spec env p) (fun s => s = run_state (stored st)).
Proof.
  unfold publish_child. destruct (pending p) as [|r| | | | | |]; try done.
  apply state_bind; [done..|]. intros a _. apply state_bind; [done..|]. intros t [= <-].
  set (t := {| record := stored st |}). assert (Est : run_state (record t) = run_state (stored st)) by done. clearbody t.
  apply state_if; [done|]. intros _. apply state_bind; [done..|]. intros t1 Ht1%map_attempt_state.
  unfold leaves_state. cbn. congruence.
Qed.

Lemma state_none {A} st (m : M A) P : leaves_state st m P -> leaves_state st (let* _ := m in ret (@None Process)) P.
Proof. unfold leaves_state, bind. by destruct (m st) as [st' [a|e]]. Qed.

Lemma command_phase env c ps st :
  phase_step (Issue c) (run_state (stored st)) (run_state (stored (run_command spec env c ps st).1)).
Proof.
  assert (Hsame : forall A (m : M A), leaves_state st m (fun s => s = run_state (stored st)) ->
    phase_step (Issue c) (run_state (stored st)) (run_state (stored (m st).1))).
  { unfold leaves_state. intros A m ->. constructor. }
  destruct c as [|reason|resume_|at_ extend|signal|old new|i]; cbn [run_command].
  - constructor.
  - assert (Hs : leaves_state st (let* (_, p) := cancel spec env reason in ret p)
      (fun s => s = run_state (stored st) \/ (s = RunState.Canceled /\ RunState.is_terminal (run_state (stored st)) = false))).
    { pose proof (cancel_state env reason st) as Hs. unfold leaves_state, bind in *.
      by destruct (cancel spec env reason st) as [st' [[b p]|e]]. }
    destruct Hs as [->|[-> Ht]]; by constructor.
  - destruct (restart_state env resume_ st) as [->|[-> Ht]]; by constructor.
  - destruct (state_none _ _ _ (resume_state env at_ extend st)) as [->|[-> ->]]; constructor.
  - apply Hsame, state_none, wake_state.
  - apply Hsame, state_none. unfold leaves_state, reassign_task. by destruct (started_by _ _).
  - destruct (ps !! i); [|constructor]. apply Hsame, state_none, publish_child_state.
Qed.

Lemma section_phase env p st :
  phase_step Section_ (run_state (stored st)) (run_state (stored (advance_body spec env p st).1)).
Proof.
  destruct (decide (run_state (stored st) = RunState.Active)) as [->|Hs]; [constructor|].
  rewrite (inactive_process spec env p st Hs). constructor.
Qed.
End Phases.

(** ** The refinement *)

(** C3: The engine refines the abstract machine: in every state a run of a
    validated definition reaches, each section of a process and each command
    changes the view of the run only as [view_step] allows -- a process moves an
    active run only, a cancel can only cancel, a restart or a resume only
    activate, and every attempt is born once, ends at most once and is gone for
    good. *)
Theorem run_refines_view `{Validators, Rfc3339} name spec0 sys :
  validate_spec name (Clean.apply spec0) = [] -> reachable (Clean.apply spec0) any_command sys ->
  (forall i p env, processes sys !! i = Some p ->
     view_step Section_ (view (store sys)) (view (advance_body (Clean.apply spec0) env p (store sys)).1))
  /\ (forall env c,
     view_step (Issue c) (view (store sys))
       (view (run_command (Clean.apply spec0) env c (processes sys) (store sys)).1)).
Proof.
  intros Hv Hr. pose proof (sealed_of_valid name spec0 Hv) as Hs.
  destruct (validated_ok name spec0 sys Hv Hr) as [Hw Hps]. pose proof (inv_self _ _ _ Hw) as Hi. split.
  - intros i p env Hp. split; [apply section_phase|]. intros q.
    pose proof (wp_advance _ _ _ env p _ Hi (Hps i p Hp)) as Ha. unfold wp in Ha.
    destruct (advance_body _ _ _ _) as [st' res]. destruct Ha as [[Hw' Hd] _]. by eapply descends_life.
  - intros env c. split; [apply command_phase|]. intros q.
    pose proof (run_command_keeps _ _ _ env c _ _ Hi (any_enters _ c I) Hps) as Ha.
    destruct (run_command _ _ _ _ _) as [st' res]. destruct Ha as [[Hw' Hd] _]. by eapply descends_life.
Qed.

(** C15: A run that has ended stays as it is: no section of any process and no
    command changes the record, the journal or the context of a done, failed or
    canceled run. *)
Theorem ended_run_is_final `{Validators, Rfc3339} spec allow sys sys' :
  RunState.is_terminal (run_state (stored (store sys))) = true -> system_step spec allow sys sys' ->
  store sys' = store sys.
Proof.
  intros Ht Hstep. assert (Hna : run_state (stored (store sys)) <> RunState.Active) by (intros Hs; by rewrite Hs in Ht).
  destruct Hstep as [sys i p env st' res Hp Hrun|sys c env st' res Hc Hrun]; cbn [store].
  - pose proof (inactive_process spec env p _ Hna) as Hk. unfold keeps in Hk. by rewrite Hrun in Hk.
  - assert (Hk : (run_command spec env c (processes sys) (store sys)).1 = store sys); [|by rewrite Hrun in Hk].
    clear Hrun. destruct c as [|reason|resume_|at_ extend|signal|old new|i]; cbn [run_command]; try done.
    + unfold cancel, bind, load. cbn [record]. by rewrite Ht.
    + unfold restart_run, bind, load. cbn [record]. by rewrite Ht.
    + unfold resume, bind, load. cbn [record]. by rewrite Ht.
    + unfold wake, bind, load. cbn [record]. by rewrite bool_decide_eq_false_2 by done.
    + unfold reassign_task, bind, started_by. by rewrite Ht.
    + destruct (processes sys !! i) as [p|]; [|done]. unfold publish_child. destruct (pending p) as [|r| | | | | |]; try done.
      unfold bind, lift. destruct (expect (attempt r)) as [a|]; [|done]. cbn [load]. by rewrite inactive_current.
Qed.

(** C18: When a cancel panics: exactly when the live attempt is ending with a route
    and no turn end was consumed for it, unless a cancel is already under way
    or the host of the session cannot be observed. *)
Theorem cancel_panics_iff `{Validators, Rfc3339} name spec0 sys env reason :
  validate_spec name (Clean.apply spec0) = [] -> reachable (Clean.apply spec0) any_command sys ->
  (cancel (Clean.apply spec0) env reason (store sys)).2 = Err Panicked <->
  exists a e v o, attempt (stored (store sys)) = Some a /\ ending a = Some e /\ ending_route e = Some v
    /\ judged a = None /\ observe_attempt env a = Ok o
    /\ (busy env a = true -> ending_cause e <> EndCause.Cancel).
Proof.
  intros Hv Hr. pose proof (sealed_of_valid name spec0 Hv) as Hs.
  destruct (validated_ok name spec0 sys Hv Hr) as [Hw _]. pose proof (inv_self _ _ _ Hw) as Hi. split.
  - intros Hp. destruct (consumed_cases (stored (store sys))) as [Hc|(a & e & v & Ha & He & Hrt & Hj)].
    + pose proof (wp_cancel _ _ _ env reason _ Hi Hc) as Hwp. unfold wp in Hwp.
      destruct (cancel _ _ _ _) as [st' res]. cbn in Hp. subst res. by destruct Hwp.
    + rewrite (cancel_unconsumed _ _ _ env reason _ a e v Hi Ha He Hrt Hj) in Hp.
      destruct (busy env a && bool_decide (ending_cause e = EndCause.Cancel)) eqn:Eb; [done|].
      destruct (observe_attempt env a) as [o|er] eqn:Eo; [|].
      * exists a, e, v, o. split_and!; [done..|]. intros Hb Hcc. by rewrite Hb, bool_decide_eq_true_2 in Eb.
      * cbn in Hp. pose proof (observe_attempt_post env a) as Hop. rewrite Eo in Hop. injection Hp as ->. done.
  - intros (a & e & v & o & Ha & He & Hrt & Hj & Ho & Hb).
    rewrite (cancel_unconsumed _ _ _ env reason _ a e v Hi Ha He Hrt Hj).
    replace (busy env a && bool_decide (ending_cause e = EndCause.Cancel)) with false; [by rewrite Ho|].
    symmetry. destruct (busy env a); [|done]. apply bool_decide_eq_false_2. by apply Hb.
Qed.
