(* ===== verification/RunSample.v ===== *)
(** * Sample runs

    An executable scheduler of [system_step], and concrete runs of a small
    definition: an agent step, the check behind it that sends it back, and a
    launch the throttle refuses.  They show that the hypotheses of the theorems
    about runs can hold, and evaluate the engine on concrete inputs. *)

From S2P Require Import Prelude.
From S2P Require Agents.
From S2P Require Import Workflow WorkflowFacts Run Transition Engine TransitionFacts EngineFacts SystemFacts RunSpec.
Import Validate.

(** ** Schedules *)

(** One turn of a schedule: a section of a process, or a command. *)
Inductive Turn_ := TurnOf (i : nat) (env : Env) | TurnBy (c : Command) (env : Env).

Section Schedule.
Context `{Validators, Rfc3339} (spec : WorkflowSpec).

Definition fire (sys : System) (x : Turn_) : System :=
  match x with
  | TurnOf i env =>
      match processes sys !! i with
      | Some p =>
          let '(st', res) := advance_body spec env p (store sys) in
          {| store := st';
             processes := match res with
                          | Ok p' => <[i := p']> (processes sys)
                          | Err _ => delete i (processes sys)
                          end |}
      | None => sys
      end
  | TurnBy c env =>
      let '(st', res) := run_command spec env c (processes sys) (store sys) in
      {| store := st'; processes := processes sys ++ match res with Ok (Some p) => [p] | _ => [] end |}
  end.

Definition born (env : Env) (task_ : option text) (manual_ : bool) (deadline_ : option Z) : System :=
  {| store := {| stored := initial_record spec env task_ manual_ deadline_; journal := []; context := None |};
     processes := [] |}.

Definition allowed (allow : Command -> Prop) (x : Turn_) : Prop :=
  match x with TurnOf _ _ => True | TurnBy c _ => allow c end.

Lemma fire_step allow sys x : allowed allow x -> rtc (system_step spec allow) sys (fire sys x).
Proof.
  intros Ha. destruct x as [i env|c env]; cbn [fire].
  - destruct (processes sys !! i) as [p|] eqn:Ep; [|done].
    destruct (advance_body spec env p (store sys)) as [st' res] eqn:Er. apply rtc_once. by eapply step_process.
  - destruct (run_command spec env c (processes sys) (store sys)) as [st' res] eqn:Er. apply rtc_once.
    by eapply step_command.
Qed.

Lemma schedule_steps allow l sys : Forall (allowed allow) l -> rtc (system_step spec allow) sys (fold_left fire l sys).
Proof.
  intros Hl. revert sys. induction Hl as [|x l Hx _ IH]; intros sys; cbn; [done|].
  etransitivity; [by apply fire_step|apply IH].
Qed.

Lemma rtc_reachable allow sys sys' : reachable spec allow sys -> rtc (system_step spec allow) sys sys' ->
  reachable spec allow sys'.
Proof. intros Hr Hs. induction Hs; [done|]. apply IHHs. by eapply reachable_step. Qed.

(** Every schedule is a run. *)
Lemma schedule_reachable allow l env task_ manual_ deadline_ : Forall (allowed allow) l ->
  reachable spec allow (fold_left fire l (born env task_ manual_ deadline_)).
Proof. intros Hl. eapply rtc_reachable; [constructor|by apply schedule_steps]. Qed.
End Schedule.

(** ** A definition and its host *)

Module RunExample.
Export WorkflowExample.

#[export] Instance no_times : Rfc3339 := {
  parse_timestamp := fun _ => None; show_timestamp := fun _ => []; parse_deadline := fun _ => None
}.

(** An agent step and the check that sends it back, at most three times. *)
Definition agent_work : Step := {|
  step_agent := Some (str "worker"); step_run := None; step_shell := None; step_lifecycle := None;
  step_prompt_file := Some (str "work.md"); capacity_wait := None; step_then := [str "gate"];
  step_on := {| asked := None; cap := None; capacity := None |};
  max_visits := Some 3%N; max_visits_per_outcome := None; step_timeout := None;
  keep := None; takeover := None; step_window := None; step_throttle := None; step_limit := None |}.
Definition crew : WorkflowSpec := land <| steps := [(str "work", agent_work)] |>.

Lemma crew_valid : validate_spec (str "crew") (Clean.apply crew) = [].
Proof. by vm_compute. Qed.

Definition here : Host := {| pid := 7; host_start := None |}.

(** What the host answers: the throttle, the session and the check. *)
Definition host_env (thr : result Throttle.Error Throttle.Attempt) (status_ : RunStatus.RunStatus)
    (answer : text) : Env := {|
  start_time := 1000%Z; observed_time := 1000%Z; admit_time := 1000%Z; launch_time := 1000%Z;
  process_is_live := fun _ _ => false; identity := here;
  observe := fun _ _ => Ok (Agent.empty_observation <| status := status_ |>);
  launch_groups := fun _ => Ok []; window_wait := fun _ _ => Ok None; occupancy := Ok Free;
  compose := Ok (str "prompt"); new_message := str "m"; throttle_answer := thr; evict_error := None;
  launched := Ok {| run_id := str "r"; handle := str "h" |};
  evaluation := {| object := Ok (json [("outcome"%string, JString answer)]); stderr_tail := None;
                   failure := Failure.Invalid; evaluation_limited := None |};
  command_result := Exited true (Some 0%Z); pushed := Ok true;
  stop_result := Ok {| stopped := []; live_children := [] |}; orphan := Ok None; spawned := here |}.

Definition free_env := host_env (Ok Throttle.Turn) RunStatus.Running (str "fail").
Definition ended_env := host_env (Ok Throttle.Turn) RunStatus.Completed (str "fail").
Definition pass_env := host_env (Ok Throttle.Turn) RunStatus.Completed (str "pass").
Definition full_env := host_env (Err (Throttle.Oversized (str "too large"))) RunStatus.Running (str "fail").

Definition begin_ := born (Clean.apply crew) free_env (Some (str "card")) false None.
Definition play (l : list Turn_) : System := fold_left (fire (Clean.apply crew)) l begin_.

(** Four sections: preparing, admitting, publishing and launching. *)
Definition launching := [TurnBy Advance free_env; TurnOf 0 free_env; TurnOf 0 free_env; TurnOf 0 free_env].
Definition refused := [TurnBy Advance full_env; TurnOf 0 full_env; TurnOf 0 full_env; TurnOf 0 full_env].
(** The session ends, its check answers: back to the step, or done. *)
Definition failing := launching ++ [TurnOf 0 ended_env; TurnOf 0 ended_env; TurnOf 0 ended_env; TurnOf 0 ended_env].
Definition passing := launching ++ [TurnOf 0 pass_env; TurnOf 0 pass_env; TurnOf 0 pass_env; TurnOf 0 pass_env].
(** *** The theorems about runs, at these runs *)

Lemma any_schedule l : Forall (allowed any_command) l.
Proof. apply Forall_true. by intros []. Qed.
Lemma play_reachable l : reachable (Clean.apply crew) any_command (play l).
Proof. apply schedule_reachable, any_schedule. Qed.
Lemma advances_in_place l : forallb (fun x => match x with TurnBy Advance _ | TurnOf _ _ => true | _ => false end) l = true ->
  Forall (allowed in_place) l.
Proof.
  intros Hl. apply Forall_forall. intros x Hx. apply list_elem_of_In in Hx.
  pose proof (proj1 (forallb_forall _ _) Hl x Hx) as Hb. by destruct x as [|[] ?].
Qed.

Lemma run_record_well_formed_witness :
  run_node (stored (store (play failing))) = str "work"
  /\ WellFormed (Clean.apply crew) (fun n => is_node (Clean.apply crew) n = true) (stored (store (play failing))).
Proof.
  split; [by vm_compute|]. exact (run_record_well_formed (str "crew") crew _ crew_valid (play_reachable failing)).
Defined.

Lemma engine_never_panics_witness :
  is_some (processes (play launching) !! 0) = true
  /\ (forall i p env, processes (play launching) !! i = Some p ->
       (advance_body (Clean.apply crew) env p (store (play launching))).2 <> Err Panicked)
  /\ (forall env c, (forall reason, c <> Cancel reason) ->
       (run_command (Clean.apply crew) env c (processes (play launching)) (store (play launching))).2
       <> Err Panicked).
Proof.
  split; [by vm_compute|]. exact (engine_never_panics (str "crew") crew _ crew_valid (play_reachable launching)).
Defined.

Definition one_visit : StepVisits := default {| total := 0; outcomes := [] |}
  (visits (stored (store (play failing))) !! str "work").

Lemma run_visits_bounded_witness :
  total one_visit = 1%N /\ (forall m, max_visits agent_work = Some m -> total one_visit <= saturating_add_u64 m 0)%N.
Proof.
  split; [by vm_compute|].
  refine (proj1 (run_visits_bounded (str "crew") crew (play failing) (str "work") agent_work one_visit
    crew_valid (play_reachable failing) _ _)); by vm_compute.
Defined.

Lemma run_follows_routes_witness : routed (Clean.apply crew) (run_node (stored (store (play failing)))).
Proof.
  refine (proj1 (run_follows_routes (str "crew") crew (play failing) crew_valid _)).
  apply schedule_reachable, advances_in_place. by vm_compute.
Defined.

Definition again := fire (Clean.apply crew) (play launching) (TurnOf 0 ended_env).

Lemma attempt_ends_once_witness : exists a a',
  attempt (stored (store (play launching))) = Some a /\ attempt (stored (store again)) = Some a'
  /\ attempt_node a' = attempt_node a /\ (ending a <> None -> ending a' <> None).
Proof.
  destruct (attempt (stored (store (play launching)))) as [a|] eqn:Ea; [|by vm_compute in Ea].
  destruct (attempt (stored (store again))) as [a'|] eqn:Ea'; [|by vm_compute in Ea'].
  exists a, a'. split; [done|]. split; [done|].
  refine (attempt_ends_once (str "crew") crew (play launching) again a a' crew_valid (play_reachable launching)
    (fire_step _ any_command (play launching) (TurnOf 0 ended_env) I) Ea Ea' _).
  enough (option_map seq (Some a') = option_map seq (Some a)) as [= ->] by done.
  rewrite <- Ea, <- Ea'. by vm_compute.
Defined.

Lemma run_refines_view_witness :
  is_some (processes (play failing) !! 0) = true
  /\ (forall i p env, processes (play failing) !! i = Some p ->
       view_step Section_ (view (store (play failing)))
         (view (advance_body (Clean.apply crew) env p (store (play failing))).1))
  /\ (forall env c, view_step (Issue c) (view (store (play failing)))
       (view (run_command (Clean.apply crew) env c (processes (play failing)) (store (play failing))).1)).
Proof.
  split; [by vm_compute|]. exact (run_refines_view (str "crew") crew _ crew_valid (play_reachable failing)).
Defined.

Definition ended_run : System := play passing.
Definition canceled_late := fire (Clean.apply crew) ended_run (TurnBy (Cancel None) free_env).

Lemma canceled_late_step : system_step (Clean.apply crew) any_command ended_run canceled_late.
Proof.
  unfold canceled_late. cbn [fire].
  destruct (run_command (Clean.apply crew) free_env (Cancel None) (processes ended_run) (store ended_run))
    as [st' res] eqn:Er.
  by apply step_command with (c := Cancel None) (env := free_env).
Qed.

Lemma ended_run_is_final_witness : store canceled_late = store ended_run.
Proof.
  exact (ended_run_is_final (Clean.apply crew) any_command ended_run canceled_late
    ltac:(by vm_compute) canceled_late_step).
Defined.

Lemma cancel_panics_iff_witness :
  (cancel (Clean.apply crew) full_env None (store (play refused))).2 = Err Panicked.
Proof.
  apply (cancel_panics_iff (str "crew") crew (play refused) full_env None crew_valid (play_reachable refused)).
  do 4 eexists. split_and!; by vm_compute.
Defined.
End RunExample.
